(** * Orchestration core of the clone platform: stores, pipeline, workers

    Shallow embedding of the TypeScript sources
    - [lib/jobStore.ts], [lib/cloneStore.ts] (in-memory record stores),
    - [lib/repositories/jobRepository.ts], [cloneRepository.ts] (table-backed stores),
    - [app/api/training/route.ts] (pipeline runner),
    - [lib/workerManager.ts] (worker manager),
    - [lib/integrationStore.ts] (integration store and its mutex),
    - the Telegram integration route (handler over the integration store),
    followed by the properties proved about them. *)

From Stdlib Require Import ZArith NArith Ascii String List Lia Bool.
From Stdlib Require Import DecimalString Eqdep.
From stdpp Require Import base list strings gmap.
Import ListNotations.

Local Open Scope Z_scope.

(** ** JavaScript values used across the modules *)

(** [String(n)] / template interpolation of an integral number. *)
Definition js_string_of_Z (z : Z) : string :=
  NilZero.string_of_int (Z.to_int z).

(** Truthiness of an optional string: [undefined], [null] and the empty
    string are falsy. *)
Definition truthy_str (o : option string) : bool :=
  match o with
  | Some s => negb (String.eqb s "")
  | None => false
  end.

(** [a || b] on optional strings. *)
Definition or_str (o : option string) (d : string) : string :=
  match o with
  | Some s => if String.eqb s "" then d else s
  | None => d
  end.

(** [x || undefined] on a nullable string column. *)
Definition or_undefined (o : option string) : option string :=
  if truthy_str o then o else None.

(** ** [Map<string, V>]: keyed store that iterates in insertion order *)

Module JsMap.

Definition t (V : Type) : Type := list (string * V).

Section Ops.
Context {V : Type}.

Definition empty : t V := [].

Fixpoint get (k : string) (m : t V) : option V :=
      match m with
      | [] => None
      | (k', v) :: m' => if String.eqb k k' then Some v else get k m'
      end.

Definition has (k : string) (m : t V) : bool :=
      match get k m with Some _ => true | None => false end.

(** [map.set(k, v)]: an existing key keeps its position, a new key
        goes last. *)
Fixpoint set (k : string) (v : V) (m : t V) : t V :=
      match m with
      | [] => [(k, v)]
      | (k', v') :: m' =>
          if String.eqb k k' then (k', v) :: m' else (k', v') :: set k v m'
      end.

Fixpoint delete (k : string) (m : t V) : t V :=
      match m with
      | [] => []
      | (k', v') :: m' =>
          if String.eqb k k' then delete k m' else (k', v') :: delete k m'
      end.

Definition keys (m : t V) : list string := List.map fst m.
Definition values (m : t V) : list V := List.map snd m.
Definition size (m : t V) : nat := List.length m.

(** Number of entries stored under [k]. *)
Definition count (k : string) (m : t V) : nat :=
      List.length (List.filter (String.eqb k) (keys m)).

(** [new Map(entries)] / a loop of [set] over [entries]. *)
Definition of_entries (es : list (string * V)) : t V :=
      List.fold_left (fun m e => set (fst e) (snd e) m) es empty.
End Ops.

End JsMap.

(** ** Plain objects used as dictionaries

    An object literal inherits from [Object.prototype]: reading [obj[k]]
    for one of the names below finds the inherited member when [obj] has
    no property of its own under [k], and assigning [obj["__proto__"]]
    replaces the prototype instead of creating a property. *)
Definition objectPrototypeKeys : list string :=
  [ "constructor"; "hasOwnProperty"; "isPrototypeOf"; "propertyIsEnumerable";
    "toLocaleString"; "toString"; "valueOf"; "__proto__"; "__defineGetter__";
    "__defineSetter__"; "__lookupGetter__"; "__lookupSetter__" ]%string.

(** [k in Object.prototype]. *)
Definition inherited (k : string) : bool :=
  List.existsb (String.eqb k) objectPrototypeKeys.

Module JsObject.

Definition digit (c : Ascii.ascii) : option N :=
  let n := Ascii.N_of_ascii c in
  if (N.leb 48 n && N.leb n 57)%bool then Some (n - 48)%N else None.

Fixpoint digits (s : string) (acc : N) : option N :=
  match s with
  | EmptyString => Some acc
  | String c s' =>
      match digit c with
      | Some d => digits s' (10 * acc + d)%N
      | None => None
      end
  end.

(** An array index: the canonical decimal form of an integer below
    2^32 - 1.  Own properties under such keys are enumerated first, in
    ascending order, the others after them in order of creation. *)
Definition arrayIndex (s : string) : option N :=
  match s with
  | EmptyString => None
  | String c s' =>
      if (Ascii.eqb c "0" && negb (String.eqb s' ""))%bool then None
      else
        match digits s 0 with
        | Some n => if N.ltb n 4294967295 then Some n else None
        | None => None
        end
  end.

Section Ops.
Context {V : Type}.

(** The own enumerable properties, in enumeration order. *)
Definition t : Type := list (string * V).

(** Where a property under a new key goes. *)
Fixpoint place (k : string) (v : V) (o : t) : t :=
  match o with
  | [] => [(k, v)]
  | (k', v') :: o' =>
      match arrayIndex k, arrayIndex k' with
      | Some n, Some n' =>
          if N.ltb n n' then (k, v) :: o else (k', v') :: place k v o'
      | Some _, None => (k, v) :: o
      | None, _ => (k', v') :: place k v o'
      end
  end.

(** [obj[k] = v] for an object value [v]. *)
Definition set (k : string) (v : V) (o : t) : t :=
  if String.eqb k "__proto__" then o
  else if JsMap.has k o then JsMap.set k v o
  else place k v o.

(** [const obj = {}; for (const [id, v] of map) obj[id] = v;] and then
    what [JSON.stringify(obj)] writes, as [Object.entries] of the parsed
    file gives it back. *)
Definition of_map (m : JsMap.t V) : t :=
  List.fold_left (fun obj e => set (fst e) (snd e) obj) m [].

End Ops.

End JsObject.

(** What a JSON store file can look like when the process starts. *)
Inductive DiskFile (A : Type) : Type :=
| NoFile                                   (* [existsSync] is false *)
| Unreadable                               (* read or [JSON.parse] throws *)
| Parsed (entries : list (string * A)).    (* [Object.entries(parsed)] *)
Arguments NoFile {A}.
Arguments Unreadable {A}.
Arguments Parsed {A} entries.

Record KnowledgeSource : Type := mkKnowledgeSource {
  source : string;
  chunks : Z;
  displayName : option string;
  size : option Z
}.

(** ** lib/jobStore.ts *)

Module JobStore.

Inductive JobStatus : Type := queued | running | succeeded | failed.

Definition JobStatus_eqb (a b : JobStatus) : bool :=
    match a, b with
    | queued, queued | running, running
    | succeeded, succeeded | failed, failed => true
    | _, _ => false
    end.

Record TrainingJob : Type := mkTrainingJob {
    id : string;
    modelId : string;
    datasetPath : string;
    systemPrompt : string;
    persona : option string;
    cloneId : option string;
    cloneName : option string;
    adapterDir : option string;
    processedDir : option string;
    knowledgeFile : option string;
    ragIndexDir : option string;
    knowledgeCount : option Z;
    knowledgeSources : option (list KnowledgeSource);
    createdAt : Z;
    updatedAt : Z;
    status : JobStatus;
    logs : list string;
    error : option string
  }.

Definition set_status (s : JobStatus) (j : TrainingJob) : TrainingJob :=
    mkTrainingJob (id j) (modelId j) (datasetPath j) (systemPrompt j) (persona j)
      (cloneId j) (cloneName j) (adapterDir j) (processedDir j) (knowledgeFile j)
      (ragIndexDir j) (knowledgeCount j) (knowledgeSources j) (createdAt j)
      (updatedAt j) s (logs j) (error j).

Definition set_logs (l : list string) (j : TrainingJob) : TrainingJob :=
    mkTrainingJob (id j) (modelId j) (datasetPath j) (systemPrompt j) (persona j)
      (cloneId j) (cloneName j) (adapterDir j) (processedDir j) (knowledgeFile j)
      (ragIndexDir j) (knowledgeCount j) (knowledgeSources j) (createdAt j)
      (updatedAt j) (status j) l (error j).

Definition set_error (e : option string) (j : TrainingJob) : TrainingJob :=
    mkTrainingJob (id j) (modelId j) (datasetPath j) (systemPrompt j) (persona j)
      (cloneId j) (cloneName j) (adapterDir j) (processedDir j) (knowledgeFile j)
      (ragIndexDir j) (knowledgeCount j) (knowledgeSources j) (createdAt j)
      (updatedAt j) (status j) (logs j) e.

Definition set_updatedAt (t : Z) (j : TrainingJob) : TrainingJob :=
    mkTrainingJob (id j) (modelId j) (datasetPath j) (systemPrompt j) (persona j)
      (cloneId j) (cloneName j) (adapterDir j) (processedDir j) (knowledgeFile j)
      (ragIndexDir j) (knowledgeCount j) (knowledgeSources j) (createdAt j)
      t (status j) (logs j) (error j).

Definition set_paths (ad pd kf ri : option string) (j : TrainingJob) : TrainingJob :=
    mkTrainingJob (id j) (modelId j) (datasetPath j) (systemPrompt j) (persona j)
      (cloneId j) (cloneName j) ad pd kf ri (knowledgeCount j) (knowledgeSources j)
      (createdAt j) (updatedAt j) (status j) (logs j) (error j).

Definition set_knowledge (kc : option Z) (ks : option (list KnowledgeSource))
      (j : TrainingJob) : TrainingJob :=
    mkTrainingJob (id j) (modelId j) (datasetPath j) (systemPrompt j) (persona j)
      (cloneId j) (cloneName j) (adapterDir j) (processedDir j) (knowledgeFile j)
      (ragIndexDir j) kc ks (createdAt j) (updatedAt j) (status j) (logs j) (error j).

(** The store: the module-level [jobs] map. *)
Definition Jobs : Type := JsMap.t TrainingJob.

Definition INTERRUPTED : string := "Training interrupted by server restart".

(** Body of the loading loop for one persisted job. *)
Definition sanitize (job : TrainingJob) : TrainingJob :=
    match status job with
    | running => set_error (Some INTERRUPTED) (set_status failed job)
    | _ => job
    end.

Definition loadJobsFromDisk (file : DiskFile TrainingJob) : Jobs :=
    match file with
    | NoFile => JsMap.empty
    | Unreadable => JsMap.empty
    | Parsed entries =>
        List.fold_left (fun map e => JsMap.set (fst e) (sanitize (snd e)) map)
          entries JsMap.empty
    end.

(** [saveJobsToDisk]: the whole map is copied into an object literal and
      written; the result is the file as the next start parses it. *)
Definition saveJobsToDisk (jobs : Jobs) : DiskFile TrainingJob :=
    Parsed (JsObject.of_map jobs).

Record CreateParams : Type := mkCreateParams {
    cp_modelId : string;
    cp_datasetPath : string;
    cp_systemPrompt : string;
    cp_persona : option string;
    cp_cloneId : option string;
    cp_cloneName : option string;
    cp_adapterDir : option string
  }.

(** [createJob]; [uuid] is the value of [randomUUID()], [now] of
      [Date.now()]. *)
Definition createJob (uuid : string) (now : Z) (params : CreateParams)
      (jobs : Jobs) : TrainingJob * Jobs :=
    let job :=
      mkTrainingJob uuid (cp_modelId params) (cp_datasetPath params)
        (cp_systemPrompt params) (cp_persona params) (cp_cloneId params)
        (cp_cloneName params) (cp_adapterDir params) None None None None None
        now now queued [] None in
    (job, JsMap.set uuid job jobs).

(** The [Partial<Pick<TrainingJob, ...>>] argument of [updateJob]. *)
Record JobPatch : Type := mkJobPatch {
    p_status : option JobStatus;
    p_logs : option (list string);
    p_error : option string;
    p_updatedAt : option Z;
    p_adapterDir : option string;
    p_processedDir : option string;
    p_knowledgeFile : option string;
    p_ragIndexDir : option string;
    p_knowledgeCount : option Z;
    p_knowledgeSources : option (list KnowledgeSource)
  }.

Definition no_patch : JobPatch :=
    mkJobPatch None None None None None None None None None None.

Definition or_else {A} (new old : option A) : option A :=
    match new with Some _ => new | None => old end.

Definition apply_patch (now : Z) (data : JobPatch) (job : TrainingJob) : TrainingJob :=
    mkTrainingJob (id job) (modelId job) (datasetPath job) (systemPrompt job)
      (persona job) (cloneId job) (cloneName job)
      (if truthy_str (p_adapterDir data) then p_adapterDir data else adapterDir job)
      (if truthy_str (p_processedDir data) then p_processedDir data else processedDir job)
      (or_else (p_knowledgeFile data) (knowledgeFile job))
      (or_else (p_ragIndexDir data) (ragIndexDir job))
      (or_else (p_knowledgeCount data) (knowledgeCount job))
      (or_else (p_knowledgeSources data) (knowledgeSources job))
      (createdAt job)
      (match p_updatedAt data with Some t => t | None => now end)
      (match p_status data with Some s => s | None => status job end)
      (match p_logs data with Some l => l | None => logs job end)
      (if truthy_str (p_error data) then p_error data else error job).

Definition updateJob (now : Z) (i : string) (data : JobPatch) (jobs : Jobs)
      : option TrainingJob * Jobs :=
    match JsMap.get i jobs with
    | None => (None, jobs)
    | Some job =>
        let job' := apply_patch now data job in
        (Some job', JsMap.set i job' jobs)
    end.

Definition getJob (i : string) (jobs : Jobs) : option TrainingJob :=
    JsMap.get i jobs.

Definition appendLog (now : Z) (i : string) (line : string) (jobs : Jobs) : Jobs :=
    match JsMap.get i jobs with
    | None => jobs
    | Some job =>
        JsMap.set i (set_updatedAt now (set_logs (logs job ++ [line]) job)) jobs
    end.

Definition listJobs (jobs : Jobs) : list TrainingJob := JsMap.values jobs.

End JobStore.

(** ** lib/cloneStore.ts *)

Module CloneStore.

Inductive CloneStatus : Type := training | ready | failed.

Record CloneRecord : Type := mkCloneRecord {
    id : string;
    name : string;
    modelId : string;
    jobId : string;
    status : CloneStatus;
    datasetCount : option Z;
    datasetId : option string;
    messengers : option (list string);
    apiKey : option string;
    isRunning : option bool;
    startedAt : option Z;
    createdAt : Z;
    updatedAt : Z;
    knowledgeCount : option Z;
    knowledgeSources : option (list KnowledgeSource);
    knowledgeFile : option string;
    ragIndexDir : option string
  }.

Definition set_isRunning (b : option bool) (c : CloneRecord) : CloneRecord :=
    mkCloneRecord (id c) (name c) (modelId c) (jobId c) (status c) (datasetCount c)
      (datasetId c) (messengers c) (apiKey c) b (startedAt c) (createdAt c)
      (updatedAt c) (knowledgeCount c) (knowledgeSources c) (knowledgeFile c)
      (ragIndexDir c).

Definition Clones : Type := JsMap.t CloneRecord.

(** The demo clone returned when no file exists yet. *)
Definition demoClone (now : Z) : CloneRecord :=
    mkCloneRecord "demo-clones" "CyberClone Alpha" "llama-3-8b-instruct" "job-888"
      ready (Some 12) (Some "demo-dataset")
      (Some ["telegram"; "whatsapp"; "discord"]%string)
      (Some "sk-live-demo-key-12345") (Some false) (Some now) now now (Some 2)
      (Some [ mkKnowledgeSource "demo/knowledge/about_product.md" 1 None None;
              mkKnowledgeSource "demo/knowledge/faq.md" 1 None None ])
      (Some "uploads/jobs/job-888/processed_dataset/knowledge.jsonl")
      (Some "uploads/jobs/job-888/rag_index").

Definition loadClonesFromDisk (now : Z) (file : DiskFile CloneRecord) : Clones :=
    match file with
    | NoFile => JsMap.of_entries [("demo-clones"%string, demoClone now)]
    | Unreadable => JsMap.empty
    | Parsed entries =>
        List.fold_left
          (fun map e => JsMap.set (fst e) (set_isRunning (Some false) (snd e)) map)
          entries JsMap.empty
    end.

(** [saveClonesToDisk], in the same way. *)
Definition saveClonesToDisk (clones : Clones) : DiskFile CloneRecord :=
    Parsed (JsObject.of_map clones).

Record CreateParams : Type := mkCreateParams {
    cp_name : string;
    cp_modelId : string;
    cp_jobId : string;
    cp_status : option CloneStatus;
    cp_datasetCount : option Z;
    cp_datasetId : option string;
    cp_startedAt : option Z;
    cp_knowledgeCount : option Z;
    cp_knowledgeSources : option (list KnowledgeSource);
    cp_knowledgeFile : option string;
    cp_ragIndexDir : option string
  }.

(** [createClone]; [uuid] and [key] are the two [randomUUID()] results
      (the second with its dashes removed). *)
Definition createClone (uuid key : string) (now : Z) (params : CreateParams)
      (clones : Clones) : CloneRecord * Clones :=
    let clone :=
      mkCloneRecord uuid (cp_name params) (cp_modelId params) (cp_jobId params)
        (match cp_status params with Some s => s | None => training end)
        (cp_datasetCount params) (cp_datasetId params) (Some []) (Some key)
        (Some false)
        (Some (match cp_startedAt params with Some t => t | None => now end))
        now now (cp_knowledgeCount params) (cp_knowledgeSources params)
        (cp_knowledgeFile params) (cp_ragIndexDir params) in
    (clone, JsMap.set uuid clone clones).

Record ClonePatch : Type := mkClonePatch {
    p_status : option CloneStatus;
    p_updatedAt : option Z;
    p_name : option string;
    p_isRunning : option bool;
    p_messengers : option (list string);
    p_datasetCount : option Z;
    p_datasetId : option string;
    p_knowledgeCount : option Z;
    p_knowledgeSources : option (list KnowledgeSource);
    p_knowledgeFile : option string;
    p_ragIndexDir : option string
  }.

Definition no_patch : ClonePatch :=
    mkClonePatch None None None None None None None None None None None.

Definition or_else {A} (new old : option A) : option A :=
    match new with Some _ => new | None => old end.

Definition apply_patch (now : Z) (data : ClonePatch) (clone : CloneRecord)
      : CloneRecord :=
    mkCloneRecord (id clone)
      (match p_name data with
       | Some n => if String.eqb n "" then name clone else n
       | None => name clone
       end)
      (modelId clone) (jobId clone)
      (match p_status data with Some s => s | None => status clone end)
      (or_else (p_datasetCount data) (datasetCount clone))
      (if truthy_str (p_datasetId data) then p_datasetId data else datasetId clone)
      (or_else (p_messengers data) (messengers clone))
      (apiKey clone)
      (or_else (p_isRunning data) (isRunning clone))
      (startedAt clone) (createdAt clone)
      (match p_updatedAt data with Some t => t | None => now end)
      (or_else (p_knowledgeCount data) (knowledgeCount clone))
      (or_else (p_knowledgeSources data) (knowledgeSources clone))
      (or_else (p_knowledgeFile data) (knowledgeFile clone))
      (or_else (p_ragIndexDir data) (ragIndexDir clone)).

Definition updateClone (now : Z) (i : string) (data : ClonePatch) (clones : Clones)
      : option CloneRecord * Clones :=
    match JsMap.get i clones with
    | None => (None, clones)
    | Some clone =>
        let clone' := apply_patch now data clone in
        (Some clone', JsMap.set i clone' clones)
    end.

Definition listClones (clones : Clones) : list CloneRecord := JsMap.values clones.

Definition getClone (i : string) (clones : Clones) : option CloneRecord :=
    JsMap.get i clones.

End CloneStore.

(** ** lib/integrationStore.ts: data and the read-modify-write bodies *)

Module IntegrationStore.

Inductive IntegrationPlatform : Type := telegram | whatsapp | google | slack.

Definition platform_eqb (a b : IntegrationPlatform) : bool :=
    match a, b with
    | telegram, telegram | whatsapp, whatsapp
    | google, google | slack, slack => true
    | _, _ => false
    end.

Record IntegrationConfig : Type := mkIntegrationConfig {
    platform : IntegrationPlatform;
    active : bool;
    token : option string;
    updatedAt : Z
  }.

Record CloneIntegrations : Type := mkCloneIntegrations {
    cloneId : string;
    integrations : list IntegrationConfig
  }.

(** The parsed content of [uploads/integrations.json]: the properties of
      the store object.  The bodies below describe the calls for a clone id
      that is no member name of [Object.prototype]; under such a name
      [store[cloneId]] is the inherited member, on which [upsertIntegration]
      throws, and an assignment to [__proto__] makes no property. *)
Abbreviation Store := (gmap string CloneIntegrations).

(** The file itself: [None] when it is missing or does not parse. *)
Definition File : Type := option Store.

Definition loadStore (f : File) : Store :=
    match f with Some s => s | None => ∅ end.

Definition saveStore (s : Store) : File := Some s.

(** The [data] argument of [upsertIntegration]. *)
Record Upsert : Type := mkUpsert {
    u_active : option bool;
    u_token : option string
  }.

(** Body of [getIntegrations] between acquire and release. *)
Definition get_body (cid : string) (store : Store) : list IntegrationConfig :=
    match store !! cid with
    | Some existing => integrations existing
    | None => []
    end.

(** [current.active = ...; current.token = ...; current.updatedAt = now]. *)
Definition touch (now : Z) (data : Upsert) (current : IntegrationConfig)
      : IntegrationConfig :=
    mkIntegrationConfig (platform current)
      (match u_active data with Some a => a | None => active current end)
      (match u_token data with Some t => Some t | None => token current end)
      now.

(** [find] returns the first match, which is then mutated in place; with
      no match a new entry is pushed. *)
Fixpoint upsert_list (now : Z) (p : IntegrationPlatform) (data : Upsert)
      (l : list IntegrationConfig) : list IntegrationConfig :=
    match l with
    | [] =>
        [ mkIntegrationConfig p
            (match u_active data with Some a => a | None => false end)
            (u_token data) now ]
    | i :: l' =>
        if platform_eqb (platform i) p then touch now data i :: l'
        else i :: upsert_list now p data l'
    end.

(** Body of [upsertIntegration] up to the call of [saveStore]: the store to
      be written and the list to be returned. *)
Definition upsert_body (now : Z) (cid : string) (p : IntegrationPlatform)
      (data : Upsert) (store : Store) : Store * list IntegrationConfig :=
    let record :=
      match store !! cid with
      | Some r => r
      | None => mkCloneIntegrations cid []
      end in
    let l := upsert_list now p data (integrations record) in
    (<[cid := mkCloneIntegrations (cloneId record) l]> store, l).

(** Body of [setIntegrations]; every entry is stamped with [Date.now()]. *)
Definition set_body (now : Z) (cid : string) (l : list IntegrationConfig)
      (store : Store) : Store * list IntegrationConfig :=
    let l' :=
      List.map (fun i => mkIntegrationConfig (platform i) (active i) (token i) now) l in
    (<[cid := mkCloneIntegrations cid l']> store, l').

End IntegrationStore.

(** ** lib/workerManager.ts *)

Module WorkerManager.

Inductive WorkerStatus : Type := starting | running | stopped | error.

Inductive Signal : Type := SIGTERM | SIGKILL.

(** The [ChildProcess] handle returned by [fork]. *)
Record ChildProcess : Type := mkChildProcess { child_pid : Z }.

Record WorkerRecord : Type := mkWorkerRecord {
  child : ChildProcess;
  status : WorkerStatus;
  lastHeartbeat : Z;
  pid : Z
}.

(** A [WorkerRecord] is a mutable object shared between the [workers] map and
    the closures of the child's event listeners, so records live in a heap
    and are named by their index. *)
Definition Ref : Type := nat.

(** Environment handed to the forked worker. *)
Record ForkEnv : Type := mkForkEnv {
  CLONE_ID : string;
  MODEL_ID : string;
  ADAPTER_DIR : string;
  RAG_INDEX_DIR : string;
  SYSTEM_PROMPT : string;
  INTEGRATIONS : list IntegrationStore.IntegrationConfig
}.

(** Process-level effects, in the order they are issued. *)
Inductive OsEvent : Type :=
| Kill (p : Z) (sig : Signal)       (* [process.kill(p, sig)] / [child.kill(sig)] *)
| Fork (env : ForkEnv) (p : Z).     (* [fork(scriptPath, [], {env})], child pid [p] *)

Record State : Type := mkState {
  workers : JsMap.t Ref;               (* [const workers = new Map()] *)
  records : list WorkerRecord;         (* heap of record objects *)
  listeners : list (string * Ref);     (* children with handlers attached *)
  pidFiles : gmap string Z;            (* [uploads/pids/worker-<id>.pid] *)
  alive : list Z;                      (* pids for which [kill(pid, 0)] succeeds *)
  killTimers : list Z;                 (* pending 3 s escalation timers *)
  monitoringInterval : bool;           (* [monitoringInterval !== null] *)
  clones : CloneStore.Clones;
  jobs : JobStore.Jobs;
  os : list OsEvent
}.

Definition HEARTBEAT_TIMEOUT_MS : Z := 20000.
Definition MONITOR_INTERVAL_MS : Z := 10000.
Definition KILL_GRACE_MS : Z := 3000.

Definition with_workers (w : JsMap.t Ref) (s : State) : State :=
  mkState w (records s) (listeners s) (pidFiles s) (alive s) (killTimers s)
    (monitoringInterval s) (clones s) (jobs s) (os s).

Definition with_records (r : list WorkerRecord) (s : State) : State :=
  mkState (workers s) r (listeners s) (pidFiles s) (alive s) (killTimers s)
    (monitoringInterval s) (clones s) (jobs s) (os s).

Definition with_listeners (l : list (string * Ref)) (s : State) : State :=
  mkState (workers s) (records s) l (pidFiles s) (alive s) (killTimers s)
    (monitoringInterval s) (clones s) (jobs s) (os s).

Definition with_pidFiles (f : gmap string Z) (s : State) : State :=
  mkState (workers s) (records s) (listeners s) f (alive s) (killTimers s)
    (monitoringInterval s) (clones s) (jobs s) (os s).

Definition with_alive (a : list Z) (s : State) : State :=
  mkState (workers s) (records s) (listeners s) (pidFiles s) a (killTimers s)
    (monitoringInterval s) (clones s) (jobs s) (os s).

Definition with_killTimers (t : list Z) (s : State) : State :=
  mkState (workers s) (records s) (listeners s) (pidFiles s) (alive s) t
    (monitoringInterval s) (clones s) (jobs s) (os s).

Definition with_monitoring (b : bool) (s : State) : State :=
  mkState (workers s) (records s) (listeners s) (pidFiles s) (alive s)
    (killTimers s) b (clones s) (jobs s) (os s).

Definition with_clones (c : CloneStore.Clones) (s : State) : State :=
  mkState (workers s) (records s) (listeners s) (pidFiles s) (alive s)
    (killTimers s) (monitoringInterval s) c (jobs s) (os s).

Definition emit (e : OsEvent) (s : State) : State :=
  mkState (workers s) (records s) (listeners s) (pidFiles s) (alive s)
    (killTimers s) (monitoringInterval s) (clones s) (jobs s) (os s ++ [e]).

(** [updateClone] of the clone store, result dropped as at every call site
    of this module. *)
Definition updateClone (now : Z) (cloneId : string) (data : CloneStore.ClonePatch)
    (s : State) : State :=
  with_clones (snd (CloneStore.updateClone now cloneId data (clones s))) s.

Definition savePidFile (cloneId : string) (p : Z) (s : State) : State :=
  with_pidFiles (<[cloneId := p]> (pidFiles s)) s.

Definition removePidFile (cloneId : string) (s : State) : State :=
  with_pidFiles (delete cloneId (pidFiles s)) s.

Definition readPidFile (cloneId : string) (s : State) : option Z :=
  pidFiles s !! cloneId.

Definition isProcessRunning (p : Z) (s : State) : bool :=
  existsb (Z.eqb p) (alive s).

(** [process.kill] throws for a dead process, and the [catch] only logs; a
    delivered SIGTERM arms the escalation timer. *)
Definition killProcess (p : Z) (s : State) : State :=
  if isProcessRunning p s
  then with_killTimers (killTimers s ++ [p]) (emit (Kill p SIGTERM) s)
  else s.

(** The timer callback of [killProcess], for the oldest pending timer. *)
Definition fireKillTimer (s : State) : State :=
  match killTimers s with
  | [] => s
  | p :: rest =>
      let s1 := with_killTimers rest s in
      if isProcessRunning p s1 then emit (Kill p SIGKILL) s1 else s1
  end.

Definition set_record_status (st : WorkerStatus) (r : WorkerRecord) : WorkerRecord :=
  mkWorkerRecord (child r) st (lastHeartbeat r) (pid r).

Definition set_record_heartbeat (t : Z) (r : WorkerRecord) : WorkerRecord :=
  mkWorkerRecord (child r) (status r) t (pid r).

(** In-place mutation of the record object behind a reference. *)
Definition mutate (r : Ref) (f : WorkerRecord -> WorkerRecord) (s : State) : State :=
  match records s !! r with
  | Some rec => with_records (<[r := f rec]> (records s)) s
  | None => s
  end.

Definition failedPatch : CloneStore.ClonePatch :=
  CloneStore.mkClonePatch (Some CloneStore.failed) None None (Some false)
    None None None None None None None.

Definition isRunningPatch (b : bool) : CloneStore.ClonePatch :=
  CloneStore.mkClonePatch None None None (Some b) None None None None None None None.

Definition startPatch : CloneStore.ClonePatch :=
  CloneStore.mkClonePatch (Some CloneStore.ready) None None (Some true)
    None None None None None None None.

(** One iteration of the monitor loop. *)
Definition monitorEntry (now : Z) (s : State) (e : string * Ref) : State :=
  let '(cloneId, r) := e in
  match records s !! r with
  | Some record =>
      match status record with
      | running =>
          if Z.ltb HEARTBEAT_TIMEOUT_MS (now - lastHeartbeat record)
          then updateClone now cloneId failedPatch
                 (mutate r (set_record_status error) s)
          else s
      | _ => s
      end
  | None => s
  end.

(** The [setInterval] callback installed by [startHeartbeatMonitoring];
    [now] is read once, before the loop. *)
Definition monitorTick (now : Z) (s : State) : State :=
  List.fold_left (monitorEntry now) (workers s) s.

Definition startHeartbeatMonitoring (s : State) : State :=
  if monitoringInterval s then s else with_monitoring true s.

Record WorkerInfo : Type := mkWorkerInfo {
  wi_status : WorkerStatus;
  wi_lastHeartbeat : Z;
  wi_pid : Z
}.

Definition getWorkerStatus (cloneId : string) (s : State) : option WorkerInfo :=
  match JsMap.get cloneId (workers s) with
  | Some r =>
      match records s !! r with
      | Some rec => Some (mkWorkerInfo (status rec) (lastHeartbeat rec) (pid rec))
      | None => None
      end
  | None => None
  end.

(** Messages a worker can send over the IPC channel, by [msg.type]. *)
Inductive Message : Type := heartbeat | ready | errorMsg | other.

(** [child.on("message", ...)] for the child started for [cloneId] with
    record [r]. *)
Definition onMessage (cloneId : string) (r : Ref) (msg : Message) (now : Z)
    (s : State) : State :=
  match msg with
  | heartbeat =>
      mutate r (set_record_heartbeat now) (mutate r (set_record_status running) s)
  | ready => mutate r (set_record_status running) s
  | errorMsg =>
      updateClone now cloneId failedPatch (mutate r (set_record_status error) s)
  | other => s
  end.

(** [child.on("exit", ...)]. *)
Definition onExit (cloneId : string) (now : Z) (s : State) : State :=
  updateClone now cloneId (isRunningPatch false)
    (removePidFile cloneId
       (with_workers (JsMap.delete cloneId (workers s)) s)).

(** [child.on("error", ...)]. *)
Definition onError (cloneId : string) (r : Ref) (now : Z) (s : State) : State :=
  updateClone now cloneId failedPatch (mutate r (set_record_status error) s).

Inductive StartResult : Type :=
| StartOk (p : Z)                 (* [{ ok: true, pid }] *)
| StartErr (msg : string).        (* [{ ok: false, error }] *)

(** [startCloneWorker] suspends at the wait after an orphan was signalled
    and at [getIntegrations]; the segments that run without interruption are
    given separately, then composed. *)

(** How the first segment ends. *)
Inductive Checked : Type :=
| AlreadyRunning       (* [return { ok: false, error: "Worker already running" }] *)
| OrphanSignalled      (* an orphan was signalled; one-second wait *)
| Clear.               (* straight on to [getClone] *)

(** The guard on [workers] and the orphan check. *)
Definition start_check (cloneId : string) (s : State) : Checked * State :=
  if JsMap.has cloneId (workers s) then (AlreadyRunning, s)
  else
    match readPidFile cloneId s with
    | Some existingPid =>
        if negb (Z.eqb existingPid 0) && isProcessRunning existingPid s
        then (OrphanSignalled, removePidFile cloneId (killProcess existingPid s))
        else (Clear, s)
    | None => (Clear, s)
    end.

(** From [getClone] to the call of [getIntegrations]: the clone's model id
    and the job object, if any, are what the last segment uses. *)
Definition start_lookup (cloneId : string) (s : State)
    : string + (string * option string) :=
  match CloneStore.getClone cloneId (clones s) with
  | None => inl "Clone not found"%string
  | Some clone =>
      inr (CloneStore.modelId clone,
           match JobStore.getJob (CloneStore.jobId clone) (jobs s) with
           | Some job => Some (JobStore.id job)
           | None => None
           end)
  end.

(** From [fork] to [return { ok: true, pid }]. *)
Definition start_spawn (cloneId modelId : string) (jobKey : option string)
    (integrations : list IntegrationStore.IntegrationConfig)
    (newPid now : Z) (s : State) : StartResult * State :=
  let job :=
    match jobKey with
    | Some k => JobStore.getJob k (jobs s)
    | None => None
    end in
  let field (f : JobStore.TrainingJob -> option string) : string :=
    match job with Some j => or_str (f j) "" | None => ""%string end in
  let env :=
    mkForkEnv cloneId modelId (field JobStore.adapterDir)
      (field JobStore.ragIndexDir) (field (fun j => Some (JobStore.systemPrompt j)))
      integrations in
  let s1 := with_alive (newPid :: alive s) (emit (Fork env newPid) s) in
  let s2 := savePidFile cloneId newPid s1 in
  let record := mkWorkerRecord (mkChildProcess newPid) starting now newPid in
  let r : Ref := List.length (records s2) in
  let s3 := with_records (records s2 ++ [record]) s2 in
  let s4 := with_workers (JsMap.set cloneId r (workers s3)) s3 in
  let s5 := updateClone now cloneId startPatch s4 in
  let s6 := startHeartbeatMonitoring s5 in
  let s7 := with_listeners (listeners s6 ++ [(cloneId, r)]) s6 in
  (StartOk newPid, s7).

(** A call that runs to completion with nothing else scheduled in between. *)
Definition startCloneWorker (cloneId : string)
    (integrations : list IntegrationStore.IntegrationConfig)
    (newPid now : Z) (s : State) : StartResult * State :=
  match start_check cloneId s with
  | (AlreadyRunning, s1) => (StartErr "Worker already running", s1)
  | (_, s1) =>
      match start_lookup cloneId s1 with
      | inl err => (StartErr err, s1)
      | inr (modelId, jobKey) =>
          start_spawn cloneId modelId jobKey integrations newPid now s1
      end
  end.

Inductive StopResult : Type :=
| StopOk (wasOrphaned : bool)
| StopErr (msg : string).

Definition stopCloneWorker (cloneId : string) (now : Z) (s : State)
    : StopResult * State :=
  match JsMap.get cloneId (workers s) with
  | None =>
      match readPidFile cloneId s with
      | Some p =>
          if negb (Z.eqb p 0) && isProcessRunning p s
          then (StopOk true,
                updateClone now cloneId (isRunningPatch false)
                  (removePidFile cloneId (killProcess p s)))
          else (StopErr "Worker not running", s)
      | None => (StopErr "Worker not running", s)
      end
  | Some r =>
      let s1 :=
        match records s !! r with
        | Some rec =>
            if isProcessRunning (child_pid (child rec)) s
            then emit (Kill (child_pid (child rec)) SIGTERM) s
            else s
        | None => s
        end in
      (StopOk false,
       updateClone now cloneId (isRunningPatch false)
         (removePidFile cloneId
            (with_workers (JsMap.delete cloneId (workers s1)) s1)))
  end.

(** The clone after the last segment of a start. *)
Definition started (now : Z) (c : CloneStore.CloneRecord) : CloneStore.CloneRecord :=
  CloneStore.mkCloneRecord (CloneStore.id c) (CloneStore.name c)
    (CloneStore.modelId c) (CloneStore.jobId c) CloneStore.ready
    (CloneStore.datasetCount c) (CloneStore.datasetId c) (CloneStore.messengers c)
    (CloneStore.apiKey c) (Some true) (CloneStore.startedAt c)
    (CloneStore.createdAt c) now (CloneStore.knowledgeCount c)
    (CloneStore.knowledgeSources c) (CloneStore.knowledgeFile c)
    (CloneStore.ragIndexDir c).

(** Operations other than a spawn leave the registry as it is or delete
    one key, keep the record heap's length, the set of clones and a running
    monitor. *)
Definition shrinks (s s' : State) : Prop :=
  (workers s' = workers s \/ exists k, workers s' = JsMap.delete k (workers s)) /\
  List.length (records s') = List.length (records s) /\
  (forall k, JsMap.has k (clones s') = JsMap.has k (clones s)) /\
  monitoringInterval s' = monitoringInterval s.

End WorkerManager.

(** ** lib/repositories: the [training_jobs] and [clones] tables

    A table is a finite map from primary key to row.  Every repository
    function is one round trip; a query that matches no row comes back with
    an error, which the functions turn into [null]. *)

Module Repo.

Record SupabaseJob : Type := mkSupabaseJob {
  id : string;
  user_id : string;
  model_id : string;
  dataset_path : string;
  system_prompt : string;
  persona : option string;
  clone_id : option string;
  clone_name : option string;
  adapter_dir : option string;
  processed_dir : option string;
  knowledge_file : option string;
  rag_index_dir : option string;
  knowledge_count : option Z;
  knowledge_sources : option (list KnowledgeSource);
  status : JobStore.JobStatus;
  logs : list string;
  error : option string;
  created_at : Z;
  updated_at : Z
}.

Record SupabaseClone : Type := mkSupabaseClone {
  c_id : string;
  c_user_id : string;
  c_name : string;
  c_model_id : string;
  c_job_id : option string;
  c_status : CloneStore.CloneStatus;
  c_dataset_count : Z;
  c_dataset_id : option string;
  c_messengers : option (list string);
  c_api_key : option string;
  c_is_running : bool;
  c_started_at : option Z;
  c_created_at : Z;
  c_updated_at : Z;
  c_knowledge_count : option Z;
  c_knowledge_sources : option (list KnowledgeSource);
  c_knowledge_file : option string;
  c_rag_index_dir : option string
}.

Record Tables : Type := mkTables {
  training_jobs : gmap string SupabaseJob;
  clones : gmap string SupabaseClone
}.

Definition mapToJobRecord (row : SupabaseJob) : JobStore.TrainingJob :=
  JobStore.mkTrainingJob (id row) (model_id row) (dataset_path row)
    (system_prompt row) (or_undefined (persona row)) (or_undefined (clone_id row))
    (or_undefined (clone_name row)) (or_undefined (adapter_dir row))
    (or_undefined (processed_dir row)) (or_undefined (knowledge_file row))
    (or_undefined (rag_index_dir row)) (knowledge_count row)
    (knowledge_sources row) (created_at row) (updated_at row) (status row)
    (logs row) (or_undefined (error row)).

(** [jobId: row.job_id || ""]; [startedAt: row.started_at || undefined]. *)
Definition mapToCloneRecord (row : SupabaseClone) : CloneStore.CloneRecord :=
  CloneStore.mkCloneRecord (c_id row) (c_name row) (c_model_id row)
    (or_str (c_job_id row) "") (c_status row) (Some (c_dataset_count row))
    (or_undefined (c_dataset_id row))
    (Some (match c_messengers row with Some l => l | None => [] end))
    (or_undefined (c_api_key row)) (Some (c_is_running row))
    (match c_started_at row with
     | Some t => if Z.eqb t 0 then None else Some t
     | None => None
     end)
    (c_created_at row) (c_updated_at row) (c_knowledge_count row)
    (c_knowledge_sources row) (or_undefined (c_knowledge_file row))
    (or_undefined (c_rag_index_dir row)).

Definition getJob (i : string) (t : Tables) : option JobStore.TrainingJob :=
  mapToJobRecord <$> training_jobs t !! i.

Definition getClone (i : string) (t : Tables) : option CloneStore.CloneRecord :=
  mapToCloneRecord <$> clones t !! i.

(** [.order("created_at", { ascending: false })]: the rows by creation
    stamp, latest first; which of two rows with one stamp comes first is
    the table's choice. *)
Section Order.
Context {A : Type} (stamp : A -> Z).

Fixpoint insert_desc (x : A) (l : list A) : list A :=
  match l with
  | [] => [x]
  | y :: l' => if Z.ltb (stamp y) (stamp x) then x :: l else y :: insert_desc x l'
  end.

Definition order_desc (l : list A) : list A := List.fold_right insert_desc [] l.

End Order.

Definition listJobs (t : Tables) : list JobStore.TrainingJob :=
  List.map mapToJobRecord
    (order_desc created_at (List.map snd (map_to_list (training_jobs t)))).

Definition listClones (t : Tables) : list CloneStore.CloneRecord :=
  List.map mapToCloneRecord
    (order_desc c_created_at (List.map snd (map_to_list (clones t)))).

Definition with_jobs (j : gmap string SupabaseJob) (t : Tables) : Tables :=
  mkTables j (clones t).

Definition with_clones (c : gmap string SupabaseClone) (t : Tables) : Tables :=
  mkTables (training_jobs t) c.

(** [x || null] on an optional parameter. *)
Definition or_null (o : option string) : option string := or_undefined o.

(** [createJobRepo] after the authentication check; [uuid] is the key the
    table assigns.  An insert that hits an existing key is an error. *)
Definition createJobRepo (user : string) (uuid : string) (now : Z)
    (params : JobStore.CreateParams) (t : Tables)
    : option JobStore.TrainingJob * Tables :=
  match training_jobs t !! uuid with
  | Some _ => (None, t)
  | None =>
      let row :=
        mkSupabaseJob uuid user (JobStore.cp_modelId params)
          (JobStore.cp_datasetPath params) (JobStore.cp_systemPrompt params)
          (or_null (JobStore.cp_persona params)) (or_null (JobStore.cp_cloneId params))
          (or_null (JobStore.cp_cloneName params))
          (or_null (JobStore.cp_adapterDir params)) None None None None None
          JobStore.queued [] None now now in
      (Some (mapToJobRecord row), with_jobs (<[uuid := row]> (training_jobs t)) t)
  end.

(** The [updates: Partial<TrainingJob>] argument of [updateJobRepo], with
    the fields its callers pass. *)
Record JobUpdates : Type := mkJobUpdates {
  u_status : option JobStore.JobStatus;
  u_logs : option (list string);
  u_error : option string;
  u_adapterDir : option string;
  u_processedDir : option string;
  u_knowledgeFile : option string;
  u_ragIndexDir : option string;
  u_knowledgeCount : option Z;
  u_knowledgeSources : option (list KnowledgeSource);
  u_cloneId : option string;
  u_cloneName : option string
}.

Definition no_updates : JobUpdates :=
  mkJobUpdates None None None None None None None None None None None.

Definition pick (new old : option string) : option string :=
  if truthy_str new then new else old.

(** The row after [.update(mappedUpdates)]: only the columns copied into
    [mappedUpdates] change. *)
Definition apply_updates (now : Z) (u : JobUpdates) (row : SupabaseJob) : SupabaseJob :=
  mkSupabaseJob (id row) (user_id row) (model_id row) (dataset_path row)
    (system_prompt row) (persona row) (clone_id row) (clone_name row)
    (pick (u_adapterDir u) (adapter_dir row))
    (pick (u_processedDir u) (processed_dir row))
    (pick (u_knowledgeFile u) (knowledge_file row))
    (pick (u_ragIndexDir u) (rag_index_dir row))
    (match u_knowledgeCount u with Some n => Some n | None => knowledge_count row end)
    (match u_knowledgeSources u with Some l => Some l | None => knowledge_sources row end)
    (match u_status u with Some s => s | None => status row end)
    (match u_logs u with Some l => l | None => logs row end)
    (pick (u_error u) (error row))
    (created_at row) now.

Definition updateJobRepo (now : Z) (i : string) (u : JobUpdates) (t : Tables)
    : option JobStore.TrainingJob * Tables :=
  match training_jobs t !! i with
  | None => (None, t)
  | Some row =>
      let row' := apply_updates now u row in
      (Some (mapToJobRecord row'), with_jobs (<[i := row']> (training_jobs t)) t)
  end.

(** The two round trips of [appendLogRepo]. *)
Definition selectLogs (i : string) (t : Tables) : option (list string) :=
  logs <$> training_jobs t !! i.

Definition set_logs (now : Z) (l : list string) (row : SupabaseJob) : SupabaseJob :=
  mkSupabaseJob (id row) (user_id row) (model_id row) (dataset_path row)
    (system_prompt row) (persona row) (clone_id row) (clone_name row)
    (adapter_dir row) (processed_dir row) (knowledge_file row) (rag_index_dir row)
    (knowledge_count row) (knowledge_sources row) (status row) l (error row)
    (created_at row) now.

Definition updateLogs (now : Z) (i : string) (newLogs : list string) (t : Tables)
    : Tables :=
  match training_jobs t !! i with
  | None => t
  | Some row => with_jobs (<[i := set_logs now newLogs row]> (training_jobs t)) t
  end.

(** [createCloneRepo] after the authentication check. *)
Definition createCloneRepo (user : string) (uuid key : string) (now : Z)
    (params : CloneStore.CreateParams) (t : Tables)
    : option CloneStore.CloneRecord * Tables :=
  match clones t !! uuid with
  | Some _ => (None, t)
  | None =>
      let row :=
        mkSupabaseClone uuid user (CloneStore.cp_name params)
          (CloneStore.cp_modelId params) (Some (CloneStore.cp_jobId params))
          (match CloneStore.cp_status params with
           | Some s => s
           | None => CloneStore.training
           end)
          (match CloneStore.cp_datasetCount params with Some n => n | None => 0 end)
          (or_null (CloneStore.cp_datasetId params)) None (Some key) false
          (Some (match CloneStore.cp_startedAt params with
                 | Some s => if Z.eqb s 0 then now else s
                 | None => now
                 end))
          now now None None None None in
      (Some (mapToCloneRecord row), with_clones (<[uuid := row]> (clones t)) t)
  end.

Definition apply_clone_updates (now : Z) (u : CloneStore.ClonePatch)
    (row : SupabaseClone) : SupabaseClone :=
  mkSupabaseClone (c_id row) (c_user_id row)
    (match CloneStore.p_name u with
     | Some n => if String.eqb n "" then c_name row else n
     | None => c_name row
     end)
    (c_model_id row) (c_job_id row)
    (match CloneStore.p_status u with Some s => s | None => c_status row end)
    (match CloneStore.p_datasetCount u with Some n => n | None => c_dataset_count row end)
    (pick (CloneStore.p_datasetId u) (c_dataset_id row))
    (match CloneStore.p_messengers u with Some l => Some l | None => c_messengers row end)
    (c_api_key row)
    (match CloneStore.p_isRunning u with Some b => b | None => c_is_running row end)
    (c_started_at row) (c_created_at row) now
    (match CloneStore.p_knowledgeCount u with
     | Some n => Some n
     | None => c_knowledge_count row
     end)
    (match CloneStore.p_knowledgeSources u with
     | Some l => Some l
     | None => c_knowledge_sources row
     end)
    (pick (CloneStore.p_knowledgeFile u) (c_knowledge_file row))
    (pick (CloneStore.p_ragIndexDir u) (c_rag_index_dir row)).

Definition updateCloneRepo (now : Z) (i : string) (u : CloneStore.ClonePatch)
    (t : Tables) : option CloneStore.CloneRecord * Tables :=
  match clones t !! i with
  | None => (None, t)
  | Some row =>
      let row' := apply_clone_updates now u row in
      (Some (mapToCloneRecord row'), with_clones (<[i := row']> (clones t)) t)
  end.

End Repo.

(** ** Asynchronous programs

    An [async] function is a tree of awaited operations: each node is one
    operation that suspends the caller, with the continuation run on its
    result; a rejected promise is an exception carrying the error message. *)

Module Async.

(** What an external process does after [spawn]: its output, and its
    [close] event, if that ever comes. *)
Record ProcResult : Type := mkProcResult {
  pr_output : list string;     (* [data] chunks of stdout and stderr, in arrival order *)
  pr_code : option Z;          (* exit code; [None] is [null], killed by a signal *)
  pr_elapsed : Z;              (* wall-clock duration in ms *)
  pr_closes : bool             (* [false]: no [close] event, the process could not
                                  be started or never ends *)
}.

(** One line of a knowledge file, as seen by the statistics loop. *)
Inductive KLine : Type :=
| BadLine                              (* the loop body throws *)
| GoodLine (src : option string).      (* [parsed?.source] *)

(** What a route handler answers. *)
Inductive Response : Type :=
| ErrorResponse (httpStatus : Z) (message : string)
| QueuedResponse (jobId cloneId : string) (simulated : bool).

Inductive Event : Type -> Type :=
| EGetUser : Event (option string)
| EInsertJob (user : string) (params : JobStore.CreateParams)
    : Event (option JobStore.TrainingJob)
| EInsertClone (user : string) (params : CloneStore.CreateParams)
    : Event (option CloneStore.CloneRecord)
| EUpdateJob (i : string) (u : Repo.JobUpdates) : Event (option JobStore.TrainingJob)
| EGetJob (i : string) : Event (option JobStore.TrainingJob)
| ESelectLogs (i : string) : Event (option (list string))
| EUpdateLogs (i : string) (l : list string) : Event unit
| EUpdateClone (i : string) (u : CloneStore.ClonePatch)
    : Event (option CloneStore.CloneRecord)
| ESpawn (label command : string) (args : list string) : Event ProcResult
| EReadLines (path : string) : Event (string + list KLine)
| EStat (path : string) : Event (option Z)
| EExists (path : string) : Event bool
| EReaddir (path : string) : Event (list string)
| EMkdir (path : string) : Event unit
| ETimeout (ms : Z) : Event unit
| ERespond (r : Response) : Event unit.

Inductive Prog (A : Type) : Type :=
| Ret (a : A)
| Throw (message : string)
| Vis {X : Type} (ev : Event X) (k : X -> Prog A).
Arguments Ret {A} a.
Arguments Throw {A} message.
Arguments Vis {A X} ev k.

Fixpoint bind {A B : Type} (p : Prog A) (f : A -> Prog B) : Prog B :=
  match p with
  | Ret a => f a
  | Throw m => Throw m
  | Vis ev k => Vis ev (fun x => bind (k x) f)
  end.

(** [try { p } catch (err) { h(err.message) }]. *)
Fixpoint try_catch {A : Type} (p : Prog A) (h : string -> Prog A) : Prog A :=
  match p with
  | Ret a => Ret a
  | Throw m => h m
  | Vis ev k => Vis ev (fun x => try_catch (k x) h)
  end.

Definition call {X : Type} (ev : Event X) : Prog X := Vis ev Ret.

Declare Scope prog_scope.
Delimit Scope prog_scope with prog.
Notation "'await' x ':=' p 'in' q" := (bind p (fun x => q))
  (at level 10, x name, p at level 100, q at level 200) : prog_scope.
Notation "'await!' p 'in' q" := (bind p (fun _ => q))
  (at level 10, p at level 100, q at level 200) : prog_scope.

(** What the world outside the orchestrator answers. *)
Record Oracle : Type := mkOracle {
  o_user : option string;                         (* the authenticated user *)
  o_uuid : nat -> string;                         (* generated identifiers *)
  o_proc : string -> list string -> ProcResult;   (* by label and arguments *)
  o_lines : string -> string + list KLine;
  o_stat : string -> option Z;
  o_exists : string -> bool;
  o_readdir : string -> list string
}.

Inductive Spawned : Type :=
| spawned (label command : string) (args : list string).

Record World : Type := mkWorld {
  db : Repo.Tables;
  clock : Z;                       (* [Date.now()] *)
  seq : nat;                       (* rows inserted so far *)
  procs : list Spawned;            (* processes started, oldest first *)
  sent : list Response             (* responses returned to callers *)
}.

Definition with_db (t : Repo.Tables) (w : World) : World :=
  mkWorld t (clock w) (seq w) (procs w) (sent w).

(** Effect and answer of one operation. *)
Definition handle (o : Oracle) {X : Type} (ev : Event X) (w : World) : X * World :=
  match ev in Event X return X * World with
  | EGetUser => (o_user o, w)
  | EInsertJob user params =>
      let '(r, t) :=
        Repo.createJobRepo user (o_uuid o (seq w)) (clock w) params (db w) in
      (r, mkWorld t (clock w) (S (seq w)) (procs w) (sent w))
  | EInsertClone user params =>
      let '(r, t) :=
        Repo.createCloneRepo user (o_uuid o (seq w)) (o_uuid o (S (seq w)))
          (clock w) params (db w) in
      (r, mkWorld t (clock w) (S (S (seq w))) (procs w) (sent w))
  | EUpdateJob i u =>
      let '(r, t) := Repo.updateJobRepo (clock w) i u (db w) in (r, with_db t w)
  | EGetJob i => (Repo.getJob i (db w), w)
  | ESelectLogs i => (Repo.selectLogs i (db w), w)
  | EUpdateLogs i l => (tt, with_db (Repo.updateLogs (clock w) i l (db w)) w)
  | EUpdateClone i u =>
      let '(r, t) := Repo.updateCloneRepo (clock w) i u (db w) in (r, with_db t w)
  | ESpawn label command args =>
      let r := o_proc o label args in
      (r, mkWorld (db w) (clock w + pr_elapsed r) (seq w)
            (procs w ++ [spawned label command args]) (sent w))
  | EReadLines path => (o_lines o path, w)
  | EStat path => (o_stat o path, w)
  | EExists path => (o_exists o path, w)
  | EReaddir path => (o_readdir o path, w)
  | EMkdir _ => (tt, w)
  | ETimeout ms => (tt, mkWorld (db w) (clock w + ms) (seq w) (procs w) (sent w))
  | ERespond r => (tt, mkWorld (db w) (clock w) (seq w) (procs w) (sent w ++ [r]))
  end.

(** Whether the promise of an operation settles.  The promise made around
    a process settles in the listener of [close] alone: there is no [error]
    listener and no timeout. *)
Definition settles {X : Type} (ev : Event X) : X -> bool :=
  match ev in Event X return X -> bool with
  | ESpawn _ _ _ => fun r => pr_closes r
  | _ => fun _ => true
  end.

(** How a program ended, if it did. *)
Inductive Outcome (A : Type) : Type :=
| Returned (a : A)
| Rejected (message : string)
| Unsettled.                     (* still waiting for a promise that never settles *)
Arguments Returned {A} a.
Arguments Rejected {A} message.
Arguments Unsettled {A}.

(** A program run on its own, from its start to its end or to the
    operation it waits for in vain; in that case the world returned is the
    world at the moment the wait begins. *)
Fixpoint run (o : Oracle) {A : Type} (p : Prog A) (w : World) : Outcome A * World :=
  match p with
  | Ret a => (Returned a, w)
  | Throw m => (Rejected m, w)
  | Vis ev k =>
      let '(x, w') := handle o ev w in
      if settles ev x then run o (k x) w' else (Unsettled, w')
  end.

End Async.

(** ** app/api/training/route.ts *)

Module Training.
Import Async.
Local Open Scope prog_scope.

Record TrainPayload : Type := mkTrainPayload {
  modelId : string;
  datasetId : string;
  systemPrompt : string;
  persona : option string;
  cloneName : option string
}.

(** [createJobRepo] and [createCloneRepo] as awaited calls: the user is
    fetched again and a missing user is an exception. *)
Definition createJobRepo (params : JobStore.CreateParams)
    : Prog (option JobStore.TrainingJob) :=
  await user := call EGetUser in
  match user with
  | None => Throw "Unauthorized"
  | Some u => call (EInsertJob u params)
  end.

Definition createCloneRepo (params : CloneStore.CreateParams)
    : Prog (option CloneStore.CloneRecord) :=
  await user := call EGetUser in
  match user with
  | None => Throw "Unauthorized"
  | Some u => call (EInsertClone u params)
  end.

Definition updateJobRepo (i : string) (u : Repo.JobUpdates)
    : Prog (option JobStore.TrainingJob) := call (EUpdateJob i u).

Definition updateCloneRepo (i : string) (u : CloneStore.ClonePatch)
    : Prog (option CloneStore.CloneRecord) := call (EUpdateClone i u).

Definition getJob (i : string) : Prog (option JobStore.TrainingJob) :=
  call (EGetJob i).

(** [appendLogRepo]: read the log column, write it back one line longer. *)
Definition appendLogRepo (i : string) (line : string) : Prog unit :=
  await job := call (ESelectLogs i) in
  match job with
  | None => Ret tt
  | Some l => call (EUpdateLogs i (l ++ [line]))
  end.

(** The [data] listeners of a process: one [appendLogRepo] per chunk. *)
Fixpoint appendChunks (jobId : string) (chunks : list string) : Prog unit :=
  match chunks with
  | [] => Ret tt
  | c :: rest => await! appendLogRepo jobId c in appendChunks jobId rest
  end.

(** Interpolation of the [code] of a [close] event. *)
Definition show_code (code : option Z) : string :=
  match code with
  | Some n => js_string_of_Z n
  | None => "null"
  end.

Definition exit_message (label : string) (code : option Z) : string :=
  label +:+ " exited with code " +:+ show_code code.

(** [runLoggedProcess].  The [data] listeners call [appendLogRepo] and drop
    its promise; here these appends run one after the other, in arrival
    order, before the [close] listener.  The log column of a job whose
    processes wrote output is described for that schedule only. *)
Definition runLoggedProcess (jobId label command : string) (args : list string)
    : Prog unit :=
  await r := call (ESpawn label command args) in
  await! appendChunks jobId (pr_output r) in
  match pr_code r with
  | Some 0 => Ret tt
  | code => Throw (exit_message label code)
  end.

(** [args.filter(Boolean)]. *)
Definition filterBoolean (args : list string) : list string :=
  List.filter (fun a => negb (String.eqb a "")) args.

(** [err?.message || String(err)] for an [Error] with the given message. *)
Definition error_text (message : string) : string :=
  if String.eqb message "" then "Error"%string else message.

Definition LABEL_DATASET : string := "dataset_pipeline".
Definition LABEL_RAG : string := "rag_index".
Definition LABEL_TRAIN : string := "train_qlora".

Definition statusUpdate (s : JobStore.JobStatus) : Repo.JobUpdates :=
  Repo.mkJobUpdates (Some s) None None None None None None None None None None.

Definition failedUpdate (message : string) : Repo.JobUpdates :=
  Repo.mkJobUpdates (Some JobStore.failed) None (Some message)
    None None None None None None None None.

Definition cloneStatusUpdate (s : CloneStore.CloneStatus) : CloneStore.ClonePatch :=
  CloneStore.mkClonePatch (Some s) None None None None None None None None None None.

(** [if (job?.cloneId) await updateCloneRepo(job.cloneId, u)]. *)
Definition updateLinkedClone (job : option JobStore.TrainingJob)
    (u : CloneStore.ClonePatch) : Prog unit :=
  match job with
  | Some j =>
      match JobStore.cloneId j with
      | Some c =>
          if truthy_str (Some c)
          then await! updateCloneRepo c u in Ret tt
          else Ret tt
      | None => Ret tt
      end
  | None => Ret tt
  end.

(** [simulateJob] up to its return: the timer is set and the call is over. *)
Definition simulateJob (jobId : string) : Prog unit :=
  await! updateJobRepo jobId (statusUpdate JobStore.running) in
  appendLogRepo jobId "Simulated training started.".

(** The callback [simulateJob] hands to [setTimeout]. *)
Definition simulateJobTimer (jobId : string) : Prog unit :=
  await! appendLogRepo jobId "Simulated training finished." in
  await! updateJobRepo jobId (statusUpdate JobStore.succeeded) in
  await job := getJob jobId in
  updateLinkedClone job (cloneStatusUpdate CloneStore.ready).

(** A simulated job from the call to the end of the callback, 5 s later. *)
Definition simulatedRun (jobId : string) : Prog unit :=
  await! simulateJob jobId in
  await! call (ETimeout 5000) in
  simulateJobTimer jobId.

Section Route.

(** Values and library functions of the host: the three resolved
    directories, [path.join] of two segments, [path.basename] and
    [String.prototype.trim]. *)
Variables REPO_ROOT DATASETS_DIR OUTPUTS_DIR : string.
Variable join : string -> string -> string.
Variable basename : string -> string.
Variable trim : string -> string.

Definition bump (c : KnowledgeSource) : KnowledgeSource :=
  mkKnowledgeSource (source c) (chunks c + 1) (displayName c) (size c).

(** The loop of [readKnowledgeStats] over the lines of the file.
    [counters] is an object literal keyed by source path.  For a source
    named like a member of [Object.prototype], [counters[source]] is that
    member: it is truthy, so no counter is made, and the increment lands on
    the member, so the line is not counted.  The order in which
    [Object.values] lists sources that are array indices is not kept. *)
Fixpoint countLines (lines : list KLine) (counters : JsMap.t KnowledgeSource)
    : Prog (JsMap.t KnowledgeSource) :=
  match lines with
  | [] => Ret counters
  | BadLine :: rest => countLines rest counters
  | GoodLine src :: rest =>
      let source := or_str src "unknown" in
      let displayName := basename source in
      if inherited source then countLines rest counters
      else
        match JsMap.get source counters with
        | Some c => countLines rest (JsMap.set source (bump c) counters)
        | None =>
            await size := call (EStat source) in
            countLines rest
              (JsMap.set source
                 (bump (mkKnowledgeSource source 0 (Some displayName) size)) counters)
        end
  end.

Definition totalChunksOf (sources : list KnowledgeSource) : Z :=
  List.fold_left (fun acc item => acc + chunks item) sources 0.

Record KnowledgeStats : Type := mkKnowledgeStats {
  totalChunks : Z;
  sources : list KnowledgeSource
}.

Definition readKnowledgeStats (jobId knowledgeFile : string) : Prog KnowledgeStats :=
  await content := call (EReadLines knowledgeFile) in
  match content with
  | inr lines =>
      await counters := countLines lines JsMap.empty in
      let sources := JsMap.values counters in
      Ret (mkKnowledgeStats (totalChunksOf sources) sources)
  | inl err =>
      await! appendLogRepo jobId
        ("Failed to read knowledge file " +:+ knowledgeFile +:+ ": " +:+ err) in
      Ret (mkKnowledgeStats 0 [])
  end.

Definition ragArgs (knowledgeFile ragIndexDir : string) : list string :=
  [ "-m"; "rag.index_builder"; "--knowledge-file"; knowledgeFile;
    "--output-dir"; ragIndexDir ]%string.

Definition runRagIndex (jobId knowledgeFile ragIndexDir : string) : Prog unit :=
  await! appendLogRepo jobId ("Building RAG index from " +:+ knowledgeFile) in
  await! runLoggedProcess jobId LABEL_RAG "python3"
           (filterBoolean (ragArgs knowledgeFile ragIndexDir)) in
  appendLogRepo jobId ("RAG index saved to " +:+ ragIndexDir).

(** The paths computed at the top of [runPipeline]. *)
Definition jobOutput (jobId : string) : string := join OUTPUTS_DIR jobId.
Definition cliPath : string := join (join REPO_ROOT "dataset_pipeline") "cli.py".
Definition trainPath : string := join REPO_ROOT "train_qlora.py".
Definition processedDir (jobId : string) : string :=
  join (jobOutput jobId) "processed_dataset".
Definition trainFile (jobId : string) : string := join (processedDir jobId) "train.jsonl".
Definition evalFile (jobId : string) : string := join (processedDir jobId) "eval.jsonl".
Definition knowledgeFile (jobId : string) : string :=
  join (processedDir jobId) "knowledge.jsonl".
Definition ragIndexDir (jobId : string) : string := join (jobOutput jobId) "rag_index".
Definition outputDir (jobId : string) : string := join (jobOutput jobId) "outputs".
Definition adapterDir (jobId : string) : string := join (outputDir jobId) "lora_adapter".

Definition personaOf (payload : TrainPayload) : string :=
  or_str (trim <$> persona payload) "user_persona".

Definition cliArgs (jobId : string) (payload : TrainPayload) : list string :=
  [ cliPath; "--inputs";
    (if String.eqb (datasetId payload) "" then ""
     else join DATASETS_DIR (datasetId payload));
    "--output-dir"; processedDir jobId; "--persona"; personaOf payload;
    "--format"; "huggingface"; "--eval-split"; "0.1" ]%string.

Definition trainArgs (jobId : string) (payload : TrainPayload) : list string :=
  [ trainPath; "--train-file"; trainFile jobId; "--eval-file"; evalFile jobId;
    "--model-id"; modelId payload; "--system-prompt"; systemPrompt payload;
    "--output-dir"; outputDir jobId; "--adapter-dir"; adapterDir jobId ]%string.

Definition RAG_FAILED : string := "RAG index build failed (will continue without RAG): ".
Definition RAG_SKIPPED : string := "No knowledge chunks found, skipping RAG index build.".

(** The body of the [try] block of [runPipeline]. *)
Definition pipelineBody (jobId : string) (payload : TrainPayload) : Prog unit :=
  await! runLoggedProcess jobId LABEL_DATASET "python3"
           (filterBoolean (cliArgs jobId payload)) in
  await knowledgeStats := readKnowledgeStats jobId (knowledgeFile jobId) in
  await! updateJobRepo jobId
           (Repo.mkJobUpdates None None None None None None None
              (Some (totalChunks knowledgeStats)) (Some (sources knowledgeStats))
              None None) in
  await job := getJob jobId in
  await! updateLinkedClone job
           (CloneStore.mkClonePatch None None None None None None None
              (Some (totalChunks knowledgeStats)) (Some (sources knowledgeStats))
              (Some (knowledgeFile jobId)) (Some (ragIndexDir jobId))) in
  await! (if Z.ltb 0 (totalChunks knowledgeStats)
          then try_catch (runRagIndex jobId (knowledgeFile jobId) (ragIndexDir jobId))
                 (fun ragErr => appendLogRepo jobId (RAG_FAILED +:+ error_text ragErr))
          else appendLogRepo jobId RAG_SKIPPED) in
  await! runLoggedProcess jobId LABEL_TRAIN "python3"
           (filterBoolean (trainArgs jobId payload)) in
  await! updateJobRepo jobId (statusUpdate JobStore.succeeded) in
  await okJob := getJob jobId in
  updateLinkedClone okJob (cloneStatusUpdate CloneStore.ready).

(** The [catch] block of [runPipeline]. *)
Definition pipelineFailed (jobId : string) (message : string) : Prog unit :=
  await! updateJobRepo jobId (failedUpdate (error_text message)) in
  await failedJob := getJob jobId in
  updateLinkedClone failedJob (cloneStatusUpdate CloneStore.failed).

Definition runPipeline (jobId : string) (payload : TrainPayload) : Prog unit :=
  await! updateJobRepo jobId
           (Repo.mkJobUpdates (Some JobStore.running) None None
              (Some (adapterDir jobId)) (Some (processedDir jobId))
              (Some (knowledgeFile jobId)) (Some (ragIndexDir jobId))
              None None None None) in
  await! call (EMkdir (processedDir jobId)) in
  await! call (EMkdir (outputDir jobId)) in
  try_catch (pipelineBody jobId payload) (pipelineFailed jobId).

(** [POST]: [body] is the validated payload, [None] when the request body
    is not valid; [enableRealTrain] is the [ENABLE_REAL_TRAINING] switch.
    The handler answers, and the job goes on in the background. *)
Definition POST (body : option TrainPayload) (enableRealTrain : bool) : Prog unit :=
  await user := call EGetUser in
  match user with
  | None => call (ERespond (ErrorResponse 401 "Unauthorized"))
  | Some _ =>
      match body with
      | None => call (ERespond (ErrorResponse 400 "Validation failed"))
      | Some payload =>
          let datasetPath := join DATASETS_DIR (datasetId payload) in
          await datasetExists := call (EExists datasetPath) in
          if negb datasetExists
          then call (ERespond (ErrorResponse 400 "Dataset not found"))
          else
            await datasetFiles := call (EReaddir datasetPath) in
            await! call (EMkdir OUTPUTS_DIR) in
            await job :=
              createJobRepo
                (JobStore.mkCreateParams (modelId payload) datasetPath
                   (systemPrompt payload) (persona payload) None None
                   (Some (join OUTPUTS_DIR "pending"))) in
            match job with
            | None => call (ERespond (ErrorResponse 500 "Failed to create job"))
            | Some job =>
                await clone :=
                  createCloneRepo
                    (CloneStore.mkCreateParams
                       (or_str (trim <$> cloneName payload) "New Clone")
                       (modelId payload) (JobStore.id job)
                       (Some CloneStore.training)
                       (Some (Z.of_nat (List.length datasetFiles))) None
                       (Some (JobStore.createdAt job)) None None None None) in
                match clone with
                | None => call (ERespond (ErrorResponse 500 "Failed to create clone"))
                | Some clone =>
                    await! updateJobRepo (JobStore.id job)
                             (Repo.mkJobUpdates None None None None None None None
                                None None (Some (CloneStore.id clone))
                                (Some (CloneStore.name clone))) in
                    await! call (ERespond
                             (QueuedResponse (JobStore.id job) (CloneStore.id clone)
                                (negb enableRealTrain))) in
                    if enableRealTrain
                    then runPipeline (JobStore.id job) payload
                    else simulatedRun (JobStore.id job)
                end
            end
      end
  end.

End Route.

End Training.

(** ** The mutex of the integration store and the calls that go through it

    Calls run on one event loop: a call proceeds from one suspension point
    to the next without interruption, and suspended calls resume in any
    order the I/O completes in. *)

Module IntegrationSys.
Import IntegrationStore.

Inductive Op : Type :=
| OpGet (cid : string)
| OpUpsert (cid : string) (p : IntegrationPlatform) (data : Upsert)
| OpSet (cid : string) (l : list IntegrationConfig).

Inductive Result : Type :=
| Resolved (l : list IntegrationConfig)
| RejectedWith (message : string).

(** Where a call stands. *)
Inductive Pc : Type :=
| Idle                                   (* not called yet *)
| Waiting                                (* its [tryAcquire] sits in the queue *)
| Granted                                (* [acquire] resolved, [loadStore] pending *)
| Loaded (store : Store)                 (* [loadStore] resolved *)
| Saving (now : Z) (store : Store) (ret : list IntegrationConfig)
                                         (* [saveStore] called *)
| Saved (ret : list IntegrationConfig)   (* [saveStore] resolved *)
| SaveFailed (message : string)          (* [saveStore] rejected *)
| Done (r : Result).                     (* [finally] has run, the call settled *)

Record Sys : Type := mkSys {
  file : File;
  locked : bool;                 (* [SimpleMutex.locked] *)
  queue : list nat;              (* [SimpleMutex.queue], by call *)
  pcs : list (Op * Pc);          (* the calls *)
  calls : list nat;              (* history: calls of [acquire], in order *)
  grants : list nat;             (* history: resolutions of [acquire], in order *)
  applied : list (nat * Z)       (* history: completed writes, with their [Date.now()] *)
}.

Definition set_pc (t : nat) (pc : Pc) (s : Sys) : Sys :=
  match pcs s !! t with
  | Some (op, _) =>
      mkSys (file s) (locked s) (queue s) (<[t := (op, pc)]> (pcs s)) (calls s)
        (grants s) (applied s)
  | None => s
  end.

(** The closure [tryAcquire] of the call [t]. *)
Definition tryAcquire (t : nat) (s : Sys) : Sys :=
  if locked s
  then mkSys (file s) (locked s) (queue s ++ [t]) (pcs s) (calls s) (grants s)
         (applied s)
  else set_pc t Granted
         (mkSys (file s) true (queue s) (pcs s) (calls s) (grants s ++ [t])
            (applied s)).

Definition acquire (t : nat) (s : Sys) : Sys :=
  tryAcquire t
    (set_pc t Waiting
       (mkSys (file s) (locked s) (queue s) (pcs s) (calls s ++ [t]) (grants s)
          (applied s))).

Definition release (s : Sys) : Sys :=
  let s1 :=
    mkSys (file s) false (queue s) (pcs s) (calls s) (grants s) (applied s) in
  match queue s1 with
  | [] => s1
  | next :: rest =>
      tryAcquire next
        (mkSys (file s1) (locked s1) rest (pcs s1) (calls s1) (grants s1) (applied s1))
  end.

(** The store a mutating call writes, and the list it returns. *)
Definition body (now : Z) (op : Op) (store : Store) : Store * list IntegrationConfig :=
  match op with
  | OpGet cid => (store, get_body cid store)
  | OpUpsert cid p data => upsert_body now cid p data store
  | OpSet cid l => set_body now cid l store
  end.

Definition is_get (op : Op) : bool :=
  match op with OpGet _ => true | _ => false end.

Definition write (t : nat) (now : Z) (store : Store) (s : Sys) : Sys :=
  mkSys (saveStore store) (locked s) (queue s) (pcs s) (calls s) (grants s)
    (applied s ++ [(t, now)]).

Inductive step : Sys -> Sys -> Prop :=
| step_call t op s :
    pcs s !! t = Some (op, Idle) ->
    step s (acquire t s)
| step_load t op s :
    pcs s !! t = Some (op, Granted) ->
    step s (set_pc t (Loaded (loadStore (file s))) s)
| step_return_get t cid store s :
    pcs s !! t = Some (OpGet cid, Loaded store) ->
    step s (release (set_pc t (Done (Resolved (get_body cid store))) s))
| step_save t op store now s :
    pcs s !! t = Some (op, Loaded store) ->
    is_get op = false ->
    step s (set_pc t (Saving now (fst (body now op store)) (snd (body now op store))) s)
| step_written t op now store ret s :
    pcs s !! t = Some (op, Saving now store ret) ->
    step s (set_pc t (Saved ret) (write t now store s))
| step_write_failed t op now store ret message s :
    pcs s !! t = Some (op, Saving now store ret) ->
    step s (set_pc t (SaveFailed message) s)
| step_return t op ret s :
    pcs s !! t = Some (op, Saved ret) ->
    step s (release (set_pc t (Done (Resolved ret)) s))
| step_throw t op message s :
    pcs s !! t = Some (op, SaveFailed message) ->
    step s (release (set_pc t (Done (RejectedWith message)) s)).

Definition init (f : File) (ops : list Op) : Sys :=
  mkSys f false [] (List.map (fun op => (op, Idle)) ops) [] [] [].

Inductive reachable (f : File) (ops : list Op) : Sys -> Prop :=
| reach_init : reachable f ops (init f ops)
| reach_step s s' : reachable f ops s -> step s s' -> reachable f ops s'.

(** A call is inside its critical section. *)
Definition holding (pc : Pc) : bool :=
  match pc with
  | Granted | Loaded _ | Saving _ _ _ | Saved _ | SaveFailed _ => true
  | Idle | Waiting | Done _ => false
  end.

Definition pc_of (s : Sys) (t : nat) : option Pc := snd <$> pcs s !! t.

Definition holds (s : Sys) (t : nat) : Prop :=
  exists pc, pc_of s t = Some pc /\ holding pc = true.

(** A call is over: it returned or threw, after its [finally]. *)
Definition settled (pc : Pc) : bool :=
  match pc with Done _ => true | _ => false end.

(** The call's write has reached the file. *)
Definition wrote (s : Sys) (t : nat) : bool :=
  match pcs s !! t with
  | Some (op, Saved _) | Some (op, Done (Resolved _)) => negb (is_get op)
  | _ => false
  end.

Definition op_at (ops : list Op) (t : nat) : Op :=
  match ops !! t with
  | Some op => op
  | None => OpGet ""
  end.

(** The writes of [l], one after the other, on [store]. *)
Definition replay (ops : list Op) (l : list (nat * Z)) (store : Store) : Store :=
  List.fold_left (fun st e => fst (body (snd e) (op_at ops (fst e)) st)) l store.

(** What holds in every state the calls [ops] reach from the file [f0]. *)
Definition mutex_inv (f0 : File) (ops : list Op) (s : Sys) : Prop :=
  List.map fst (pcs s) = ops /\
  (forall t1 t2, holds s t1 -> holds s t2 -> t1 = t2) /\
  (locked s = true -> exists t, holds s t /\ List.last (grants s) t = t /\
     grants s <> []) /\
  (locked s = false -> queue s = [] /\ forall t, ~ holds s t) /\
  (forall t, In t (queue s) <-> pc_of s t = Some Waiting) /\
  grants s ++ queue s = calls s /\
  List.NoDup (calls s) /\
  (forall t, In t (calls s) <-> exists pc, pc_of s t = Some pc /\ pc <> Idle) /\
  loadStore (file s) = replay ops (applied s) (loadStore f0) /\
  (forall t op store, pcs s !! t = Some (op, Loaded store) ->
     store = loadStore (file s)) /\
  (forall t op now store ret, pcs s !! t = Some (op, Saving now store ret) ->
     store = fst (body now op (loadStore (file s))) /\ is_get op = false) /\
  List.map fst (applied s) = List.filter (wrote s) (grants s).

(** The state [s'] is [s] with the call [t] moved to [new]. *)
Definition moved (t : nat) (new : Pc) (s s' : Sys) : Prop :=
  exists op old, pcs s !! t = Some (op, old) /\ pcs s' = <[t := (op, new)]> (pcs s).

(** Every call was a write and has returned its list. *)
Definition all_returned (s : Sys) : Prop :=
  forall t op pc, pcs s !! t = Some (op, pc) ->
    is_get op = false /\ exists l, pc = Done (Resolved l).

(** A call has started and has not settled. *)
Definition in_flight (s : Sys) (t : nat) : Prop :=
  exists pc, pc_of s t = Some pc /\ pc <> Idle /\ settled pc = false.

End IntegrationSys.

(** Two concurrent [upsertIntegration] calls for the same clone and
    platform on a missing file: both call [acquire], then the first runs to
    its return, which hands the lock to the second, which runs to its
    return. *)
Definition i_ops : list IntegrationSys.Op :=
  [ IntegrationSys.OpUpsert "c1" IntegrationStore.telegram
      (IntegrationStore.mkUpsert (Some true) None);
    IntegrationSys.OpUpsert "c1" IntegrationStore.telegram
      (IntegrationStore.mkUpsert None (Some "tok")) ].

Definition i_run_call (t : nat) (now : Z) (s : IntegrationSys.Sys)
    : IntegrationSys.Sys :=
  let op := IntegrationSys.op_at i_ops t in
  let s1 :=
    IntegrationSys.set_pc t
      (IntegrationSys.Loaded (IntegrationStore.loadStore (IntegrationSys.file s))) s in
  let store := IntegrationStore.loadStore (IntegrationSys.file s) in
  let s2 :=
    IntegrationSys.set_pc t
      (IntegrationSys.Saving now (fst (IntegrationSys.body now op store))
         (snd (IntegrationSys.body now op store))) s1 in
  let s3 :=
    IntegrationSys.set_pc t
      (IntegrationSys.Saved (snd (IntegrationSys.body now op store)))
      (IntegrationSys.write t now (fst (IntegrationSys.body now op store)) s2) in
  IntegrationSys.release
    (IntegrationSys.set_pc t
       (IntegrationSys.Done
          (IntegrationSys.Resolved (snd (IntegrationSys.body now op store)))) s3).

Definition i_sys0 : IntegrationSys.Sys := IntegrationSys.init None i_ops.

Definition i_sys2 : IntegrationSys.Sys :=
  IntegrationSys.acquire 1%nat (IntegrationSys.acquire 0%nat i_sys0).

Definition i_sys3 : IntegrationSys.Sys := i_run_call 0%nat 10 i_sys2.

Definition i_sys4 : IntegrationSys.Sys := i_run_call 1%nat 20 i_sys3.

(** ** The worker manager as a transition system

    Every listener and timer callback runs to completion; a call of
    [startCloneWorker] is interleaved with them at its suspension points. *)

Module WorkerSys.
Import WorkerManager.

(** A call of [startCloneWorker] that is suspended. *)
Inductive Pending : Type :=
| AwaitGrace (cloneId : string)
| AwaitIntegrations (cloneId modelId : string) (jobKey : option string).

Record Sys : Type := mkSys {
  st : State;
  pending : list Pending
}.

Definition after_lookup (cloneId : string) (s : State) : list Pending :=
  match start_lookup cloneId s with
  | inl _ => []
  | inr (modelId, jobKey) => [AwaitIntegrations cloneId modelId jobKey]
  end.

(** The child behind record [r] is gone: its pid no longer answers. *)
Definition reap (r : Ref) (s : State) : State :=
  match records s !! r with
  | Some rec =>
      with_alive (List.filter (fun p => negb (Z.eqb p (pid rec))) (alive s)) s
  | None => s
  end.

Inductive step : Sys -> Sys -> Prop :=
| step_start cloneId s c s1 :
    start_check cloneId (st s) = (c, s1) ->
    step s (mkSys s1
              (pending s ++
               match c with
               | AlreadyRunning => []
               | OrphanSignalled => [AwaitGrace cloneId]
               | Clear => after_lookup cloneId s1
               end))
| step_grace_over cloneId p1 p2 s :
    pending s = p1 ++ AwaitGrace cloneId :: p2 ->
    step s (mkSys (st s) (p1 ++ p2 ++ after_lookup cloneId (st s)))
| step_spawn cloneId modelId jobKey integrations newPid now p1 p2 s :
    pending s = p1 ++ AwaitIntegrations cloneId modelId jobKey :: p2 ->
    isProcessRunning newPid (st s) = false ->
    step s (mkSys (snd (start_spawn cloneId modelId jobKey integrations newPid now (st s)))
              (p1 ++ p2))
| step_stop cloneId now s :
    step s (mkSys (snd (stopCloneWorker cloneId now (st s))) (pending s))
| step_message cloneId r msg now s :
    In (cloneId, r) (listeners (st s)) ->
    step s (mkSys (onMessage cloneId r msg now (st s)) (pending s))
| step_child_error cloneId r now s :
    In (cloneId, r) (listeners (st s)) ->
    step s (mkSys (onError cloneId r now (st s)) (pending s))
| step_exit cloneId r now s :
    In (cloneId, r) (listeners (st s)) ->
    step s (mkSys (onExit cloneId now (reap r (st s))) (pending s))
| step_tick now s :
    monitoringInterval (st s) = true ->
    step s (mkSys (monitorTick now (st s)) (pending s))
| step_kill_timer s :
    step s (mkSys (fireKillTimer (st s)) (pending s))
| step_process_gone p s :
    step s (mkSys (with_alive (List.filter (fun q => negb (Z.eqb q p)) (alive (st s)))
                     (st s))
              (pending s)).

(** The module as loaded: no worker, no record, no timer. *)
Definition fresh (s : Sys) : Prop :=
  workers (st s) = [] /\ records (st s) = [] /\ listeners (st s) = [] /\
  killTimers (st s) = [] /\ monitoringInterval (st s) = false /\
  os (st s) = [] /\ pending s = [].

Inductive reachable : Sys -> Prop :=
| reach_fresh s : fresh s -> reachable s
| reach_step s s' : reachable s -> step s s' -> reachable s'.

End WorkerSys.

(** ** Vocabulary of the statements and sample data *)

Definition c3_job (st : JobStore.JobStatus) : JobStore.TrainingJob :=
  JobStore.mkTrainingJob "j1" "m" "/d" "" None None None None None None None
    None None 1 2 st ["line"]%string None.

Definition c3_clone : CloneStore.CloneRecord :=
  CloneStore.mkCloneRecord "c1" "n" "m" "j1" CloneStore.ready None None None None
    (Some true) None 1 2 None None None None.


Definition c9_job_params : JobStore.CreateParams :=
  JobStore.mkCreateParams "m" "/d" "" None None None None.

Definition c9_clone_params : CloneStore.CreateParams :=
  CloneStore.mkCreateParams "n" "m" "j" None None None None None None None None.

(** Two jobs, and two clones, created at times 1 and 2. *)
Definition c9_jobs : JobStore.Jobs :=
  snd (JobStore.createJob "b" 2 c9_job_params
         (snd (JobStore.createJob "a" 1 c9_job_params JsMap.empty))).

Definition c9_clones : CloneStore.Clones :=
  snd (CloneStore.createClone "b" "kb" 2 c9_clone_params
         (snd (CloneStore.createClone "a" "ka" 1 c9_clone_params JsMap.empty))).



(** A manager with no worker and one clone that failed earlier. *)
Definition c4_clone : CloneStore.CloneRecord :=
  CloneStore.mkCloneRecord "c1" "n" "m" "j1" CloneStore.failed None None (Some [])
    (Some "k") (Some false) (Some 1) 1 2 None None None None.

Definition c4_state : WorkerManager.State :=
  WorkerManager.mkState [] [] [] ∅ [] [] false [("c1"%string, c4_clone)] [] [].

(** What holds of the worker registry in every state the manager reaches:
    one entry per clone id, each with a record of its own, for a clone that
    exists; a suspended start waits for a clone that exists; and the
    monitor runs as soon as a worker was started. *)
Definition worker_inv (s : WorkerSys.Sys) : Prop :=
  let m := WorkerSys.st s in
  List.NoDup (JsMap.keys (WorkerManager.workers m)) /\
  List.NoDup (JsMap.values (WorkerManager.workers m)) /\
  (forall c r, In (c, r) (WorkerManager.workers m) ->
     (r < List.length (WorkerManager.records m))%nat) /\
  (forall c r, In (c, r) (WorkerManager.workers m) ->
     JsMap.has c (WorkerManager.clones m) = true) /\
  (forall c modelId jobKey,
     In (WorkerSys.AwaitIntegrations c modelId jobKey) (WorkerSys.pending s) ->
     JsMap.has c (WorkerManager.clones m) = true) /\
  (WorkerManager.workers m <> [] -> WorkerManager.monitoringInterval m = true).

(** The manager after a start for clone [c1] (pid 4242, at time 1000) and a
    first heartbeat at time 2000; and after the monitor ran at time 30000. *)
Definition w_sys0 : WorkerSys.Sys := WorkerSys.mkSys c4_state [].

Definition w_sys1 : WorkerSys.Sys :=
  WorkerSys.mkSys c4_state [WorkerSys.AwaitIntegrations "c1" "m" None].

Definition w_sys2 : WorkerSys.Sys :=
  WorkerSys.mkSys
    (snd (WorkerManager.start_spawn "c1" "m" None [] 4242 1000 c4_state)) [].

Definition w_sys3 : WorkerSys.Sys :=
  WorkerSys.mkSys
    (WorkerManager.onMessage "c1" 0%nat WorkerManager.heartbeat 2000
       (WorkerSys.st w_sys2)) [].

Definition w_sys4 : WorkerSys.Sys :=
  WorkerSys.mkSys (WorkerManager.monitorTick 30000 (WorkerSys.st w_sys3)) [].

(** ** The orchestrator as a transition system

    The state is what the process and its stores hold: the two tables, the
    handlers and background jobs in flight, the in-memory job store with its
    file and its pending debounced save.  A restart drops everything in
    flight and reloads the job store from its file; the tables live outside
    the process.  A task in flight moves by one operation at a time, with
    any answer of the world outside; the steps of a task that waits for a
    process that never closes are steps it never takes, and the relation
    includes them. *)

Module Orchestrator.
Import Async.

Record Sys : Type := mkSys {
  world : World;
  tasks : list (Prog unit);          (* handlers and background jobs in flight *)
  jobs : JobStore.Jobs;              (* [jobs] of lib/jobStore.ts *)
  jobsFile : DiskFile JobStore.TrainingJob;
  saveTimeout : bool                 (* [saveTimeout !== null] *)
}.

(** The patch the knowledge routes pass to [updateJob]. *)
Definition knowledgePatch (ks : list KnowledgeSource) (kc : Z)
    (kf ri : option string) : JobStore.JobPatch :=
  JobStore.mkJobPatch None None None None None None kf ri (Some kc) (Some ks).

Section Steps.
Variables REPO_ROOT DATASETS_DIR OUTPUTS_DIR : string.
Variable join : string -> string -> string.
Variable basename : string -> string.
Variable trim : string -> string.

Inductive step : Sys -> Sys -> Prop :=
| step_request body enableRealTrain s :
    step s
      (mkSys (world s)
         (tasks s ++ [Training.POST REPO_ROOT DATASETS_DIR OUTPUTS_DIR join basename
                        trim body enableRealTrain])
         (jobs s) (jobsFile s) (saveTimeout s))
| step_await i X (ev : Event X) k o s :
    tasks s !! i = Some (Vis ev k) ->
    step s
      (mkSys (snd (handle o ev (world s)))
         (<[i := k (fst (handle o ev (world s)))]> (tasks s))
         (jobs s) (jobsFile s) (saveTimeout s))
| step_createJob uuid now params s :
    JsMap.has uuid (jobs s) = false ->
    step s
      (mkSys (world s) (tasks s) (snd (JobStore.createJob uuid now params (jobs s)))
         (jobsFile s) true)
| step_knowledge now i ks kc kf ri s :
    step s
      (mkSys (world s) (tasks s)
         (snd (JobStore.updateJob now i (knowledgePatch ks kc kf ri) (jobs s)))
         (jobsFile s)
         (if JsMap.has i (jobs s) then true else saveTimeout s))
| step_appendLog now i line s :
    step s
      (mkSys (world s) (tasks s) (JobStore.appendLog now i line (jobs s))
         (jobsFile s)
         (if JsMap.has i (jobs s) then true else saveTimeout s))
| step_save s :
    step s
      (mkSys (world s) (tasks s) (jobs s) (JobStore.saveJobsToDisk (jobs s)) false)
| step_save_failed s :
    step s (mkSys (world s) (tasks s) (jobs s) (jobsFile s) false)
| step_restart s :
    step s
      (mkSys (world s) [] (JobStore.loadJobsFromDisk (jobsFile s)) (jobsFile s) false).

(** The process right after start. *)
Definition booted (s : Sys) : Prop :=
  tasks s = [] /\ jobs s = JobStore.loadJobsFromDisk (jobsFile s) /\
  saveTimeout s = false.

Inductive reachable : Sys -> Prop :=
| reach_boot s : booted s -> reachable s
| reach_step s s' : reachable s -> step s s' -> reachable s'.

Inductive steps : Sys -> Sys -> Prop :=
| steps_refl s : steps s s
| steps_step s s' s'' : steps s s' -> step s' s'' -> steps s s''.

End Steps.

(** The first task in flight resumes with what the world answers. *)
Definition await_first (o : Oracle) (s : Sys) : Sys :=
  match tasks s with
  | Vis ev k :: rest =>
      mkSys (snd (handle o ev (world s))) (k (fst (handle o ev (world s))) :: rest)
        (jobs s) (jobsFile s) (saveTimeout s)
  | _ => s
  end.

(** One move along queued -> running -> {succeeded, failed}, or none. *)
Definition advance (a b : JobStore.JobStatus) : Prop :=
  a = b \/
  (a = JobStore.queued /\ b = JobStore.running) \/
  (a = JobStore.running /\ (b = JobStore.succeeded \/ b = JobStore.failed)).

Definition terminal (a : JobStore.JobStatus) : Prop :=
  a = JobStore.succeeded \/ a = JobStore.failed.

(** The status an operation writes to a job row, if any. *)
Definition status_write {X : Type} (ev : Event X)
    : option (string * JobStore.JobStatus) :=
  match ev with
  | EUpdateJob i u =>
      match Repo.u_status u with
      | Some s => Some (i, s)
      | None => None
      end
  | _ => None
  end.

(** Operations that neither write a status nor insert a job row. *)
Definition silent {X : Type} (ev : Event X) : bool :=
  match ev with
  | EInsertJob _ _ => false
  | EUpdateJob _ u =>
      match Repo.u_status u with Some _ => false | None => true end
  | _ => true
  end.

(** [Owns st j p]: with job [j] in status [st], every status [p] writes is
    written to [j] and moves it one step forward. *)
Inductive Owns : JobStore.JobStatus -> string -> Prog unit -> Prop :=
| Owns_ret st j a : Owns st j (Ret a)
| Owns_throw st j m : Owns st j (Throw m)
| Owns_silent st j X (ev : Event X) k :
    silent ev = true -> (forall x, Owns st j (k x)) -> Owns st j (Vis ev k)
| Owns_write st st' j u k :
    Repo.u_status u = Some st' -> st <> st' -> advance st st' ->
    (forall x, Owns st' j (k x)) ->
    Owns st j (Vis (EUpdateJob j u) k).

(** [Fresh p]: [p] has inserted no job yet; the job it inserts it owns. *)
Inductive Fresh : Prog unit -> Prop :=
| Fresh_ret a : Fresh (Ret a)
| Fresh_throw m : Fresh (Throw m)
| Fresh_silent X (ev : Event X) k :
    silent ev = true -> (forall x, Fresh (k x)) -> Fresh (Vis ev k)
| Fresh_insert user params k :
    Fresh (k None) ->
    (forall job, Owns JobStore.queued (JobStore.id job) (k (Some job))) ->
    Fresh (Vis (EInsertJob user params) k).

(** Programs of silent operations, with and without exceptions. *)
Inductive Silent {A : Type} (throws : bool) : Prog A -> Prop :=
| Silent_ret a : Silent throws (Ret a)
| Silent_throw m : throws = true -> Silent throws (Throw m)
| Silent_vis X (ev : Event X) k :
    silent ev = true -> (forall x, Silent throws (k x)) -> Silent throws (Vis ev k).

(** The [try] block of a job in progress: silent operations that may throw,
    then one final status, then silent operations that do not throw. *)
Inductive Body (j : string) : Prog unit -> Prop :=
| Body_ret a : Body j (Ret a)
| Body_throw m : Body j (Throw m)
| Body_silent X (ev : Event X) k :
    silent ev = true -> (forall x, Body j (k x)) -> Body j (Vis ev k)
| Body_write u st k :
    Repo.u_status u = Some st -> terminal st ->
    (forall x, Silent false (k x)) ->
    Body j (Vis (EUpdateJob j u) k).

(** Who owns what: one optional job id per task. *)
Definition db_status (w : World) (j : string) : option JobStore.JobStatus :=
  Repo.status <$> Repo.training_jobs (db w) !! j.

Definition task_ok (w : World) (t : Prog unit) (o : option string) : Prop :=
  match o with
  | None => Fresh t
  | Some j => exists st, db_status w j = Some st /\ Owns st j t
  end.

Definition tasks_inv (s : Sys) : Prop :=
  exists owners : list (option string),
    Forall2 (task_ok (world s)) (tasks s) owners /\
    (forall i i' j, owners !! i = Some (Some j) -> owners !! i' = Some (Some j) ->
       i = i').

(** The in-memory store never holds a running job, it agrees in status
    with what a reload of its file would give, and its finished jobs are in
    the file, but for one under the key [__proto__], which a save leaves
    out. *)
Definition store_inv (s : Sys) : Prop :=
  List.NoDup (JsMap.keys (jobs s)) /\
  (forall i j, JsMap.get i (jobs s) = Some j ->
     JobStore.status j <> JobStore.running) /\
  (forall i jd, JsMap.get i (JobStore.loadJobsFromDisk (jobsFile s)) = Some jd ->
     exists jm, JsMap.get i (jobs s) = Some jm /\
       JobStore.status jd = JobStore.status jm) /\
  (forall i jm, i <> "__proto__"%string -> JsMap.get i (jobs s) = Some jm ->
     terminal (JobStore.status jm) ->
     exists jd, JsMap.get i (JobStore.loadJobsFromDisk (jobsFile s)) = Some jd).

Definition sys_inv (s : Sys) : Prop := tasks_inv s /\ store_inv s.

End Orchestrator.

(** ** The pipeline against a job row as [POST] leaves it *)

(** Job [jobId] is in the table with the given status, error and log and
    with no clone id; [cl] is the clone table and [ps] are the processes
    spawned so far. *)
Definition Tracked (jobId : string) (st : JobStore.JobStatus) (err : option string)
    (lg : list string) (cl : gmap string Repo.SupabaseClone)
    (ps : list Async.Spawned) (w : Async.World) : Prop :=
  (exists row,
     Repo.training_jobs (Async.db w) !! jobId = Some row /\
     Repo.clone_id row = None /\
     Repo.status row = st /\ Repo.error row = err /\ Repo.logs row = lg) /\
  Repo.clones (Async.db w) = cl /\
  Async.procs w = ps.

(** [code === 0] for the code of a [close] event. *)
Definition exited_ok (code : option Z) : bool :=
  match code with
  | Some 0 => true
  | _ => false
  end.

(** The statistics [readKnowledgeStats] returns, as a function of what the
    file system answers. *)
Fixpoint countLinesOf (o : Async.Oracle) (basename : string -> string)
    (lines : list Async.KLine) (counters : JsMap.t KnowledgeSource)
    : JsMap.t KnowledgeSource :=
  match lines with
  | [] => counters
  | Async.BadLine :: rest => countLinesOf o basename rest counters
  | Async.GoodLine src :: rest =>
      let source := or_str src "unknown" in
      if inherited source then countLinesOf o basename rest counters
      else
        match JsMap.get source counters with
        | Some c =>
            countLinesOf o basename rest (JsMap.set source (Training.bump c) counters)
        | None =>
            countLinesOf o basename rest
              (JsMap.set source
                 (Training.bump
                    (mkKnowledgeSource source 0 (Some (basename source))
                       (Async.o_stat o source)))
                 counters)
        end
  end.

Definition knowledgeStatsOf (o : Async.Oracle) (basename : string -> string)
    (file : string) : Training.KnowledgeStats :=
  match Async.o_lines o file with
  | inr lines =>
      let sources := JsMap.values (countLinesOf o basename lines JsMap.empty) in
      Training.mkKnowledgeStats (Training.totalChunksOf sources) sources
  | inl _ => Training.mkKnowledgeStats 0 []
  end.

(** The line [readKnowledgeStats] logs when the file cannot be read. *)
Definition knowledgeLog (o : Async.Oracle) (file : string) : list string :=
  match Async.o_lines o file with
  | inr _ => []
  | inl err => ["Failed to read knowledge file " +:+ file +:+ ": " +:+ err]
  end.

(** ** A sample run

    A job row that references a clone row, as the repair script of the
    repository leaves them, and a world outside that answers with the given
    exit codes for the three stages and a knowledge file of one chunk. *)
Definition t_join (a b : string) : string := a +:+ "/" +:+ b.

Definition t_same (s : string) : string := s.

Definition t_payload : Training.TrainPayload :=
  Training.mkTrainPayload "m" "d1" "be kind" None None.

Definition t_row : Repo.SupabaseJob :=
  Repo.mkSupabaseJob "j1" "u1" "m" "/data/d1" "be kind" None (Some "c1")
    (Some "New Clone") (Some "/out/pending") None None None None None
    JobStore.queued [] None 100 100.

Definition t_crow : Repo.SupabaseClone :=
  Repo.mkSupabaseClone "c1" "u1" "New Clone" "m" (Some "j1") CloneStore.training 1
    None None (Some "key") false (Some 100) 100 100 None None None None.

Definition t_world : Async.World :=
  Async.mkWorld (Repo.mkTables {[ "j1"%string := t_row ]} {[ "c1"%string := t_crow ]})
    1000 0 [] [].

Definition t_oracle (code1 code2 code3 : option Z) : Async.Oracle :=
  Async.mkOracle (Some "u1"%string)
    (fun n => "id" +:+ js_string_of_Z (Z.of_nat n))
    (fun label _ =>
       Async.mkProcResult ["out"%string]
         (if String.eqb label "dataset_pipeline" then code1
          else if String.eqb label "rag_index" then code2 else code3) 5 true)
    (fun _ => inr [Async.GoodLine (Some "/data/d1/a.txt"%string)])
    (fun _ => Some 12) (fun _ => true) (fun _ => ["a.txt"%string]).

(** A process started on empty tables and a job file that holds one job,
    persisted as running; then with one training request taken in; then
    with that request advanced by [n] operations, the dataset stage exiting
    with code 2; then, after 18 operations, with a line appended to the
    job of the in-memory store, the store saved, and the process
    restarted. *)
Definition o_file : DiskFile JobStore.TrainingJob :=
  Parsed [("j1"%string, c3_job JobStore.running)].

Definition o_sys0 : Orchestrator.Sys :=
  Orchestrator.mkSys (Async.mkWorld (Repo.mkTables ∅ ∅) 1000 0 [] []) []
    (JobStore.loadJobsFromDisk o_file) o_file false.

Definition o_sys1 : Orchestrator.Sys :=
  Orchestrator.mkSys (Orchestrator.world o_sys0)
    [Training.POST "/repo" "/data" "/out" t_join t_same t_same (Some t_payload) true]
    (Orchestrator.jobs o_sys0) o_file false.

Definition o_job (n : nat) : Orchestrator.Sys :=
  Nat.iter n (Orchestrator.await_first (t_oracle (Some 2) None None)) o_sys1.

Definition o_sys2 : Orchestrator.Sys :=
  Orchestrator.mkSys (Orchestrator.world (o_job 18)) (Orchestrator.tasks (o_job 18))
    (JobStore.appendLog 2000 "j1" "seen" (Orchestrator.jobs (o_job 18))) o_file true.

Definition o_sys3 : Orchestrator.Sys :=
  Orchestrator.mkSys (Orchestrator.world o_sys2) (Orchestrator.tasks o_sys2)
    (Orchestrator.jobs o_sys2) (JobStore.saveJobsToDisk (Orchestrator.jobs o_sys2))
    false.

Definition o_sys4 : Orchestrator.Sys :=
  Orchestrator.mkSys (Orchestrator.world o_sys3) []
    (JobStore.loadJobsFromDisk (Orchestrator.jobsFile o_sys3))
    (Orchestrator.jobsFile o_sys3) false.

(** ** Vocabulary of the further properties *)

(** The job row as [POST] leaves it, with no clone id, beside the clone row
    made for the job. *)
Definition t_row_queued : Repo.SupabaseJob :=
  Repo.mkSupabaseJob "j1" "u1" "m" "/data/d1" "be kind" None None None
    (Some "/out/pending") None None None None None
    JobStore.queued [] None 100 100.

Definition t_world_queued : Async.World :=
  Async.mkWorld
    (Repo.mkTables {[ "j1"%string := t_row_queued ]} {[ "c1"%string := t_crow ]})
    1000 0 [] [].

(** The world outside with a training process that never closes. *)
Definition t_oracle_stalled : Async.Oracle :=
  Async.mkOracle (Some "u1"%string)
    (fun n => "id" +:+ js_string_of_Z (Z.of_nat n))
    (fun label _ =>
       Async.mkProcResult ["out"%string] (Some 0) 5
         (negb (String.eqb label "train_qlora")))
    (fun _ => inr [Async.GoodLine (Some "/data/d1/a.txt"%string)])
    (fun _ => Some 12) (fun _ => true) (fun _ => ["a.txt"%string]).

(** Parseable lines of a knowledge file. *)
Definition goodLines (lines : list Async.KLine) : list Async.KLine :=
  List.filter (fun l => match l with Async.GoodLine _ => true | Async.BadLine => false end)
    lines.

(** The world outside with a knowledge file that holds no line. *)
Definition t_oracle_empty (code1 code3 : option Z) : Async.Oracle :=
  Async.mkOracle (Some "u1"%string)
    (fun n => "id" +:+ js_string_of_Z (Z.of_nat n))
    (fun label _ =>
       Async.mkProcResult []
         (if String.eqb label "dataset_pipeline" then code1 else code3) 5 true)
    (fun _ => inr []) (fun _ => None) (fun _ => true) (fun _ => ["a.txt"%string]).

(** Empty tables at time 1000. *)
Definition t_world_empty : Async.World :=
  Async.mkWorld (Repo.mkTables ∅ ∅) 1000 0 [] [].

(** The source a parseable line is counted under. *)
Definition lineSource (l : Async.KLine) : option string :=
  match l with
  | Async.GoodLine src => Some (or_str src "unknown")
  | Async.BadLine => None
  end.

(** A knowledge file of three lines: two chunks of one source around a line
    that does not parse. *)
Definition t_oracle_lines : Async.Oracle :=
  Async.mkOracle (Some "u1"%string) (fun _ => "x"%string)
    (fun _ _ => Async.mkProcResult [] (Some 0) 0 true)
    (fun _ => inr [Async.GoodLine (Some "/d/a.txt"%string); Async.BadLine;
                   Async.GoodLine (Some "/d/a.txt"%string)])
    (fun _ => Some 12) (fun _ => true) (fun _ => []).

(** The counters are keyed by source, count at least one chunk each, and
    carry the base name and the size the file system gave. *)
Definition counted (o : Async.Oracle) (basename : string -> string)
    (m : JsMap.t KnowledgeSource) : Prop :=
  List.NoDup (JsMap.keys m) /\
  forall k v, In (k, v) m ->
    source v = k /\ 1 <= chunks v /\ k <> ""%string /\
    displayName v = Some (basename k) /\ size v = Async.o_stat o k.

(** ** app/api/clones/[cloneId]/integrations/telegram/route.ts *)

Module TelegramRoute.
Import IntegrationStore.

(** [body.token] as the handler tests it. *)
Inductive TokenField : Type :=
| NoToken                  (* [undefined] *)
| Token (s : string)       (* a string *)
| NotAString.              (* any other value *)

Inductive Answer : Type :=
| Refused (httpStatus : Z) (message : string)
| Configured (integrations : list IntegrationConfig).

Definition isTelegram (i : IntegrationConfig) : bool :=
  platform_eqb (platform i) telegram.

(** [runTelegramAction]: the error, if any. *)
Definition runTelegramAction (start : bool) (token : option string) : option string :=
  if start && negb (truthy_str token)
  then Some "Bot token is required to start"%string
  else None.

(** The string given as token, when it is truthy. *)
Definition givenToken (token : TokenField) : option string :=
  match token with
  | Token s => if String.eqb s "" then None else Some s
  | _ => None
  end.

(** [POST] for one request served with no other call of the store in
    between and the store file writable; [now1], [now2] and [now3] are the
    times of the three [upsertIntegration] calls. *)
Definition POST (cloneId : string) (token : TokenField) (activate : option bool)
    (now1 now2 now3 : Z) (store : Store) : Answer * Store :=
  let existing := get_body cloneId store in
  let currentTelegram := List.find isTelegram existing in
  match token with
  | NotAString => (Refused 400 "Invalid token", store)
  | _ =>
      let store1 :=
        match givenToken token with
        | Some s => fst (upsert_body now1 cloneId telegram (mkUpsert None (Some s)) store)
        | None => store
        end in
      let finish (st : Store) : Answer * Store :=
        let '(st', l) := upsert_body now3 cloneId telegram (mkUpsert None None) st in
        (Configured l, st') in
      match activate with
      | Some a =>
          let effectiveToken :=
            match givenToken token with
            | Some s => Some s
            | None =>
                match currentTelegram with
                | Some c => IntegrationStore.token c
                | None => None
                end
            end in
          match runTelegramAction a effectiveToken with
          | Some err => (Refused 400 err, store1)
          | None =>
              finish (fst (upsert_body now2 cloneId telegram (mkUpsert (Some a) None)
                             store1))
          end
      | None => finish store1
      end
  end.

End TelegramRoute.

(** A store with a Slack integration for clone [c1]. *)
Definition g_store : IntegrationStore.Store :=
  {[ "c1"%string :=
       IntegrationStore.mkCloneIntegrations "c1"
         [IntegrationStore.mkIntegrationConfig IntegrationStore.slack true
            (Some "s-tok"%string) 5] ]}.

(** ** lib/workerManager.ts: [listRunningWorkers] *)

Record RunningWorker : Type := mkRunningWorker {
  rw_cloneId : string;
  rw_status : WorkerManager.WorkerStatus;
  rw_pid : Z
}.

(** One entry per registry entry, in the order of the registry. *)
Definition listRunningWorkers (s : WorkerManager.State) : list RunningWorker :=
  List.flat_map
    (fun e : string * WorkerManager.Ref =>
       match WorkerManager.records s !! snd e with
       | Some record =>
           [mkRunningWorker (fst e) (WorkerManager.status record)
              (WorkerManager.pid record)]
       | None => []
       end)
    (WorkerManager.workers s).

(** Every SIGKILL in the trace comes after a SIGTERM to the same pid. *)
Definition term_before_kill (l : list WorkerManager.OsEvent) : Prop :=
  forall l1 l2 p,
    l = l1 ++ WorkerManager.Kill p WorkerManager.SIGKILL :: l2 ->
    In (WorkerManager.Kill p WorkerManager.SIGTERM) l1.

(** The manager of [w_sys3] after a stop of clone [c1] at time 3000, then
    with a new start for [c1] suspended at [getIntegrations], then with the
    new child (pid 4343) registered at time 4000 while the first child has
    not exited yet. *)
Definition w_sys5 : WorkerSys.Sys :=
  WorkerSys.mkSys (snd (WorkerManager.stopCloneWorker "c1" 3000 (WorkerSys.st w_sys3))) [].

Definition w_sys6 : WorkerSys.Sys :=
  WorkerSys.mkSys (WorkerSys.st w_sys5) [WorkerSys.AwaitIntegrations "c1" "m" None].

Definition w_sys7 : WorkerSys.Sys :=
  WorkerSys.mkSys
    (snd (WorkerManager.start_spawn "c1" "m" None [] 4343 4000 (WorkerSys.st w_sys5))) [].

(** From [s] to [s'] the trace grew by events other than SIGKILL, and every
    escalation timer that is new was armed with a SIGTERM to its pid. *)
Definition escalates (s s' : WorkerManager.State) : Prop :=
  exists l,
    WorkerManager.os s' = WorkerManager.os s ++ l /\
    (forall p, ~ In (WorkerManager.Kill p WorkerManager.SIGKILL) l) /\
    (forall p, In p (WorkerManager.killTimers s') ->
       In p (WorkerManager.killTimers s) \/
       In (WorkerManager.Kill p WorkerManager.SIGTERM) l).

Definition kill_inv (s : WorkerManager.State) : Prop :=
  term_before_kill (WorkerManager.os s) /\
  (forall p, In p (WorkerManager.killTimers s) ->
     In (WorkerManager.Kill p WorkerManager.SIGTERM) (WorkerManager.os s)).

(** A module loaded while the process of an earlier run (pid 77, named in
    the pid file of clone [c1]) is still alive; then after a stop of [c1] at
    time 100; then after the escalation timer fired. *)
Definition w_sys8 : WorkerSys.Sys :=
  WorkerSys.mkSys
    (WorkerManager.mkState [] [] [] (<["c1"%string := 77]> ∅) [77] [] false
       [("c1"%string, c4_clone)] [] []) [].

Definition w_sys9 : WorkerSys.Sys :=
  WorkerSys.mkSys (snd (WorkerManager.stopCloneWorker "c1" 100 (WorkerSys.st w_sys8))) [].

Definition w_sys10 : WorkerSys.Sys :=
  WorkerSys.mkSys (WorkerManager.fireKillTimer (WorkerSys.st w_sys9)) [].

(** A manager with no worker and no clone, while a process of an earlier
    run (pid 88) is alive and named in the pid file of [c9]. *)
Definition c_orphan_state : WorkerManager.State :=
  WorkerManager.mkState [] [] [] (<["c9"%string := 88]> ∅) [88] [] false [] [] [].

(** * Properties *)

(** ** Insertion-ordered maps *)

Section JsMapFacts.
Context {V : Type}.
Implicit Types (m : JsMap.t V) (k : string) (v : V).

Lemma jsmap_get_set_eq k v m : JsMap.get k (JsMap.set k v m) = Some v.
Proof.
  induction m as [|[k' v'] m IH]; simpl.
  - now rewrite String.eqb_refl.
  - destruct (String.eqb k k') eqn:E; simpl; rewrite E; auto.
Qed.

Lemma jsmap_get_set_ne k k' v m :
  k <> k' -> JsMap.get k' (JsMap.set k v m) = JsMap.get k' m.
Proof.
  intros Hne. induction m as [|[k0 v0] m IH]; simpl.
  - destruct (String.eqb_spec k' k); congruence.
  - destruct (String.eqb_spec k k0) as [->|]; simpl.
    + destruct (String.eqb_spec k' k0); congruence.
    + now rewrite IH.
Qed.

Lemma jsmap_get_set k k' v m :
  JsMap.get k' (JsMap.set k v m) = if String.eqb k' k then Some v else JsMap.get k' m.
Proof.
  destruct (String.eqb_spec k' k) as [->|Hne].
  - apply jsmap_get_set_eq.
  - apply jsmap_get_set_ne; congruence.
Qed.

Lemma jsmap_get_In k v m : JsMap.get k m = Some v -> In (k, v) m.
Proof.
  induction m as [|[k' v'] m IH]; simpl; [discriminate|].
  destruct (String.eqb_spec k k') as [->|]; intros H.
  - inversion H; auto.
  - auto.
Qed.

Lemma jsmap_get_None k m : JsMap.get k m = None <-> ~ In k (JsMap.keys m).
Proof.
  induction m as [|[k' v'] m IH]; simpl; [tauto|].
  destruct (String.eqb_spec k k') as [->|]; split; intros H.
  - discriminate.
  - exfalso; apply H; auto.
  - intros [->|H']; [congruence|]. now apply IH in H.
  - apply IH. tauto.
Qed.

Lemma jsmap_In_get k v m :
  List.NoDup (JsMap.keys m) -> In (k, v) m -> JsMap.get k m = Some v.
Proof.
  induction m as [|[k' v'] m IH]; simpl; [tauto|].
  intros Hnd [Heq|Hin].
  - inversion Heq; subst. now rewrite String.eqb_refl.
  - apply List.NoDup_cons_iff in Hnd as [Hk Hnd].
    destruct (String.eqb_spec k k') as [->|]; auto.
    exfalso. apply Hk.
    change (In k' (List.map fst m)). apply in_map_iff. now exists (k', v).
Qed.

Lemma jsmap_keys_set k v m :
  JsMap.keys (JsMap.set k v m) =
  if JsMap.has k m then JsMap.keys m else JsMap.keys m ++ [k].
Proof.
  unfold JsMap.has. induction m as [|[k' v'] m IH]; simpl; auto.
  destruct (String.eqb_spec k k') as [->|]; simpl; auto.
  rewrite IH. now destruct (JsMap.get k m).
Qed.

Lemma jsmap_values_set_fresh k v m :
  JsMap.has k m = false -> JsMap.values (JsMap.set k v m) = JsMap.values m ++ [v].
Proof.
  unfold JsMap.has. induction m as [|[k' v'] m IH]; simpl; auto.
  destruct (String.eqb_spec k k') as [->|]; simpl; [discriminate|].
  intros H. now rewrite IH.
Qed.

Lemma jsmap_keys_delete k m k' :
  In k' (JsMap.keys (JsMap.delete k m)) <-> In k' (JsMap.keys m) /\ k' <> k.
Proof.
  induction m as [|[k0 v0] m IH]; simpl; [tauto|].
  destruct (String.eqb_spec k k0) as [->|]; simpl; rewrite IH; intuition congruence.
Qed.

Lemma jsmap_NoDup_set k v m :
  List.NoDup (JsMap.keys m) -> List.NoDup (JsMap.keys (JsMap.set k v m)).
Proof.
  intros H. rewrite jsmap_keys_set. destruct (JsMap.has k m) eqn:E; auto.
  apply List.NoDup_app; auto.
  - apply List.NoDup_cons; [simpl; tauto | apply List.NoDup_nil].
  - intros a Ha [Hk|[]]. subst a. unfold JsMap.has in E.
    destruct (JsMap.get k m) eqn:G; [discriminate|].
    now apply jsmap_get_None in G.
Qed.

Lemma jsmap_NoDup_delete k m :
  List.NoDup (JsMap.keys m) -> List.NoDup (JsMap.keys (JsMap.delete k m)).
Proof.
  induction m as [|[k0 v0] m IH]; simpl; auto.
  intros H. apply List.NoDup_cons_iff in H as [Hk H].
  destruct (String.eqb_spec k k0) as [->|]; simpl; auto.
  apply List.NoDup_cons_iff. split; auto.
  intros Hin. apply Hk. now apply jsmap_keys_delete in Hin as [Hin _].
Qed.

Lemma jsmap_get_delete_eq k m : JsMap.get k (JsMap.delete k m) = None.
Proof.
  apply jsmap_get_None. intros H. apply jsmap_keys_delete in H. tauto.
Qed.

Lemma jsmap_get_delete_ne k k' m :
  k <> k' -> JsMap.get k' (JsMap.delete k m) = JsMap.get k' m.
Proof.
  intros Hne. induction m as [|[k0 v0] m IH]; simpl; auto.
  destruct (String.eqb_spec k k0) as [->|]; simpl.
  - rewrite IH. destruct (String.eqb_spec k' k0); congruence.
  - now rewrite IH.
Qed.

Lemma jsmap_count_In k m :
  (JsMap.count k m = 0)%nat <-> ~ In k (JsMap.keys m).
Proof.
  unfold JsMap.count. generalize (JsMap.keys m) as l.
  induction l as [|a l IH]; simpl; [tauto|].
  destruct (String.eqb_spec k a) as [->|]; simpl.
  - split; [discriminate|]. intros H. exfalso. auto.
  - rewrite IH. intuition congruence.
Qed.

Lemma jsmap_count_NoDup k m : List.NoDup (JsMap.keys m) -> (JsMap.count k m <= 1)%nat.
Proof.
  intros H. pose proof (jsmap_count_In k) as Hc. unfold JsMap.count in *.
  revert H. generalize (JsMap.keys m) as l.
  induction l as [|a l IH]; simpl; [lia|].
  intros H. apply List.NoDup_cons_iff in H as [Ha H].
  destruct (String.eqb_spec k a) as [->|]; simpl; auto.
  enough (List.length (List.filter (String.eqb a) l) = 0%nat) by lia.
  clear -Ha. induction l as [|b l IH]; simpl in *; auto.
  destruct (String.eqb_spec a b) as [->|]; simpl; [exfalso; auto|].
  apply IH. tauto.
Qed.

Lemma jsmap_count_has k m :
  List.NoDup (JsMap.keys m) ->
  JsMap.count k m = if JsMap.has k m then 1%nat else 0%nat.
Proof.
  intros H. unfold JsMap.has. destruct (JsMap.get k m) eqn:G.
  - pose proof (jsmap_count_NoDup k m H).
    destruct (JsMap.count k m) eqn:C; [|lia].
    apply jsmap_count_In in C. apply jsmap_get_None in C. congruence.
  - apply jsmap_count_In. now apply jsmap_get_None.
Qed.

End JsMapFacts.

(** ** Object literals as dictionaries *)

Section JsObjectFacts.
Context {V : Type}.
Implicit Types (o m : list (string * V)) (k : string) (v : V).

Lemma jsobj_place_In k v o e :
  In e (JsObject.place k v o) <-> (k, v) = e \/ In e o.
Proof.
  induction o as [|[k' v'] o IH]; simpl; [tauto|].
  destruct (JsObject.arrayIndex k) as [n|], (JsObject.arrayIndex k') as [n'|];
    try destruct (N.ltb n n'); simpl; rewrite ?IH; tauto.
Qed.

Lemma jsobj_place_length k v o :
  List.length (JsObject.place k v o) = S (List.length o).
Proof.
  induction o as [|[k' v'] o IH]; simpl; [reflexivity|].
  destruct (JsObject.arrayIndex k) as [n|], (JsObject.arrayIndex k') as [n'|];
    try destruct (N.ltb n n'); simpl; now rewrite ?IH.
Qed.

Lemma jsobj_place_get k v o k' :
  ~ In k (JsMap.keys o) ->
  JsMap.get k' (JsObject.place k v o)
  = if String.eqb k' k then Some v else JsMap.get k' o.
Proof.
  induction o as [|[k0 v0] o IH]; simpl; intros Hk; [reflexivity|].
  assert (k0 <> k) as Hne by tauto.
  assert (JsMap.get k' ((k, v) :: (k0, v0) :: o)
          = if String.eqb k' k then Some v
            else if String.eqb k' k0 then Some v0 else JsMap.get k' o) as Hhead
    by reflexivity.
  assert (JsMap.get k' ((k0, v0) :: JsObject.place k v o)
          = if String.eqb k' k then Some v
            else if String.eqb k' k0 then Some v0 else JsMap.get k' o) as Htail.
  { simpl. rewrite IH by tauto.
    destruct (String.eqb_spec k' k0) as [->|]; [|reflexivity].
    destruct (String.eqb_spec k0 k); [congruence | reflexivity]. }
  destruct (JsObject.arrayIndex k) as [n|], (JsObject.arrayIndex k0) as [n'|];
    try destruct (N.ltb n n'); auto.
Qed.

Lemma jsobj_place_NoDup k v o :
  List.NoDup (JsMap.keys o) -> ~ In k (JsMap.keys o) ->
  List.NoDup (JsMap.keys (JsObject.place k v o)).
Proof.
  induction o as [|[k0 v0] o IH]; simpl; intros Hnd Hk.
  - apply List.NoDup_cons; [tauto | apply List.NoDup_nil].
  - apply List.NoDup_cons_iff in Hnd as [H0 Hnd].
    assert (List.NoDup (k :: k0 :: JsMap.keys o)) as Hhead.
    { apply List.NoDup_cons; [simpl; tauto|]. now apply List.NoDup_cons. }
    assert (List.NoDup (k0 :: JsMap.keys (JsObject.place k v o))) as Htail.
    { apply List.NoDup_cons; [|apply IH; tauto].
      intros Hin. apply in_map_iff in Hin as ([k1 v1] & E & Hin). simpl in E. subst k1.
      apply jsobj_place_In in Hin as [Hin|Hin].
      - inversion Hin; subst. tauto.
      - apply H0. apply in_map_iff. now exists (k0, v1). }
    destruct (JsObject.arrayIndex k) as [n|], (JsObject.arrayIndex k0) as [n'|];
      try destruct (N.ltb n n'); auto.
Qed.

Lemma jsmap_has_keys k o : JsMap.has k o = false <-> ~ In k (JsMap.keys o).
Proof.
  unfold JsMap.has. rewrite <- jsmap_get_None.
  destruct (JsMap.get k o); split; congruence.
Qed.

Lemma jsmap_set_length k v o :
  JsMap.has k o = true -> List.length (JsMap.set k v o) = List.length o.
Proof.
  intros H. rewrite <- !(List.length_map fst).
  change (List.map fst ?m) with (JsMap.keys m). now rewrite jsmap_keys_set, H.
Qed.

Lemma jsobj_set_get k v o k' :
  JsMap.get k' (JsObject.set k v o)
  = if String.eqb k "__proto__" then JsMap.get k' o
    else if String.eqb k' k then Some v else JsMap.get k' o.
Proof.
  unfold JsObject.set. destruct (String.eqb k "__proto__"); [reflexivity|].
  destruct (JsMap.has k o) eqn:H.
  - apply jsmap_get_set.
  - apply jsobj_place_get. now apply jsmap_has_keys.
Qed.

Lemma jsobj_set_NoDup k v o :
  List.NoDup (JsMap.keys o) -> List.NoDup (JsMap.keys (JsObject.set k v o)).
Proof.
  intros Hnd. unfold JsObject.set. destruct (String.eqb k "__proto__"); [exact Hnd|].
  destruct (JsMap.has k o) eqn:H.
  - now apply jsmap_NoDup_set.
  - apply jsobj_place_NoDup; [exact Hnd | now apply jsmap_has_keys].
Qed.

Lemma jsobj_set_length k v o :
  List.length (JsObject.set k v o)
  = if (String.eqb k "__proto__" || JsMap.has k o)%bool then List.length o
    else S (List.length o).
Proof.
  unfold JsObject.set. destruct (String.eqb k "__proto__"); [reflexivity|].
  destruct (JsMap.has k o) eqn:H; simpl.
  - now apply jsmap_set_length.
  - apply jsobj_place_length.
Qed.

Local Abbreviation copy m o :=
  (List.fold_left (fun obj e => JsObject.set (fst e) (snd e) obj) m o).

Lemma jsobj_copy_NoDup m : forall o,
  List.NoDup (JsMap.keys o) -> List.NoDup (JsMap.keys (copy m o)).
Proof.
  induction m as [|[k v] m IH]; simpl; intros o H; auto.
  apply IH. now apply jsobj_set_NoDup.
Qed.

Lemma jsobj_copy_get m k : forall o,
  List.NoDup (JsMap.keys m) ->
  JsMap.get k (copy m o)
  = match (if String.eqb k "__proto__" then None else JsMap.get k m) with
    | Some v => Some v
    | None => JsMap.get k o
    end.
Proof.
  induction m as [|[k0 v0] m IH]; intros o Hnd.
  - simpl. now destruct (String.eqb k "__proto__").
  - simpl in Hnd. apply List.NoDup_cons_iff in Hnd as [H0 Hnd].
    cbn [List.fold_left fst snd]. rewrite IH by exact Hnd.
    rewrite jsobj_set_get. cbn [JsMap.get].
    destruct (String.eqb_spec k "__proto__") as [E|Hp].
    + destruct (String.eqb_spec k0 "__proto__") as [E0|H1]; [reflexivity|].
      destruct (String.eqb_spec k k0); [congruence | reflexivity].
    + destruct (String.eqb_spec k k0) as [E|Hk].
      * assert (JsMap.get k m = None) as ->
          by (apply jsmap_get_None; now rewrite E).
        destruct (String.eqb_spec k0 "__proto__"); [congruence | reflexivity].
      * destruct (JsMap.get k m); [reflexivity|].
        now destruct (String.eqb k0 "__proto__").
Qed.

Lemma jsobj_copy_length m : forall o,
  List.NoDup (JsMap.keys m) ->
  (forall k, In k (JsMap.keys m) -> ~ In k (JsMap.keys o)) ->
  List.length (copy m o)
  = (List.length o
     + List.length (List.filter (fun e => negb (String.eqb (fst e) "__proto__")) m))%nat.
Proof.
  induction m as [|[k0 v0] m IH]; intros o Hnd Hdis.
  - simpl. lia.
  - simpl in Hnd. apply List.NoDup_cons_iff in Hnd as [H0 Hnd].
    cbn [List.fold_left fst snd List.filter]. rewrite IH; [|exact Hnd|].
    + rewrite jsobj_set_length.
      assert (JsMap.has k0 o = false) as ->
        by (apply jsmap_has_keys, Hdis; simpl; now left).
      destruct (String.eqb k0 "__proto__"); simpl; lia.
    + intros k Hin Hin'. apply in_map_iff in Hin' as ([k1 v1] & E & Hin').
      simpl in E. subst k1. unfold JsObject.set in Hin'.
      destruct (String.eqb k0 "__proto__").
      * apply (Hdis k); [simpl; now right|]. apply in_map_iff. now exists (k, v1).
      * assert (JsMap.has k0 o = false) as Hh
          by (apply jsmap_has_keys, Hdis; simpl; now left).
        rewrite Hh in Hin'. apply jsobj_place_In in Hin' as [E|Hin'].
        -- inversion E; subst. tauto.
        -- apply (Hdis k); [simpl; now right|]. apply in_map_iff. now exists (k, v1).
Qed.

(** What a store file holds after a save: every entry of the map but the
    one under [__proto__], each key once. *)
Lemma jsobj_of_map_get m k :
  List.NoDup (JsMap.keys m) ->
  JsMap.get k (JsObject.of_map m)
  = if String.eqb k "__proto__" then None else JsMap.get k m.
Proof.
  intros H. unfold JsObject.of_map. rewrite jsobj_copy_get by exact H.
  now destruct (if String.eqb k "__proto__" then None else JsMap.get k m).
Qed.

Lemma jsobj_of_map_NoDup m : List.NoDup (JsMap.keys (JsObject.of_map m)).
Proof. apply jsobj_copy_NoDup. apply List.NoDup_nil. Qed.

Lemma jsobj_of_map_length m :
  List.NoDup (JsMap.keys m) ->
  List.length (JsObject.of_map m)
  = List.length (List.filter (fun e => negb (String.eqb (fst e) "__proto__")) m).
Proof.
  intros H. unfold JsObject.of_map. rewrite jsobj_copy_length; auto.
Qed.

End JsObjectFacts.

(** ** Loading a store file *)

Section Loading.
Context {A : Type} (f : A -> A).

Local Abbreviation load entries acc :=
  (List.fold_left (fun map e => JsMap.set (fst e) (f (snd e)) map) entries acc).

Lemma load_get_inv entries : forall acc i j,
  JsMap.get i (load entries acc) = Some j ->
  JsMap.get i acc = Some j \/ exists j0, In (i, j0) entries /\ j = f j0.
Proof.
  induction entries as [|[k v] es IH]; simpl; intros acc i j H; auto.
  apply IH in H as [H|(j0 & Hin & ->)].
  - rewrite jsmap_get_set in H. destruct (String.eqb_spec i k) as [->|]; auto.
    inversion H; subst. right. exists v. auto.
  - right. exists j0. auto.
Qed.

Lemma load_get_skip entries : forall acc i,
  ~ In i (List.map fst entries) ->
  JsMap.get i (load entries acc) = JsMap.get i acc.
Proof.
  induction entries as [|[k v] es IH]; simpl; intros acc i H; auto.
  rewrite IH by tauto. apply jsmap_get_set_ne. intros ->. tauto.
Qed.

Lemma load_get_In entries : forall acc i j0,
  List.NoDup (List.map fst entries) -> In (i, j0) entries ->
  JsMap.get i (load entries acc) = Some (f j0).
Proof.
  induction entries as [|[k v] es IH]; simpl; intros acc i j0 Hnd Hin; [tauto|].
  apply List.NoDup_cons_iff in Hnd as [Hk Hnd].
  destruct Hin as [Heq|Hin].
  - inversion Heq; subst. rewrite load_get_skip by assumption.
    apply jsmap_get_set_eq.
  - now apply IH.
Qed.

Lemma load_NoDup entries : forall acc,
  List.NoDup (JsMap.keys acc) -> List.NoDup (JsMap.keys (load entries acc)).
Proof.
  induction entries as [|[k v] es IH]; simpl; intros acc H; auto.
  apply IH. now apply jsmap_NoDup_set.
Qed.

End Loading.

Lemma sanitize_not_running (j : JobStore.TrainingJob) :
  JobStore.status (JobStore.sanitize j) <> JobStore.running.
Proof. unfold JobStore.sanitize. destruct (JobStore.status j) eqn:E; simpl; congruence. Qed.

Lemma sanitize_running (j : JobStore.TrainingJob) :
  JobStore.status j = JobStore.running ->
  JobStore.status (JobStore.sanitize j) = JobStore.failed /\
  JobStore.error (JobStore.sanitize j) = Some JobStore.INTERRUPTED.
Proof. unfold JobStore.sanitize. intros ->. auto. Qed.

Lemma sanitize_other (j : JobStore.TrainingJob) :
  JobStore.status j <> JobStore.running -> JobStore.sanitize j = j.
Proof. unfold JobStore.sanitize. destruct (JobStore.status j); congruence. Qed.

(** Every persisted job is loaded, sanitized, under its key. *)
Lemma loadJobs_complete entries i j0 :
  List.NoDup (List.map fst entries) -> In (i, j0) entries ->
  JsMap.get i (JobStore.loadJobsFromDisk (Parsed entries)) = Some (JobStore.sanitize j0).
Proof. intros. now apply (load_get_In JobStore.sanitize). Qed.

(** C3. On process start every job the store holds comes from a persisted
    job by the sanitizing step: a job persisted as [running] is loaded as
    [failed] with the interrupted-by-restart message as its error, any other
    job is loaded as it was persisted; and every clone the clone store holds
    has [isRunning = false], whatever the file said. *)
Theorem C3_restart_sanitization :
  (forall file i j,
     JsMap.get i (JobStore.loadJobsFromDisk file) = Some j ->
     exists entries j0,
       file = Parsed entries /\ In (i, j0) entries /\
       (JobStore.status j0 = JobStore.running ->
        JobStore.status j = JobStore.failed /\
        JobStore.error j = Some "Training interrupted by server restart"%string) /\
       (JobStore.status j0 <> JobStore.running -> j = j0)) /\
  (forall now file i c,
     JsMap.get i (CloneStore.loadClonesFromDisk now file) = Some c ->
     CloneStore.isRunning c = Some false).
Proof.
  split.
  - intros [| |entries] i j H; simpl in H; try discriminate.
    apply (load_get_inv JobStore.sanitize) in H as [H|(j0 & Hin & ->)];
      [discriminate|].
    exists entries, j0. repeat split; auto.
    + now apply sanitize_running.
    + now apply sanitize_running.
    + apply sanitize_other.
  - intros now [| |entries] i c H; simpl in H.
    + destruct (String.eqb i "demo-clones"); inversion H; reflexivity.
    + discriminate.
    + apply (load_get_inv (CloneStore.set_isRunning (Some false))) in H
        as [H|(c0 & _ & ->)]; [discriminate | reflexivity].
Qed.

Lemma C3_restart_sanitization_witness :
  let file := Parsed [("j1"%string, c3_job JobStore.running)] in
  let cfile := Parsed [("c1"%string, c3_clone)] in
  JsMap.get "j1" (JobStore.loadJobsFromDisk file)
    = Some (JobStore.sanitize (c3_job JobStore.running)) /\
  (exists entries j0,
     file = Parsed entries /\ In ("j1"%string, j0) entries /\
     (JobStore.status j0 = JobStore.running ->
      JobStore.status (JobStore.sanitize (c3_job JobStore.running)) = JobStore.failed /\
      JobStore.error (JobStore.sanitize (c3_job JobStore.running))
        = Some "Training interrupted by server restart"%string) /\
     (JobStore.status j0 <> JobStore.running ->
      JobStore.sanitize (c3_job JobStore.running) = j0)) /\
  JsMap.get "c1" (CloneStore.loadClonesFromDisk 7 cfile)
    = Some (CloneStore.set_isRunning (Some false) c3_clone) /\
  CloneStore.isRunning (CloneStore.set_isRunning (Some false) c3_clone) = Some false.
Proof.
  intros file cfile. split; [reflexivity|]. split.
  - apply (proj1 C3_restart_sanitization file). reflexivity.
  - split; [reflexivity|].
    apply (proj2 C3_restart_sanitization 7 cfile "c1"%string). reflexivity.
Defined.

(** ** Order of [listJobs] and [listClones] *)


Lemma updateJob_keys now i data jobs :
  JsMap.keys (snd (JobStore.updateJob now i data jobs)) = JsMap.keys jobs.
Proof.
  unfold JobStore.updateJob. destruct (JsMap.get i jobs) eqn:G; simpl; auto.
  rewrite jsmap_keys_set. unfold JsMap.has. now rewrite G.
Qed.

Lemma appendLog_keys now i line jobs :
  JsMap.keys (JobStore.appendLog now i line jobs) = JsMap.keys jobs.
Proof.
  unfold JobStore.appendLog. destruct (JsMap.get i jobs) eqn:G; simpl; auto.
  rewrite jsmap_keys_set. unfold JsMap.has. now rewrite G.
Qed.

Lemma updateClone_keys now i data clones :
  JsMap.keys (snd (CloneStore.updateClone now i data clones)) = JsMap.keys clones.
Proof.
  unfold CloneStore.updateClone. destruct (JsMap.get i clones) eqn:G; simpl; auto.
  rewrite jsmap_keys_set. unfold JsMap.has. now rewrite G.
Qed.

Lemma updateJob_get_ne now i data jobs k :
  k <> i -> JsMap.get k (snd (JobStore.updateJob now i data jobs)) = JsMap.get k jobs.
Proof.
  intros Hne. unfold JobStore.updateJob. destruct (JsMap.get i jobs); simpl; auto.
  apply jsmap_get_set_ne. congruence.
Qed.

Lemma appendLog_get_ne now i line jobs k :
  k <> i -> JsMap.get k (JobStore.appendLog now i line jobs) = JsMap.get k jobs.
Proof.
  intros Hne. unfold JobStore.appendLog. destruct (JsMap.get i jobs); simpl; auto.
  apply jsmap_get_set_ne. congruence.
Qed.

Lemma updateClone_get_ne now i data clones k :
  k <> i ->
  JsMap.get k (snd (CloneStore.updateClone now i data clones)) = JsMap.get k clones.
Proof.
  intros Hne. unfold CloneStore.updateClone. destruct (JsMap.get i clones); simpl; auto.
  apply jsmap_get_set_ne. congruence.
Qed.

(** The in-memory [listJobs] and [listClones] return the records in
    insertion order: a record created under a new id goes last, and
    updating a record or appending to its log keeps the order of the keys
    and leaves the records under the other keys as they were. *)
Theorem list_is_insertion_order :
  (forall uuid now params jobs,
     JsMap.has uuid jobs = false ->
     JobStore.listJobs (snd (JobStore.createJob uuid now params jobs))
     = JobStore.listJobs jobs ++ [fst (JobStore.createJob uuid now params jobs)]) /\
  (forall uuid key now params clones,
     JsMap.has uuid clones = false ->
     CloneStore.listClones (snd (CloneStore.createClone uuid key now params clones))
     = CloneStore.listClones clones
       ++ [fst (CloneStore.createClone uuid key now params clones)]) /\
  (forall now i data jobs,
     JsMap.keys (snd (JobStore.updateJob now i data jobs)) = JsMap.keys jobs /\
     forall k, k <> i ->
       JsMap.get k (snd (JobStore.updateJob now i data jobs)) = JsMap.get k jobs) /\
  (forall now i line jobs,
     JsMap.keys (JobStore.appendLog now i line jobs) = JsMap.keys jobs /\
     forall k, k <> i ->
       JsMap.get k (JobStore.appendLog now i line jobs) = JsMap.get k jobs) /\
  (forall now i data clones,
     JsMap.keys (snd (CloneStore.updateClone now i data clones)) = JsMap.keys clones /\
     forall k, k <> i ->
       JsMap.get k (snd (CloneStore.updateClone now i data clones))
       = JsMap.get k clones).
Proof.
  repeat split.
  - intros. unfold JobStore.listJobs, JobStore.createJob. simpl.
    now apply jsmap_values_set_fresh.
  - intros. unfold CloneStore.listClones, CloneStore.createClone. simpl.
    now apply jsmap_values_set_fresh.
  - apply updateJob_keys.
  - intros. now apply updateJob_get_ne.
  - apply appendLog_keys.
  - intros. now apply appendLog_get_ne.
  - apply updateClone_keys.
  - intros. now apply updateClone_get_ne.
Qed.

Lemma list_is_insertion_order_witness :
  JsMap.has "b" (snd (JobStore.createJob "a" 1 c9_job_params JsMap.empty)) = false /\
  JobStore.listJobs c9_jobs
  = JobStore.listJobs (snd (JobStore.createJob "a" 1 c9_job_params JsMap.empty))
    ++ [fst (JobStore.createJob "b" 2 c9_job_params
               (snd (JobStore.createJob "a" 1 c9_job_params JsMap.empty)))] /\
  JsMap.has "b" (snd (CloneStore.createClone "a" "ka" 1 c9_clone_params JsMap.empty))
  = false /\
  CloneStore.listClones c9_clones
  = CloneStore.listClones
      (snd (CloneStore.createClone "a" "ka" 1 c9_clone_params JsMap.empty))
    ++ [fst (CloneStore.createClone "b" "kb" 2 c9_clone_params
               (snd (CloneStore.createClone "a" "ka" 1 c9_clone_params JsMap.empty)))].
Proof.
  split; [reflexivity|]. split.
  - apply (proj1 list_is_insertion_order). reflexivity.
  - split; [reflexivity|].
    apply (proj1 (proj2 list_is_insertion_order)). reflexivity.
Defined.

(** ** Worker manager *)

Section WorkerFacts.
Import WorkerManager.

Lemma updateClone_frame now c data s :
  workers (updateClone now c data s) = workers s /\
  records (updateClone now c data s) = records s /\
  listeners (updateClone now c data s) = listeners s /\
  os (updateClone now c data s) = os s /\
  alive (updateClone now c data s) = alive s /\
  killTimers (updateClone now c data s) = killTimers s /\
  pidFiles (updateClone now c data s) = pidFiles s /\
  monitoringInterval (updateClone now c data s) = monitoringInterval s /\
  jobs (updateClone now c data s) = jobs s.
Proof. repeat split. Qed.

Lemma mutate_frame r f s :
  workers (mutate r f s) = workers s /\
  listeners (mutate r f s) = listeners s /\
  os (mutate r f s) = os s /\
  alive (mutate r f s) = alive s /\
  killTimers (mutate r f s) = killTimers s /\
  pidFiles (mutate r f s) = pidFiles s /\
  monitoringInterval (mutate r f s) = monitoringInterval s /\
  clones (mutate r f s) = clones s /\
  jobs (mutate r f s) = jobs s /\
  List.length (records (mutate r f s)) = List.length (records s).
Proof.
  unfold mutate. destruct (records s !! r); simpl; repeat split; auto.
  apply length_insert.
Qed.

Lemma mutate_lookup_eq r f s rec :
  records s !! r = Some rec -> records (mutate r f s) !! r = Some (f rec).
Proof.
  intros H. unfold mutate. rewrite H. simpl.
  apply list_lookup_insert_eq. now apply lookup_lt_Some in H.
Qed.

Lemma mutate_lookup_ne r r' f s :
  r <> r' -> records (mutate r f s) !! r' = records s !! r'.
Proof.
  intros H. unfold mutate. destruct (records s !! r); simpl; auto.
  now apply list_lookup_insert_ne.
Qed.

(** [updateClone] with a patch that sets status and running flag. *)
Lemma updateClone_get_eq now c data s cl :
  JsMap.get c (clones s) = Some cl ->
  JsMap.get c (clones (updateClone now c data s))
  = Some (CloneStore.apply_patch now data cl).
Proof.
  intros H. unfold updateClone, CloneStore.updateClone. simpl. rewrite H. simpl.
  apply jsmap_get_set_eq.
Qed.

Lemma updateClone_get_other now c data s k :
  k <> c -> JsMap.get k (clones (updateClone now c data s)) = JsMap.get k (clones s).
Proof.
  intros H. unfold updateClone. simpl. now apply updateClone_get_ne.
Qed.

Lemma updateClone_has now c data s k :
  JsMap.has k (clones (updateClone now c data s)) = JsMap.has k (clones s).
Proof.
  unfold JsMap.has. destruct (String.eqb_spec k c) as [->|Hne].
  - destruct (JsMap.get c (clones s)) eqn:G.
    + now rewrite (updateClone_get_eq _ _ _ _ _ G).
    + unfold updateClone, CloneStore.updateClone. simpl. rewrite G. simpl. now rewrite G.
  - now rewrite updateClone_get_other.
Qed.

End WorkerFacts.

Section StartFacts.
Import WorkerManager.

Lemma killProcess_clones p s : clones (killProcess p s) = clones s.
Proof. unfold killProcess. now destruct (isProcessRunning p s). Qed.

Lemma killProcess_workers p s : workers (killProcess p s) = workers s.
Proof. unfold killProcess. now destruct (isProcessRunning p s). Qed.

Lemma start_check_frame cloneId s c s1 :
  start_check cloneId s = (c, s1) ->
  clones s1 = clones s /\ workers s1 = workers s /\ jobs s1 = jobs s /\
  records s1 = records s /\ listeners s1 = listeners s /\
  monitoringInterval s1 = monitoringInterval s.
Proof.
  unfold start_check. destruct (JsMap.has cloneId (workers s)).
  - intros H; inversion H; subst; auto 10.
  - destruct (readPidFile cloneId s) as [p|].
    + destruct (negb (Z.eqb p 0) && isProcessRunning p s).
      * intros H; inversion H; subst. unfold killProcess.
        destruct (isProcessRunning p s); simpl; auto 10.
      * intros H; inversion H; subst; auto 10.
    + intros H; inversion H; subst; auto 10.
Qed.

Lemma start_check_rejects cloneId s :
  JsMap.has cloneId (workers s) = true <->
  fst (start_check cloneId s) = AlreadyRunning.
Proof.
  unfold start_check. destruct (JsMap.has cloneId (workers s)); simpl.
  - tauto.
  - split; [discriminate|].
    destruct (readPidFile cloneId s) as [p|]; simpl; [|discriminate].
    destruct (negb (Z.eqb p 0) && isProcessRunning p s); discriminate.
Qed.

Lemma start_spawn_clones cloneId modelId jobKey ints newPid now s :
  clones (snd (start_spawn cloneId modelId jobKey ints newPid now s))
  = snd (CloneStore.updateClone now cloneId startPatch (clones s)).
Proof.
  unfold start_spawn, startHeartbeatMonitoring. simpl.
  destruct (monitoringInterval s); reflexivity.
Qed.

Lemma start_spawn_workers cloneId modelId jobKey ints newPid now s :
  workers (snd (start_spawn cloneId modelId jobKey ints newPid now s))
  = JsMap.set cloneId (List.length (records s)) (workers s).
Proof.
  unfold start_spawn, startHeartbeatMonitoring. simpl.
  destruct (monitoringInterval s); reflexivity.
Qed.

Lemma start_spawn_ok cloneId modelId jobKey ints newPid now s :
  fst (start_spawn cloneId modelId jobKey ints newPid now s) = StartOk newPid.
Proof. reflexivity. Qed.

Lemma startCloneWorker_ok_inv cloneId ints newPid now s p s' :
  startCloneWorker cloneId ints newPid now s = (StartOk p, s') ->
  exists c s1 cl modelId jobKey,
    start_check cloneId s = (c, s1) /\ c <> AlreadyRunning /\
    JsMap.get cloneId (clones s) = Some cl /\
    s' = snd (start_spawn cloneId modelId jobKey ints newPid now s1).
Proof.
  unfold startCloneWorker. destruct (start_check cloneId s) as [c s1] eqn:Hc.
  pose proof (start_check_frame _ _ _ _ Hc) as (Hcl & _).
  intros H.
  assert (c <> AlreadyRunning) as Hne by (intros ->; discriminate).
  assert (match start_lookup cloneId s1 with
          | inl err => (StartErr err, s1)
          | inr (modelId, jobKey) =>
              start_spawn cloneId modelId jobKey ints newPid now s1
          end = (StartOk p, s')) as H' by (destruct c; congruence).
  clear H. unfold start_lookup, CloneStore.getClone in H'. rewrite Hcl in H'.
  destruct (JsMap.get cloneId (clones s)) as [cl|] eqn:G; [|discriminate].
  eexists c, s1, cl, _, _. repeat split; auto.
  now inversion H'.
Qed.

(** C4, amended. A successful start sets the clone's [isRunning] to true,
    its [status] to [ready] and its [updatedAt] to the current time; every
    other field of the record, and every other clone, is left as it was. *)
Theorem C4_start_sets_running_and_ready cloneId ints newPid now s p s' :
  startCloneWorker cloneId ints newPid now s = (StartOk p, s') ->
  exists c,
    JsMap.get cloneId (clones s) = Some c /\
    JsMap.get cloneId (clones s') = Some (WorkerManager.started now c) /\
    forall k, k <> cloneId -> JsMap.get k (clones s') = JsMap.get k (clones s).
Proof.
  intros H. apply startCloneWorker_ok_inv in H
    as (c & s1 & cl & modelId & jobKey & Hc & _ & G & ->).
  apply start_check_frame in Hc as (Hcl & _).
  exists cl. rewrite start_spawn_clones, Hcl. repeat split; auto.
  - unfold CloneStore.updateClone. rewrite G. simpl. apply jsmap_get_set_eq.
  - intros k Hk. now apply updateClone_get_ne.
Qed.

End StartFacts.

(** C4, as stated, fails: starting a worker for a clone whose status is
    [failed] succeeds and leaves the clone [ready], so the record differs
    from the old one in more than [isRunning]. *)
Lemma C4_status_counterexample :
  ~ (forall s cloneId ints newPid now p s' c c',
       WorkerManager.startCloneWorker cloneId ints newPid now s
       = (WorkerManager.StartOk p, s') ->
       JsMap.get cloneId (WorkerManager.clones s) = Some c ->
       JsMap.get cloneId (WorkerManager.clones s') = Some c' ->
       c' = CloneStore.set_isRunning (Some true) c /\
       CloneStore.status c' = CloneStore.status c).
Proof.
  intros H.
  destruct (H c4_state "c1"%string [] 4242 1000 4242
              (snd (WorkerManager.startCloneWorker "c1" [] 4242 1000 c4_state))
              c4_clone (WorkerManager.started 1000 c4_clone)
              eq_refl eq_refl eq_refl) as [_ Hst].
  discriminate Hst.
Qed.

Lemma C4_start_sets_running_and_ready_witness :
  WorkerManager.startCloneWorker "c1" [] 4242 1000 c4_state
  = (WorkerManager.StartOk 4242,
     snd (WorkerManager.startCloneWorker "c1" [] 4242 1000 c4_state)) /\
  exists c,
    JsMap.get "c1" (WorkerManager.clones c4_state) = Some c /\
    JsMap.get "c1"
      (WorkerManager.clones
         (snd (WorkerManager.startCloneWorker "c1" [] 4242 1000 c4_state)))
    = Some (WorkerManager.started 1000 c) /\
    forall k, k <> "c1"%string ->
      JsMap.get k
        (WorkerManager.clones
           (snd (WorkerManager.startCloneWorker "c1" [] 4242 1000 c4_state)))
      = JsMap.get k (WorkerManager.clones c4_state).
Proof.
  split; [reflexivity|].
  apply (C4_start_sets_running_and_ready "c1" [] 4242 1000 c4_state 4242).
  reflexivity.
Defined.

(** ** The registry invariant *)

Section RegistryInvariant.
Import WorkerManager.

Lemma jsmap_In_delete {V} (k : string) (m : JsMap.t V) c r :
  In (c, r) (JsMap.delete k m) -> In (c, r) m.
Proof.
  induction m as [|[k0 v0] m IH]; simpl; auto.
  destruct (String.eqb k k0); simpl; intuition.
Qed.

Lemma jsmap_NoDup_values_delete {V} (k : string) (m : JsMap.t V) :
  List.NoDup (JsMap.values m) -> List.NoDup (JsMap.values (JsMap.delete k m)).
Proof.
  induction m as [|[k0 v0] m IH]; simpl; auto.
  intros H. apply List.NoDup_cons_iff in H as [Hv H].
  destruct (String.eqb k k0); simpl; auto.
  apply List.NoDup_cons_iff. split; auto.
  intros Hin. apply Hv. apply in_map_iff in Hin as [[c r] [Heq Hin]].
  simpl in Heq; subst r. apply in_map_iff. exists (c, v0). split; auto.
  now apply jsmap_In_delete in Hin.
Qed.

Lemma jsmap_In_set {V} (k : string) (v : V) (m : JsMap.t V) c r :
  In (c, r) (JsMap.set k v m) -> (c = k /\ r = v) \/ In (c, r) m.
Proof.
  induction m as [|[k0 v0] m IH]; simpl.
  - intros [H|[]]. inversion H; auto.
  - destruct (String.eqb_spec k k0) as [->|]; simpl.
    + intros [H|H]; [inversion H|]; auto.
    + intros [H|H]; auto. apply IH in H. tauto.
Qed.

Lemma jsmap_NoDup_values_set {V} (k : string) (v : V) (m : JsMap.t V) :
  List.NoDup (JsMap.values m) -> ~ In v (JsMap.values m) ->
  List.NoDup (JsMap.values (JsMap.set k v m)).
Proof.
  induction m as [|[k0 v0] m IH]; simpl.
  - intros _ _. apply List.NoDup_cons; [simpl; tauto | apply List.NoDup_nil].
  - intros H Hv. apply List.NoDup_cons_iff in H as [Hv0 H].
    destruct (String.eqb k k0); simpl.
    + apply List.NoDup_cons_iff. split; auto.
    + apply List.NoDup_cons_iff. split; [|apply IH; auto].
      intros Hin. apply in_map_iff in Hin as [[c r] [Heq Hin]].
      simpl in Heq; subst r. apply jsmap_In_set in Hin as [[_ ->]|Hin]; auto.
      apply Hv0. apply in_map_iff. now exists (c, v0).
Qed.

Lemma shrinks_refl s : shrinks s s.
Proof. repeat split; auto. Qed.

Lemma shrinks_trans s1 s2 s3 :
  workers s3 = workers s2 -> List.length (records s3) = List.length (records s2) ->
  (forall k, JsMap.has k (clones s3) = JsMap.has k (clones s2)) ->
  monitoringInterval s3 = monitoringInterval s2 ->
  shrinks s1 s2 -> shrinks s1 s3.
Proof.
  intros Hw Hr Hc Hm (Hw' & Hr' & Hc' & Hm'). repeat split.
  - now rewrite Hw.
  - congruence.
  - intros k. now rewrite Hc.
  - congruence.
Qed.

Lemma shrinks_updateClone now c data s0 s :
  shrinks s0 s -> shrinks s0 (updateClone now c data s).
Proof.
  apply shrinks_trans; auto. intros k. apply updateClone_has.
Qed.

Lemma shrinks_mutate r f s0 s : shrinks s0 s -> shrinks s0 (mutate r f s).
Proof.
  pose proof (mutate_frame r f s) as (Hw & _ & _ & _ & _ & _ & Hm & Hc & _ & Hl).
  apply shrinks_trans; auto. intros k. now rewrite Hc.
Qed.

Lemma shrinks_killProcess p s0 s : shrinks s0 s -> shrinks s0 (killProcess p s).
Proof.
  unfold killProcess. destruct (isProcessRunning p s); auto.
Qed.

Lemma shrinks_removePidFile c s0 s : shrinks s0 s -> shrinks s0 (removePidFile c s).
Proof. apply shrinks_trans; auto. Qed.

Lemma shrinks_delete k s :
  shrinks s (with_workers (JsMap.delete k (workers s)) s).
Proof. repeat split; simpl; eauto. Qed.

Lemma shrinks_monitorEntry now e s0 s :
  shrinks s0 s -> shrinks s0 (monitorEntry now s e).
Proof.
  intros H. unfold monitorEntry. destruct e as [c r].
  destruct (records s !! r) as [rec|]; auto.
  destruct (status rec); auto.
  destruct (Z.ltb HEARTBEAT_TIMEOUT_MS (now - lastHeartbeat rec)); auto.
  now apply shrinks_updateClone, shrinks_mutate.
Qed.

Lemma shrinks_fold_monitor now l : forall s0 s,
  shrinks s0 s -> shrinks s0 (List.fold_left (monitorEntry now) l s).
Proof.
  induction l as [|e l IH]; simpl; auto.
  intros s0 s H. apply IH. now apply shrinks_monitorEntry.
Qed.

Lemma shrinks_monitorTick now s : shrinks s (monitorTick now s).
Proof. apply shrinks_fold_monitor, shrinks_refl. Qed.

Lemma shrinks_onMessage c r msg now s : shrinks s (onMessage c r msg now s).
Proof.
  destruct msg; simpl.
  - apply shrinks_mutate, shrinks_mutate, shrinks_refl.
  - apply shrinks_mutate, shrinks_refl.
  - apply shrinks_updateClone, shrinks_mutate, shrinks_refl.
  - apply shrinks_refl.
Qed.

Lemma shrinks_onError c r now s : shrinks s (onError c r now s).
Proof. apply shrinks_updateClone, shrinks_mutate, shrinks_refl. Qed.

Lemma shrinks_onExit c now s0 s :
  workers s = workers s0 -> List.length (records s) = List.length (records s0) ->
  (forall k, JsMap.has k (clones s) = JsMap.has k (clones s0)) ->
  monitoringInterval s = monitoringInterval s0 ->
  shrinks s0 (onExit c now s).
Proof.
  intros Hw Hr Hc Hm. unfold onExit.
  apply shrinks_updateClone, shrinks_removePidFile.
  repeat split; simpl; auto. right. exists c. now rewrite Hw.
Qed.

Lemma shrinks_reap_exit c r now s : shrinks s (onExit c now (WorkerSys.reap r s)).
Proof.
  apply shrinks_onExit; unfold WorkerSys.reap; destruct (records s !! r); auto.
Qed.

Lemma shrinks_stop c now s : shrinks s (snd (stopCloneWorker c now s)).
Proof.
  unfold stopCloneWorker. destruct (JsMap.get c (workers s)) as [r|].
  - simpl. apply shrinks_updateClone, shrinks_removePidFile.
    set (s1 := match records s !! r with Some _ => _ | None => _ end).
    assert (workers s1 = workers s /\ List.length (records s1) = List.length (records s)
            /\ clones s1 = clones s /\ monitoringInterval s1 = monitoringInterval s)
      as (Hw & Hr & Hc & Hm).
    { subst s1. destruct (records s !! r) as [rec|]; auto.
      destruct (isProcessRunning (child_pid (child rec)) s); auto. }
    repeat split; simpl; auto.
    + right. exists c. now rewrite Hw.
    + intros k. now rewrite Hc.
  - destruct (readPidFile c s) as [p|]; [|apply shrinks_refl].
    destruct (negb (Z.eqb p 0) && isProcessRunning p s); [|apply shrinks_refl].
    simpl. apply shrinks_updateClone, shrinks_removePidFile, shrinks_killProcess,
      shrinks_refl.
Qed.

Lemma shrinks_fireKillTimer s : shrinks s (fireKillTimer s).
Proof.
  unfold fireKillTimer. destruct (killTimers s) as [|p rest]; [apply shrinks_refl|].
  destruct (isProcessRunning p _); repeat split; auto.
Qed.

Lemma shrinks_inv s pend s' pend' :
  shrinks s s' ->
  (forall c m jk, In (WorkerSys.AwaitIntegrations c m jk) pend' ->
     In (WorkerSys.AwaitIntegrations c m jk) pend \/
     JsMap.has c (clones s) = true) ->
  worker_inv (WorkerSys.mkSys s pend) -> worker_inv (WorkerSys.mkSys s' pend').
Proof.
  intros (Hw & Hr & Hc & Hm) Hp (I1 & I2 & I3 & I4 & I5 & I6).
  unfold worker_inv in *. simpl in *.
  assert (forall c r, In (c, r) (workers s') -> In (c, r) (workers s)) as Hin.
  { intros c r. destruct Hw as [->|[k ->]]; auto. apply jsmap_In_delete. }
  repeat split.
  - destruct Hw as [->|[k ->]]; auto. now apply jsmap_NoDup_delete.
  - destruct Hw as [->|[k ->]]; auto. now apply jsmap_NoDup_values_delete.
  - intros c r H. rewrite Hr. eauto.
  - intros c r H. rewrite Hc. eauto.
  - intros c m jk H. rewrite Hc. destruct (Hp _ _ _ H); eauto.
  - intros H. rewrite Hm. apply I6. intros E.
    destruct Hw as [Hw|[k Hw]]; rewrite Hw, E in H; auto.
Qed.

End RegistryInvariant.

Section Reachability.
Import WorkerManager.

Lemma shrinks_start_check cloneId s c s1 :
  start_check cloneId s = (c, s1) -> shrinks s s1.
Proof.
  intros H. apply start_check_frame in H as (Hc & Hw & _ & Hr & _ & Hm).
  repeat split; auto; [now rewrite Hr | intros k; now rewrite Hc].
Qed.

Lemma after_lookup_has cloneId s c m jk :
  In (WorkerSys.AwaitIntegrations c m jk) (WorkerSys.after_lookup cloneId s) ->
  JsMap.has c (clones s) = true.
Proof.
  unfold WorkerSys.after_lookup, start_lookup, CloneStore.getClone, JsMap.has.
  destruct (JsMap.get cloneId (clones s)) eqn:G; simpl; [|tauto].
  intros [H|[]]. inversion H; subst. now rewrite G.
Qed.

Lemma worker_inv_spawn cloneId modelId jobKey ints newPid now p1 p2 s :
  WorkerSys.pending s = p1 ++ WorkerSys.AwaitIntegrations cloneId modelId jobKey :: p2 ->
  worker_inv s ->
  worker_inv
    (WorkerSys.mkSys
       (snd (start_spawn cloneId modelId jobKey ints newPid now (WorkerSys.st s)))
       (p1 ++ p2)).
Proof.
  intros Hp (I1 & I2 & I3 & I4 & I5 & I6). unfold worker_inv.
  cbn [WorkerSys.st WorkerSys.pending]. cbv zeta.
  set (m := WorkerSys.st s) in *.
  assert (JsMap.has cloneId (clones m) = true) as Hc.
  { apply (I5 cloneId modelId jobKey). rewrite Hp. apply in_or_app. right. now left. }
  assert (forall k, JsMap.has k (clones (snd (start_spawn cloneId modelId jobKey ints
                                               newPid now m)))
                    = JsMap.has k (clones m)) as Hhas.
  { intros k. rewrite start_spawn_clones.
    change (JsMap.has k (clones (updateClone now cloneId startPatch m))
            = JsMap.has k (clones m)).
    apply updateClone_has. }
  assert (List.length (records (snd (start_spawn cloneId modelId jobKey ints newPid
                                       now m)))
          = S (List.length (records m))) as Hlen.
  { unfold start_spawn, startHeartbeatMonitoring. simpl.
    destruct (monitoringInterval m); simpl; rewrite length_app; simpl; lia. }
  rewrite start_spawn_workers.
  repeat split.
  - now apply jsmap_NoDup_set.
  - apply jsmap_NoDup_values_set; auto.
    intros Hin. apply in_map_iff in Hin as [[c r] [Heq Hin]]. simpl in Heq; subst r.
    apply I3 in Hin. lia.
  - intros c r Hin. rewrite Hlen. apply jsmap_In_set in Hin as [[_ ->]|Hin]; [lia|].
    apply I3 in Hin. lia.
  - intros c r Hin. rewrite Hhas. apply jsmap_In_set in Hin as [[-> _]|Hin]; eauto.
  - intros c mo jk Hin. rewrite Hhas. apply (I5 c mo jk). rewrite Hp.
    apply in_app_or in Hin as [Hin|Hin]; apply in_or_app; [left|right; right]; auto.
  - intros _. unfold start_spawn, startHeartbeatMonitoring. simpl.
    destruct (monitoringInterval m) eqn:E; simpl; auto.
Qed.

Lemma worker_inv_step s s' :
  worker_inv s -> WorkerSys.step s s' -> worker_inv s'.
Proof.
  intros I Hstep. destruct s as [m pend].
  inversion Hstep; subst; simpl in *.
  - eapply shrinks_inv; [eapply shrinks_start_check; eauto| |exact I].
    intros c0 mo jk Hin. apply in_app_or in Hin as [Hin|Hin]; auto.
    right. destruct c; simpl in Hin; try tauto.
    { destruct Hin as [Hin|[]]. discriminate Hin. }
    apply after_lookup_has in Hin.
    apply start_check_frame in H as (Hc & _). now rewrite <- Hc.
  - eapply shrinks_inv; [apply shrinks_refl| |exact I].
    intros c mo jk Hin. rewrite H.
    apply in_app_or in Hin as [Hin|Hin]; [left; apply in_or_app; auto|].
    apply in_app_or in Hin as [Hin|Hin].
    + left. apply in_or_app. right. now right.
    + right. eapply after_lookup_has; eauto.
  - now apply (worker_inv_spawn cloneId modelId jobKey integrations newPid now p1 p2
                 (WorkerSys.mkSys m pend)).
  - eapply shrinks_inv; [apply shrinks_stop| |exact I]. auto.
  - eapply shrinks_inv; [apply shrinks_onMessage| |exact I]. auto.
  - eapply shrinks_inv; [apply shrinks_onError| |exact I]. auto.
  - eapply shrinks_inv; [apply shrinks_reap_exit| |exact I]. auto.
  - eapply shrinks_inv; [apply shrinks_monitorTick| |exact I]. auto.
  - eapply shrinks_inv; [apply shrinks_fireKillTimer| |exact I]. auto.
  - eapply shrinks_inv; [|  |exact I]; [repeat split; auto|auto].
Qed.

Lemma worker_inv_reachable s : WorkerSys.reachable s -> worker_inv s.
Proof.
  induction 1 as [s (Hw & Hr & Hl & Hk & Hm & Ho & Hp)|s s' _ IH Hstep].
  - unfold worker_inv. rewrite Hw, Hp. simpl. repeat split; try tauto;
      apply List.NoDup_nil.
  - eapply worker_inv_step; eauto.
Qed.

End Reachability.

Section Monitor.
Import WorkerManager.

Lemma monitorEntry_quiet now s e :
  os (monitorEntry now s e) = os s /\
  killTimers (monitorEntry now s e) = killTimers s /\
  alive (monitorEntry now s e) = alive s /\
  pidFiles (monitorEntry now s e) = pidFiles s /\
  workers (monitorEntry now s e) = workers s.
Proof.
  unfold monitorEntry. destruct e as [c r].
  destruct (records s !! r) as [rec|]; auto.
  destruct (status rec); auto.
  destruct (Z.ltb HEARTBEAT_TIMEOUT_MS (now - lastHeartbeat rec)); auto.
  unfold mutate. destruct (records s !! r); auto.
Qed.

Lemma monitorTick_quiet_fold now l : forall s,
  os (List.fold_left (monitorEntry now) l s) = os s /\
  killTimers (List.fold_left (monitorEntry now) l s) = killTimers s /\
  alive (List.fold_left (monitorEntry now) l s) = alive s /\
  pidFiles (List.fold_left (monitorEntry now) l s) = pidFiles s /\
  workers (List.fold_left (monitorEntry now) l s) = workers s.
Proof.
  induction l as [|e l IH]; simpl; auto.
  intros s. destruct (IH (monitorEntry now s e)) as (-> & -> & -> & -> & ->).
  apply monitorEntry_quiet.
Qed.

Lemma monitorEntry_record_other now s c' r' r :
  r' <> r -> records (monitorEntry now s (c', r')) !! r = records s !! r.
Proof.
  intros Hne. unfold monitorEntry.
  destruct (records s !! r') as [rec|]; auto.
  destruct (status rec); auto.
  destruct (Z.ltb HEARTBEAT_TIMEOUT_MS (now - lastHeartbeat rec)); auto.
  simpl. now apply mutate_lookup_ne.
Qed.

Lemma monitorEntry_clone_other now s c' r' c :
  c' <> c ->
  JsMap.get c (clones (monitorEntry now s (c', r'))) = JsMap.get c (clones s).
Proof.
  intros Hne. unfold monitorEntry.
  destruct (records s !! r') as [rec|]; auto.
  destruct (status rec); auto.
  destruct (Z.ltb HEARTBEAT_TIMEOUT_MS (now - lastHeartbeat rec)); auto.
  rewrite updateClone_get_other by congruence.
  now destruct (mutate_frame r' (set_record_status error) s)
    as (_ & _ & _ & _ & _ & _ & _ & -> & _).
Qed.

Lemma monitor_fold_other now l c r : forall s,
  ~ In c (JsMap.keys l) -> ~ In r (JsMap.values l) ->
  records (List.fold_left (monitorEntry now) l s) !! r = records s !! r /\
  JsMap.get c (clones (List.fold_left (monitorEntry now) l s))
  = JsMap.get c (clones s).
Proof.
  induction l as [|[c' r'] l IH]; [simpl; auto|].
  intros s Hc Hr. cbn [List.fold_left]. simpl in Hc, Hr.
  destruct (IH (monitorEntry now s (c', r'))) as [-> ->]; try tauto.
  split.
  - apply monitorEntry_record_other. tauto.
  - apply monitorEntry_clone_other. tauto.
Qed.

Lemma monitorEntry_timeout now s c r rec cl :
  records s !! r = Some rec -> status rec = running ->
  HEARTBEAT_TIMEOUT_MS < now - lastHeartbeat rec ->
  JsMap.get c (clones s) = Some cl ->
  records (monitorEntry now s (c, r)) !! r = Some (set_record_status error rec) /\
  JsMap.get c (clones (monitorEntry now s (c, r)))
  = Some (CloneStore.apply_patch now failedPatch cl).
Proof.
  intros Hrec Hst Hlate Hcl. unfold monitorEntry. rewrite Hrec, Hst.
  apply Z.ltb_lt in Hlate. rewrite Hlate. split.
  - simpl. now apply mutate_lookup_eq.
  - apply updateClone_get_eq.
    now destruct (mutate_frame r (set_record_status error) s)
      as (_ & _ & _ & _ & _ & _ & _ & -> & _).
Qed.

Lemma jsmap_get_split {V} (k : string) (v : V) (m : JsMap.t V) :
  List.NoDup (JsMap.keys m) -> List.NoDup (JsMap.values m) ->
  JsMap.get k m = Some v ->
  exists l1 l2, m = l1 ++ (k, v) :: l2 /\
    ~ In k (JsMap.keys l1) /\ ~ In k (JsMap.keys l2) /\
    ~ In v (JsMap.values l1) /\ ~ In v (JsMap.values l2).
Proof.
  intros Hk Hv G. apply jsmap_get_In in G. apply in_split in G as (l1 & l2 & ->).
  exists l1, l2. split; auto.
  unfold JsMap.keys, JsMap.values in *. rewrite map_app in Hk, Hv. simpl in Hk, Hv.
  split; [|split; [|split]].
  - intros H. apply NoDup_remove_2 in Hk. apply Hk, in_or_app. auto.
  - intros H. apply NoDup_remove_2 in Hk. apply Hk, in_or_app. auto.
  - intros H. apply NoDup_remove_2 in Hv. apply Hv, in_or_app. auto.
  - intros H. apply NoDup_remove_2 in Hv. apply Hv, in_or_app. auto.
Qed.

(** C7. In every state the manager reaches, for a registered worker whose
    record is [running] and whose last heartbeat is more than
    [HEARTBEAT_TIMEOUT_MS] = 20000 ms before [now], the monitor callback is
    installed and, run at [now], leaves the record in [error] and the clone
    [failed] (and not running); it issues no process operation at all - no
    signal, no fork - arms no kill timer and keeps the registry and the pid
    files. *)
Theorem C7_heartbeat_timeout s now cloneId r rec :
  WorkerSys.reachable s ->
  JsMap.get cloneId (workers (WorkerSys.st s)) = Some r ->
  records (WorkerSys.st s) !! r = Some rec ->
  status rec = running ->
  HEARTBEAT_TIMEOUT_MS < now - lastHeartbeat rec ->
  let s' := monitorTick now (WorkerSys.st s) in
  HEARTBEAT_TIMEOUT_MS = 20000 /\ MONITOR_INTERVAL_MS = 10000 /\
  WorkerSys.step s (WorkerSys.mkSys s' (WorkerSys.pending s)) /\
  records s' !! r = Some (set_record_status error rec) /\
  (exists cl cl',
     JsMap.get cloneId (clones (WorkerSys.st s)) = Some cl /\
     JsMap.get cloneId (clones s') = Some cl' /\
     CloneStore.status cl' = CloneStore.failed /\
     CloneStore.isRunning cl' = Some false) /\
  os s' = os (WorkerSys.st s) /\
  killTimers s' = killTimers (WorkerSys.st s) /\
  alive s' = alive (WorkerSys.st s) /\
  pidFiles s' = pidFiles (WorkerSys.st s) /\
  workers s' = workers (WorkerSys.st s).
Proof.
  intros Hreach Hget Hrec Hst Hlate s'.
  pose proof (worker_inv_reachable s Hreach) as (I1 & I2 & I3 & I4 & I5 & I6).
  cbv zeta in *. set (m := WorkerSys.st s) in *.
  split; [reflexivity|]. split; [reflexivity|]. split.
  { apply WorkerSys.step_tick. apply I6. intros E. fold m in E. rewrite E in Hget.
    discriminate. }
  destruct (monitorTick_quiet_fold now (workers m) m) as (Ho & Hk & Ha & Hp & Hw).
  fold (monitorTick now m) in Ho, Hk, Ha, Hp, Hw. fold s' in Ho, Hk, Ha, Hp, Hw.
  destruct (jsmap_get_split _ _ _ I1 I2 Hget) as (l1 & l2 & Hm & K1 & K2 & V1 & V2).
  assert (JsMap.has cloneId (clones m) = true) as Hhas.
  { apply (I4 cloneId r). now apply jsmap_get_In. }
  unfold JsMap.has in Hhas.
  destruct (JsMap.get cloneId (clones m)) as [cl|] eqn:Hcl; [|discriminate].
  subst s'. unfold monitorTick. rewrite Hm, fold_left_app.
  cbn [List.fold_left].
  destruct (monitor_fold_other now l1 cloneId r m K1 V1) as [R1 C1].
  set (m1 := List.fold_left (monitorEntry now) l1 m) in *.
  rewrite <- R1 in Hrec. rewrite <- C1 in Hcl.
  destruct (monitorEntry_timeout now m1 cloneId r rec cl Hrec Hst Hlate Hcl)
    as [R2 C2].
  destruct (monitor_fold_other now l2 cloneId r (monitorEntry now m1 (cloneId, r))
              K2 V2) as [R3 C3].
  split; [now rewrite R3|]. split.
  - exists cl, (CloneStore.apply_patch now failedPatch cl).
    split; [reflexivity|].
    split; [exact (eq_trans C3 C2)|]. auto.
  - replace (List.fold_left (monitorEntry now) l2 (monitorEntry now m1 (cloneId, r)))
      with (monitorTick now m);
      [rewrite <- Hm; repeat split; assumption|].
    unfold monitorTick. rewrite Hm, fold_left_app. reflexivity.
Qed.

End Monitor.

Section Samples.
Import WorkerManager.

Lemma w_sys3_reachable : WorkerSys.reachable w_sys3.
Proof.
  assert (WorkerSys.reachable w_sys0) as H0.
  { apply WorkerSys.reach_fresh. repeat split. }
  assert (WorkerSys.reachable w_sys1) as H1.
  { apply (WorkerSys.reach_step w_sys0); auto.
    exact (WorkerSys.step_start "c1" w_sys0 Clear c4_state eq_refl). }
  assert (WorkerSys.reachable w_sys2) as H2.
  { apply (WorkerSys.reach_step w_sys1); auto.
    exact (WorkerSys.step_spawn "c1" "m" None [] 4242 1000 [] [] w_sys1
             eq_refl eq_refl). }
  apply (WorkerSys.reach_step w_sys2); auto.
  apply (WorkerSys.step_message "c1" 0%nat heartbeat 2000 w_sys2).
  simpl. auto.
Qed.

Lemma w_sys4_reachable : WorkerSys.reachable w_sys4.
Proof.
  apply (WorkerSys.reach_step w_sys3); [apply w_sys3_reachable|].
  apply (WorkerSys.step_tick 30000 w_sys3). reflexivity.
Qed.

Lemma C7_heartbeat_timeout_witness :
  JsMap.get "c1" (workers (WorkerSys.st w_sys3)) = Some 0%nat /\
  records (WorkerSys.st w_sys3) !! 0%nat
  = Some (mkWorkerRecord (mkChildProcess 4242) running 2000 4242) /\
  HEARTBEAT_TIMEOUT_MS < 30000 - 2000 /\
  records (monitorTick 30000 (WorkerSys.st w_sys3)) !! 0%nat
  = Some (mkWorkerRecord (mkChildProcess 4242) error 2000 4242) /\
  os (monitorTick 30000 (WorkerSys.st w_sys3)) = os (WorkerSys.st w_sys3).
Proof.
  pose proof (C7_heartbeat_timeout w_sys3 30000 "c1" 0%nat
                (mkWorkerRecord (mkChildProcess 4242) running 2000 4242)
                w_sys3_reachable eq_refl eq_refl eq_refl eq_refl)
    as (_ & _ & _ & Hrec & _ & Hos & _).
  split; [reflexivity|]. split; [reflexivity|]. split; [reflexivity|].
  split; [exact Hrec | exact Hos].
Defined.

End Samples.

Section OneWorker.
Import WorkerManager.

Lemma jsmap_has_set_ne {V} (k k' : string) (v : V) (m : JsMap.t V) :
  k <> k' -> JsMap.has k' (JsMap.set k v m) = JsMap.has k' m.
Proof. intros H. unfold JsMap.has. now rewrite jsmap_get_set_ne. Qed.

Lemma jsmap_has_set_eq {V} (k : string) (v : V) (m : JsMap.t V) :
  JsMap.has k (JsMap.set k v m) = true.
Proof. unfold JsMap.has. now rewrite jsmap_get_set_eq. Qed.

Lemma step_to s s1 s2 : WorkerSys.step s s1 -> s1 = s2 -> WorkerSys.step s s2.
Proof. now intros H <-. Qed.

Lemma start_check_clear cloneId s :
  JsMap.has cloneId (workers s) = false -> readPidFile cloneId s = None ->
  start_check cloneId s = (Clear, s).
Proof. intros H1 H2. unfold start_check. now rewrite H1, H2. Qed.

Lemma start_spawn_state cloneId modelId jobKey ints newPid now s :
  let s' := snd (start_spawn cloneId modelId jobKey ints newPid now s) in
  alive s' = newPid :: alive s /\
  records s' = records s ++ [mkWorkerRecord (mkChildProcess newPid) starting now newPid] /\
  pidFiles s' = <[cloneId := newPid]> (pidFiles s) /\
  killTimers s' = killTimers s /\
  (exists env, os s' = os s ++ [Fork env newPid] /\ CLONE_ID env = cloneId).
Proof.
  cbv zeta. unfold start_spawn, startHeartbeatMonitoring. cbn [snd].
  destruct (monitoringInterval _) eqn:E; cbn; repeat split; eexists; split; reflexivity.
Qed.

(** C6. The guard on the registry and the registration are separated by the
    wait for [getIntegrations].  In a state the manager reaches, with no
    record and no pid file for the clone, two starts for the same clone
    both pass the guard and both run to their end: two workers are forked
    for the one clone and both are alive; the registry has the one key,
    now for the second record, and the first worker is known to nothing.
    A stop that follows signals the second worker only, and leaves the
    first one running with no record for the clone. *)
Theorem C6_concurrent_starts_both_fork
    s pend cloneId modelId jobKey ints1 ints2 pid1 pid2 now1 now2 :
  WorkerSys.reachable (WorkerSys.mkSys s pend) ->
  JsMap.has cloneId (workers s) = false ->
  readPidFile cloneId s = None ->
  start_lookup cloneId s = inr (modelId, jobKey) ->
  isProcessRunning pid1 s = false ->
  isProcessRunning pid2 s = false ->
  pid1 <> pid2 ->
  let s1 := snd (start_spawn cloneId modelId jobKey ints1 pid1 now1 s) in
  let s2 := snd (start_spawn cloneId modelId jobKey ints2 pid2 now2 s1) in
  fst (start_check cloneId s) = Clear /\
  fst (start_spawn cloneId modelId jobKey ints1 pid1 now1 s) = StartOk pid1 /\
  fst (start_spawn cloneId modelId jobKey ints2 pid2 now2 s1) = StartOk pid2 /\
  WorkerSys.reachable (WorkerSys.mkSys s2 pend) /\
  (exists env1 env2,
     os s2 = os s ++ [Fork env1 pid1; Fork env2 pid2] /\
     CLONE_ID env1 = cloneId /\ CLONE_ID env2 = cloneId) /\
  isProcessRunning pid1 s2 = true /\
  isProcessRunning pid2 s2 = true /\
  List.length (records s2) = S (S (List.length (records s))) /\
  getWorkerStatus cloneId s2 = Some (mkWorkerInfo starting now2 pid2) /\
  (forall now3,
     fst (stopCloneWorker cloneId now3 s2) = StopOk false /\
     os (snd (stopCloneWorker cloneId now3 s2)) = os s2 ++ [Kill pid2 SIGTERM] /\
     isProcessRunning pid1 (snd (stopCloneWorker cloneId now3 s2)) = true /\
     getWorkerStatus cloneId (snd (stopCloneWorker cloneId now3 s2)) = None).
Proof.
  intros Hreach Hhas Hpid Hlook Ha1 Ha2 Hne s1 s2.
  pose proof (start_check_clear cloneId s Hhas Hpid) as Hcheck.
  assert (WorkerSys.after_lookup cloneId s
          = [WorkerSys.AwaitIntegrations cloneId modelId jobKey]) as Hafter
    by (unfold WorkerSys.after_lookup; now rewrite Hlook).
  destruct (start_spawn_state cloneId modelId jobKey ints1 pid1 now1 s)
    as (A1 & R1 & F1 & K1 & env1 & O1 & E1). fold s1 in A1, R1, F1, K1, O1.
  destruct (start_spawn_state cloneId modelId jobKey ints2 pid2 now2 s1)
    as (A2 & R2 & F2 & K2 & env2 & O2 & E2). fold s2 in A2, R2, F2, K2, O2.
  assert (isProcessRunning pid2 s1 = false) as Ha2'.
  { unfold isProcessRunning in *. rewrite A1. cbn [existsb]. rewrite Ha2.
    assert (Z.eqb pid2 pid1 = false) as -> by (apply Z.eqb_neq; congruence).
    reflexivity. }
  assert (workers s2 = JsMap.set cloneId (List.length (records s1)) (workers s1)) as W2
    by apply start_spawn_workers.
  assert (JsMap.get cloneId (workers s2) = Some (S (List.length (records s)))) as G2.
  { rewrite W2, jsmap_get_set_eq, R1, List.length_app. simpl. f_equal. lia. }
  assert (records s2 !! S (List.length (records s))
          = Some (mkWorkerRecord (mkChildProcess pid2) starting now2 pid2)) as L2n.
  { rewrite R2, R1. rewrite lookup_app_r; rewrite List.length_app; simpl; [|lia].
    now replace (S (List.length (records s)) - (List.length (records s) + 1))%nat
      with 0%nat by lia. }
  assert (records s2 !! (S (List.length (records s)) : Ref)
          = Some (mkWorkerRecord (mkChildProcess pid2) starting now2 pid2)) as L2
    by exact L2n.
  split; [now rewrite Hcheck|]. split; [reflexivity|]. split; [reflexivity|].
  split.
  { assert (WorkerSys.reachable
              (WorkerSys.mkSys s
                 (pend ++ [WorkerSys.AwaitIntegrations cloneId modelId jobKey])))
      as Hr1.
    { apply (WorkerSys.reach_step (WorkerSys.mkSys s pend)); [exact Hreach|].
      apply (step_to _ _ _ (WorkerSys.step_start cloneId (WorkerSys.mkSys s pend)
                              Clear s Hcheck)).
      cbn [WorkerSys.pending]. now rewrite Hafter. }
    assert (WorkerSys.reachable
              (WorkerSys.mkSys s
                 ((pend ++ [WorkerSys.AwaitIntegrations cloneId modelId jobKey])
                  ++ [WorkerSys.AwaitIntegrations cloneId modelId jobKey])))
      as Hr2.
    { apply (WorkerSys.reach_step _ _ Hr1).
      apply (step_to _ _ _
               (WorkerSys.step_start cloneId
                  (WorkerSys.mkSys s
                     (pend ++ [WorkerSys.AwaitIntegrations cloneId modelId jobKey]))
                  Clear s Hcheck)).
      cbn [WorkerSys.pending]. now rewrite Hafter. }
    assert (WorkerSys.reachable
              (WorkerSys.mkSys s1
                 (pend ++ [WorkerSys.AwaitIntegrations cloneId modelId jobKey])))
      as Hr3.
    { apply (WorkerSys.reach_step _ _ Hr2).
      apply (step_to _ _ _
               (WorkerSys.step_spawn cloneId modelId jobKey ints1 pid1 now1 pend
                  [WorkerSys.AwaitIntegrations cloneId modelId jobKey]
                  (WorkerSys.mkSys s
                     ((pend ++ [WorkerSys.AwaitIntegrations cloneId modelId jobKey])
                      ++ [WorkerSys.AwaitIntegrations cloneId modelId jobKey]))
                  (eq_sym (app_assoc _ _ _)) Ha1)).
      reflexivity. }
    apply (WorkerSys.reach_step _ _ Hr3).
    apply (step_to _ _ _
             (WorkerSys.step_spawn cloneId modelId jobKey ints2 pid2 now2 pend []
                (WorkerSys.mkSys s1
                   (pend ++ [WorkerSys.AwaitIntegrations cloneId modelId jobKey]))
                eq_refl Ha2')).
    cbn [WorkerSys.st]. now rewrite app_nil_r. }
  split.
  { exists env1, env2. rewrite O2, O1, <- app_assoc. auto. }
  split.
  { unfold isProcessRunning. rewrite A2, A1. cbn [existsb].
    rewrite Z.eqb_refl. now rewrite orb_true_r. }
  split.
  { unfold isProcessRunning. rewrite A2. cbn [existsb]. now rewrite Z.eqb_refl. }
  split.
  { rewrite R2, R1, !List.length_app. simpl. lia. }
  split.
  { unfold getWorkerStatus. now rewrite G2, L2. }
  intros now3. clearbody s2 s1.
  assert (isProcessRunning pid2 s2 = true) as Hrun2
    by (unfold isProcessRunning; rewrite A2; cbn [existsb]; now rewrite Z.eqb_refl).
  assert (stopCloneWorker cloneId now3 s2
          = (StopOk false,
             updateClone now3 cloneId (isRunningPatch false)
               (removePidFile cloneId
                  (with_workers
                     (JsMap.delete cloneId (workers (emit (Kill pid2 SIGTERM) s2)))
                     (emit (Kill pid2 SIGTERM) s2))))) as ->.
  { unfold stopCloneWorker. rewrite G2, L2. cbn [child child_pid]. now rewrite Hrun2. }
  cbn [fst snd]. split; [reflexivity|]. split; [reflexivity|]. split.
  - unfold isProcessRunning.
    cbn [alive updateClone removePidFile with_workers with_pidFiles with_clones emit].
    rewrite A2, A1. cbn [existsb]. rewrite Z.eqb_refl. now rewrite orb_true_r.
  - unfold getWorkerStatus.
    cbn [workers updateClone removePidFile with_workers with_pidFiles with_clones emit].
    now rewrite jsmap_get_delete_eq.
Qed.

Lemma C6_concurrent_starts_both_fork_witness :
  isProcessRunning 4242
    (snd (start_spawn "c1" "m" None [] 4343 1001
            (snd (start_spawn "c1" "m" None [] 4242 1000 c4_state)))) = true /\
  isProcessRunning 4343
    (snd (start_spawn "c1" "m" None [] 4343 1001
            (snd (start_spawn "c1" "m" None [] 4242 1000 c4_state)))) = true /\
  getWorkerStatus "c1"
    (snd (start_spawn "c1" "m" None [] 4343 1001
            (snd (start_spawn "c1" "m" None [] 4242 1000 c4_state))))
  = Some (mkWorkerInfo starting 1001 4343).
Proof.
  assert (WorkerSys.reachable (WorkerSys.mkSys c4_state [])) as Hr
    by (apply WorkerSys.reach_fresh; repeat split).
  assert (4242 <> 4343) as Hne by lia.
  destruct (C6_concurrent_starts_both_fork c4_state [] "c1" "m" None [] [] 4242 4343
              1000 1001 Hr eq_refl eq_refl eq_refl eq_refl eq_refl Hne)
    as (_ & _ & _ & _ & _ & H1 & H2 & _ & H3 & _).
  split; [exact H1|]. split; [exact H2 | exact H3].
Defined.

(** C10. A heartbeat received for a record whose status is [error] sets the
    record back to [running] with [lastHeartbeat] at the time of receipt; it
    writes nothing to the clone store, so a clone that is [failed] and not
    running stays so, and it keeps the registry and issues no process
    operation. *)
Theorem C10_heartbeat_revives_record cloneId r rec now s :
  records s !! r = Some rec ->
  status rec = error ->
  let s' := onMessage cloneId r heartbeat now s in
  records s' !! r = Some (mkWorkerRecord (child rec) running now (pid rec)) /\
  clones s' = clones s /\
  (forall cl, JsMap.get cloneId (clones s) = Some cl ->
     CloneStore.status cl = CloneStore.failed ->
     CloneStore.isRunning cl = Some false ->
     exists cl', JsMap.get cloneId (clones s') = Some cl' /\
       CloneStore.status cl' = CloneStore.failed /\
       CloneStore.isRunning cl' = Some false) /\
  workers s' = workers s /\ os s' = os s /\
  (JsMap.get cloneId (workers s) = Some r ->
   getWorkerStatus cloneId s' = Some (mkWorkerInfo running now (pid rec))).
Proof.
  intros Hrec Hst s'. subst s'. simpl.
  pose proof (mutate_lookup_eq r (set_record_status running) s rec Hrec) as H1.
  pose proof (mutate_lookup_eq r (set_record_heartbeat now) _ _ H1) as H2.
  destruct (mutate_frame r (set_record_status running) s)
    as (Hw1 & _ & Ho1 & _ & _ & _ & _ & Hc1 & _).
  destruct (mutate_frame r (set_record_heartbeat now)
              (mutate r (set_record_status running) s))
    as (Hw2 & _ & Ho2 & _ & _ & _ & _ & Hc2 & _).
  split; [exact H2|]. split; [congruence|]. split.
  { intros cl G Hf Hr. exists cl. rewrite Hc2, Hc1. auto. }
  split; [congruence|]. split; [congruence|].
  intros G. unfold getWorkerStatus. rewrite Hw2, Hw1, G, H2. reflexivity.
Qed.

Lemma C10_heartbeat_revives_record_witness :
  records (WorkerSys.st w_sys4) !! 0%nat
  = Some (mkWorkerRecord (mkChildProcess 4242) error 2000 4242) /\
  (exists cl, JsMap.get "c1" (clones (WorkerSys.st w_sys4)) = Some cl /\
     CloneStore.status cl = CloneStore.failed /\
     CloneStore.isRunning cl = Some false) /\
  records (onMessage "c1" 0%nat heartbeat 31000 (WorkerSys.st w_sys4)) !! 0%nat
  = Some (mkWorkerRecord (mkChildProcess 4242) running 31000 4242) /\
  clones (onMessage "c1" 0%nat heartbeat 31000 (WorkerSys.st w_sys4))
  = clones (WorkerSys.st w_sys4).
Proof.
  pose proof (C10_heartbeat_revives_record "c1" 0%nat
                (mkWorkerRecord (mkChildProcess 4242) error 2000 4242) 31000
                (WorkerSys.st w_sys4) eq_refl eq_refl) as (H1 & H2 & _).
  split; [reflexivity|]. split.
  - eexists. split; [reflexivity|]. split; reflexivity.
  - split; [exact H1 | exact H2].
Defined.

End OneWorker.

(** ** Shape of the training programs *)

Section ProgramShape.
Import Async Orchestrator.

Lemma Silent_bind {A B} b (p : Prog A) (f : A -> Prog B) :
  Silent b p -> (forall a, Silent b (f a)) -> Silent b (bind p f).
Proof.
  intros Hp Hf. induction Hp; simpl; auto.
  - now apply Silent_throw.
  - apply Silent_vis; auto.
Qed.

Lemma Silent_weaken {A} (p : Prog A) : Silent false p -> Silent true p.
Proof.
  induction 1; [apply Silent_ret | discriminate | apply Silent_vis; auto].
Qed.

Lemma Silent_call {X} b (ev : Event X) : silent ev = true -> Silent b (call ev).
Proof. intros H. apply Silent_vis; auto. intros x. apply Silent_ret. Qed.

Lemma Silent_try {A} b (p : Prog A) h :
  Silent true p -> (forall m, Silent b (h m)) -> Silent b (try_catch p h).
Proof.
  intros Hp Hh. induction Hp; simpl; auto.
  - apply Silent_ret.
  - apply Silent_vis; auto.
Qed.

Lemma Silent_try_nothrow {A} (p : Prog A) h :
  Silent false p -> Silent false (try_catch p h).
Proof.
  induction 1; simpl; [apply Silent_ret | discriminate | apply Silent_vis; auto].
Qed.

Lemma Silent_appendLogRepo i line : Silent false (Training.appendLogRepo i line).
Proof.
  unfold Training.appendLogRepo.
  apply Silent_bind; [apply Silent_call; reflexivity|].
  intros [l|]; [apply Silent_call; reflexivity | apply Silent_ret].
Qed.

Lemma Silent_appendChunks i chunks : Silent false (Training.appendChunks i chunks).
Proof.
  induction chunks as [|c rest IH]; cbn [Training.appendChunks]; [apply Silent_ret|].
  apply Silent_bind; auto. apply Silent_appendLogRepo.
Qed.

Lemma Silent_runLoggedProcess i label command args :
  Silent true (Training.runLoggedProcess i label command args).
Proof.
  unfold Training.runLoggedProcess.
  apply Silent_bind; [apply Silent_call; reflexivity|].
  intros r. apply Silent_bind.
  - apply Silent_weaken, Silent_appendChunks.
  - intros _. destruct (pr_code r) as [[| |]|];
      try (now apply Silent_throw); apply Silent_ret.
Qed.

Lemma Silent_updateLinkedClone job u :
  Silent false (Training.updateLinkedClone job u).
Proof.
  unfold Training.updateLinkedClone. destruct job as [j|]; [|apply Silent_ret].
  destruct (JobStore.cloneId j) as [c|]; [|apply Silent_ret].
  destruct (truthy_str (Some c)); [|apply Silent_ret].
  apply Silent_bind; [apply Silent_call; reflexivity|]. intros x. apply Silent_ret.
Qed.

Section Route.
Variables REPO_ROOT DATASETS_DIR OUTPUTS_DIR : string.
Variable join : string -> string -> string.
Variable basename : string -> string.
Variable trim : string -> string.

Lemma Silent_countLines lines : forall counters,
  Silent false (Training.countLines basename lines counters).
Proof.
  induction lines as [|[|src] rest IH]; intros counters;
    cbn [Training.countLines]; auto.
  - apply Silent_ret.
  - destruct (inherited (or_str src "unknown")); auto.
    destruct (JsMap.get (or_str src "unknown") counters); auto.
    apply Silent_bind; [apply Silent_call; reflexivity|]. auto.
Qed.

Lemma Silent_readKnowledgeStats i file :
  Silent false (Training.readKnowledgeStats basename i file).
Proof.
  unfold Training.readKnowledgeStats.
  apply Silent_bind; [apply Silent_call; reflexivity|].
  intros [err|lines].
  - apply Silent_bind; [apply Silent_appendLogRepo | intros; apply Silent_ret].
  - apply Silent_bind; [apply Silent_countLines | intros; apply Silent_ret].
Qed.

Lemma Silent_runRagIndex i kf ri : Silent true (Training.runRagIndex i kf ri).
Proof.
  unfold Training.runRagIndex.
  apply Silent_bind; [apply Silent_weaken, Silent_appendLogRepo|]. intros _.
  apply Silent_bind; [apply Silent_runLoggedProcess|]. intros _.
  apply Silent_weaken, Silent_appendLogRepo.
Qed.

Lemma Body_bind {A} j (p : Prog A) f :
  Silent true p -> (forall a, Body j (f a)) -> Body j (bind p f).
Proof.
  intros Hp Hf. induction Hp; simpl; auto.
  - apply Body_throw.
  - apply Body_silent; auto.
Qed.

Lemma Body_pipelineBody j payload :
  Body j (Training.pipelineBody REPO_ROOT DATASETS_DIR OUTPUTS_DIR join basename trim
            j payload).
Proof.
  unfold Training.pipelineBody.
  apply Body_bind; [apply Silent_runLoggedProcess|]. intros _.
  apply Body_bind; [apply Silent_weaken, Silent_readKnowledgeStats|]. intros stats.
  apply Body_bind; [apply Silent_call; reflexivity|]. intros _.
  apply Body_bind; [apply Silent_call; reflexivity|]. intros job.
  apply Body_bind; [apply Silent_weaken, Silent_updateLinkedClone|]. intros _.
  apply Body_bind.
  { destruct (Z.ltb 0 (Training.totalChunks stats)).
    - apply Silent_try; [apply Silent_runRagIndex|].
      intros m. apply Silent_weaken, Silent_appendLogRepo.
    - apply Silent_weaken, Silent_appendLogRepo. }
  intros _.
  apply Body_bind; [apply Silent_runLoggedProcess|]. intros _.
  unfold Training.updateJobRepo, call. cbn [bind].
  apply (Body_write j _ JobStore.succeeded); [reflexivity | left; reflexivity|].
  intros x. apply Silent_bind; [apply Silent_call; reflexivity|].
  intros okJob. apply Silent_updateLinkedClone.
Qed.

Lemma Owns_silent_prog {A} b st j (p : Prog A) f :
  Silent b p -> (forall a, Owns st j (f a)) -> Owns st j (bind p f).
Proof.
  intros Hp Hf. induction Hp; cbn [bind]; auto.
  - apply Owns_throw.
  - apply Owns_silent; auto.
Qed.

Lemma Owns_of_Silent b st j (p : Prog unit) : Silent b p -> Owns st j p.
Proof.
  induction 1; [apply Owns_ret | apply Owns_throw | apply Owns_silent; auto].
Qed.

Lemma Owns_try j p h :
  Body j p -> (forall m, Owns JobStore.running j (h m)) ->
  Owns JobStore.running j (try_catch p h).
Proof.
  intros Hp Hh. induction Hp; cbn [try_catch]; auto.
  - apply Owns_ret.
  - apply Owns_silent; auto.
  - apply (Owns_write JobStore.running st).
    + assumption.
    + destruct H0; subst; discriminate.
    + right. right. split; auto.
    + intros x. apply (Owns_of_Silent false). now apply Silent_try_nothrow.
Qed.

Lemma Owns_pipelineFailed j m :
  Owns JobStore.running j (Training.pipelineFailed j m).
Proof.
  unfold Training.pipelineFailed, Training.updateJobRepo, call. cbn [bind].
  apply (Owns_write JobStore.running JobStore.failed).
  - reflexivity.
  - discriminate.
  - right. right. auto.
  - intros x. apply (Owns_of_Silent false).
    apply Silent_bind; [apply Silent_call; reflexivity|].
    intros job. apply Silent_updateLinkedClone.
Qed.

Lemma Owns_runPipeline j payload :
  Owns JobStore.queued j
    (Training.runPipeline REPO_ROOT DATASETS_DIR OUTPUTS_DIR join basename trim
       j payload).
Proof.
  unfold Training.runPipeline, Training.updateJobRepo, call. cbn [bind].
  apply (Owns_write JobStore.queued JobStore.running).
  - reflexivity.
  - discriminate.
  - right. left. auto.
  - intros _. apply Owns_silent; auto. intros _. apply Owns_silent; auto. intros _.
    apply Owns_try; [apply Body_pipelineBody | apply Owns_pipelineFailed].
Qed.

Lemma Owns_simulatedRun j : Owns JobStore.queued j (Training.simulatedRun j).
Proof.
  unfold Training.simulatedRun, Training.simulateJob, Training.simulateJobTimer,
    Training.updateJobRepo, Training.getJob, call.
  cbn [bind].
  apply (Owns_write JobStore.queued JobStore.running).
  - reflexivity.
  - discriminate.
  - right. left. auto.
  - intros _.
    apply (Owns_silent_prog false); [apply Silent_appendLogRepo|]. intros _.
    apply Owns_silent; auto. intros _.
    apply (Owns_silent_prog false); [apply Silent_appendLogRepo|]. intros _.
    apply (Owns_write JobStore.running JobStore.succeeded).
    + reflexivity.
    + discriminate.
    + right. right. auto.
    + intros _. apply Owns_silent; auto. intros job.
      apply (Owns_of_Silent false), Silent_updateLinkedClone.
Qed.

Lemma Fresh_respond r : Fresh (call (ERespond r)).
Proof. apply Fresh_silent; auto. intros x. apply Fresh_ret. Qed.

Lemma Fresh_POST body enableRealTrain :
  Fresh (Training.POST REPO_ROOT DATASETS_DIR OUTPUTS_DIR join basename trim
           body enableRealTrain).
Proof.
  unfold Training.POST, call. cbn [bind].
  apply Fresh_silent; auto. intros [user|]; [|apply Fresh_respond].
  destruct body as [payload|]; [|apply Fresh_respond].
  cbn [bind]. apply Fresh_silent; auto. intros ex.
  destruct (negb ex); [apply Fresh_respond|].
  cbn [bind]. apply Fresh_silent; auto. intros files.
  apply Fresh_silent; auto. intros _.
  unfold Training.createJobRepo, call. cbn [bind].
  apply Fresh_silent; auto. intros [u|]; [|apply Fresh_throw].
  cbn [bind]. apply Fresh_insert; [apply Fresh_respond|].
  intros job. unfold Training.createCloneRepo, call. cbn [bind].
  apply Owns_silent; auto. intros [u'|]; [|apply Owns_throw].
  cbn [bind]. apply Owns_silent; auto.
  intros [clone|]; [|apply Owns_silent; auto; intros; apply Owns_ret].
  unfold Training.updateJobRepo, call. cbn [bind].
  apply Owns_silent; auto. intros _. apply Owns_silent; auto. intros _.
  destruct enableRealTrain; [apply Owns_runPipeline | apply Owns_simulatedRun].
Qed.

End Route.
End ProgramShape.

(** ** Effect of one operation on the job statuses *)

Section Effects.
Import Async Orchestrator.

Lemma db_status_insert (t : Repo.Tables) clock sq ps sn i row j :
  db_status (mkWorld (Repo.with_jobs (<[i := row]> (Repo.training_jobs t)) t)
               clock sq ps sn) j
  = if String.eqb j i then Some (Repo.status row)
    else Repo.status <$> Repo.training_jobs t !! j.
Proof.
  unfold db_status. simpl. destruct (String.eqb_spec j i) as [->|Hne].
  - now rewrite lookup_insert_eq.
  - rewrite lookup_insert_ne by congruence. reflexivity.
Qed.

Lemma handle_silent o X (ev : Event X) w j :
  silent ev = true -> db_status (snd (handle o ev w)) j = db_status w j.
Proof.
  destruct w as [t clock sq ps sn].
  destruct ev; simpl; try discriminate; intros Hs; try reflexivity.
  - unfold Repo.createCloneRepo. simpl.
    destruct (Repo.clones t !! o_uuid o sq); reflexivity.
  - destruct (Repo.u_status u) eqn:Hu; [discriminate|].
    unfold Repo.updateJobRepo. simpl.
    destruct (Repo.training_jobs t !! i) as [row|] eqn:G; simpl; [|reflexivity].
    unfold with_db. simpl. rewrite db_status_insert.
    destruct (String.eqb_spec j i) as [->|]; [|reflexivity].
    unfold db_status. simpl. rewrite G. simpl. now rewrite Hu.
  - unfold Repo.updateLogs. simpl.
    destruct (Repo.training_jobs t !! i) as [row|] eqn:G; simpl; [|reflexivity].
    unfold with_db. simpl. rewrite db_status_insert.
    destruct (String.eqb_spec j i) as [->|]; [|reflexivity].
    unfold db_status. simpl. now rewrite G.
  - unfold Repo.updateCloneRepo. simpl.
    destruct (Repo.clones t !! i); reflexivity.
Qed.

Lemma handle_insert o user params w :
  (fst (handle o (EInsertJob user params) w) = None /\
   forall j, db_status (snd (handle o (EInsertJob user params) w)) j = db_status w j)
  \/
  (exists job,
     fst (handle o (EInsertJob user params) w) = Some job /\
     db_status w (JobStore.id job) = None /\
     db_status (snd (handle o (EInsertJob user params) w)) (JobStore.id job)
     = Some JobStore.queued /\
     forall j, j <> JobStore.id job ->
       db_status (snd (handle o (EInsertJob user params) w)) j = db_status w j).
Proof.
  destruct w as [t clock sq ps sn]. simpl. unfold Repo.createJobRepo.
  destruct (Repo.training_jobs t !! o_uuid o sq) as [row|] eqn:G; simpl.
  - left. split; reflexivity.
  - right. eexists. split; [reflexivity|]. simpl. split; [|split].
    + unfold db_status. simpl. now rewrite G.
    + rewrite db_status_insert. now rewrite String.eqb_refl.
    + intros j Hj. rewrite db_status_insert.
      destruct (String.eqb_spec j (o_uuid o sq)); [congruence | reflexivity].
Qed.

Lemma handle_write o i u st' w :
  Repo.u_status u = Some st' ->
  (forall j, j <> i ->
     db_status (snd (handle o (EUpdateJob i u) w)) j = db_status w j) /\
  (forall st, db_status w i = Some st ->
     db_status (snd (handle o (EUpdateJob i u) w)) i = Some st') /\
  (db_status w i = None ->
   db_status (snd (handle o (EUpdateJob i u) w)) i = None).
Proof.
  intros Hu. destruct w as [t clock sq ps sn]. simpl. unfold Repo.updateJobRepo.
  destruct (Repo.training_jobs t !! i) as [row|] eqn:G; simpl.
  - unfold with_db. simpl. split; [|split].
    + intros j Hj. rewrite db_status_insert.
      destruct (String.eqb_spec j i); [congruence | reflexivity].
    + intros st _. rewrite db_status_insert, String.eqb_refl. simpl. now rewrite Hu.
    + intros H. unfold db_status in H. simpl in H. rewrite G in H. discriminate.
  - split; [reflexivity|]. split; [|auto]. intros st H. unfold db_status in H.
    simpl in H. rewrite G in H. discriminate.
Qed.

End Effects.

(** ** Job statuses only move forward *)

Section Forward.
Import Async Orchestrator.

Ltac inv_vis H :=
  inversion H; subst;
  repeat match goal with
    | E : @existT _ _ _ _ = @existT _ _ _ _ |- _ =>
        apply EqdepTheory.inj_pair2 in E; subst
    end.

Lemma advance_refl st : advance st st.
Proof. now left. Qed.

Lemma advance_terminal st st' : terminal st -> advance st st' -> st' = st.
Proof.
  intros [->| ->] [H|[[H _]|[H _]]]; congruence.
Qed.

(** One operation of a task, against the statuses in the table. *)
Lemma await_step o X (ev : Event X) k w oi :
  task_ok w (Vis ev k) oi ->
  exists oi',
    task_ok (snd (handle o ev w)) (k (fst (handle o ev w))) oi' /\
    (forall j st, db_status w j = Some st ->
       exists st', db_status (snd (handle o ev w)) j = Some st' /\
         advance st st' /\ (oi' <> Some j -> st' = st)) /\
    (oi' = oi \/ (oi = None /\ exists j, oi' = Some j /\ db_status w j = None)).
Proof.
  intros Hok. destruct oi as [j|]; simpl in Hok.
  - destruct Hok as (st & Hst & Hown). inv_vis Hown.
    + exists (Some j). split; [|split; [|now left]].
      * exists st. split; auto. now rewrite handle_silent.
      * intros j' st' H'. exists st'. rewrite handle_silent by assumption.
        repeat split; auto. apply advance_refl.
    + destruct (handle_write o j u st' w H2) as (Hother & Hself & _).
      exists (Some j). split; [|split; [|now left]].
      * exists st'. split; [now apply (Hself st) | auto].
      * intros j' st0 H'. destruct (String.eqb_spec j' j) as [->|Hne].
        -- exists st'. rewrite Hst in H'. inversion H'; subst st0.
           split; [now apply (Hself st)|]. split; [assumption|].
           intros E. now contradiction E.
        -- exists st0. rewrite Hother by assumption.
           repeat split; auto. apply advance_refl.
  - inv_vis Hok.
    + exists None. split; [|split; [|now left]]; simpl; auto.
      intros j' st' H'. exists st'. rewrite handle_silent by assumption.
      repeat split; auto. apply advance_refl.
    + destruct (handle_insert o user params w)
        as [[Hnone Hsame]|(job & Hsome & Hfresh & Hnew & Hother)].
      * exists None. rewrite Hnone. split; [|split; [|now left]]; simpl; auto.
        intros j' st' H'. exists st'. rewrite Hsame.
        repeat split; auto. apply advance_refl.
      * exists (Some (JobStore.id job)). rewrite Hsome.
        split; [|split].
        -- exists JobStore.queued. split; auto.
        -- intros j' st' H'. exists st'.
           assert (j' <> JobStore.id job) by (intros ->; congruence).
           rewrite Hother by assumption. repeat split; auto. apply advance_refl.
        -- right. split; auto. eauto.
Qed.

(** A row that appears is a new job, in status queued. *)
Lemma await_enters o X (ev : Event X) k w oi j st' :
  task_ok w (Vis ev k) oi ->
  db_status w j = None -> db_status (snd (handle o ev w)) j = Some st' ->
  st' = JobStore.queued.
Proof.
  intros Hok Hnone Hnew. destruct oi as [j0|]; simpl in Hok.
  - destruct Hok as (st & Hst & Hown). inv_vis Hown.
    + rewrite handle_silent in Hnew by assumption. congruence.
    + destruct (handle_write o j0 u st'0 w H2) as (Hother & _ & Hkeep).
      destruct (String.eqb_spec j j0) as [->|Hne]; [congruence|].
      rewrite Hother in Hnew by assumption. congruence.
  - inv_vis Hok.
    + rewrite handle_silent in Hnew by assumption. congruence.
    + destruct (handle_insert o user params w)
        as [[_ Hsame]|(job & _ & _ & Hq & Hother)].
      * rewrite Hsame in Hnew. congruence.
      * destruct (String.eqb_spec j (JobStore.id job)) as [->|Hne]; [congruence|].
        rewrite Hother in Hnew by assumption. congruence.
Qed.

Lemma task_ok_frame w w' t oi :
  (forall j st, oi = Some j -> db_status w j = Some st -> db_status w' j = Some st) ->
  task_ok w t oi -> task_ok w' t oi.
Proof.
  destruct oi as [j|]; simpl; auto.
  intros H (st & Hst & Hown). exists st. split; eauto.
Qed.

Section Route.
Variables REPO_ROOT DATASETS_DIR OUTPUTS_DIR : string.
Variable join : string -> string -> string.
Variable basename : string -> string.
Variable trim : string -> string.

Local Abbreviation step :=
  (Orchestrator.step REPO_ROOT DATASETS_DIR OUTPUTS_DIR join basename trim).
Local Abbreviation reachable :=
  (Orchestrator.reachable REPO_ROOT DATASETS_DIR OUTPUTS_DIR join basename trim).
Local Abbreviation steps :=
  (Orchestrator.steps REPO_ROOT DATASETS_DIR OUTPUTS_DIR join basename trim).

(** A step keeps every job row, moves its status forward or not at all,
    and keeps the ownership of jobs by tasks. *)
Lemma db_step s s' :
  tasks_inv s -> step s s' ->
  tasks_inv s' /\
  forall j st, db_status (world s) j = Some st ->
    exists st', db_status (world s') j = Some st' /\ advance st st'.
Proof.
  intros (owners & Hall & Huniq) Hstep.
  assert (forall j st, db_status (world s) j = Some st ->
            exists st', db_status (world s) j = Some st' /\ advance st st') as Hsame.
  { intros j st H. exists st. split; auto. apply advance_refl. }
  inversion Hstep; subst; simpl; try (split; [exists owners; split; assumption
                                              | exact Hsame]).
  - split; [|exact Hsame]. exists (owners ++ [None]). split.
    + apply Forall2_app; auto. constructor; [|constructor]. simpl.
      apply Fresh_POST.
    + intros a b j Ha Hb.
      assert (forall c, (owners ++ [None]) !! c = Some (Some j) ->
                owners !! c = Some (Some j)) as Hlk.
      { intros c Hc. apply lookup_app_Some in Hc as [Hc|[_ Hc]]; auto.
        apply list_lookup_singleton_Some in Hc as [_ Hc]. discriminate. }
      eauto.
  - destruct (Forall2_lookup_l _ _ _ _ _ Hall H) as (oi & Hoi & Hok).
    destruct (await_step o X ev k (world s) oi Hok)
      as (oi' & Hok' & Hdb & Hown).
    assert (forall b j, b <> i -> owners !! b = Some (Some j) -> oi' <> Some j)
      as Hfree.
    { intros b j Hb Hob E. subst oi'.
      destruct Hown as [<-|(_ & j0 & E0 & Hnone)].
      - apply Hb. eauto.
      - inversion E0; subst j0.
        destruct (Forall2_lookup_r _ _ _ _ _ Hall Hob) as (t & _ & Ht).
        destruct Ht as (st & Hst & _). congruence. }
    split.
    + exists (<[i := oi']> owners). cbn [tasks world]. split.
      * apply Forall2_same_length_lookup_2.
        { simpl. rewrite !length_insert. now apply Forall2_length in Hall. }
        intros a t oa Ht Hoa.
        destruct (Nat.eq_dec a i) as [->|Hai].
        -- rewrite list_lookup_insert_eq in Ht by (now apply lookup_lt_Some in H).
           rewrite list_lookup_insert_eq in Hoa by (now apply lookup_lt_Some in Hoi).
           inversion Ht; inversion Hoa; subst. exact Hok'.
        -- rewrite list_lookup_insert_ne in Ht by congruence.
           rewrite list_lookup_insert_ne in Hoa by congruence.
           pose proof (Forall2_lookup_lr _ _ _ _ _ _ Hall Ht Hoa) as Hta.
           revert Hta. apply task_ok_frame. intros j st -> Hst.
           destruct (Hdb j st Hst) as (st' & H1 & _ & H3).
           rewrite H1. f_equal. apply H3. now apply (Hfree a).
      * intros a b j Ha Hb.
        destruct (Nat.eq_dec a i) as [->|Hai]; destruct (Nat.eq_dec b i) as [->|Hbi];
          auto.
        -- rewrite list_lookup_insert_eq in Ha by (now apply lookup_lt_Some in Hoi).
           rewrite list_lookup_insert_ne in Hb by congruence.
           inversion Ha. exfalso. now apply (Hfree b j).
        -- rewrite list_lookup_insert_eq in Hb by (now apply lookup_lt_Some in Hoi).
           rewrite list_lookup_insert_ne in Ha by congruence.
           inversion Hb. exfalso. now apply (Hfree a j).
        -- rewrite list_lookup_insert_ne in Ha by congruence.
           rewrite list_lookup_insert_ne in Hb by congruence. eauto.
    + intros j st Hj. destruct (Hdb j st Hj) as (st' & H1 & H2 & _). eauto.
  - split; [|exact Hsame]. exists []. split; [constructor|].
    intros a b j Ha. rewrite lookup_nil in Ha. discriminate.
Qed.

Lemma load_saved jobs i jd :
  List.NoDup (JsMap.keys jobs) ->
  JsMap.get i (JobStore.loadJobsFromDisk (JobStore.saveJobsToDisk jobs)) = Some jd ->
  exists jm, JsMap.get i jobs = Some jm /\ jd = JobStore.sanitize jm.
Proof.
  intros Hnd H. simpl in H.
  apply (load_get_inv JobStore.sanitize) in H as [H|(j0 & Hin & ->)];
    [discriminate|].
  exists j0. split; auto.
  apply (jsmap_In_get _ _ _ (jsobj_of_map_NoDup jobs)) in Hin.
  rewrite jsobj_of_map_get in Hin by exact Hnd.
  now destruct (String.eqb i "__proto__").
Qed.

Lemma saved_loaded jobs i jm :
  List.NoDup (JsMap.keys jobs) -> i <> "__proto__"%string ->
  JsMap.get i jobs = Some jm ->
  JsMap.get i (JobStore.loadJobsFromDisk (JobStore.saveJobsToDisk jobs))
  = Some (JobStore.sanitize jm).
Proof.
  intros Hnd Hi H. apply loadJobs_complete; [apply jsobj_of_map_NoDup|].
  apply jsmap_get_In. rewrite jsobj_of_map_get by exact Hnd.
  destruct (String.eqb_spec i "__proto__"); [congruence | exact H].
Qed.

Lemma loaded_store_inv w ts file :
  store_inv (mkSys w ts (JobStore.loadJobsFromDisk file) file false).
Proof.
  unfold store_inv. simpl. repeat split.
  - destruct file; simpl; try apply List.NoDup_nil.
    apply (load_NoDup JobStore.sanitize). apply List.NoDup_nil.
  - intros i j H. destruct file as [| |entries]; simpl in H; try discriminate.
    apply (load_get_inv JobStore.sanitize) in H as [H|(j0 & _ & ->)];
      [discriminate | apply sanitize_not_running].
  - intros i jd H. eauto.
  - intros i jm _ H _. eauto.
Qed.

Lemma updateJob_status now i ks kc kf ri jobs k j' :
  JsMap.get k (snd (JobStore.updateJob now i (knowledgePatch ks kc kf ri) jobs))
  = Some j' ->
  exists j, JsMap.get k jobs = Some j /\ JobStore.status j' = JobStore.status j.
Proof.
  unfold JobStore.updateJob. destruct (JsMap.get i jobs) as [job|] eqn:G; simpl.
  - rewrite jsmap_get_set. destruct (String.eqb_spec k i) as [->|]; intros H.
    + inversion H; subst. eauto.
    + eauto.
  - eauto.
Qed.

Lemma updateJob_status_fwd now i ks kc kf ri jobs k j :
  JsMap.get k jobs = Some j ->
  exists j',
    JsMap.get k (snd (JobStore.updateJob now i (knowledgePatch ks kc kf ri) jobs))
    = Some j' /\ JobStore.status j' = JobStore.status j.
Proof.
  intros H. unfold JobStore.updateJob.
  destruct (JsMap.get i jobs) as [job|] eqn:G; simpl; eauto.
  rewrite jsmap_get_set. destruct (String.eqb_spec k i) as [->|]; eauto.
  rewrite G in H. inversion H; subst. eauto.
Qed.

Lemma appendLog_status now i line jobs k j' :
  JsMap.get k (JobStore.appendLog now i line jobs) = Some j' ->
  exists j, JsMap.get k jobs = Some j /\ JobStore.status j' = JobStore.status j.
Proof.
  unfold JobStore.appendLog. destruct (JsMap.get i jobs) as [job|] eqn:G; simpl.
  - rewrite jsmap_get_set. destruct (String.eqb_spec k i) as [->|]; intros H.
    + inversion H; subst. eauto.
    + eauto.
  - eauto.
Qed.

Lemma appendLog_status_fwd now i line jobs k j :
  JsMap.get k jobs = Some j ->
  exists j', JsMap.get k (JobStore.appendLog now i line jobs) = Some j' /\
    JobStore.status j' = JobStore.status j.
Proof.
  intros H. unfold JobStore.appendLog.
  destruct (JsMap.get i jobs) as [job|] eqn:G; simpl; eauto.
  rewrite jsmap_get_set. destruct (String.eqb_spec k i) as [->|]; eauto.
  rewrite G in H. inversion H; subst. eauto.
Qed.

(** A change of the in-memory store that keeps keys and statuses keeps the
    invariant. *)
Lemma store_inv_same_status s jobs' st' :
  store_inv s ->
  JsMap.keys jobs' = JsMap.keys (jobs s) ->
  (forall k j', JsMap.get k jobs' = Some j' ->
     exists j, JsMap.get k (jobs s) = Some j /\ JobStore.status j' = JobStore.status j) ->
  (forall k j, JsMap.get k (jobs s) = Some j ->
     exists j', JsMap.get k jobs' = Some j' /\ JobStore.status j' = JobStore.status j) ->
  store_inv (mkSys (world s) (tasks s) jobs' (jobsFile s) st').
Proof.
  intros (M1 & M2 & M3 & M4) Hk Hback Hfwd. unfold store_inv. simpl.
  repeat split.
  - now rewrite Hk.
  - intros i j H. destruct (Hback i j H) as (j0 & H0 & ->). eauto.
  - intros i jd H. destruct (M3 i jd H) as (jm & Hm & ->).
    destruct (Hfwd i jm Hm) as (j' & Hj' & <-). eauto.
  - intros i jm Hi H Ht. destruct (Hback i jm H) as (j0 & H0 & E).
    rewrite E in Ht. eauto.
Qed.

Lemma store_step s s' :
  store_inv s -> step s s' ->
  store_inv s' /\
  (forall i j j', JsMap.get i (jobs s) = Some j -> JsMap.get i (jobs s') = Some j' ->
     JobStore.status j' = JobStore.status j) /\
  (forall i j, i <> "__proto__"%string -> JsMap.get i (jobs s) = Some j ->
     terminal (JobStore.status j) ->
     exists j', JsMap.get i (jobs s') = Some j').
Proof.
  intros Hinv Hstep. pose proof Hinv as (M1 & M2 & M3 & M4).
  assert (forall i j j', JsMap.get i (jobs s) = Some j ->
            JsMap.get i (jobs s) = Some j' ->
            JobStore.status j' = JobStore.status j) as Hsame by congruence.
  inversion Hstep; subst; simpl.
  - split; [exact Hinv|]. split; eauto.
  - split; [exact Hinv|]. split; eauto.
  - (* createJob *)
    assert (forall k, k <> uuid ->
              JsMap.get k (JsMap.set uuid
                (JobStore.mkTrainingJob uuid (JobStore.cp_modelId params)
                   (JobStore.cp_datasetPath params) (JobStore.cp_systemPrompt params)
                   (JobStore.cp_persona params) (JobStore.cp_cloneId params)
                   (JobStore.cp_cloneName params) (JobStore.cp_adapterDir params)
                   None None None None None now now JobStore.queued [] None)
                (jobs s)) = JsMap.get k (jobs s)) as Hne.
    { intros k Hk. apply jsmap_get_set_ne. congruence. }
    assert (JsMap.get uuid (jobs s) = None) as Hnone.
    { unfold JsMap.has in H. now destruct (JsMap.get uuid (jobs s)). }
    split; [|split].
    + unfold store_inv. simpl. repeat split.
      * now apply jsmap_NoDup_set.
      * intros i j Hg. destruct (String.eqb_spec i uuid) as [->|Hk].
        -- rewrite jsmap_get_set_eq in Hg. inversion Hg. simpl. discriminate.
        -- rewrite Hne in Hg by assumption. eauto.
      * intros i jd Hg. destruct (M3 i jd Hg) as (jm & Hm & E).
        exists jm. split; auto. rewrite Hne; auto. intros ->. congruence.
      * intros i jm Hi Hg Ht. destruct (String.eqb_spec i uuid) as [->|Hk].
        -- rewrite jsmap_get_set_eq in Hg. inversion Hg; subst.
           destruct Ht; discriminate.
        -- rewrite Hne in Hg by assumption. eauto.
    + intros i j j' Hj Hj'. rewrite Hne in Hj' by (intros ->; congruence).
      congruence.
    + intros i j _ Hj _. exists j. rewrite Hne; auto. intros ->. congruence.
  - (* knowledge update *)
    split; [|split].
    + apply (store_inv_same_status s); auto.
      * apply updateJob_keys.
      * intros k j'. apply updateJob_status.
      * intros k j. apply updateJob_status_fwd.
    + intros i0 j j' Hj Hj'. apply updateJob_status in Hj' as (j0 & H0 & ->).
      congruence.
    + intros i0 j _ Hj _.
      destruct (updateJob_status_fwd now i ks kc kf ri _ _ _ Hj) as (j' & H' & _).
      eauto.
  - (* appendLog *)
    split; [|split].
    + apply (store_inv_same_status s); auto.
      * apply appendLog_keys.
      * intros k j'. apply appendLog_status.
      * intros k j. apply appendLog_status_fwd.
    + intros i0 j j' Hj Hj'. apply appendLog_status in Hj' as (j0 & H0 & ->).
      congruence.
    + intros i0 j _ Hj _.
      destruct (appendLog_status_fwd now i line _ _ _ Hj) as (j' & H' & _). eauto.
  - (* save *)
    split; [|split; eauto]. unfold store_inv. simpl. repeat split; auto.
    + intros i jd Hg. apply load_saved in Hg as (jm & Hm & ->); auto.
      exists jm. split; auto. rewrite sanitize_other; eauto.
    + intros i jm Hi Hg _. exists (JobStore.sanitize jm).
      now apply (saved_loaded (jobs s)).
  - (* save failed *)
    split; [|split; eauto]. exact Hinv.
  - (* restart *)
    split; [apply loaded_store_inv|]. split.
    + intros i j j' Hj Hj'. destruct (M3 i j' Hj') as (jm & Hm & E). congruence.
    + intros i j Hi Hj Ht. now apply (M4 i j).
Qed.

Lemma db_enters s s' j st' :
  tasks_inv s -> step s s' ->
  db_status (world s) j = None -> db_status (world s') j = Some st' ->
  st' = JobStore.queued.
Proof.
  intros (owners & Hall & _) Hstep Hnone Hnew.
  inversion Hstep; subst; simpl in Hnew; try congruence.
  destruct (Forall2_lookup_l _ _ _ _ _ Hall H) as (oi & _ & Hok).
  eapply await_enters; eauto.
Qed.

Lemma sys_inv_step s s' : sys_inv s -> step s s' -> sys_inv s'.
Proof.
  intros [Ht Hs] Hstep. split.
  - now apply (db_step s s').
  - now apply (store_step s s').
Qed.

Lemma sys_inv_reachable s : reachable s -> sys_inv s.
Proof.
  induction 1 as [s (Ht & Hj & Hsave)|s s' _ IH Hstep].
  - split.
    + exists []. rewrite Ht. split; [constructor|].
      intros a b j Ha. rewrite lookup_nil in Ha. discriminate.
    + destruct s as [w ts js file sv]. simpl in *. subst.
      apply loaded_store_inv.
  - eapply sys_inv_step; eauto.
Qed.

Lemma sys_inv_steps s s' : sys_inv s -> steps s s' -> sys_inv s'.
Proof.
  intros Hinv Hsteps. induction Hsteps as [s|s s' s'' Hsteps IH Hstep]; auto.
  eapply sys_inv_step; [apply IH; assumption | eassumption].
Qed.

Lemma await_first_store o s :
  jobs (await_first o s) = jobs s /\ jobsFile (await_first o s) = jobsFile s /\
  saveTimeout (await_first o s) = saveTimeout s.
Proof. unfold await_first. destruct (tasks s) as [|[a|m|X ev k] rest]; auto. Qed.

Lemma await_first_step o s :
  step s (await_first o s) \/ await_first o s = s.
Proof.
  unfold await_first. destruct (tasks s) as [|[a|m|X ev k] rest] eqn:E; auto.
  left.
  pose proof (step_await REPO_ROOT DATASETS_DIR OUTPUTS_DIR join basename trim
                0%nat X ev k o s) as H.
  rewrite E in H.
  exact (H eq_refl).
Qed.

Lemma await_first_steps o n s : steps s (Nat.iter n (await_first o) s).
Proof.
  induction n as [|n IH]; [apply steps_refl|].
  change (Nat.iter (S n) (await_first o) s)
    with (await_first o (Nat.iter n (await_first o) s)).
  destruct (await_first_step o (Nat.iter n (await_first o) s)) as [H|E].
  - exact (steps_step _ _ _ _ _ _ _ _ _ IH H).
  - rewrite E. exact IH.
Qed.

Lemma steps_trans s1 s2 s3 : steps s1 s2 -> steps s2 s3 -> steps s1 s3.
Proof.
  intros H12 H23. induction H23 as [|s2 s3 s4 _ IH Hstep]; [exact H12|].
  exact (steps_step _ _ _ _ _ _ _ _ _ (IH H12) Hstep).
Qed.

Lemma steps_reachable s s' : reachable s -> steps s s' -> reachable s'.
Proof.
  intros Hr Hs. induction Hs as [|s s' s'' _ IH Hstep]; [exact Hr|].
  exact (reach_step _ _ _ _ _ _ _ _ (IH Hr) Hstep).
Qed.

(** C5. In every state the orchestrator reaches - through training
    requests, every operation of the pipelines and simulated jobs in
    flight, log appends, knowledge updates and job creation on the
    in-memory store, saves, and restarts with their sanitizing reload - one
    step leaves the status of each job, in the table and in the in-memory
    store, where it was or moves it along queued -> running -> {succeeded,
    failed}; a row that appears is queued; over any number of steps a job
    that is succeeded or failed keeps that status (in the in-memory store
    for every key but [__proto__]: a save copies the store into a plain
    object, which takes no property of that name, so a restart drops that
    job); and the sanitizing reload itself moves each persisted status
    forward or not at all. *)
Theorem C5_status_moves_forward s :
  reachable s ->
  (forall s', step s s' ->
     (forall j st, db_status (world s) j = Some st ->
        exists st', db_status (world s') j = Some st' /\ advance st st') /\
     (forall j st', db_status (world s) j = None ->
        db_status (world s') j = Some st' -> st' = JobStore.queued) /\
     (forall i j j', JsMap.get i (jobs s) = Some j ->
        JsMap.get i (jobs s') = Some j' ->
        advance (JobStore.status j) (JobStore.status j'))) /\
  (forall s', steps s s' ->
     (forall j st, db_status (world s) j = Some st -> terminal st ->
        db_status (world s') j = Some st) /\
     (forall i j, i <> "__proto__"%string -> JsMap.get i (jobs s) = Some j ->
        terminal (JobStore.status j) ->
        exists j', JsMap.get i (jobs s') = Some j' /\
          JobStore.status j' = JobStore.status j)) /\
  (forall file i j,
     JsMap.get i (JobStore.loadJobsFromDisk file) = Some j ->
     exists entries j0, file = Parsed entries /\ In (i, j0) entries /\
       advance (JobStore.status j0) (JobStore.status j)).
Proof.
  intros Hreach. pose proof (sys_inv_reachable s Hreach) as Hinv.
  split; [|split].
  - intros s' Hstep. destruct Hinv as [Ht Hs]. split; [|split].
    + now apply (db_step s s').
    + intros j st'. now apply (db_enters s s').
    + intros i j j' Hj Hj'.
      destruct (store_step s s' Hs Hstep) as (_ & Hsame & _).
      left. symmetry. eauto.
  - intros s' Hsteps. induction Hsteps as [s|s s' s'' Hsteps IH Hstep].
    + split; eauto.
    + destruct (IH Hreach Hinv) as [IHdb IHmem].
      pose proof (sys_inv_steps s s' Hinv Hsteps) as [Ht' Hs'].
      split.
      * intros j st Hj Hterm.
        destruct (proj2 (db_step s' s'' Ht' Hstep) j st (IHdb j st Hj Hterm))
          as (st' & H' & Hadv).
        rewrite H'. f_equal. now apply advance_terminal with (st := st).
      * intros i j Hi Hj Hterm. destruct (IHmem i j Hi Hj Hterm) as (j' & Hj' & E).
        destruct (store_step s' s'' Hs' Hstep) as (_ & Hsame & Hkeep).
        destruct (Hkeep i j' Hi Hj') as (j'' & Hj''); [now rewrite E|].
        exists j''. split; auto. rewrite <- E. eauto.
  - intros file i j H.
    destruct file as [| |entries]; simpl in H; try discriminate.
    apply (load_get_inv JobStore.sanitize) in H as [H|(j0 & Hin & ->)];
      [discriminate|].
    exists entries, j0. repeat split; auto.
    destruct (JobStore.status j0) eqn:E.
    + left. rewrite sanitize_other; congruence.
    + right. right. split; auto. right. now apply sanitize_running.
    + left. rewrite sanitize_other; congruence.
    + left. rewrite sanitize_other; congruence.
Qed.

End Route.
End Forward.

Section ForwardSample.
Import Async Orchestrator.

Local Abbreviation step := (step "/repo" "/data" "/out" t_join t_same t_same).
Local Abbreviation steps := (steps "/repo" "/data" "/out" t_join t_same t_same).
Local Abbreviation reachable :=
  (reachable "/repo" "/data" "/out" t_join t_same t_same).

Lemma o_job_store n :
  jobs (o_job n) = jobs o_sys0 /\ jobsFile (o_job n) = o_file /\
  saveTimeout (o_job n) = false.
Proof.
  induction n as [|n (IH1 & IH2 & IH3)]; [repeat split|].
  unfold o_job in *.
  change (Nat.iter (S n) (await_first (t_oracle (Some 2) None None)) o_sys1)
    with (await_first (t_oracle (Some 2) None None)
            (Nat.iter n (await_first (t_oracle (Some 2) None None)) o_sys1)).
  destruct (await_first_store (t_oracle (Some 2) None None)
              (Nat.iter n (await_first (t_oracle (Some 2) None None)) o_sys1))
    as (-> & -> & ->).
  auto.
Qed.

Lemma o_job_steps n m : steps (o_job n) (o_job (m + n)).
Proof.
  unfold o_job. rewrite Nat.iter_add.
  apply (await_first_steps "/repo" "/data" "/out" t_join t_same t_same).
Qed.

Lemma o_job_from_start n : steps o_sys1 (o_job n).
Proof.
  apply (await_first_steps "/repo" "/data" "/out" t_join t_same t_same).
Qed.

Lemma o_sys0_reachable : reachable o_sys0.
Proof. apply reach_boot. repeat split. Qed.

Lemma o_sys1_step : step o_sys0 o_sys1.
Proof.
  exact (step_request "/repo" "/data" "/out" t_join t_same t_same (Some t_payload)
           true o_sys0).
Qed.

Lemma o_job_reachable n : reachable (o_job n).
Proof.
  apply (steps_reachable "/repo" "/data" "/out" t_join t_same t_same o_sys1).
  - exact (reach_step _ _ _ _ _ _ _ _ o_sys0_reachable o_sys1_step).
  - apply o_job_from_start.
Qed.

Lemma o_job_moves n st st' :
  db_status (world (o_job n)) "id0" = Some st ->
  db_status (world (o_job (S n))) "id0" = Some st' ->
  st <> st' ->
  step (o_job n) (o_job (S n)).
Proof.
  intros H H' Hne.
  destruct (await_first_step "/repo" "/data" "/out" t_join t_same t_same
              (t_oracle (Some 2) None None) (o_job n)) as [Hs|E]; [exact Hs|].
  exfalso. change (o_job (S n))
    with (await_first (t_oracle (Some 2) None None) (o_job n)) in H'.
  rewrite E in H'. congruence.
Qed.

Lemma o_sys4_steps : steps (o_job 17) o_sys4.
Proof.
  destruct (o_job_store 18) as (Ej & Ef & Et).
  assert (step (o_job 18) o_sys2) as H2.
  { pose proof (step_appendLog "/repo" "/data" "/out" t_join t_same t_same
                  2000 "j1" "seen" (o_job 18)) as H.
    assert (JsMap.has "j1" (jobs (o_job 18)) = true) as Eh
      by (rewrite Ej; vm_compute; reflexivity).
    rewrite Eh, Ef in H. exact H. }
  assert (step o_sys2 o_sys3) as H3
    by exact (step_save "/repo" "/data" "/out" t_join t_same t_same o_sys2).
  assert (step o_sys3 o_sys4) as H4
    by exact (step_restart "/repo" "/data" "/out" t_join t_same t_same o_sys3).
  pose proof (o_job_steps 17 1) as H1.
  exact (steps_step _ _ _ _ _ _ _ _ _
           (steps_step _ _ _ _ _ _ _ _ _ (steps_step _ _ _ _ _ _ _ _ _ H1 H2) H3) H4).
Qed.

Lemma C5_status_moves_forward_witness :
  reachable (o_job 17) /\
  db_status (world (o_job 10)) "id0" = Some JobStore.queued /\
  db_status (world (o_job 11)) "id0" = Some JobStore.running /\
  (exists st', db_status (world (o_job 11)) "id0" = Some st' /\
     advance JobStore.queued st') /\
  db_status (world (o_job 16)) "id0" = Some JobStore.running /\
  db_status (world (o_job 17)) "id0" = Some JobStore.failed /\
  (exists st', db_status (world (o_job 17)) "id0" = Some st' /\
     advance JobStore.running st') /\
  db_status (world o_sys4) "id0" = Some JobStore.failed /\
  (exists j', JsMap.get "j1" (jobs o_sys4) = Some j' /\
     JobStore.status j' = JobStore.failed) /\
  (exists entries j0, o_file = Parsed entries /\ In ("j1"%string, j0) entries /\
     advance (JobStore.status j0) JobStore.failed).
Proof.
  assert (db_status (world (o_job 10)) "id0" = Some JobStore.queued) as D10
    by (vm_compute; reflexivity).
  assert (db_status (world (o_job 11)) "id0" = Some JobStore.running) as D11
    by (vm_compute; reflexivity).
  assert (db_status (world (o_job 16)) "id0" = Some JobStore.running) as D16
    by (vm_compute; reflexivity).
  assert (db_status (world (o_job 17)) "id0" = Some JobStore.failed) as D17
    by (vm_compute; reflexivity).
  assert (JsMap.get "j1" (jobs o_sys0)
          = Some (JobStore.sanitize (c3_job JobStore.running))) as M0
    by reflexivity.
  pose proof (C5_status_moves_forward "/repo" "/data" "/out" t_join t_same t_same
                (o_job 10) (o_job_reachable 10)) as (S10 & _).
  pose proof (C5_status_moves_forward "/repo" "/data" "/out" t_join t_same t_same
                (o_job 16) (o_job_reachable 16)) as (S16 & _).
  pose proof (C5_status_moves_forward "/repo" "/data" "/out" t_join t_same t_same
                (o_job 17) (o_job_reachable 17)) as (_ & T17 & _).
  pose proof (C5_status_moves_forward "/repo" "/data" "/out" t_join t_same t_same
                o_sys0 o_sys0_reachable) as (_ & T0 & L0).
  split; [apply o_job_reachable|]. split; [exact D10|]. split; [exact D11|].
  split.
  { apply (proj1 (S10 (o_job 11)
                    (o_job_moves 10 _ _ D10 D11 ltac:(discriminate)))).
    exact D10. }
  split; [exact D16|]. split; [exact D17|]. split.
  { apply (proj1 (S16 (o_job 17)
                    (o_job_moves 16 _ _ D16 D17 ltac:(discriminate)))).
    exact D16. }
  split.
  { apply (proj1 (T17 o_sys4 o_sys4_steps) "id0"%string JobStore.failed D17).
    now right. }
  split.
  { assert (steps o_sys0 o_sys4) as Hs.
    { apply (steps_trans "/repo" "/data" "/out" t_join t_same t_same _ (o_job 17));
        [|exact o_sys4_steps].
      apply (steps_trans "/repo" "/data" "/out" t_join t_same t_same _ o_sys1);
        [|apply o_job_from_start].
      exact (steps_step _ _ _ _ _ _ _ _ _ (steps_refl _ _ _ _ _ _ _) o_sys1_step). }
    apply (proj2 (T0 o_sys4 Hs) "j1"%string _ ltac:(discriminate) M0).
    now right. }
  destruct (L0 o_file "j1"%string _ M0) as (entries & j0 & E & Hin & Hadv).
  exists entries, j0. auto.
Defined.

End ForwardSample.

(** ** Running the pipeline *)

Section RunFacts.
Import Async.

Lemma run_bind o {A B} (p : Prog A) (f : A -> Prog B) : forall w,
  run o (bind p f) w =
  match run o p w with
  | (Returned a, w') => run o (f a) w'
  | (Rejected m, w') => (Rejected m, w')
  | (Unsettled, w') => (Unsettled, w')
  end.
Proof.
  induction p as [a|m|X ev k IH]; intros w; simpl; auto.
  destruct (handle o ev w) as [x w'].
  destruct (settles ev x); [apply IH | reflexivity].
Qed.

Lemma run_try_catch o {A} (p : Prog A) h : forall w,
  run o (try_catch p h) w =
  match run o p w with
  | (Returned a, w') => (Returned a, w')
  | (Rejected m, w') => run o (h m) w'
  | (Unsettled, w') => (Unsettled, w')
  end.
Proof.
  induction p as [a|m|X ev k IH]; intros w; simpl; auto.
  destruct (handle o ev w) as [x w'].
  destruct (settles ev x); [apply IH | reflexivity].
Qed.

Lemma Tracked_lookup {jobId st err lg cl ps w} :
  Tracked jobId st err lg cl ps w ->
  Repo.selectLogs jobId (db w) = Some lg /\
  exists job, Repo.getJob jobId (db w) = Some job /\ JobStore.cloneId job = None.
Proof.
  intros [(row & Hrow & Hc & Hst & Herr & Hlg) _].
  unfold Repo.selectLogs, Repo.getJob. rewrite Hrow. simpl. split; [congruence|].
  eexists. split; [reflexivity|]. simpl. now rewrite Hc.
Qed.

Lemma Tracked_db {jobId st err lg cl ps w} w' :
  db w' = db w -> procs w' = procs w ->
  Tracked jobId st err lg cl ps w -> Tracked jobId st err lg cl ps w'.
Proof. unfold Tracked. now intros -> ->. Qed.

Lemma run_appendLogRepo o {jobId st err lg cl ps w} line :
  Tracked jobId st err lg cl ps w ->
  exists w', run o (Training.appendLogRepo jobId line) w = (Returned tt, w') /\
    Tracked jobId st err (lg ++ [line]) cl ps w'.
Proof.
  intros H. pose proof (Tracked_lookup H) as [Hsel _].
  destruct H as [(row & Hrow & Hc & Hst & Herr & Hlg) [Hcl Hps]].
  unfold Training.appendLogRepo. simpl. rewrite Hsel. simpl.
  eexists. split; [reflexivity|].
  unfold Repo.updateLogs. rewrite Hrow. split; [|split; assumption].
  exists (Repo.set_logs (clock w) (lg ++ [line]) row). simpl.
  rewrite lookup_insert_eq. repeat split; auto.
Qed.

Lemma run_appendChunks o {jobId st err cl ps} chunks : forall lg w,
  Tracked jobId st err lg cl ps w ->
  exists w', run o (Training.appendChunks jobId chunks) w = (Returned tt, w') /\
    Tracked jobId st err (lg ++ chunks) cl ps w'.
Proof.
  induction chunks as [|ch rest IH]; intros lg w H.
  - exists w. rewrite app_nil_r. auto.
  - cbn [Training.appendChunks]. rewrite run_bind.
    destruct (run_appendLogRepo o ch H) as (w1 & -> & H1).
    destruct (IH _ _ H1) as (w2 & -> & H2).
    exists w2. split; auto. now rewrite <- app_assoc in H2.
Qed.

(** A process on a tracked job: it is spawned; if it closes, its output is
    in the log and the call returns or throws by the exit code; if it never
    closes, the call never settles. *)
Lemma run_runLoggedProcess o {jobId st err lg cl ps w} label command args :
  Tracked jobId st err lg cl ps w ->
  exists w' lg',
    run o (Training.runLoggedProcess jobId label command args) w =
    (if pr_closes (o_proc o label args)
     then if exited_ok (pr_code (o_proc o label args)) then Returned tt
          else Rejected (Training.exit_message label (pr_code (o_proc o label args)))
     else Unsettled,
     w') /\
    Tracked jobId st err lg' cl (ps ++ [spawned label command args]) w'.
Proof.
  intros H. unfold Training.runLoggedProcess. rewrite run_bind.
  cbn [call run handle settles fst snd].
  set (r := o_proc o label args).
  assert (Tracked jobId st err lg cl (ps ++ [spawned label command args])
            (mkWorld (db w) (clock w + pr_elapsed r) (seq w)
               (procs w ++ [spawned label command args]) (sent w))) as H1.
  { destruct H as [Hrow [Hcl Hps]]. split; [exact Hrow|]. split; [exact Hcl|].
    simpl. now rewrite Hps. }
  destruct (pr_closes r).
  - rewrite run_bind.
    destruct (run_appendChunks o (pr_output r) _ _ H1) as (w2 & -> & H2).
    exists w2, (lg ++ pr_output r). split; auto.
    destruct (pr_code r) as [[| |]|]; reflexivity.
  - eexists _, lg. split; [reflexivity | exact H1].
Qed.

Lemma exited_ok_false code : code <> Some 0 -> exited_ok code = false.
Proof. destruct code as [[| |]|]; auto. congruence. Qed.

Lemma exited_ok_true code : code = Some 0 -> exited_ok code = true.
Proof. now intros ->. Qed.

Lemma exited_ok_iff code : exited_ok code = true <-> code = Some 0.
Proof. destruct code as [[| |]|]; simpl; split; congruence. Qed.

Lemma run_updateJobRepo o {jobId st err lg cl ps w} u :
  Repo.u_logs u = None ->
  Tracked jobId st err lg cl ps w ->
  exists w' job,
    run o (Training.updateJobRepo jobId u) w = (Returned (Some job), w') /\
    Tracked jobId
      (match Repo.u_status u with Some s => s | None => st end)
      (Repo.pick (Repo.u_error u) err) lg cl ps w'.
Proof.
  intros Hu [(row & Hrow & Hc & Hst & Herr & Hlg) [Hcl Hps]].
  unfold Training.updateJobRepo, call. cbn [run handle settles].
  unfold Repo.updateJobRepo. rewrite Hrow. simpl.
  eexists _, _. split; [reflexivity|]. split; [|split; assumption].
  exists (Repo.apply_updates (clock w) u row). simpl.
  rewrite lookup_insert_eq. rewrite Hu, Hst, Herr. repeat split; auto.
Qed.

Lemma run_getJob o {jobId st err lg cl ps w} :
  Tracked jobId st err lg cl ps w ->
  exists job, run o (Training.getJob jobId) w = (Returned (Some job), w) /\
    JobStore.cloneId job = None.
Proof.
  intros H. destruct (Tracked_lookup H) as (_ & job & Hjob & Hc).
  exists job. unfold Training.getJob, call. cbn [run handle settles]. now rewrite Hjob.
Qed.

(** The update of the clone behind a job record that names no clone: no
    operation at all. *)
Lemma run_updateLinkedClone o job u w :
  JobStore.cloneId job = None ->
  run o (Training.updateLinkedClone (Some job) u) w = (Returned tt, w).
Proof. intros Hc. unfold Training.updateLinkedClone. now rewrite Hc. Qed.

End RunFacts.

Section PipelineFacts.
Import Async.
Variables REPO_ROOT DATASETS_DIR OUTPUTS_DIR : string.
Variable join : string -> string -> string.
Variable basename : string -> string.
Variable trim : string -> string.

Local Abbreviation runPipeline :=
  (Training.runPipeline REPO_ROOT DATASETS_DIR OUTPUTS_DIR join basename trim).
Local Abbreviation POST :=
  (Training.POST REPO_ROOT DATASETS_DIR OUTPUTS_DIR join basename trim).
Local Abbreviation cliArgs := (Training.cliArgs REPO_ROOT DATASETS_DIR OUTPUTS_DIR join trim).
Local Abbreviation trainArgs := (Training.trainArgs REPO_ROOT OUTPUTS_DIR join).
Local Abbreviation knowledgeFile := (Training.knowledgeFile OUTPUTS_DIR join).
Local Abbreviation ragIndexDir := (Training.ragIndexDir OUTPUTS_DIR join).

Lemma run_countLines o lines : forall counters w,
  run o (Training.countLines basename lines counters) w
  = (Returned (countLinesOf o basename lines counters), w).
Proof.
  induction lines as [|[|src] rest IH]; intros counters w;
    cbn [Training.countLines countLinesOf]; auto.
  destruct (inherited (or_str src "unknown")); auto.
  destruct (JsMap.get (or_str src "unknown") counters); auto.
  rewrite run_bind. cbn [call run handle settles]. apply IH.
Qed.

Lemma run_readKnowledgeStats o {jobId st err lg cl ps w} file :
  Tracked jobId st err lg cl ps w ->
  exists w',
    run o (Training.readKnowledgeStats basename jobId file) w
    = (Returned (knowledgeStatsOf o basename file), w') /\
    Tracked jobId st err (lg ++ knowledgeLog o file) cl ps w'.
Proof.
  intros H. unfold Training.readKnowledgeStats, knowledgeStatsOf, knowledgeLog.
  rewrite run_bind. cbn [call run handle settles].
  destruct (o_lines o file) as [e|lines].
  - rewrite run_bind.
    destruct (run_appendLogRepo o
                ("Failed to read knowledge file " +:+ file +:+ ": " +:+ e) H)
      as (w1 & -> & H1).
    exists w1. split; auto.
  - rewrite run_bind, run_countLines. exists w. rewrite app_nil_r. auto.
Qed.

Lemma error_text_exit label code :
  label <> ""%string ->
  Training.error_text (Training.exit_message label code)
  = Training.exit_message label code.
Proof.
  intros H. unfold Training.error_text, Training.exit_message.
  destruct label as [|a l]; [congruence|]. reflexivity.
Qed.

Lemma pick_exit label code old :
  label <> ""%string ->
  Repo.pick (Some (Training.exit_message label code)) old
  = Some (Training.exit_message label code).
Proof.
  intros H. unfold Repo.pick, truthy_str, Training.exit_message.
  destruct label as [|a l]; [congruence|]. reflexivity.
Qed.

(** The [catch] block on a tracked job: the job row is marked failed and no
    clone row is written. *)
Lemma run_pipelineFailed o {jobId st err lg cl ps w} label code :
  label <> ""%string ->
  Tracked jobId st err lg cl ps w ->
  exists w',
    run o (Training.pipelineFailed jobId (Training.exit_message label code)) w
    = (Returned tt, w') /\
    Tracked jobId JobStore.failed (Some (Training.exit_message label code)) lg cl ps w'.
Proof.
  intros Hl H. unfold Training.pipelineFailed. rewrite run_bind.
  destruct (run_updateJobRepo o
              (Training.failedUpdate
                 (Training.error_text (Training.exit_message label code)))
              eq_refl H) as (w1 & job1 & -> & H1).
  cbn [Training.failedUpdate Repo.u_status Repo.u_error] in H1.
  rewrite error_text_exit, pick_exit in H1 by assumption.
  rewrite run_bind. destruct (run_getJob o H1) as (job & -> & Hj).
  rewrite (run_updateLinkedClone o job _ w1 Hj).
  exists w1. auto.
Qed.

(** The indexing stage on a tracked job: the process is spawned once; the
    block ends normally whatever the exit code, and never when the process
    never closes. *)
Lemma run_rag_stage o {jobId st err lg cl ps w} :
  Tracked jobId st err lg cl ps w ->
  let args := Training.filterBoolean
                (Training.ragArgs (knowledgeFile jobId) (ragIndexDir jobId)) in
  exists w' lg',
    run o (try_catch
             (Training.runRagIndex jobId (knowledgeFile jobId) (ragIndexDir jobId))
             (fun ragErr =>
                Training.appendLogRepo jobId
                  (Training.RAG_FAILED +:+ Training.error_text ragErr))) w
    = (if pr_closes (o_proc o "rag_index" args) then Returned tt else Unsettled, w') /\
    Tracked jobId st err lg' cl (ps ++ [spawned "rag_index" "python3" args]) w'.
Proof.
  intros H args. rewrite run_try_catch.
  unfold Training.runRagIndex.
  rewrite run_bind.
  destruct (run_appendLogRepo o
              ("Building RAG index from " +:+ knowledgeFile jobId) H)
    as (w1 & -> & H1).
  rewrite run_bind.
  destruct (run_runLoggedProcess o Training.LABEL_RAG "python3" args H1)
    as (w2 & lg2 & E2 & H2).
  unfold args in E2 at 1. rewrite E2. clear E2.
  change Training.LABEL_RAG with "rag_index"%string in *.
  destruct (pr_closes (o_proc o "rag_index" args)).
  2:{ exists w2, lg2. split; [reflexivity | exact H2]. }
  destruct (exited_ok (pr_code (o_proc o "rag_index" args))).
  - destruct (run_appendLogRepo o
                ("RAG index saved to " +:+ ragIndexDir jobId) H2)
      as (w3 & -> & H3).
    eexists w3, _. split; [reflexivity | exact H3].
  - destruct (run_appendLogRepo o
                (Training.RAG_FAILED +:+
                 Training.error_text
                   (Training.exit_message "rag_index"
                      (pr_code (o_proc o "rag_index" args)))) H2)
      as (w3 & -> & H3).
    eexists w3, _. split; [reflexivity | exact H3].
Qed.

(** Where a run of [runPipeline] on a tracked job ends, by what the three
    processes do and by the number of knowledge chunks: the outcome, the
    status and error of the job, and the processes spawned.  The clone table
    is the same at the end in every case. *)
Lemma run_runPipeline_tracked o w jobId payload st err lg cl ps :
  Tracked jobId st err lg cl ps w ->
  let args1 := Training.filterBoolean (cliArgs jobId payload) in
  let args2 := Training.filterBoolean
                 (Training.ragArgs (knowledgeFile jobId) (ragIndexDir jobId)) in
  let args3 := Training.filterBoolean (trainArgs jobId payload) in
  let r1 := o_proc o "dataset_pipeline" args1 in
  let r2 := o_proc o "rag_index" args2 in
  let r3 := o_proc o "train_qlora" args3 in
  let p1 := spawned "dataset_pipeline" "python3" args1 in
  let p2 := spawned "rag_index" "python3" args2 in
  let p3 := spawned "train_qlora" "python3" args3 in
  let rag := 0 <? Training.totalChunks
                    (knowledgeStatsOf o basename (knowledgeFile jobId)) in
  let ps2 := ps ++ p1 :: (if rag then [p2] else []) in
  exists w' lg',
    if pr_closes r1 then
      if exited_ok (pr_code r1) then
        if rag && negb (pr_closes r2) then
          run o (runPipeline jobId payload) w = (Unsettled, w') /\
          Tracked jobId JobStore.running err lg' cl ps2 w'
        else if pr_closes r3 then
          if exited_ok (pr_code r3) then
            run o (runPipeline jobId payload) w = (Returned tt, w') /\
            Tracked jobId JobStore.succeeded err lg' cl (ps2 ++ [p3]) w'
          else
            run o (runPipeline jobId payload) w = (Returned tt, w') /\
            Tracked jobId JobStore.failed
              (Some (Training.exit_message "train_qlora" (pr_code r3)))
              lg' cl (ps2 ++ [p3]) w'
        else
          run o (runPipeline jobId payload) w = (Unsettled, w') /\
          Tracked jobId JobStore.running err lg' cl (ps2 ++ [p3]) w'
      else
        run o (runPipeline jobId payload) w = (Returned tt, w') /\
        Tracked jobId JobStore.failed
          (Some (Training.exit_message "dataset_pipeline" (pr_code r1)))
          lg' cl (ps ++ [p1]) w'
    else
      run o (runPipeline jobId payload) w = (Unsettled, w') /\
      Tracked jobId JobStore.running err lg' cl (ps ++ [p1]) w'.
Proof.
  intros H args1 args2 args3 r1 r2 r3 p1 p2 p3 rag ps2.
  unfold Training.runPipeline. rewrite run_bind.
  match goal with |- context [Training.updateJobRepo jobId ?u] =>
    destruct (run_updateJobRepo o u eq_refl H) as (w1 & job1 & -> & H1)
  end.
  cbn [Repo.u_status Repo.u_error Repo.pick truthy_str] in H1.
  rewrite run_bind. cbn [call run handle settles].
  rewrite run_bind. cbn [call run handle settles].
  rewrite run_try_catch. unfold Training.pipelineBody.
  fold args1. fold args3.
  rewrite run_bind.
  destruct (run_runLoggedProcess o Training.LABEL_DATASET "python3" args1 H1)
    as (w2 & lg2 & -> & H2).
  change Training.LABEL_DATASET with "dataset_pipeline"%string in *.
  fold r1 in H2 |- *. fold p1 in H2.
  destruct (pr_closes r1).
  2:{ exists w2, lg2. split; [reflexivity | exact H2]. }
  destruct (exited_ok (pr_code r1)).
  2:{ destruct (run_pipelineFailed o "dataset_pipeline"%string (pr_code r1)
                  ltac:(discriminate) H2) as (w3 & -> & H3).
      exists w3, lg2. split; [reflexivity | exact H3]. }
  rewrite run_bind.
  destruct (run_readKnowledgeStats o (knowledgeFile jobId) H2) as (w3 & -> & H3).
  set (stats := knowledgeStatsOf o basename (knowledgeFile jobId)) in *.
  rewrite run_bind.
  match goal with |- context [Training.updateJobRepo jobId ?u] =>
    destruct (run_updateJobRepo o u eq_refl H3) as (w4 & job4 & -> & H4)
  end.
  cbn [Repo.u_status Repo.u_error Repo.pick truthy_str] in H4.
  rewrite run_bind. destruct (run_getJob o H4) as (job & -> & Hj).
  rewrite run_bind, (run_updateLinkedClone o job _ w4 Hj).
  rewrite run_bind.
  assert (exists w6 lg6,
            run o (if 0 <? Training.totalChunks stats
                   then try_catch
                          (Training.runRagIndex jobId (knowledgeFile jobId)
                             (ragIndexDir jobId))
                          (fun ragErr =>
                             Training.appendLogRepo jobId
                               (Training.RAG_FAILED +:+ Training.error_text ragErr))
                   else Training.appendLogRepo jobId Training.RAG_SKIPPED) w4
            = (if rag && negb (pr_closes r2) then Unsettled else Returned tt, w6) /\
            Tracked jobId JobStore.running err lg6 cl ps2 w6) as (w6 & lg6 & -> & H6).
  { subst ps2. fold rag. destruct rag.
    - destruct (run_rag_stage o H4) as (w6 & lg6 & E6 & H6).
      cbv zeta in H6. fold args2 in E6, H6. fold r2 in E6. fold p2 in H6.
      exists w6, lg6. rewrite <- app_assoc in H6. split; [|exact H6].
      rewrite E6. now destruct (pr_closes r2).
    - destruct (run_appendLogRepo o Training.RAG_SKIPPED H4) as (w6 & E6 & H6).
      eexists w6, _. split; [exact E6 | exact H6]. }
  destruct (rag && negb (pr_closes r2)).
  { exists w6, lg6. split; [reflexivity | exact H6]. }
  rewrite run_bind.
  destruct (run_runLoggedProcess o Training.LABEL_TRAIN "python3" args3 H6)
    as (w7 & lg7 & -> & H7).
  change Training.LABEL_TRAIN with "train_qlora"%string in *.
  fold r3 in H7 |- *. fold p3 in H7.
  destruct (pr_closes r3).
  2:{ exists w7, lg7. split; [reflexivity | exact H7]. }
  destruct (exited_ok (pr_code r3)).
  - rewrite run_bind.
    destruct (run_updateJobRepo o (Training.statusUpdate JobStore.succeeded)
                eq_refl H7) as (w8 & job8 & -> & H8).
    cbn [Training.statusUpdate Repo.u_status Repo.u_error Repo.pick truthy_str] in H8.
    rewrite run_bind. destruct (run_getJob o H8) as (okJob & -> & Hok').
    rewrite (run_updateLinkedClone o okJob _ w8 Hok').
    exists w8, lg7. split; [reflexivity | exact H8].
  - destruct (run_pipelineFailed o "train_qlora"%string (pr_code r3)
                ltac:(discriminate) H7) as (w8 & -> & H8).
    exists w8, lg7. split; [reflexivity | exact H8].
Qed.

End PipelineFacts.

(** ** Inserting rows *)

Section InsertFacts.
Import Async.

Lemma createJobRepo_fresh u uuid now params t :
  Repo.training_jobs t !! uuid = None ->
  exists row,
    Repo.createJobRepo u uuid now params t
    = (Some (Repo.mapToJobRecord row),
       Repo.with_jobs (<[uuid := row]> (Repo.training_jobs t)) t) /\
    Repo.id row = uuid /\
    Repo.clone_id row = or_undefined (JobStore.cp_cloneId params) /\
    Repo.status row = JobStore.queued /\ Repo.logs row = [] /\
    Repo.error row = None /\ Repo.created_at row = now /\ Repo.updated_at row = now.
Proof.
  intros H. unfold Repo.createJobRepo. rewrite H.
  eexists. split; [reflexivity|]. repeat split.
Qed.

Lemma createCloneRepo_fresh u uuid key now params t :
  Repo.clones t !! uuid = None ->
  exists crow,
    Repo.createCloneRepo u uuid key now params t
    = (Some (Repo.mapToCloneRecord crow),
       Repo.with_clones (<[uuid := crow]> (Repo.clones t)) t) /\
    Repo.c_id crow = uuid /\
    Repo.c_job_id crow = Some (CloneStore.cp_jobId params) /\
    Repo.c_status crow
    = match CloneStore.cp_status params with
      | Some s => s
      | None => CloneStore.training
      end /\
    Repo.c_is_running crow = false /\ Repo.c_name crow = CloneStore.cp_name params.
Proof.
  intros H. unfold Repo.createCloneRepo. rewrite H.
  eexists. split; [reflexivity|]. repeat split.
Qed.

Lemma run_createJobRepo o w u params :
  o_user o = Some u ->
  run o (Training.createJobRepo params) w
  = (Returned (fst (Repo.createJobRepo u (o_uuid o (seq w)) (clock w) params (db w))),
     mkWorld (snd (Repo.createJobRepo u (o_uuid o (seq w)) (clock w) params (db w)))
       (clock w) (S (seq w)) (procs w) (sent w)).
Proof.
  intros H. unfold Training.createJobRepo. rewrite run_bind. cbn [call run handle settles].
  rewrite H. cbn [call run handle settles].
  now destruct (Repo.createJobRepo u (o_uuid o (seq w)) (clock w) params (db w)).
Qed.

Lemma run_createCloneRepo o w u params :
  o_user o = Some u ->
  run o (Training.createCloneRepo params) w
  = (Returned
       (fst (Repo.createCloneRepo u (o_uuid o (seq w)) (o_uuid o (S (seq w)))
               (clock w) params (db w))),
     mkWorld
       (snd (Repo.createCloneRepo u (o_uuid o (seq w)) (o_uuid o (S (seq w)))
               (clock w) params (db w)))
       (clock w) (S (S (seq w))) (procs w) (sent w)).
Proof.
  intros H. unfold Training.createCloneRepo. rewrite run_bind. cbn [call run handle settles].
  rewrite H. cbn [call run handle settles].
  now destruct (Repo.createCloneRepo u (o_uuid o (seq w)) (o_uuid o (S (seq w)))
                  (clock w) params (db w)).
Qed.

End InsertFacts.


Section PostOutcome.
Import Async.
Variables REPO_ROOT DATASETS_DIR OUTPUTS_DIR : string.
Variable join : string -> string -> string.
Variable basename : string -> string.
Variable trim : string -> string.

Local Abbreviation runPipeline :=
  (Training.runPipeline REPO_ROOT DATASETS_DIR OUTPUTS_DIR join basename trim).
Local Abbreviation POST :=
  (Training.POST REPO_ROOT DATASETS_DIR OUTPUTS_DIR join basename trim).
Local Abbreviation cliArgs := (Training.cliArgs REPO_ROOT DATASETS_DIR OUTPUTS_DIR join trim).
Local Abbreviation trainArgs := (Training.trainArgs REPO_ROOT OUTPUTS_DIR join).
Local Abbreviation knowledgeFile := (Training.knowledgeFile OUTPUTS_DIR join).
Local Abbreviation ragIndexDir := (Training.ragIndexDir OUTPUTS_DIR join).

(** A training request that passes the checks, with both inserts going
    through, up to the start of the background job: the job row is queued
    and, the link update having reached no column, names no clone; the
    clone row made for it is in training. *)
Lemma run_POST_accepted o w payload enableRealTrain u :
  o_user o = Some u ->
  o_exists o (join DATASETS_DIR (Training.datasetId payload)) = true ->
  Repo.training_jobs (db w) !! o_uuid o (seq w) = None ->
  Repo.clones (db w) !! o_uuid o (S (seq w)) = None ->
  let jobId := o_uuid o (seq w) in
  let cloneId := o_uuid o (S (seq w)) in
  exists w2 crow,
    run o (POST (Some payload) enableRealTrain) w
    = run o (if enableRealTrain then runPipeline jobId payload
             else Training.simulatedRun jobId) w2 /\
    Tracked jobId JobStore.queued None []
      (<[cloneId := crow]> (Repo.clones (db w))) (procs w) w2 /\
    Repo.c_job_id crow = Some jobId /\
    Repo.c_status crow = CloneStore.training /\
    Repo.c_is_running crow = false.
Proof.
  intros Hu Hex Hj Hc jobId cloneId.
  unfold Training.POST.
  rewrite run_bind. cbn [call run handle settles]. rewrite Hu.
  rewrite run_bind. cbn [call run handle settles]. rewrite Hex. cbn [negb].
  rewrite run_bind. cbn [call run handle settles].
  rewrite run_bind. cbn [call run handle settles].
  rewrite run_bind, (run_createJobRepo o w u _ Hu).
  match goal with |- context [Repo.createJobRepo u _ _ ?p _] =>
    destruct (createJobRepo_fresh u (o_uuid o (seq w)) (clock w) p (db w) Hj)
      as (row & -> & Hid & Hcid & Hst & Hlg & Herr & _)
  end.
  cbn [fst snd]. cbn [JobStore.id Repo.mapToJobRecord]. rewrite Hid.
  rewrite run_bind, (run_createCloneRepo o _ u _ Hu).
  cbn [seq db clock procs sent Repo.clones Repo.with_jobs].
  match goal with |- context [Repo.createCloneRepo u _ ?k ?n ?p ?t] =>
    destruct (createCloneRepo_fresh u (o_uuid o (S (seq w))) k n p t Hc)
      as (crow & -> & Hcrid & Hcj & Hcst & Hcr & _)
  end.
  cbn [fst snd].
  cbn [CloneStore.cp_jobId CloneStore.cp_status] in Hcj, Hcst.
  rewrite run_bind.
  match goal with |- context [run o (Training.updateJobRepo _ ?upd) ?w1] =>
    assert (Tracked jobId JobStore.queued None []
              (<[cloneId := crow]> (Repo.clones (db w))) (procs w) w1) as H1;
    [| destruct (run_updateJobRepo o upd eq_refl H1) as (w2 & job2 & E2 & H2);
       unfold jobId in E2; rewrite E2; clear E2 ]
  end.
  { split; [|split; reflexivity]. exists row. cbn.
    split; [apply lookup_insert_eq|]. repeat split; auto. }
  cbn [Repo.u_status Repo.u_error Repo.pick truthy_str] in H2.
  rewrite run_bind. cbn [call run handle settles].
  eexists _, crow. split; [reflexivity|].
  split; [|repeat split; assumption].
  eapply Tracked_db; [| |exact H2]; reflexivity.
Qed.

(** C1. A training request with real training enabled that passes the
    checks, with both inserts going through, and whose dataset stage closes
    with a code other than 0: the run spawns that one process and no other
    and returns; the job row ends failed with "dataset_pipeline exited with
    code <code>" as its error; but the job row names no clone, so the clone
    row made for the job is not marked failed: it is still in training, and
    the clone table is as it was after the insert. *)
Theorem C1_stage1_failure_leaves_clone_in_training o w payload u :
  o_user o = Some u ->
  o_exists o (join DATASETS_DIR (Training.datasetId payload)) = true ->
  Repo.training_jobs (db w) !! o_uuid o (seq w) = None ->
  Repo.clones (db w) !! o_uuid o (S (seq w)) = None ->
  let jobId := o_uuid o (seq w) in
  let cloneId := o_uuid o (S (seq w)) in
  let args1 := Training.filterBoolean (cliArgs jobId payload) in
  pr_closes (o_proc o "dataset_pipeline" args1) = true ->
  pr_code (o_proc o "dataset_pipeline" args1) <> Some 0 ->
  exists w' row crow,
    run o (POST (Some payload) true) w = (Returned tt, w') /\
    procs w' = procs w ++ [spawned "dataset_pipeline" "python3" args1] /\
    Repo.training_jobs (db w') !! jobId = Some row /\
    Repo.status row = JobStore.failed /\
    Repo.error row
    = Some ("dataset_pipeline exited with code " +:+
            Training.show_code (pr_code (o_proc o "dataset_pipeline" args1))) /\
    Repo.clone_id row = None /\
    Repo.clones (db w') = <[cloneId := crow]> (Repo.clones (db w)) /\
    Repo.c_job_id crow = Some jobId /\
    Repo.c_status crow = CloneStore.training.
Proof.
  intros Hu Hex Hj Hc jobId cloneId args1 Hcl Hcode.
  destruct (run_POST_accepted o w payload true u Hu Hex Hj Hc)
    as (w2 & crow & -> & H2 & Hcj & Hcst & _).
  destruct (run_runPipeline_tracked REPO_ROOT DATASETS_DIR OUTPUTS_DIR join basename
              trim o w2 jobId payload _ _ _ _ _ H2) as (w' & lg' & Hend).
  cbv zeta in Hend. fold args1 in Hend.
  rewrite Hcl, (exited_ok_false _ Hcode) in Hend.
  destruct Hend as [Hrun [(row & Hrow & Hcid & Hst & Herr & _) [Hclones Hps]]].
  exists w', row, crow. repeat split; auto.
Qed.

(** C2. A training request with real training enabled that passes the
    checks, with both inserts going through, whose dataset stage exits 0
    with at least one knowledge chunk counted, whose indexing stage closes
    with a code other than 0 and whose training stage closes: the three
    processes are spawned in that order and the run returns; the job row
    ends succeeded if the training stage exits 0 and failed otherwise; but
    the job row names no clone, so the clone row made for the job is not
    marked ready: it is still in training, and the clone table is as it was
    after the insert. *)
Theorem C2_stage2_failure_is_not_fatal_clone_in_training o w payload u :
  o_user o = Some u ->
  o_exists o (join DATASETS_DIR (Training.datasetId payload)) = true ->
  Repo.training_jobs (db w) !! o_uuid o (seq w) = None ->
  Repo.clones (db w) !! o_uuid o (S (seq w)) = None ->
  let jobId := o_uuid o (seq w) in
  let cloneId := o_uuid o (S (seq w)) in
  let args1 := Training.filterBoolean (cliArgs jobId payload) in
  let args2 := Training.filterBoolean
                 (Training.ragArgs (knowledgeFile jobId) (ragIndexDir jobId)) in
  let args3 := Training.filterBoolean (trainArgs jobId payload) in
  pr_closes (o_proc o "dataset_pipeline" args1) = true ->
  pr_code (o_proc o "dataset_pipeline" args1) = Some 0 ->
  0 < Training.totalChunks (knowledgeStatsOf o basename (knowledgeFile jobId)) ->
  pr_closes (o_proc o "rag_index" args2) = true ->
  pr_code (o_proc o "rag_index" args2) <> Some 0 ->
  pr_closes (o_proc o "train_qlora" args3) = true ->
  exists w' row crow,
    run o (POST (Some payload) true) w = (Returned tt, w') /\
    procs w' = procs w ++ [spawned "dataset_pipeline" "python3" args1;
                           spawned "rag_index" "python3" args2;
                           spawned "train_qlora" "python3" args3] /\
    Repo.training_jobs (db w') !! jobId = Some row /\
    Repo.status row
    = (if exited_ok (pr_code (o_proc o "train_qlora" args3))
       then JobStore.succeeded else JobStore.failed) /\
    Repo.clone_id row = None /\
    Repo.clones (db w') = <[cloneId := crow]> (Repo.clones (db w)) /\
    Repo.c_job_id crow = Some jobId /\
    Repo.c_status crow = CloneStore.training.
Proof.
  intros Hu Hex Hj Hc jobId cloneId args1 args2 args3 Hcl1 Hc1 Hchunks Hcl2 Hc2 Hcl3.
  destruct (run_POST_accepted o w payload true u Hu Hex Hj Hc)
    as (w2 & crow & -> & H2 & Hcj & Hcst & _).
  destruct (run_runPipeline_tracked REPO_ROOT DATASETS_DIR OUTPUTS_DIR join basename
              trim o w2 jobId payload _ _ _ _ _ H2) as (w' & lg' & Hend).
  cbv zeta in Hend. fold args1 args2 args3 in Hend.
  apply Z.ltb_lt in Hchunks.
  rewrite Hcl1, (exited_ok_true _ Hc1), Hchunks, Hcl2, Hcl3 in Hend.
  cbn [negb andb] in Hend.
  exists w'.
  destruct (exited_ok (pr_code (o_proc o "train_qlora" args3)));
    destruct Hend as [Hrun [(row & Hrow & Hcid & Hst & Herr & _) [Hclones Hps]]];
    exists row, crow; rewrite Hps, <- app_assoc; repeat split; auto.
Qed.

End PostOutcome.

(** ** Sample runs of the pipeline *)

Section PipelineSamples.
Import Async.

(** The update by which [POST] means to link the job to its clone reaches no
    column: [updateJobRepo] copies neither [cloneId] nor [cloneName]. *)
Remark updateJobRepo_keeps_clone_id now u row :
  Repo.clone_id (Repo.apply_updates now u row) = Repo.clone_id row /\
  Repo.clone_name (Repo.apply_updates now u row) = Repo.clone_name row.
Proof. split; reflexivity. Qed.

Lemma C1_stage1_failure_leaves_clone_in_training_witness :
  exists w' row crow,
    run (t_oracle (Some 2) None None)
      (Training.POST "/repo" "/data" "/out" t_join t_same t_same (Some t_payload) true)
      t_world_empty = (Returned tt, w') /\
    List.length (procs w') = 1%nat /\
    Repo.training_jobs (db w') !! "id0" = Some row /\
    Repo.status row = JobStore.failed /\
    Repo.error row = Some "dataset_pipeline exited with code 2" /\
    Repo.clone_id row = None /\
    Repo.clones (db w') !! "id1" = Some crow /\
    Repo.c_job_id crow = Some "id0"%string /\
    Repo.c_status crow = CloneStore.training.
Proof.
  destruct (C1_stage1_failure_leaves_clone_in_training "/repo" "/data" "/out" t_join
              t_same t_same (t_oracle (Some 2) None None) t_world_empty t_payload "u1")
    as (w' & row & crow & Hrun & Hp & Hrow & Hst & Herr & Hcid & Hcl & Hcj & Hcs).
  - reflexivity.
  - reflexivity.
  - reflexivity.
  - reflexivity.
  - reflexivity.
  - simpl. discriminate.
  - exists w', row, crow.
    split; [exact Hrun|]. split; [rewrite Hp; reflexivity|].
    split; [exact Hrow|]. split; [exact Hst|]. split; [exact Herr|].
    split; [exact Hcid|].
    split; [rewrite Hcl; apply lookup_insert_eq|].
    split; [exact Hcj | exact Hcs].
Defined.

Lemma C2_stage2_failure_is_not_fatal_clone_in_training_witness :
  exists w' row crow,
    run (t_oracle (Some 0) (Some 1) (Some 0))
      (Training.POST "/repo" "/data" "/out" t_join t_same t_same (Some t_payload) true)
      t_world_empty = (Returned tt, w') /\
    List.length (procs w') = 3%nat /\
    Repo.training_jobs (db w') !! "id0" = Some row /\
    Repo.status row = JobStore.succeeded /\
    Repo.clone_id row = None /\
    Repo.clones (db w') !! "id1" = Some crow /\
    Repo.c_job_id crow = Some "id0"%string /\
    Repo.c_status crow = CloneStore.training.
Proof.
  destruct (C2_stage2_failure_is_not_fatal_clone_in_training "/repo" "/data" "/out"
              t_join t_same t_same (t_oracle (Some 0) (Some 1) (Some 0)) t_world_empty
              t_payload "u1")
    as (w' & row & crow & Hrun & Hp & Hrow & Hst & Hcid & Hcl & Hcj & Hcs).
  - reflexivity.
  - reflexivity.
  - reflexivity.
  - reflexivity.
  - reflexivity.
  - reflexivity.
  - vm_compute. reflexivity.
  - reflexivity.
  - simpl. discriminate.
  - reflexivity.
  - exists w', row, crow.
    split; [exact Hrun|]. split; [rewrite Hp; reflexivity|].
    split; [exact Hrow|]. split; [exact Hst|]. split; [exact Hcid|].
    split; [rewrite Hcl; apply lookup_insert_eq|].
    split; [exact Hcj | exact Hcs].
Defined.

End PipelineSamples.

(** ** The integration store under concurrent calls *)

Section Mutex.
Import IntegrationStore IntegrationSys.

Lemma set_pc_eq t pc s op old :
  pcs s !! t = Some (op, old) ->
  set_pc t pc s
  = mkSys (file s) (locked s) (queue s) (<[t := (op, pc)]> (pcs s)) (calls s)
      (grants s) (applied s).
Proof. intros H. unfold set_pc. now rewrite H. Qed.

Lemma lookup_upd_eq (l : list (Op * Pc)) t op old pc :
  l !! t = Some (op, old) -> <[t := (op, pc)]> l !! t = Some (op, pc).
Proof. intros H. apply list_lookup_insert_eq. now apply lookup_lt_Some in H. Qed.

Lemma map_fst_upd (l : list (Op * Pc)) t op old pc :
  l !! t = Some (op, old) -> List.map fst (<[t := (op, pc)]> l) = List.map fst l.
Proof.
  revert t. induction l as [|x l IH]; intros [|t] H; simpl in *; try discriminate.
  - inversion H; subst. reflexivity.
  - f_equal. now apply IH.
Qed.

Lemma moved_pc_eq t new s s' : moved t new s s' -> pc_of s' t = Some new.
Proof.
  intros (op & old & H & E). unfold pc_of. rewrite E.
  now rewrite (lookup_upd_eq _ _ _ _ _ H).
Qed.

Lemma moved_pc_ne t new s s' t' :
  moved t new s s' -> t' <> t -> pcs s' !! t' = pcs s !! t'.
Proof. intros (op & old & H & E) Hne. rewrite E. now apply list_lookup_insert_ne. Qed.

Lemma moved_pc_of_ne t new s s' t' :
  moved t new s s' -> t' <> t -> pc_of s' t' = pc_of s t'.
Proof. intros H Hne. unfold pc_of. now rewrite (moved_pc_ne _ _ _ _ _ H Hne). Qed.

Lemma moved_ops t new s s' :
  moved t new s s' -> List.map fst (pcs s') = List.map fst (pcs s).
Proof. intros (op & old & H & E). rewrite E. eapply map_fst_upd; eauto. Qed.

Lemma moved_entry t new s s' :
  moved t new s s' -> exists op old,
    pcs s !! t = Some (op, old) /\ pcs s' !! t = Some (op, new).
Proof.
  intros (op & old & H & E). exists op, old. split; auto. rewrite E.
  eapply lookup_upd_eq; eauto.
Qed.

Lemma holds_moved t new s s' t' :
  moved t new s s' -> holds s' t' <->
  (t' = t /\ holding new = true) \/ (t' <> t /\ holds s t').
Proof.
  intros H. unfold holds. destruct (Nat.eq_dec t' t) as [->|Hne].
  - rewrite (moved_pc_eq _ _ _ _ H). split.
    + intros (pc & E & Hh). inversion E; subst. auto.
    + intros [[_ Hh]|[Hc _]]; [eauto | congruence].
  - rewrite (moved_pc_of_ne _ _ _ _ _ H Hne). split; [auto|].
    intros [[Hc _]|[_ Hh]]; [congruence | auto].
Qed.

Lemma wrote_moved_ne t new s s' t' :
  moved t new s s' -> t' <> t -> wrote s' t' = wrote s t'.
Proof. intros H Hne. unfold wrote. now rewrite (moved_pc_ne _ _ _ _ _ H Hne). Qed.

Lemma filter_ext_in {A} (f g : A -> bool) l :
  (forall x, In x l -> f x = g x) -> List.filter f l = List.filter g l.
Proof.
  induction l as [|a l IH]; simpl; auto. intros H.
  rewrite (H a) by auto. rewrite IH by auto. reflexivity.
Qed.

Lemma last_snoc {A} (l : list A) x d : List.last (l ++ [x]) d = x.
Proof. apply List.last_last. Qed.

Lemma holding_not_waiting pc : holding pc = true -> pc <> Waiting /\ pc <> Idle.
Proof. destruct pc; simpl; intros H; split; congruence. Qed.

Lemma inv_grants_NoDup f0 ops s : mutex_inv f0 ops s -> List.NoDup (grants s).
Proof.
  intros (_ & _ & _ & _ & _ & D & N & _). rewrite <- D in N.
  now apply List.NoDup_app_remove_r in N.
Qed.

Lemma inv_queue_NoDup f0 ops s : mutex_inv f0 ops s -> List.NoDup (queue s).
Proof.
  intros (_ & _ & _ & _ & _ & D & N & _). rewrite <- D in N.
  now apply List.NoDup_app_remove_l in N.
Qed.

Lemma inv_op_at f0 ops s t op pc :
  mutex_inv f0 ops s -> pcs s !! t = Some (op, pc) -> op_at ops t = op.
Proof.
  intros (O & _) H. unfold op_at. rewrite <- O.
  change (List.map fst (pcs s)) with (fst <$> pcs s).
  rewrite list_lookup_fmap, H. reflexivity.
Qed.

Lemma holds_of_entry s t op pc :
  pcs s !! t = Some (op, pc) -> holding pc = true -> holds s t.
Proof. intros H Hh. exists pc. unfold pc_of. rewrite H. auto. Qed.

(** A step of the call that holds the lock, other than its last. *)
Lemma inv_holder_step f0 ops s t op old new file' applied' :
  mutex_inv f0 ops s ->
  pcs s !! t = Some (op, old) -> holding old = true -> holding new = true ->
  (forall store, new = Loaded store -> store = loadStore file') ->
  (forall now st ret, new = Saving now st ret ->
     st = fst (body now op (loadStore file')) /\ is_get op = false) ->
  loadStore file' = replay ops applied' (loadStore f0) ->
  List.map fst applied'
  = List.filter
      (wrote (mkSys file' (locked s) (queue s) (<[t := (op, new)]> (pcs s))
                (calls s) (grants s) applied'))
      (grants s) ->
  mutex_inv f0 ops
    (mkSys file' (locked s) (queue s) (<[t := (op, new)]> (pcs s)) (calls s)
       (grants s) applied').
Proof.
  intros Hinv Hpc Hold Hnew HG1 HG2 HF HH.
  pose proof Hinv as (O & A & B & B0 & C & D & N & E & F & G1 & G2 & H).
  set (s' := mkSys file' (locked s) (queue s) (<[t := (op, new)]> (pcs s))
               (calls s) (grants s) applied') in *.
  assert (moved t new s s') as Hmv by (exists op, old; auto).
  assert (holds s t) as Ht by (eapply holds_of_entry; eauto).
  assert (forall t', holds s' t' -> t' = t) as Honly.
  { intros t' Hh. apply (holds_moved _ _ _ _ _ Hmv) in Hh as [[-> _]|[Hne Hh]]; auto. }
  assert (holds s' t) as Ht'.
  { apply (holds_moved _ _ _ _ _ Hmv). left. auto. }
  destruct (holding_not_waiting _ Hold) as [Ho1 Ho2].
  destruct (holding_not_waiting _ Hnew) as [Hn1 Hn2].
  unfold mutex_inv. cbn [file locked queue pcs calls grants applied]. fold s'.
  assert (pcs s' = <[t := (op, new)]> (pcs s)) as Hpcs by reflexivity.
  split. { rewrite (moved_ops _ _ _ _ Hmv). exact O. }
  split. { intros t1 t2 H1 H2. rewrite (Honly _ H1), (Honly _ H2). reflexivity. }
  split.
  { intros L. destruct (B L) as (t0 & Hh0 & Hl & Hg).
    assert (t0 = t) as -> by (apply A; auto).
    exists t. auto. }
  split. { intros L. exfalso. destruct (B0 L) as [_ Hno]. now apply (Hno t). }
  split.
  { intros t0. destruct (Nat.eq_dec t0 t) as [->|Hne].
    - rewrite (moved_pc_eq _ _ _ _ Hmv). split.
      + intros Hin. apply C in Hin. unfold pc_of in Hin. rewrite Hpc in Hin.
        simpl in Hin. congruence.
      + congruence.
    - rewrite (moved_pc_of_ne _ _ _ _ _ Hmv Hne). apply C. }
  split. { exact D. }
  split. { exact N. }
  split.
  { intros t0. destruct (Nat.eq_dec t0 t) as [->|Hne].
    - rewrite (moved_pc_eq _ _ _ _ Hmv). split.
      + intros _. eauto.
      + intros _. apply E. exists old. unfold pc_of. rewrite Hpc. auto.
    - rewrite (moved_pc_of_ne _ _ _ _ _ Hmv Hne). apply E. }
  split. { exact HF. }
  split.
  { intros t0 op0 store Hl. destruct (Nat.eq_dec t0 t) as [->|Hne].
    - rewrite Hpcs, (lookup_upd_eq _ _ _ _ _ Hpc) in Hl. inversion Hl; subst. auto.
    - exfalso. apply Hne. apply Honly.
      eapply (holds_of_entry s'); [exact Hl | reflexivity]. }
  split.
  { intros t0 op0 now store ret Hl. destruct (Nat.eq_dec t0 t) as [->|Hne].
    - rewrite Hpcs, (lookup_upd_eq _ _ _ _ _ Hpc) in Hl. inversion Hl; subst.
      now apply (HG2 now store ret).
    - exfalso. apply Hne. apply Honly.
      eapply (holds_of_entry s'); [exact Hl | reflexivity]. }
  exact HH.
Qed.

Lemma wrote_entry s t op pc :
  pcs s !! t = Some (op, pc) ->
  wrote s t = match pc with
              | Saved _ | Done (Resolved _) => negb (is_get op)
              | _ => false
              end.
Proof. intros H. unfold wrote. rewrite H. now destruct pc as [| | | | | | |[|]]. Qed.

Lemma wrote_false_of_pc_of s t pc :
  pc_of s t = Some pc ->
  (forall ret, pc <> Saved ret) -> (forall l, pc <> Done (Resolved l)) ->
  wrote s t = false.
Proof.
  unfold pc_of, wrote. destruct (pcs s !! t) as [[op pc0]|]; simpl; [|auto].
  intros E H1 H2. inversion E; subst.
  destruct pc as [| | | | | | |[|]]; auto.
  - now contradiction (H1 ret).
  - now contradiction (H2 l).
Qed.

Lemma acquire_locked t s op :
  locked s = true -> pcs s !! t = Some (op, Idle) ->
  acquire t s
  = mkSys (file s) true (queue s ++ [t]) (<[t := (op, Waiting)]> (pcs s))
      (calls s ++ [t]) (grants s) (applied s).
Proof.
  intros L H. unfold acquire, tryAcquire, set_pc.
  cbn [pcs file locked queue calls grants applied]. rewrite H.
  cbn [pcs file locked queue calls grants applied]. rewrite L. reflexivity.
Qed.

Lemma acquire_free t s op :
  locked s = false -> pcs s !! t = Some (op, Idle) ->
  acquire t s
  = mkSys (file s) true (queue s) (<[t := (op, Granted)]> (pcs s))
      (calls s ++ [t]) (grants s ++ [t]) (applied s).
Proof.
  intros L H. unfold acquire, tryAcquire, set_pc.
  cbn [pcs file locked queue calls grants applied]. rewrite H.
  cbn [pcs file locked queue calls grants applied]. rewrite L.
  cbn [pcs file locked queue calls grants applied].
  rewrite (lookup_upd_eq _ _ _ _ _ H).
  now rewrite list_insert_insert_eq.
Qed.

(** A call of [acquire]. *)
Lemma inv_call f0 ops s t op :
  mutex_inv f0 ops s -> pcs s !! t = Some (op, Idle) ->
  mutex_inv f0 ops (acquire t s).
Proof.
  intros Hinv Hpc.
  pose proof Hinv as (O & A & B & B0 & C & D & N & E & F & G1 & G2 & H).
  pose proof (inv_grants_NoDup _ _ _ Hinv) as Ng.
  assert (~ In t (calls s)) as Hfresh.
  { intros Hin. apply E in Hin as (pc & Hp & Hni). unfold pc_of in Hp.
    rewrite Hpc in Hp. simpl in Hp. congruence. }
  assert (~ holds s t) as Hnh.
  { intros (pc & Hp & Hh). unfold pc_of in Hp. rewrite Hpc in Hp. simpl in Hp.
    inversion Hp; subst. discriminate. }
  destruct (locked s) eqn:L.
  - rewrite (acquire_locked _ _ _ L Hpc).
    set (s' := mkSys _ _ _ _ _ _ _).
    assert (moved t Waiting s s') as Hmv by (exists op, Idle; auto).
    assert (forall t', holds s' t' <-> holds s t') as Hh.
    { intros t'. rewrite (holds_moved _ _ _ _ _ Hmv). split.
      - intros [[_ Hc]|[_ Hc]]; [discriminate | auto].
      - intros Hc. right. split; auto. intros ->. auto. }
    unfold mutex_inv.
    change (file s') with (file s). change (locked s') with true.
    change (queue s') with (queue s ++ [t]). change (calls s') with (calls s ++ [t]).
    change (grants s') with (grants s). change (applied s') with (applied s).
    split. { rewrite (moved_ops _ _ _ _ Hmv). exact O. }
    split. { intros t1 t2 H1 H2. apply A; now apply Hh. }
    split.
    { intros _. destruct (B eq_refl) as (t0 & Ht0 & Hl & Hg). exists t0.
      split; [now apply Hh | auto]. }
    split. { discriminate. }
    split.
    { intros t0. rewrite in_app_iff. destruct (Nat.eq_dec t0 t) as [->|Hne].
      - rewrite (moved_pc_eq _ _ _ _ Hmv). simpl. tauto.
      - rewrite (moved_pc_of_ne _ _ _ _ _ Hmv Hne), <- C. simpl.
        intuition congruence. }
    split. { now rewrite app_assoc, D. }
    split.
    { apply List.NoDup_app; auto.
      - apply List.NoDup_cons; [simpl; tauto | apply List.NoDup_nil].
      - intros a Ha [<-|[]]. auto. }
    split.
    { intros t0. rewrite in_app_iff. destruct (Nat.eq_dec t0 t) as [->|Hne].
      - rewrite (moved_pc_eq _ _ _ _ Hmv). split.
        + intros _. exists Waiting. split; [auto | discriminate].
        + intros _. right. now left.
      - rewrite (moved_pc_of_ne _ _ _ _ _ Hmv Hne), <- E. simpl.
        intuition congruence. }
    split. { exact F. }
    split.
    { intros t0 op0 store Hl. destruct (Nat.eq_dec t0 t) as [->|Hne].
      - destruct (moved_entry _ _ _ _ Hmv) as (o1 & o2 & _ & E1).
        rewrite E1 in Hl. discriminate.
      - rewrite (moved_pc_ne _ _ _ _ _ Hmv Hne) in Hl. eauto. }
    split.
    { intros t0 op0 now store ret Hl. destruct (Nat.eq_dec t0 t) as [->|Hne].
      - destruct (moved_entry _ _ _ _ Hmv) as (o1 & o2 & _ & E1).
        rewrite E1 in Hl. discriminate.
      - rewrite (moved_pc_ne _ _ _ _ _ Hmv Hne) in Hl. eauto. }
    rewrite H. apply filter_ext_in. intros x Hx. symmetry.
    apply (wrote_moved_ne _ _ _ _ _ Hmv). intros ->. apply Hfresh.
    rewrite <- D. apply in_or_app. now left.
  - rewrite (acquire_free _ _ _ L Hpc).
    set (s' := mkSys _ _ _ _ _ _ _).
    assert (moved t Granted s s') as Hmv by (exists op, Idle; auto).
    destruct (B0 eq_refl) as [Hq Hnone].
    assert (forall t', holds s' t' <-> t' = t) as Hh.
    { intros t'. rewrite (holds_moved _ _ _ _ _ Hmv). split.
      - intros [[-> _]|[_ Hc]]; [auto | now apply Hnone in Hc].
      - intros ->. left. auto. }
    unfold mutex_inv.
    change (file s') with (file s). change (locked s') with true.
    change (queue s') with (queue s). change (calls s') with (calls s ++ [t]).
    change (grants s') with (grants s ++ [t]). change (applied s') with (applied s).
    split. { rewrite (moved_ops _ _ _ _ Hmv). exact O. }
    split. { intros t1 t2 H1 H2. apply Hh in H1, H2. congruence. }
    split.
    { intros _. exists t. split; [now apply Hh|]. rewrite last_snoc. split; auto.
      intros Hc. now apply app_eq_nil in Hc as [_ Hc]. }
    split. { discriminate. }
    split.
    { intros t0. rewrite Hq. destruct (Nat.eq_dec t0 t) as [->|Hne].
      - rewrite (moved_pc_eq _ _ _ _ Hmv). simpl. split; [tauto | discriminate].
      - rewrite (moved_pc_of_ne _ _ _ _ _ Hmv Hne), <- C, Hq. tauto. }
    split. { rewrite Hq in *. rewrite app_nil_r in *. now rewrite D. }
    split.
    { apply List.NoDup_app; auto.
      - apply List.NoDup_cons; [simpl; tauto | apply List.NoDup_nil].
      - intros a Ha [<-|[]]. auto. }
    split.
    { intros t0. rewrite in_app_iff. destruct (Nat.eq_dec t0 t) as [->|Hne].
      - rewrite (moved_pc_eq _ _ _ _ Hmv). split.
        + intros _. exists Granted. split; [auto | discriminate].
        + intros _. right. now left.
      - rewrite (moved_pc_of_ne _ _ _ _ _ Hmv Hne), <- E. simpl.
        intuition congruence. }
    split. { exact F. }
    split.
    { intros t0 op0 store Hl. destruct (Nat.eq_dec t0 t) as [->|Hne].
      - destruct (moved_entry _ _ _ _ Hmv) as (o1 & o2 & _ & E1).
        rewrite E1 in Hl. discriminate.
      - rewrite (moved_pc_ne _ _ _ _ _ Hmv Hne) in Hl. eauto. }
    split.
    { intros t0 op0 now store ret Hl. destruct (Nat.eq_dec t0 t) as [->|Hne].
      - destruct (moved_entry _ _ _ _ Hmv) as (o1 & o2 & _ & E1).
        rewrite E1 in Hl. discriminate.
      - rewrite (moved_pc_ne _ _ _ _ _ Hmv Hne) in Hl. eauto. }
    rewrite List.filter_app. simpl.
    destruct (moved_entry _ _ _ _ Hmv) as (o1 & o2 & _ & E1).
    rewrite (wrote_entry _ _ _ _ E1), app_nil_r, H.
    apply filter_ext_in. intros x Hx. symmetry.
    apply (wrote_moved_ne _ _ _ _ _ Hmv). intros ->. apply Hfresh.
    rewrite <- D. apply in_or_app. now left.
Qed.

Lemma release_idle s :
  queue s = [] ->
  release s = mkSys (file s) false [] (pcs s) (calls s) (grants s) (applied s).
Proof.
  intros H. unfold release. cbn [pcs file locked queue calls grants applied].
  rewrite H. reflexivity.
Qed.

Lemma release_next s next rest op pc :
  queue s = next :: rest -> pcs s !! next = Some (op, pc) ->
  release s
  = mkSys (file s) true rest (<[next := (op, Granted)]> (pcs s)) (calls s)
      (grants s ++ [next]) (applied s).
Proof.
  intros H Hp. unfold release. cbn [pcs file locked queue calls grants applied].
  rewrite H. unfold tryAcquire, set_pc.
  cbn [pcs file locked queue calls grants applied]. rewrite Hp. reflexivity.
Qed.

(** The last step of the call that holds the lock: it settles, and its
    [finally] releases the lock, which goes to the head of the queue. *)
Lemma inv_finish f0 ops s t op old r :
  mutex_inv f0 ops s ->
  pcs s !! t = Some (op, old) -> holding old = true ->
  (forall s1 s2, pcs s1 !! t = Some (op, old) -> pcs s2 !! t = Some (op, Done r) ->
     wrote s2 t = wrote s1 t) ->
  mutex_inv f0 ops (release (set_pc t (Done r) s)).
Proof.
  intros Hinv Hpc Hold Hw.
  pose proof Hinv as (O & A & B & B0 & C & D & N & E & F & G1 & G2 & H).
  pose proof (inv_queue_NoDup _ _ _ Hinv) as Nq.
  rewrite (set_pc_eq _ _ _ _ _ Hpc).
  set (s1 := mkSys _ _ _ _ _ _ _).
  assert (moved t (Done r) s s1) as Hmv1 by (exists op, old; auto).
  assert (holds s t) as Ht by (eapply holds_of_entry; eauto).
  assert (forall t', holds s t' -> t' = t) as Honly by (intros t' Hh; apply A; auto).
  assert (forall t', ~ holds s1 t') as Hnone1.
  { intros t' Hh. apply (holds_moved _ _ _ _ _ Hmv1) in Hh as [[_ Hc]|[Hne Hh]];
      [discriminate | apply Hne, Honly, Hh]. }
  assert (~ In t (queue s)) as Htq.
  { intros Hin. apply C in Hin. unfold pc_of in Hin. rewrite Hpc in Hin.
    simpl in Hin. inversion Hin; subst. discriminate. }
  destruct (holding_not_waiting _ Hold) as [Ho1 Ho2].
  assert (forall x, wrote s1 x = wrote s x) as Hw1.
  { intros x. destruct (Nat.eq_dec x t) as [->|Hne].
    - apply Hw; [exact Hpc|]. destruct (moved_entry _ _ _ _ Hmv1) as (o1 & o2 & E0 & E1).
      rewrite Hpc in E0. inversion E0; subst. exact E1.
    - apply (wrote_moved_ne _ _ _ _ _ Hmv1 Hne). }
  assert (forall t0, t0 <> t -> pc_of s1 t0 = pc_of s t0) as Hpc1.
  { intros t0 Hne. apply (moved_pc_of_ne _ _ _ _ _ Hmv1 Hne). }
  assert (pc_of s1 t = Some (Done r)) as Hpct by apply (moved_pc_eq _ _ _ _ Hmv1).
  assert (In t (calls s)) as Htc.
  { apply E. exists old. unfold pc_of. rewrite Hpc. auto. }
  assert (queue s1 = queue s) as Q1 by reflexivity.
  destruct (queue s) as [|next rest] eqn:Q.
  - rewrite (release_idle s1 Q1).
    set (s' := mkSys _ _ _ _ _ _ _).
    assert (forall t', ~ holds s' t') as Hnone by exact Hnone1.
    unfold mutex_inv.
    change (file s') with (file s). change (locked s') with false.
    change (queue s') with (@nil nat). change (calls s') with (calls s).
    change (grants s') with (grants s). change (applied s') with (applied s).
    change (pcs s') with (pcs s1).
    change (pc_of s') with (pc_of s1). change (wrote s') with (wrote s1).
    split. { rewrite (moved_ops _ _ _ _ Hmv1). exact O. }
    split. { intros t1 t2 H1 H2. exfalso. now apply (Hnone t1). }
    split. { discriminate. }
    split. { intros _. split; auto. }
    split.
    { intros t0. split; [intros []|]. intros Hp.
      destruct (Nat.eq_dec t0 t) as [->|Hne].
      - rewrite Hpct in Hp. discriminate.
      - rewrite (Hpc1 _ Hne) in Hp. now apply C in Hp. }
    split. { exact D. }
    split. { exact N. }
    split.
    { intros t0. destruct (Nat.eq_dec t0 t) as [->|Hne].
      - rewrite Hpct. split; [|auto]. intros _. exists (Done r). split; [auto|discriminate].
      - rewrite (Hpc1 _ Hne). apply E. }
    split. { exact F. }
    split.
    { intros t0 op0 store Hl. exfalso. apply (Hnone1 t0).
      eapply holds_of_entry; [exact Hl | reflexivity]. }
    split.
    { intros t0 op0 now store ret Hl. exfalso. apply (Hnone1 t0).
      eapply holds_of_entry; [exact Hl | reflexivity]. }
    rewrite H. apply filter_ext_in. intros x _. symmetry. apply Hw1.
  - assert (next <> t) as Hnt by (intros ->; apply Htq; now left).
    assert (exists op', pcs s1 !! next = Some (op', Waiting)) as [op' Hn1].
    { assert (pc_of s next = Some Waiting) as Hp by (apply C; now left).
      rewrite <- (Hpc1 _ Hnt) in Hp. unfold pc_of in Hp.
      destruct (pcs s1 !! next) as [[o p]|]; simpl in Hp; [|discriminate].
      inversion Hp; subst. eauto. }
    rewrite (release_next s1 next rest op' Waiting Q1 Hn1).
    set (s' := mkSys _ _ _ _ _ _ _).
    assert (moved next Granted s1 s') as Hmv2 by (exists op', Waiting; auto).
    assert (forall t', holds s' t' <-> t' = next) as Hh.
    { intros t'. rewrite (holds_moved _ _ _ _ _ Hmv2). split.
      - intros [[-> _]|[_ Hc]]; [auto | now apply Hnone1 in Hc].
      - intros ->. left. auto. }
    assert (~ In next (grants s)) as Hng.
    { rewrite <- D in N. apply List.NoDup_remove_2 in N. intros Hin. apply N.
      apply in_or_app. now left. }
    destruct (moved_entry _ _ _ _ Hmv2) as (o1 & o2 & _ & E1).
    unfold mutex_inv.
    change (file s') with (file s). change (locked s') with true.
    change (queue s') with rest. change (calls s') with (calls s).
    change (grants s') with (grants s ++ [next]). change (applied s') with (applied s).
    split. { rewrite (moved_ops _ _ _ _ Hmv2), (moved_ops _ _ _ _ Hmv1). exact O. }
    split. { intros t1 t2 H1 H2. apply Hh in H1, H2. congruence. }
    split.
    { intros _. exists next. split; [now apply Hh|]. rewrite last_snoc. split; auto.
      intros Hc. now apply app_eq_nil in Hc as [_ Hc]. }
    split. { discriminate. }
    split.
    { intros t0. destruct (Nat.eq_dec t0 next) as [->|Hn].
      - rewrite (moved_pc_eq _ _ _ _ Hmv2). split; [|discriminate].
        intros Hin. inversion Nq; subst. contradiction.
      - rewrite (moved_pc_of_ne _ _ _ _ _ Hmv2 Hn).
        destruct (Nat.eq_dec t0 t) as [->|Hne].
        + rewrite Hpct. split; [|discriminate]. intros Hin. exfalso. apply Htq.
          now right.
        + rewrite (Hpc1 _ Hne), <- C. simpl. split; [auto|].
          intros [Hc|Hc]; [congruence | auto]. }
    split. { rewrite <- app_assoc. exact D. }
    split. { exact N. }
    split.
    { intros t0. destruct (Nat.eq_dec t0 next) as [->|Hn].
      - rewrite (moved_pc_eq _ _ _ _ Hmv2). split.
        + intros _. exists Granted. split; [auto|discriminate].
        + intros _. rewrite <- D. apply in_or_app. right. now left.
      - rewrite (moved_pc_of_ne _ _ _ _ _ Hmv2 Hn).
        destruct (Nat.eq_dec t0 t) as [->|Hne].
        + rewrite Hpct. split; [|auto]. intros _. exists (Done r).
          split; [auto|discriminate].
        + rewrite (Hpc1 _ Hne). apply E. }
    split. { exact F. }
    split.
    { intros t0 op0 store Hl.
      assert (t0 = next) as -> by (apply Hh; eapply holds_of_entry; [exact Hl | reflexivity]).
      rewrite E1 in Hl. discriminate. }
    split.
    { intros t0 op0 now store ret Hl.
      assert (t0 = next) as -> by (apply Hh; eapply holds_of_entry; [exact Hl | reflexivity]).
      rewrite E1 in Hl. discriminate. }
    rewrite List.filter_app. simpl.
    rewrite (wrote_entry _ _ _ _ E1), app_nil_r, H.
    apply filter_ext_in. intros x Hx. symmetry.
    rewrite (wrote_moved_ne _ _ _ _ x Hmv2); [apply Hw1|].
    intros ->. contradiction.
Qed.

Lemma filter_wrote_moved s s' t new l :
  moved t new s s' -> wrote s' t = wrote s t ->
  List.filter (wrote s') l = List.filter (wrote s) l.
Proof.
  intros Hmv Ht. apply filter_ext_in. intros x _.
  destruct (Nat.eq_dec x t) as [->|Hne]; [exact Ht|].
  apply (wrote_moved_ne _ _ _ _ _ Hmv Hne).
Qed.

Lemma inv_load f0 ops s t op :
  mutex_inv f0 ops s -> pcs s !! t = Some (op, Granted) ->
  mutex_inv f0 ops (set_pc t (Loaded (loadStore (file s))) s).
Proof.
  intros Hinv Hpc. pose proof Hinv as (O & A & B & B0 & C & D & N & E & F & G1 & G2 & H).
  rewrite (set_pc_eq _ _ _ _ _ Hpc).
  apply (inv_holder_step f0 ops s t op Granted); auto.
  - intros store Hs. now inversion Hs.
  - discriminate.
  - set (s' := mkSys _ _ _ _ _ _ _).
    assert (moved t (Loaded (loadStore (file s))) s s') as Hmv by (exists op, Granted; auto).
    rewrite H. symmetry. apply (filter_wrote_moved _ _ _ _ _ Hmv).
    destruct (moved_entry _ _ _ _ Hmv) as (o1 & o2 & _ & E1).
    now rewrite (wrote_entry _ _ _ _ E1), (wrote_entry _ _ _ _ Hpc).
Qed.

Lemma inv_save f0 ops s t op store now :
  mutex_inv f0 ops s -> pcs s !! t = Some (op, Loaded store) -> is_get op = false ->
  mutex_inv f0 ops
    (set_pc t (Saving now (fst (body now op store)) (snd (body now op store))) s).
Proof.
  intros Hinv Hpc Hg. pose proof Hinv as (O & A & B & B0 & C & D & N & E & F & G1 & G2 & H).
  rewrite (set_pc_eq _ _ _ _ _ Hpc).
  apply (inv_holder_step f0 ops s t op (Loaded store)); auto.
  - discriminate.
  - intros now0 st ret Hs. inversion Hs; subst. split; auto.
    now rewrite (G1 _ _ _ Hpc).
  - set (s' := mkSys _ _ _ _ _ _ _).
    assert (moved t (Saving now (fst (body now op store)) (snd (body now op store))) s s')
      as Hmv by (exists op, (Loaded store); auto).
    rewrite H. symmetry. apply (filter_wrote_moved _ _ _ _ _ Hmv).
    destruct (moved_entry _ _ _ _ Hmv) as (o1 & o2 & _ & E1).
    now rewrite (wrote_entry _ _ _ _ E1), (wrote_entry _ _ _ _ Hpc).
Qed.

Lemma inv_write_failed f0 ops s t op now store ret message :
  mutex_inv f0 ops s -> pcs s !! t = Some (op, Saving now store ret) ->
  mutex_inv f0 ops (set_pc t (SaveFailed message) s).
Proof.
  intros Hinv Hpc. pose proof Hinv as (O & A & B & B0 & C & D & N & E & F & G1 & G2 & H).
  rewrite (set_pc_eq _ _ _ _ _ Hpc).
  apply (inv_holder_step f0 ops s t op (Saving now store ret)); auto.
  - discriminate.
  - discriminate.
  - set (s' := mkSys _ _ _ _ _ _ _).
    assert (moved t (SaveFailed message) s s') as Hmv
      by (exists op, (Saving now store ret); auto).
    rewrite H. symmetry. apply (filter_wrote_moved _ _ _ _ _ Hmv).
    destruct (moved_entry _ _ _ _ Hmv) as (o1 & o2 & _ & E1).
    now rewrite (wrote_entry _ _ _ _ E1), (wrote_entry _ _ _ _ Hpc).
Qed.

Lemma replay_snoc ops l e store :
  replay ops (l ++ [e]) store
  = fst (body (snd e) (op_at ops (fst e)) (replay ops l store)).
Proof. unfold replay. now rewrite List.fold_left_app. Qed.

Lemma inv_written f0 ops s t op now store ret :
  mutex_inv f0 ops s -> pcs s !! t = Some (op, Saving now store ret) ->
  mutex_inv f0 ops (set_pc t (Saved ret) (write t now store s)).
Proof.
  intros Hinv Hpc. pose proof Hinv as (O & A & B & B0 & C & D & N & E & F & G1 & G2 & H).
  pose proof (inv_grants_NoDup _ _ _ Hinv) as Ng.
  destruct (G2 _ _ _ _ _ Hpc) as [Hst Hget].
  assert (holds s t) as Ht by (eapply holds_of_entry; [exact Hpc | reflexivity]).
  unfold set_pc, write. cbn [pcs file locked queue calls grants applied].
  rewrite Hpc.
  apply (inv_holder_step f0 ops s t op (Saving now store ret)); auto.
  - discriminate.
  - discriminate.
  - rewrite replay_snoc. cbn [fst snd]. rewrite (inv_op_at _ _ _ _ _ _ Hinv Hpc), <- F.
    exact Hst.
  - set (s' := mkSys _ _ _ _ _ _ _).
    assert (moved t (Saved ret) s s') as Hmv
      by (exists op, (Saving now store ret); auto).
    destruct (moved_entry _ _ _ _ Hmv) as (o1 & o2 & E0 & E1).
    rewrite Hpc in E0. inversion E0; subst o1 o2.
    assert (locked s = true) as L.
    { destruct (locked s) eqn:L; auto. destruct (B0 eq_refl) as [_ Hno].
      now contradiction (Hno t). }
    destruct (B L) as (t0 & Ht0 & Hlast & Hne).
    assert (t0 = t) as -> by (apply A; auto).
    rewrite (app_removelast_last t Hne), Hlast in Ng |- *.
    rewrite List.map_app, H.
    rewrite (app_removelast_last t Hne), Hlast at 1.
    rewrite !List.filter_app. simpl.
    rewrite (wrote_entry _ _ _ _ E1), (wrote_entry _ _ _ _ Hpc), Hget. simpl.
    rewrite app_nil_r. f_equal.
    apply filter_ext_in. intros x Hx. symmetry.
    apply (wrote_moved_ne _ _ _ _ _ Hmv). intros ->.
    apply List.NoDup_remove_2 in Ng. apply Ng. now rewrite app_nil_r.
Qed.

Lemma init_entry f ops t op pc :
  pcs (init f ops) !! t = Some (op, pc) -> pc = Idle.
Proof.
  unfold init. cbn [pcs].
  change (List.map (fun op0 => (op0, Idle)) ops) with ((fun op0 => (op0, Idle)) <$> ops).
  rewrite list_lookup_fmap. destruct (ops !! t); simpl; congruence.
Qed.

Lemma init_pc f ops t pc : pc_of (init f ops) t = Some pc -> pc = Idle.
Proof.
  unfold pc_of. destruct (pcs (init f ops) !! t) as [[op pc0]|] eqn:E; simpl;
    [|discriminate].
  intros Hp. inversion Hp; subst. eapply init_entry; eauto.
Qed.

Lemma mutex_inv_init f0 ops : mutex_inv f0 ops (init f0 ops).
Proof.
  assert (forall t, ~ holds (init f0 ops) t) as Hno.
  { intros t (pc & Hp & Hh). apply init_pc in Hp. subst. discriminate. }
  unfold mutex_inv.
  split. { unfold init. cbn [pcs]. rewrite List.map_map. simpl. apply List.map_id. }
  split. { intros t1 t2 H1. now apply Hno in H1. }
  split. { discriminate. }
  split. { intros _. split; auto. }
  split.
  { intros t. split; [intros []|]. intros Hp. apply init_pc in Hp. discriminate. }
  split. { reflexivity. }
  split. { apply List.NoDup_nil. }
  split.
  { intros t. split; [intros []|]. intros (pc & Hp & Hne). apply init_pc in Hp.
    contradiction. }
  split. { reflexivity. }
  split. { intros t op store Hl. apply init_entry in Hl. discriminate. }
  split. { intros t op now store ret Hl. apply init_entry in Hl. discriminate. }
  reflexivity.
Qed.

Lemma mutex_inv_step f0 ops s s' :
  mutex_inv f0 ops s -> step s s' -> mutex_inv f0 ops s'.
Proof.
  intros Hinv Hstep. destruct Hstep.
  - eapply inv_call; eauto.
  - eapply inv_load; eauto.
  - eapply inv_finish; eauto. intros s1 s2 H1 H2.
    now rewrite (wrote_entry _ _ _ _ H1), (wrote_entry _ _ _ _ H2).
  - eapply inv_save; eauto.
  - eapply inv_written; eauto.
  - eapply inv_write_failed; eauto.
  - eapply inv_finish; eauto. intros s1 s2 H1 H2.
    now rewrite (wrote_entry _ _ _ _ H1), (wrote_entry _ _ _ _ H2).
  - eapply inv_finish; eauto. intros s1 s2 H1 H2.
    now rewrite (wrote_entry _ _ _ _ H1), (wrote_entry _ _ _ _ H2).
Qed.

Lemma mutex_inv_reachable f0 ops s : reachable f0 ops s -> mutex_inv f0 ops s.
Proof.
  induction 1 as [|s s' _ IH Hstep]; [apply mutex_inv_init|].
  eapply mutex_inv_step; eauto.
Qed.

Lemma calls_set_pc t pc s : calls (set_pc t pc s) = calls s.
Proof. unfold set_pc. now destruct (pcs s !! t) as [[? ?]|]. Qed.

Lemma calls_release s : calls (release s) = calls s.
Proof.
  unfold release. cbn [pcs file locked queue calls grants applied].
  destruct (queue s) as [|next rest]; [reflexivity|].
  unfold tryAcquire. cbn [pcs file locked queue calls grants applied].
  now rewrite calls_set_pc.
Qed.

(** The call that holds the lock can always take its next step. *)
Lemma holder_steps s t op pc :
  pcs s !! t = Some (op, pc) -> holding pc = true ->
  exists s', step s s' /\ calls s' = calls s.
Proof.
  intros Hpc Hh. destruct pc; try discriminate.
  - eexists. split; [eapply step_load; eauto | apply calls_set_pc].
  - destruct (is_get op) eqn:G.
    + destruct op; try discriminate. eexists. split; [eapply step_return_get; eauto|].
      now rewrite calls_release, calls_set_pc.
    + eexists. split; [eapply (step_save t op store 0); eauto | apply calls_set_pc].
  - eexists. split; [eapply step_written; eauto|]. now rewrite calls_set_pc.
  - eexists. split; [eapply step_return; eauto|].
    now rewrite calls_release, calls_set_pc.
  - eexists. split; [eapply (step_throw t op message); eauto|].
    now rewrite calls_release, calls_set_pc.
Qed.

Lemma filter_all {A} (f : A -> bool) l :
  (forall x, In x l -> f x = true) -> List.filter f l = l.
Proof.
  induction l as [|a l IH]; intros H; simpl; [reflexivity|].
  rewrite (H a (or_introl eq_refl)). f_equal. apply IH. intros x Hx. apply H. now right.
Qed.

Lemma pc_of_entry s t pc :
  pc_of s t = Some pc -> exists op, pcs s !! t = Some (op, pc).
Proof.
  unfold pc_of. destruct (pcs s !! t) as [[op pc0]|]; simpl; [|discriminate].
  intros H. inversion H; subst. eauto.
Qed.

Lemma inv_unlocked f0 ops s :
  mutex_inv f0 ops s -> (forall t, ~ holds s t) -> locked s = false /\ queue s = [].
Proof.
  intros (O & A & B & B0 & _) Hno. destruct (locked s) eqn:L.
  - destruct (B eq_refl) as (t & Ht & _). now apply Hno in Ht.
  - split; auto. now apply B0.
Qed.

Lemma set_pc_lookup t pc s op old :
  pcs s !! t = Some (op, old) -> pcs (set_pc t pc s) !! t = Some (op, pc).
Proof.
  intros H. rewrite (set_pc_eq _ _ _ _ _ H). cbn [pcs]. eapply lookup_upd_eq; eauto.
Qed.

Lemma reachable_run_call f0 ops s t now :
  reachable f0 ops s ->
  pcs s !! t = Some (op_at i_ops t, Granted) ->
  is_get (op_at i_ops t) = false ->
  reachable f0 ops (i_run_call t now s).
Proof.
  intros Hr Hpc Hg. unfold i_run_call. cbv zeta.
  pose proof (set_pc_lookup t (Loaded (loadStore (file s))) s _ _ Hpc) as H1.
  eapply reach_step; [eapply reach_step; [eapply reach_step; [eapply reach_step|]|]|].
  - exact Hr.
  - eapply step_load. exact Hpc.
  - eapply (step_save t _ (loadStore (file s)) now); [exact H1 | exact Hg].
  - eapply step_written. eapply set_pc_lookup. exact H1.
  - eapply step_return. eapply set_pc_lookup.
    unfold write. cbn [pcs]. eapply set_pc_lookup. exact H1.
Qed.

Lemma i_sys4_reachable : reachable None i_ops i_sys4.
Proof.
  unfold i_sys4, i_sys3, i_sys2.
  apply reachable_run_call; [apply reachable_run_call| |]; try reflexivity.
  eapply reach_step; [eapply reach_step; [apply reach_init|]|].
  - apply (step_call 0%nat (op_at i_ops 0%nat)). reflexivity.
  - apply (step_call 1%nat (op_at i_ops 1%nat)). reflexivity.
Qed.

Lemma i_sys4_all_returned : all_returned i_sys4.
Proof.
  intros [|[|t]] op pc H; vm_compute in H; inversion H; subst; split; eauto.
Qed.

(** C8. In every state that concurrent calls of [getIntegrations],
    [upsertIntegration] and [setIntegrations] reach: at most one call is
    between its [acquire] and its [release], and what it has read (and what
    it is about to write) is computed from the file as it is, so the
    read-modify-write cycles do not interleave; the lock is granted in the
    order of the calls of [acquire]; once no started call is left unsettled,
    whether it returned or threw, the lock is free and nobody waits, and
    while one is unsettled a step other than a new call is possible; the file
    holds the writes of the calls applied one on the result of the other in
    grant order; and when all calls are writes that have returned, each of
    them has been applied exactly once, in the order of the calls. *)
Theorem C8_mutex_serializes_store_operations f0 ops s :
  reachable f0 ops s ->
  (forall t1 t2, holds s t1 -> holds s t2 -> t1 = t2) /\
  (forall t op store, pcs s !! t = Some (op, Loaded store) ->
     store = loadStore (file s)) /\
  (forall t op now store ret, pcs s !! t = Some (op, Saving now store ret) ->
     store = fst (body now op (loadStore (file s)))) /\
  grants s ++ queue s = calls s /\
  ((forall t pc, pc_of s t = Some pc -> pc = Idle \/ settled pc = true) ->
   locked s = false /\ queue s = []) /\
  (forall t, in_flight s t -> exists s', step s s' /\ calls s' = calls s) /\
  loadStore (file s) = replay ops (applied s) (loadStore f0) /\
  List.map fst (applied s) = List.filter (wrote s) (grants s) /\
  (all_returned s ->
   List.map fst (applied s) = calls s /\ List.NoDup (calls s) /\
   forall t, (t < List.length ops)%nat -> In t (calls s)).
Proof.
  intros Hreach. pose proof (mutex_inv_reachable _ _ _ Hreach) as Hinv.
  pose proof Hinv as (O & A & B & B0 & C & D & N & E & F & G1 & G2 & H).
  split; [exact A|]. split; [exact G1|].
  split. { intros t op now store ret Hl. now destruct (G2 _ _ _ _ _ Hl). }
  split; [exact D|].
  split.
  { intros Hall. apply (inv_unlocked _ _ _ Hinv). intros t (pc & Hp & Hh).
    destruct (Hall _ _ Hp) as [->|Hs]; [discriminate|].
    destruct pc; discriminate. }
  split.
  { intros t (pc & Hp & Hni & Hns).
    assert (exists t0, holds s t0) as (t0 & pc0 & Hp0 & Hh0).
    { destruct (holding pc) eqn:Hh; [exists t, pc; auto|].
      assert (pc = Waiting) as -> by (destruct pc; try discriminate; congruence).
      apply C in Hp. destruct (locked s) eqn:L.
      - destruct (B eq_refl) as (t0 & Ht0 & _). eauto.
      - destruct (B0 eq_refl) as [Hq _]. rewrite Hq in Hp. destruct Hp. }
    apply pc_of_entry in Hp0 as [op0 Hp0]. eapply holder_steps; eauto. }
  split; [exact F|]. split; [exact H|].
  intros Hall.
  assert (forall t, ~ holds s t) as Hno.
  { intros t (pc & Hp & Hh). apply pc_of_entry in Hp as [op Hp].
    destruct (Hall _ _ _ Hp) as [_ [l ->]]. discriminate. }
  destruct (inv_unlocked _ _ _ Hinv Hno) as [_ Hq].
  rewrite Hq, app_nil_r in D.
  split; [|split; [exact N|]].
  - rewrite H, D. apply filter_all. intros x Hx.
    apply E in Hx as (pc & Hp & _). apply pc_of_entry in Hp as [op Hp].
    destruct (Hall _ _ _ Hp) as [Hg [l ->]].
    rewrite (wrote_entry _ _ _ _ Hp), Hg. reflexivity.
  - intros t Ht. rewrite <- O, List.length_map in Ht.
    destruct (lookup_lt_is_Some_2 (pcs s) t Ht) as [[op pc] Hp].
    destruct (Hall _ _ _ Hp) as [_ [l ->]].
    apply E. exists (Done (Resolved l)). unfold pc_of. rewrite Hp.
    split; [reflexivity | discriminate].
Qed.

Lemma C8_mutex_serializes_store_operations_witness :
  reachable None i_ops i_sys4 /\
  List.map fst (applied i_sys4) = calls i_sys4 /\
  loadStore (file i_sys4) = replay i_ops (applied i_sys4) (loadStore None) /\
  get_body "c1" (loadStore (file i_sys4))
  = [mkIntegrationConfig telegram true (Some "tok") 20].
Proof.
  split; [exact i_sys4_reachable|].
  destruct (C8_mutex_serializes_store_operations None i_ops i_sys4 i_sys4_reachable)
    as (_ & _ & _ & _ & _ & _ & F & _ & Hall).
  destruct (Hall i_sys4_all_returned) as (Ha & _).
  split; [exact Ha|]. split; [exact F|]. vm_compute. reflexivity.
Defined.

End Mutex.

(** * Further properties of the stores *)

Section JobStoreFacts.
Import JobStore.

(** [createJob] followed by [getJob]: the job is stored under its id as
    returned, queued, with an empty log, no error and both stamps at the
    time of creation; the jobs under the other ids are as before, and the
    store grows by one unless the id was taken. *)
Theorem createJob_then_getJob uuid now params jobs :
  let job := fst (createJob uuid now params jobs) in
  let jobs' := snd (createJob uuid now params jobs) in
  getJob uuid jobs' = Some job /\
  id job = uuid /\ status job = queued /\ logs job = [] /\ error job = None /\
  createdAt job = now /\ updatedAt job = now /\
  (forall k, k <> uuid -> getJob k jobs' = getJob k jobs) /\
  JsMap.size jobs'
  = (if JsMap.has uuid jobs then JsMap.size jobs else S (JsMap.size jobs)).
Proof.
  cbv zeta. unfold createJob, getJob. cbn [fst snd].
  split; [apply jsmap_get_set_eq|]. repeat (split; [reflexivity|]).
  split.
  - intros k Hk. apply jsmap_get_set_ne. congruence.
  - unfold JsMap.size. rewrite <- !(List.length_map fst).
    change (List.map fst ?m) with (JsMap.keys m).
    rewrite jsmap_keys_set. destruct (JsMap.has uuid jobs); auto.
    rewrite List.length_app. simpl. lia.
Qed.

(** [updateJob]: an unknown id changes nothing and yields [undefined]; for a
    known id the job returned is the job stored, the fields that identify
    the job never change, an optional field that was set is still set
    afterwards (a falsy or absent value in the patch leaves it), and
    [updatedAt] is the patch's stamp or else the current time. *)
Theorem updateJob_never_clears now i data jobs :
  match getJob i jobs with
  | None => updateJob now i data jobs = (None, jobs)
  | Some job =>
      exists job',
        fst (updateJob now i data jobs) = Some job' /\
        getJob i (snd (updateJob now i data jobs)) = Some job' /\
        id job' = id job /\ modelId job' = modelId job /\
        datasetPath job' = datasetPath job /\ systemPrompt job' = systemPrompt job /\
        persona job' = persona job /\ cloneId job' = cloneId job /\
        cloneName job' = cloneName job /\ createdAt job' = createdAt job /\
        (is_Some (error job) -> is_Some (error job')) /\
        (is_Some (adapterDir job) -> is_Some (adapterDir job')) /\
        (is_Some (processedDir job) -> is_Some (processedDir job')) /\
        (is_Some (knowledgeFile job) -> is_Some (knowledgeFile job')) /\
        (is_Some (ragIndexDir job) -> is_Some (ragIndexDir job')) /\
        (is_Some (knowledgeCount job) -> is_Some (knowledgeCount job')) /\
        (is_Some (knowledgeSources job) -> is_Some (knowledgeSources job')) /\
        (truthy_str (p_error data) = false -> error job' = error job) /\
        updatedAt job' = match p_updatedAt data with Some t => t | None => now end
  end.
Proof.
  unfold getJob, updateJob. destruct (JsMap.get i jobs) as [job|] eqn:G; [|reflexivity].
  exists (apply_patch now data job). cbn [fst snd].
  split; [reflexivity|]. split; [apply jsmap_get_set_eq|].
  repeat (split; [reflexivity|]).
  unfold apply_patch. cbn.
  repeat split.
  - destruct (truthy_str (p_error data)) eqn:E; auto.
    destruct (p_error data); [eauto | discriminate].
  - destruct (truthy_str (p_adapterDir data)) eqn:E; auto.
    destruct (p_adapterDir data); [eauto | discriminate].
  - destruct (truthy_str (p_processedDir data)) eqn:E; auto.
    destruct (p_processedDir data); [eauto | discriminate].
  - destruct (p_knowledgeFile data); simpl; eauto.
  - destruct (p_ragIndexDir data); simpl; eauto.
  - destruct (p_knowledgeCount data); simpl; eauto.
  - destruct (p_knowledgeSources data); simpl; eauto.
  - intros ->. reflexivity.
Qed.


Lemma last_cons_default {X} (l : list X) : forall a d,
  List.last (a :: l) d = List.last l a.
Proof.
  induction l as [|b l IH]; intros a d; [reflexivity|].
  change (List.last (a :: b :: l) d) with (List.last (b :: l) d).
  now rewrite (IH b d), (IH b a).
Qed.

(** A run of [appendLog] calls on one job: an unknown id changes nothing;
    otherwise the lines are added to the log in call order, after what was
    there, the status and the error stay, and [updatedAt] is the time of the
    last call. *)
Theorem appendLog_sequence i (entries : list (Z * string)) : forall jobs,
  let jobs' :=
    List.fold_left (fun js e => appendLog (fst e) i (snd e) js) entries jobs in
  match getJob i jobs with
  | None => jobs' = jobs
  | Some job =>
      exists job',
        getJob i jobs' = Some job' /\
        logs job' = logs job ++ List.map snd entries /\
        status job' = status job /\ error job' = error job /\
        updatedAt job' = List.last (List.map fst entries) (updatedAt job) /\
        JsMap.keys jobs' = JsMap.keys jobs /\
        forall k, k <> i -> getJob k jobs' = getJob k jobs
  end.
Proof.
  unfold getJob. induction entries as [|[now line] es IH]; intros jobs; cbn [List.fold_left].
  - destruct (JsMap.get i jobs) as [job|]; [|reflexivity].
    exists job. rewrite app_nil_r. repeat split; auto.
  - specialize (IH (appendLog now i line jobs)). cbv zeta in IH. cbn [fst snd].
    destruct (JsMap.get i jobs) as [job|] eqn:G.
    + assert (appendLog now i line jobs
              = JsMap.set i (set_updatedAt now (set_logs (logs job ++ [line]) job)) jobs)
        as Ha by (unfold appendLog; now rewrite G).
      rewrite Ha in IH |- *. rewrite jsmap_get_set_eq in IH.
      destruct IH as (job' & H1 & H2 & H3 & H4 & H5 & H6 & H7).
      exists job'. split; [exact H1|]. cbn in H2, H3, H4, H5.
      split; [now rewrite H2, <- app_assoc|]. split; [exact H3|]. split; [exact H4|].
      split; [rewrite H5; symmetry; apply (last_cons_default (List.map fst es))|].
      split.
      { rewrite H6, jsmap_keys_set. unfold JsMap.has. now rewrite G. }
      intros k Hk. rewrite (H7 k Hk). apply jsmap_get_set_ne. congruence.
    + assert (appendLog now i line jobs = jobs) as Ha
        by (unfold appendLog; now rewrite G).
      rewrite Ha in IH |- *. rewrite G in IH. exact IH.
Qed.

End JobStoreFacts.

Section RestartFacts.
Context {A : Type} (f : A -> A).

Lemma jsmap_set_fresh {V} k (v : V) m :
  ~ In k (JsMap.keys m) -> JsMap.set k v m = m ++ [(k, v)].
Proof.
  induction m as [|[k0 v0] m IH]; simpl; intros H; [reflexivity|].
  destruct (String.eqb_spec k k0) as [->|Hne]; [tauto|].
  rewrite IH; tauto.
Qed.

(** Loading entries with distinct, new keys appends them in order. *)
Lemma load_append (entries : list (string * A)) : forall acc,
  List.NoDup (JsMap.keys acc ++ List.map fst entries) ->
  List.fold_left (fun map e => JsMap.set (fst e) (f (snd e)) map) entries acc
  = acc ++ List.map (fun e => (fst e, f (snd e))) entries.
Proof.
  induction entries as [|[k v] es IH]; intros acc H; cbn [List.fold_left List.map].
  - now rewrite app_nil_r.
  - cbn [fst snd]. rewrite jsmap_set_fresh.
    + rewrite IH.
      * now rewrite <- app_assoc.
      * unfold JsMap.keys in *. rewrite List.map_app. cbn [List.map fst].
        rewrite <- app_assoc. exact H.
    + apply List.NoDup_remove_2 in H. intros Hin. apply H. apply in_or_app. now left.
Qed.

Lemma jsmap_get_map i (m : JsMap.t A) :
  JsMap.get i (List.map (fun e => (fst e, f (snd e))) m) = f <$> JsMap.get i m.
Proof.
  induction m as [|[k v] m IH]; simpl; [reflexivity|].
  destruct (String.eqb i k); [reflexivity | exact IH].
Qed.

Lemma jsmap_keys_map (m : JsMap.t A) :
  JsMap.keys (List.map (fun e => (fst e, f (snd e))) m) = JsMap.keys m.
Proof. unfold JsMap.keys. rewrite List.map_map. reflexivity. Qed.

End RestartFacts.

Section Restart.

Lemma sanitize_idempotent j : JobStore.sanitize (JobStore.sanitize j) = JobStore.sanitize j.
Proof. apply sanitize_other. apply sanitize_not_running. Qed.

Lemma load_saved_jobs jobs :
  JobStore.loadJobsFromDisk (JobStore.saveJobsToDisk jobs)
  = List.map (fun e => (fst e, JobStore.sanitize (snd e))) (JsObject.of_map jobs).
Proof.
  unfold JobStore.loadJobsFromDisk, JobStore.saveJobsToDisk.
  rewrite (load_append JobStore.sanitize (JsObject.of_map jobs) JsMap.empty);
    [reflexivity | apply jsobj_of_map_NoDup].
Qed.

Lemma load_saved_clones now clones :
  CloneStore.loadClonesFromDisk now (CloneStore.saveClonesToDisk clones)
  = List.map (fun e => (fst e, CloneStore.set_isRunning (Some false) (snd e)))
      (JsObject.of_map clones).
Proof.
  unfold CloneStore.loadClonesFromDisk, CloneStore.saveClonesToDisk.
  rewrite (load_append (CloneStore.set_isRunning (Some false))
             (JsObject.of_map clones) JsMap.empty);
    [reflexivity | apply jsobj_of_map_NoDup].
Qed.

(** What a store holds after a save and a reload that applies [f] to every
    entry. *)
Lemma get_reloaded {A} (f : A -> A) (m : JsMap.t A) i :
  List.NoDup (JsMap.keys m) ->
  JsMap.get i (List.map (fun e => (fst e, f (snd e))) (JsObject.of_map m))
  = if String.eqb i "__proto__" then None else f <$> JsMap.get i m.
Proof.
  intros H. rewrite jsmap_get_map, jsobj_of_map_get by exact H.
  now destruct (String.eqb i "__proto__").
Qed.

Lemma reloaded_NoDup {A} (f : A -> A) (m : JsMap.t A) :
  List.NoDup (JsMap.keys (List.map (fun e => (fst e, f (snd e))) (JsObject.of_map m))).
Proof. rewrite jsmap_keys_map. apply jsobj_of_map_NoDup. Qed.

(** Saving the job store and loading it again, as a restart does after a
    save.  The save copies the store into a plain object, which takes no
    property named [__proto__]: a job stored under that id is lost.  Every
    other job comes back under its id, sanitized; a job that was not
    running comes back as it was; no job appears; and a second save and
    restart changes nothing. *)
Theorem jobs_survive_restart jobs :
  List.NoDup (JsMap.keys jobs) ->
  let jobs' := JobStore.loadJobsFromDisk (JobStore.saveJobsToDisk jobs) in
  (forall i, JobStore.getJob i jobs'
             = if String.eqb i "__proto__" then None
               else JobStore.sanitize <$> JobStore.getJob i jobs) /\
  (forall i job, i <> "__proto__"%string -> JobStore.getJob i jobs = Some job ->
     JobStore.status job <> JobStore.running -> JobStore.getJob i jobs' = Some job) /\
  JsMap.size jobs'
  = List.length (List.filter (fun e => negb (String.eqb (fst e) "__proto__")) jobs) /\
  (forall i,
     JobStore.getJob i (JobStore.loadJobsFromDisk (JobStore.saveJobsToDisk jobs'))
     = JobStore.getJob i jobs').
Proof.
  intros H jobs'. subst jobs'. unfold JobStore.getJob.
  rewrite !load_saved_jobs.
  split; [intros i; now apply get_reloaded|]. split; [|split].
  - intros i job Hi G Hst. rewrite get_reloaded by exact H.
    destruct (String.eqb_spec i "__proto__"); [congruence|].
    rewrite G. simpl. now rewrite sanitize_other.
  - unfold JsMap.size. rewrite List.length_map. now apply jsobj_of_map_length.
  - intros i. rewrite (get_reloaded JobStore.sanitize _ i)
      by apply reloaded_NoDup.
    destruct (String.eqb i "__proto__") eqn:E.
    + now rewrite get_reloaded, E by exact H.
    + rewrite get_reloaded, E by exact H.
      destruct (JsMap.get i jobs); simpl; auto.
      now rewrite sanitize_idempotent.
Qed.

Lemma c9_jobs_NoDup : List.NoDup (JsMap.keys c9_jobs).
Proof.
  change (JsMap.keys c9_jobs) with ["a"; "b"]%string.
  apply List.NoDup_cons; [simpl; intros [H|[]]; discriminate|].
  apply List.NoDup_cons; [simpl; tauto | apply List.NoDup_nil].
Qed.

Lemma jobs_survive_restart_witness :
  JobStore.getJob "a" (JobStore.loadJobsFromDisk (JobStore.saveJobsToDisk c9_jobs))
  = JobStore.sanitize <$> JobStore.getJob "a" c9_jobs.
Proof.
  apply (proj1 (jobs_survive_restart c9_jobs c9_jobs_NoDup) "a"%string).
Defined.

(** The clone store over a restart: with no file the store holds the demo
    clone and nothing else, a file that cannot be read gives an empty store,
    and a saved store comes back with every clone under its id, not running
    and otherwise as it was - but for a clone stored under [__proto__],
    which the plain object written by the save does not take and which is
    lost. *)
Theorem clones_survive_restart now clones :
  List.NoDup (JsMap.keys clones) ->
  let clones' := CloneStore.loadClonesFromDisk now (CloneStore.saveClonesToDisk clones) in
  CloneStore.listClones (CloneStore.loadClonesFromDisk now NoFile)
  = [CloneStore.demoClone now] /\
  CloneStore.listClones (CloneStore.loadClonesFromDisk now Unreadable) = [] /\
  (forall i, CloneStore.getClone i clones'
             = if String.eqb i "__proto__" then None
               else CloneStore.set_isRunning (Some false)
                      <$> CloneStore.getClone i clones) /\
  (forall i c, i <> "__proto__"%string -> CloneStore.getClone i clones = Some c ->
     CloneStore.isRunning c = Some false -> CloneStore.getClone i clones' = Some c) /\
  JsMap.size clones'
  = List.length (List.filter (fun e => negb (String.eqb (fst e) "__proto__")) clones).
Proof.
  intros H clones'. subst clones'. unfold CloneStore.getClone.
  rewrite load_saved_clones.
  split; [reflexivity|]. split; [reflexivity|].
  split; [intros i; now apply get_reloaded|]. split.
  - intros i c Hi G Hr. rewrite get_reloaded by exact H.
    destruct (String.eqb_spec i "__proto__"); [congruence|].
    rewrite G. simpl. f_equal.
    destruct c. simpl in *. now subst.
  - unfold JsMap.size. rewrite List.length_map. now apply jsobj_of_map_length.
Qed.

Lemma c9_clones_NoDup : List.NoDup (JsMap.keys c9_clones).
Proof.
  change (JsMap.keys c9_clones) with ["a"; "b"]%string.
  apply List.NoDup_cons; [simpl; intros [H|[]]; discriminate|].
  apply List.NoDup_cons; [simpl; tauto | apply List.NoDup_nil].
Qed.

Lemma clones_survive_restart_witness :
  CloneStore.getClone "b"
    (CloneStore.loadClonesFromDisk 9 (CloneStore.saveClonesToDisk c9_clones))
  = CloneStore.set_isRunning (Some false) <$> CloneStore.getClone "b" c9_clones.
Proof.
  destruct (clones_survive_restart 9 c9_clones c9_clones_NoDup) as (_ & _ & H & _).
  apply (H "b"%string).
Defined.

End Restart.

Section CloneStoreFacts.
Import CloneStore.

(** [updateClone]: an unknown id changes nothing and yields [undefined]; for
    a known id the clone returned is the clone stored; id, model, job, key
    and the start and creation stamps never change; an optional field that
    was set is still set afterwards, so an absent [ragIndexDir] or
    [knowledgeFile] in the patch does not clear the field; an empty name is
    ignored; [isRunning: false] is written. *)
Theorem updateClone_never_clears now i data clones :
  match getClone i clones with
  | None => updateClone now i data clones = (None, clones)
  | Some clone =>
      exists clone',
        fst (updateClone now i data clones) = Some clone' /\
        getClone i (snd (updateClone now i data clones)) = Some clone' /\
        id clone' = id clone /\ modelId clone' = modelId clone /\
        jobId clone' = jobId clone /\ apiKey clone' = apiKey clone /\
        startedAt clone' = startedAt clone /\ createdAt clone' = createdAt clone /\
        (is_Some (ragIndexDir clone) -> is_Some (ragIndexDir clone')) /\
        (is_Some (knowledgeFile clone) -> is_Some (knowledgeFile clone')) /\
        (is_Some (knowledgeCount clone) -> is_Some (knowledgeCount clone')) /\
        (is_Some (knowledgeSources clone) -> is_Some (knowledgeSources clone')) /\
        (is_Some (datasetId clone) -> is_Some (datasetId clone')) /\
        (is_Some (datasetCount clone) -> is_Some (datasetCount clone')) /\
        (is_Some (messengers clone) -> is_Some (messengers clone')) /\
        (p_ragIndexDir data = None -> ragIndexDir clone' = ragIndexDir clone) /\
        (p_name data = Some ""%string -> name clone' = name clone) /\
        (forall b, p_isRunning data = Some b -> isRunning clone' = Some b) /\
        updatedAt clone' = match p_updatedAt data with Some t => t | None => now end
  end.
Proof.
  unfold getClone, updateClone.
  destruct (JsMap.get i clones) as [clone|] eqn:G; [|reflexivity].
  exists (apply_patch now data clone). cbn [fst snd].
  split; [reflexivity|]. split; [apply jsmap_get_set_eq|].
  repeat (split; [reflexivity|]).
  unfold apply_patch. cbn.
  repeat split.
  - destruct (p_ragIndexDir data); simpl; eauto.
  - destruct (p_knowledgeFile data); simpl; eauto.
  - destruct (p_knowledgeCount data); simpl; eauto.
  - destruct (p_knowledgeSources data); simpl; eauto.
  - destruct (truthy_str (p_datasetId data)) eqn:E; auto.
    destruct (p_datasetId data); [eauto | discriminate].
  - destruct (p_datasetCount data); simpl; eauto.
  - destruct (p_messengers data); simpl; eauto.
  - intros ->. reflexivity.
  - intros ->. reflexivity.
  - intros b ->. reflexivity.
Qed.

End CloneStoreFacts.

(** * Further properties of the training route *)

(** ** The simulated job *)

Section SimulateFacts.
Import Async.

Lemma Tracked_intro w jobId row :
  Repo.training_jobs (db w) !! jobId = Some row ->
  Repo.clone_id row = None ->
  Tracked jobId (Repo.status row) (Repo.error row) (Repo.logs row)
    (Repo.clones (db w)) (procs w) w.
Proof. intros Hrow Hc. split; [|split; reflexivity]. exists row. auto. Qed.

Lemma run_simulateJob o {jobId st err lg cl ps w} :
  Tracked jobId st err lg cl ps w ->
  exists w',
    run o (Training.simulateJob jobId) w = (Returned tt, w') /\
    Tracked jobId JobStore.running err (lg ++ ["Simulated training started."]%string)
      cl ps w'.
Proof.
  intros H. unfold Training.simulateJob. rewrite run_bind.
  destruct (run_updateJobRepo o (Training.statusUpdate JobStore.running) eq_refl H)
    as (w1 & job1 & -> & H1).
  cbn [Training.statusUpdate Repo.u_status Repo.u_error Repo.pick truthy_str] in H1.
  exact (run_appendLogRepo o "Simulated training started." H1).
Qed.

Lemma run_simulateJobTimer o {jobId st err lg cl ps w} :
  Tracked jobId st err lg cl ps w ->
  exists w',
    run o (Training.simulateJobTimer jobId) w = (Returned tt, w') /\
    Tracked jobId JobStore.succeeded err
      (lg ++ ["Simulated training finished."]%string) cl ps w'.
Proof.
  intros H. unfold Training.simulateJobTimer. rewrite run_bind.
  destruct (run_appendLogRepo o "Simulated training finished." H) as (w1 & -> & H1).
  rewrite run_bind.
  destruct (run_updateJobRepo o (Training.statusUpdate JobStore.succeeded) eq_refl H1)
    as (w2 & job2 & -> & H2).
  cbn [Training.statusUpdate Repo.u_status Repo.u_error Repo.pick truthy_str] in H2.
  rewrite run_bind. destruct (run_getJob o H2) as (job & -> & Hj).
  rewrite (run_updateLinkedClone o job _ w2 Hj).
  exists w2. auto.
Qed.

Lemma run_simulatedRun o {jobId st err lg cl ps w} :
  Tracked jobId st err lg cl ps w ->
  exists w' lg',
    run o (Training.simulatedRun jobId) w = (Returned tt, w') /\
    Tracked jobId JobStore.succeeded err lg' cl ps w'.
Proof.
  intros H. unfold Training.simulatedRun. rewrite run_bind.
  destruct (run_simulateJob o H) as (w1 & -> & H1).
  rewrite run_bind. cbn [call run handle settles].
  match goal with |- context [run o (Training.simulateJobTimer jobId) ?w2] =>
    assert (Tracked jobId JobStore.running err
              (lg ++ ["Simulated training started."]%string) cl ps w2) as H2
      by (eapply Tracked_db; [| |exact H1]; reflexivity)
  end.
  destruct (run_simulateJobTimer o H2) as (w3 & -> & H3).
  eexists w3, _. split; [reflexivity | exact H3].
Qed.

(** A simulated job, on a job row with no clone id.  The call itself
    returns with the job running and its first line in the log; the job is
    never queued again.  The callback of the timer, whenever it runs on
    such a row, adds the second line and marks the job succeeded.  Neither
    spawns a process, touches the error column or writes to the clone
    table: the clone made for the job is not marked ready. *)
Theorem simulateJob_then_timer o w jobId row :
  Repo.training_jobs (db w) !! jobId = Some row ->
  Repo.clone_id row = None ->
  (exists w1 row1,
     run o (Training.simulateJob jobId) w = (Returned tt, w1) /\
     Repo.training_jobs (db w1) !! jobId = Some row1 /\
     Repo.status row1 = JobStore.running /\ Repo.error row1 = Repo.error row /\
     Repo.logs row1 = Repo.logs row ++ ["Simulated training started."]%string /\
     Repo.clone_id row1 = None /\
     Repo.clones (db w1) = Repo.clones (db w) /\ procs w1 = procs w) /\
  (exists w2 row2,
     run o (Training.simulateJobTimer jobId) w = (Returned tt, w2) /\
     Repo.training_jobs (db w2) !! jobId = Some row2 /\
     Repo.status row2 = JobStore.succeeded /\ Repo.error row2 = Repo.error row /\
     Repo.logs row2 = Repo.logs row ++ ["Simulated training finished."]%string /\
     Repo.clone_id row2 = None /\
     Repo.clones (db w2) = Repo.clones (db w) /\ procs w2 = procs w).
Proof.
  intros Hrow Hc. pose proof (Tracked_intro w jobId row Hrow Hc) as H. split.
  - destruct (run_simulateJob o H)
      as (w1 & Hrun & (row1 & Hrow1 & Hc1 & Hst & Herr & Hlg) & Hcl & Hps).
    exists w1, row1. repeat split; auto.
  - destruct (run_simulateJobTimer o H)
      as (w2 & Hrun & (row2 & Hrow2 & Hc2 & Hst & Herr & Hlg) & Hcl & Hps).
    exists w2, row2. repeat split; auto.
Qed.

End SimulateFacts.

Section PostFacts.
Import Async.
Variables REPO_ROOT DATASETS_DIR OUTPUTS_DIR : string.
Variable join : string -> string -> string.
Variable basename : string -> string.
Variable trim : string -> string.

Local Abbreviation POST :=
  (Training.POST REPO_ROOT DATASETS_DIR OUTPUTS_DIR join basename trim).

(** A training request that passes the checks, with both inserts going
    through: whichever mode runs and whatever the stages do, at the end the
    job row names no clone, and the clone row made for the job is as it was
    inserted, still in training. *)
Theorem POST_never_links_job_to_clone o w payload enableRealTrain u :
  o_user o = Some u ->
  o_exists o (join DATASETS_DIR (Training.datasetId payload)) = true ->
  Repo.training_jobs (db w) !! o_uuid o (seq w) = None ->
  Repo.clones (db w) !! o_uuid o (S (seq w)) = None ->
  let jobId := o_uuid o (seq w) in
  let cloneId := o_uuid o (S (seq w)) in
  let w' := snd (run o (POST (Some payload) enableRealTrain) w) in
  (exists row, Repo.training_jobs (db w') !! jobId = Some row /\
     Repo.clone_id row = None) /\
  (exists crow, Repo.clones (db w') !! cloneId = Some crow /\
     Repo.c_status crow = CloneStore.training /\
     Repo.c_job_id crow = Some jobId /\
     Repo.c_is_running crow = false).
Proof.
  intros Hu Hex Hj Hc jobId cloneId w'.
  destruct (run_POST_accepted REPO_ROOT DATASETS_DIR OUTPUTS_DIR join basename trim
              o w payload enableRealTrain u Hu Hex Hj Hc)
    as (w2 & crow & E & H2 & Hcj & Hcst & Hcr).
  fold jobId cloneId in E, H2, Hcj.
  assert (exists st err lg ps,
            Tracked jobId st err lg (<[cloneId := crow]> (Repo.clones (db w))) ps w')
    as (st & err & lg & ps & [(row & Hrow & Hcid & _) [Hcl _]]).
  { subst w'. rewrite E. destruct enableRealTrain.
    - destruct (run_runPipeline_tracked REPO_ROOT DATASETS_DIR OUTPUTS_DIR join
                  basename trim o w2 jobId payload _ _ _ _ _ H2) as (w3 & lg3 & Hend).
      cbv zeta in Hend.
      repeat match type of Hend with
             | if ?c then _ else _ => destruct c
             end;
        destruct Hend as [-> HT]; eauto 6.
    - destruct (run_simulatedRun o H2) as (w3 & lg3 & -> & HT). eauto 6. }
  split; [eauto|].
  exists crow. rewrite Hcl, lookup_insert_eq. auto.
Qed.

End PostFacts.

(** ** The pipeline on a job row as [POST] leaves it, every path *)

Section PipelineTheorems.
Import Async.
Variables REPO_ROOT DATASETS_DIR OUTPUTS_DIR : string.
Variable join : string -> string -> string.
Variable basename : string -> string.
Variable trim : string -> string.

Local Abbreviation runPipeline :=
  (Training.runPipeline REPO_ROOT DATASETS_DIR OUTPUTS_DIR join basename trim).
Local Abbreviation cliArgs := (Training.cliArgs REPO_ROOT DATASETS_DIR OUTPUTS_DIR join trim).
Local Abbreviation trainArgs := (Training.trainArgs REPO_ROOT OUTPUTS_DIR join).
Local Abbreviation knowledgeFile := (Training.knowledgeFile OUTPUTS_DIR join).
Local Abbreviation ragIndexDir := (Training.ragIndexDir OUTPUTS_DIR join).

Local Ltac conclude Hend w' :=
  destruct Hend as [Hrun [(row' & Hrow' & Hc' & Hst' & Herr' & _) [Hcl' Hps']]];
  eexists _, w', row';
  split; [exact Hrun|]; split; [exact Hrow'|]; split; [exact Hc'|];
  split; [exact Hcl'|].

(** Where a run of the pipeline on a job row with no clone id ends.  The
    promise around a process settles on its [close] event alone, so the run
    returns only if every process it waits for closes; it then leaves the
    job succeeded, with the error column as it was, exactly when the
    dataset and training stages both exit 0, and failed, with the stage and
    its code as error, otherwise.  The exit code of the indexing stage
    plays no part.  A process that never closes leaves the run waiting and
    the job running.  In every case the job row still names no clone and
    the clone table is untouched. *)
Theorem runPipeline_outcome o w jobId payload row :
  Repo.training_jobs (db w) !! jobId = Some row ->
  Repo.clone_id row = None ->
  let r1 := o_proc o "dataset_pipeline"
              (Training.filterBoolean (cliArgs jobId payload)) in
  let r2 := o_proc o "rag_index"
              (Training.filterBoolean
                 (Training.ragArgs (knowledgeFile jobId) (ragIndexDir jobId))) in
  let r3 := o_proc o "train_qlora"
              (Training.filterBoolean (trainArgs jobId payload)) in
  let chunks :=
    Training.totalChunks (knowledgeStatsOf o basename (knowledgeFile jobId)) in
  exists out w' row',
    run o (runPipeline jobId payload) w = (out, w') /\
    Repo.training_jobs (db w') !! jobId = Some row' /\
    Repo.clone_id row' = None /\
    Repo.clones (db w') = Repo.clones (db w) /\
    ((out = Returned tt /\
      Repo.status row' = JobStore.succeeded /\ Repo.error row' = Repo.error row /\
      pr_closes r1 = true /\ pr_code r1 = Some 0 /\
      (0 < chunks -> pr_closes r2 = true) /\
      pr_closes r3 = true /\ pr_code r3 = Some 0) \/
     (out = Returned tt /\
      Repo.status row' = JobStore.failed /\ pr_closes r1 = true /\
      ((pr_code r1 <> Some 0 /\
        Repo.error row'
        = Some (Training.exit_message "dataset_pipeline" (pr_code r1))) \/
       (pr_code r1 = Some 0 /\ (0 < chunks -> pr_closes r2 = true) /\
        pr_closes r3 = true /\ pr_code r3 <> Some 0 /\
        Repo.error row'
        = Some (Training.exit_message "train_qlora" (pr_code r3))))) \/
     (out = Unsettled /\
      Repo.status row' = JobStore.running /\ Repo.error row' = Repo.error row /\
      (pr_closes r1 = false \/
       (pr_closes r1 = true /\ pr_code r1 = Some 0 /\
        ((0 < chunks /\ pr_closes r2 = false) \/
         ((0 < chunks -> pr_closes r2 = true) /\ pr_closes r3 = false)))))).
Proof.
  intros Hrow Hc r1 r2 r3 chunks.
  destruct (run_runPipeline_tracked REPO_ROOT DATASETS_DIR OUTPUTS_DIR join basename
              trim o w jobId payload _ _ _ _ _ (Tracked_intro w jobId row Hrow Hc))
    as (w' & lg' & Hend).
  cbv zeta in Hend. fold r1 r2 r3 chunks in Hend.
  destruct (pr_closes r1) eqn:C1.
  2:{ conclude Hend w'. right. right. auto. }
  destruct (exited_ok (pr_code r1)) eqn:E1.
  2:{ conclude Hend w'. right. left.
      split; [reflexivity|]. split; [exact Hst'|]. split; [reflexivity|]. left.
      split; [|exact Herr']. intros E. apply exited_ok_iff in E. congruence. }
  apply exited_ok_iff in E1.
  destruct (Z.ltb_spec 0 chunks) as [Hch|Hch]; cbn [andb] in Hend.
  - destruct (pr_closes r2) eqn:C2; cbn [negb] in Hend.
    2:{ conclude Hend w'. right. right. do 3 (split; [auto|]). right. auto. }
    destruct (pr_closes r3) eqn:C3.
    2:{ conclude Hend w'. right. right. do 3 (split; [auto|]). right. auto 6. }
    destruct (exited_ok (pr_code r3)) eqn:E3.
    + apply exited_ok_iff in E3. conclude Hend w'. left. auto 10.
    + conclude Hend w'. right. left.
      split; [reflexivity|]. split; [exact Hst'|]. split; [reflexivity|]. right.
      repeat split; auto. intros E. apply exited_ok_iff in E. congruence.
  - assert (0 < chunks -> pr_closes r2 = true) as Hno by lia.
    destruct (pr_closes r3) eqn:C3.
    2:{ conclude Hend w'. right. right. do 3 (split; [auto|]). right. auto 6. }
    destruct (exited_ok (pr_code r3)) eqn:E3.
    + apply exited_ok_iff in E3. conclude Hend w'. left. auto 10.
    + conclude Hend w'. right. left.
      split; [reflexivity|]. split; [exact Hst'|]. split; [reflexivity|]. right.
      repeat split; auto. intros E. apply exited_ok_iff in E. congruence.
Qed.

(** When the dataset stage exits 0 and the training stage closes with
    another code, on a job row with no clone id: the job ends failed with
    "train_qlora exited with code <code>" as its error; the training
    process was the last one spawned, after the dataset stage and - exactly
    when at least one knowledge chunk was counted - the indexing stage; the
    clone table is untouched, so no clone is marked failed. *)
Theorem runPipeline_train_failure_is_fatal o w jobId payload row :
  Repo.training_jobs (db w) !! jobId = Some row ->
  Repo.clone_id row = None ->
  let args1 := Training.filterBoolean (cliArgs jobId payload) in
  let args2 := Training.filterBoolean
                 (Training.ragArgs (knowledgeFile jobId) (ragIndexDir jobId)) in
  let args3 := Training.filterBoolean (trainArgs jobId payload) in
  let chunks :=
    Training.totalChunks (knowledgeStatsOf o basename (knowledgeFile jobId)) in
  pr_closes (o_proc o "dataset_pipeline" args1) = true ->
  pr_code (o_proc o "dataset_pipeline" args1) = Some 0 ->
  (0 < chunks -> pr_closes (o_proc o "rag_index" args2) = true) ->
  pr_closes (o_proc o "train_qlora" args3) = true ->
  pr_code (o_proc o "train_qlora" args3) <> Some 0 ->
  exists w' row',
    run o (runPipeline jobId payload) w = (Returned tt, w') /\
    procs w'
    = procs w ++ spawned "dataset_pipeline" "python3" args1
        :: (if 0 <? chunks then [spawned "rag_index" "python3" args2] else [])
        ++ [spawned "train_qlora" "python3" args3] /\
    Repo.training_jobs (db w') !! jobId = Some row' /\
    Repo.status row' = JobStore.failed /\
    Repo.error row'
    = Some ("train_qlora exited with code " +:+
            Training.show_code (pr_code (o_proc o "train_qlora" args3))) /\
    Repo.clone_id row' = None /\
    Repo.clones (db w') = Repo.clones (db w).
Proof.
  intros Hrow Hc args1 args2 args3 chunks C1 E1 C2 C3 E3.
  destruct (run_runPipeline_tracked REPO_ROOT DATASETS_DIR OUTPUTS_DIR join basename
              trim o w jobId payload _ _ _ _ _ (Tracked_intro w jobId row Hrow Hc))
    as (w' & lg' & Hend).
  cbv zeta in Hend. fold args1 args2 args3 chunks in Hend.
  rewrite C1, (exited_ok_true _ E1), C3, (exited_ok_false _ E3) in Hend.
  assert ((0 <? chunks) && negb (pr_closes (o_proc o "rag_index" args2)) = false)
    as Hrag.
  { destruct (Z.ltb_spec 0 chunks) as [Hch|Hch]; [|reflexivity].
    now rewrite (C2 Hch). }
  rewrite Hrag in Hend.
  destruct Hend as [Hrun [(row' & Hrow' & Hc' & Hst' & Herr' & _) [Hcl' Hps']]].
  exists w', row'. rewrite Hps', <- app_assoc. repeat split; auto.
Qed.

(** When the dataset stage exits 0 and no knowledge chunk is counted, the
    indexing process is never spawned: the run spawns the dataset stage and
    then the training stage, nothing else, and returns if the training
    process closes. *)
Theorem runPipeline_without_chunks_skips_index o w jobId payload row :
  Repo.training_jobs (db w) !! jobId = Some row ->
  Repo.clone_id row = None ->
  let args1 := Training.filterBoolean (cliArgs jobId payload) in
  let args3 := Training.filterBoolean (trainArgs jobId payload) in
  pr_closes (o_proc o "dataset_pipeline" args1) = true ->
  pr_code (o_proc o "dataset_pipeline" args1) = Some 0 ->
  Training.totalChunks (knowledgeStatsOf o basename (knowledgeFile jobId)) <= 0 ->
  exists w',
    run o (runPipeline jobId payload) w
    = (if pr_closes (o_proc o "train_qlora" args3) then Returned tt else Unsettled,
       w') /\
    procs w' = procs w ++ [spawned "dataset_pipeline" "python3" args1;
                           spawned "train_qlora" "python3" args3].
Proof.
  intros Hrow Hc args1 args3 C1 E1 Hz.
  destruct (run_runPipeline_tracked REPO_ROOT DATASETS_DIR OUTPUTS_DIR join basename
              trim o w jobId payload _ _ _ _ _ (Tracked_intro w jobId row Hrow Hc))
    as (w' & lg' & Hend).
  cbv zeta in Hend. fold args1 args3 in Hend.
  rewrite C1, (exited_ok_true _ E1) in Hend.
  apply Z.ltb_ge in Hz. rewrite Hz in Hend. cbn [andb] in Hend.
  exists w'.
  destruct (pr_closes (o_proc o "train_qlora" args3));
    [destruct (exited_ok (pr_code (o_proc o "train_qlora" args3)))|];
    destruct Hend as [Hrun [_ [_ Hps']]];
    (split; [exact Hrun|]); rewrite Hps'; now rewrite <- app_assoc.
Qed.

End PipelineTheorems.

Section PipelineSamples2.
Import Async.

Lemma POST_never_links_job_to_clone_witness :
  let w' :=
    snd (run (t_oracle (Some 2) None None)
           (Training.POST "/repo" "/data" "/out" t_join t_same t_same
              (Some t_payload) true) t_world_empty) in
  (exists row, Repo.training_jobs (db w') !! "id0" = Some row /\
     Repo.clone_id row = None) /\
  (exists crow, Repo.clones (db w') !! "id1" = Some crow /\
     Repo.c_status crow = CloneStore.training /\
     Repo.c_job_id crow = Some "id0"%string /\
     Repo.c_is_running crow = false).
Proof.
  apply (POST_never_links_job_to_clone "/repo" "/data" "/out" t_join t_same t_same
           (t_oracle (Some 2) None None) t_world_empty t_payload true "u1");
    reflexivity.
Defined.

Lemma t_world_queued_row :
  Repo.training_jobs (db t_world_queued) !! "j1" = Some t_row_queued.
Proof. vm_compute. reflexivity. Qed.

Lemma runPipeline_outcome_witness :
  (exists w' row',
     run (t_oracle (Some 0) (Some 1) (Some 0))
       (Training.runPipeline "/repo" "/data" "/out" t_join t_same t_same "j1" t_payload)
       t_world_queued = (Returned tt, w') /\
     Repo.training_jobs (db w') !! "j1" = Some row' /\
     Repo.status row' = JobStore.succeeded /\
     Repo.clones (db w') = Repo.clones (db t_world_queued)) /\
  (exists w' row',
     run t_oracle_stalled
       (Training.runPipeline "/repo" "/data" "/out" t_join t_same t_same "j1" t_payload)
       t_world_queued = (Unsettled, w') /\
     Repo.training_jobs (db w') !! "j1" = Some row' /\
     Repo.status row' = JobStore.running /\
     Repo.clones (db w') = Repo.clones (db t_world_queued)).
Proof.
  split.
  - destruct (runPipeline_outcome "/repo" "/data" "/out" t_join t_same t_same
                (t_oracle (Some 0) (Some 1) (Some 0)) t_world_queued "j1" t_payload
                t_row_queued t_world_queued_row eq_refl)
      as (out & w' & row' & Hrun & Hrow & _ & Hcl &
          [(-> & Hst & _)|[(_ & _ & _ & [(Hn & _)|(_ & _ & _ & Hn & _)])|(_ & _ & _ & Hn)]]).
    + exists w', row'. auto.
    + exfalso. apply Hn. reflexivity.
    + exfalso. apply Hn. reflexivity.
    + exfalso. destruct Hn as [Hn|(_ & _ & [(_ & Hn)|(_ & Hn)])]; discriminate Hn.
  - destruct (runPipeline_outcome "/repo" "/data" "/out" t_join t_same t_same
                t_oracle_stalled t_world_queued "j1" t_payload
                t_row_queued t_world_queued_row eq_refl)
      as (out & w' & row' & Hrun & Hrow & _ & Hcl &
          [(_ & _ & _ & _ & _ & _ & Hn & _)|[(_ & _ & _ & [(Hn & _)|(_ & _ & Hn & _)])|(-> & Hst & _)]]).
    + discriminate Hn.
    + exfalso. apply Hn. reflexivity.
    + discriminate Hn.
    + exists w', row'. auto.
Defined.

Lemma runPipeline_train_failure_is_fatal_witness :
  exists w' row',
    run (t_oracle (Some 0) (Some 0) (Some 3))
      (Training.runPipeline "/repo" "/data" "/out" t_join t_same t_same "j1" t_payload)
      t_world_queued = (Returned tt, w') /\
    List.length (procs w') = 3%nat /\
    Repo.training_jobs (db w') !! "j1" = Some row' /\
    Repo.status row' = JobStore.failed /\
    Repo.error row' = Some "train_qlora exited with code 3"%string /\
    Repo.clones (db w') = Repo.clones (db t_world_queued).
Proof.
  destruct (runPipeline_train_failure_is_fatal "/repo" "/data" "/out" t_join t_same
              t_same (t_oracle (Some 0) (Some 0) (Some 3)) t_world_queued "j1" t_payload
              t_row_queued t_world_queued_row eq_refl)
    as (w' & row' & Hrun & Hps & Hrow & Hst & Herr & _ & Hcl).
  - reflexivity.
  - reflexivity.
  - intros _. reflexivity.
  - reflexivity.
  - simpl. discriminate.
  - exists w', row'.
    split; [exact Hrun|]. split; [rewrite Hps; vm_compute; reflexivity|].
    split; [exact Hrow|]. split; [exact Hst|]. split; [exact Herr | exact Hcl].
Defined.

Lemma runPipeline_without_chunks_skips_index_witness :
  exists w',
    run (t_oracle_empty (Some 0) (Some 0))
      (Training.runPipeline "/repo" "/data" "/out" t_join t_same t_same "j1" t_payload)
      t_world_queued = (Returned tt, w') /\
    List.length (procs w') = 2%nat.
Proof.
  destruct (runPipeline_without_chunks_skips_index "/repo" "/data" "/out" t_join t_same
              t_same (t_oracle_empty (Some 0) (Some 0)) t_world_queued "j1" t_payload
              t_row_queued t_world_queued_row eq_refl)
    as (w' & Hrun & Hps).
  - reflexivity.
  - reflexivity.
  - vm_compute. discriminate.
  - exists w'. split; [exact Hrun|]. rewrite Hps. reflexivity.
Defined.

Lemma simulateJob_then_timer_witness :
  (exists w1 row1,
     run (t_oracle None None None) (Training.simulateJob "j1") t_world_queued
     = (Returned tt, w1) /\
     Repo.training_jobs (db w1) !! "j1" = Some row1 /\
     Repo.status row1 = JobStore.running /\
     Repo.logs row1 = ["Simulated training started."]%string /\
     Repo.clones (db w1) = Repo.clones (db t_world_queued)) /\
  (exists w2 row2,
     run (t_oracle None None None) (Training.simulateJobTimer "j1") t_world_queued
     = (Returned tt, w2) /\
     Repo.training_jobs (db w2) !! "j1" = Some row2 /\
     Repo.status row2 = JobStore.succeeded /\
     Repo.logs row2 = ["Simulated training finished."]%string /\
     Repo.clones (db w2) = Repo.clones (db t_world_queued)).
Proof.
  destruct (simulateJob_then_timer (t_oracle None None None) t_world_queued "j1"
              t_row_queued t_world_queued_row eq_refl)
    as [(w1 & row1 & R1 & G1 & S1 & _ & L1 & _ & C1 & _)
        (w2 & row2 & R2 & G2 & S2 & _ & L2 & _ & C2 & _)].
  split; [exists w1, row1 | exists w2, row2]; auto.
Defined.

End PipelineSamples2.

Section PostRejections.
Import Async.
Variables REPO_ROOT DATASETS_DIR OUTPUTS_DIR : string.
Variable join : string -> string -> string.
Variable basename : string -> string.
Variable trim : string -> string.

Local Abbreviation POST :=
  (Training.POST REPO_ROOT DATASETS_DIR OUTPUTS_DIR join basename trim).

(** The checks of [POST] come before any write: with no user the answer is
    401, with a user and an invalid body 400, with a valid body naming a
    dataset that does not exist 400 "Dataset not found"; in each case the
    answer is the only effect - no row is inserted or updated, no id is
    drawn, no process is spawned. *)
Theorem POST_rejects_before_any_write o w body enableRealTrain :
  let answered r :=
    run o (POST body enableRealTrain) w
    = (Returned tt, mkWorld (db w) (clock w) (seq w) (procs w) (sent w ++ [r])) in
  (o_user o = None -> answered (ErrorResponse 401 "Unauthorized")) /\
  (is_Some (o_user o) -> body = None -> exists msg, answered (ErrorResponse 400 msg)) /\
  (is_Some (o_user o) -> forall payload, body = Some payload ->
   o_exists o (join DATASETS_DIR (Training.datasetId payload)) = false ->
   answered (ErrorResponse 400 "Dataset not found")).
Proof.
  cbv zeta. unfold Training.POST. rewrite run_bind. cbn [call run handle settles].
  split; [|split].
  - intros ->. reflexivity.
  - intros [u ->] ->. eexists. reflexivity.
  - intros [u ->] payload -> Hex. rewrite run_bind. cbn [call run handle settles].
    rewrite Hex. reflexivity.
Qed.

End PostRejections.

Lemma POST_rejects_before_any_write_witness :
  Async.run
    (Async.mkOracle None (fun _ => "x"%string)
       (fun _ _ => Async.mkProcResult [] None 0 true) (fun _ => inr [])
       (fun _ => None) (fun _ => true) (fun _ => []))
    (Training.POST "/repo" "/data" "/out" t_join t_same t_same (Some t_payload) true)
    t_world
  = (Async.Returned tt,
     Async.mkWorld (Async.db t_world) 1000 0 []
       [Async.ErrorResponse 401 "Unauthorized"]).
Proof.
  apply (proj1 (POST_rejects_before_any_write "/repo" "/data" "/out" t_join t_same
                  t_same _ t_world (Some t_payload) true)).
  reflexivity.
Defined.

(** ** Knowledge statistics *)

Section KnowledgeStats.
Import Async.
Variable o : Oracle.
Variable basename : string -> string.

Lemma totalChunksOf_acc l : forall a,
  List.fold_left (fun acc item => acc + chunks item) l a
  = a + Training.totalChunksOf l.
Proof.
  unfold Training.totalChunksOf.
  induction l as [|x l IH]; intros a; cbn [List.fold_left]; [lia|].
  rewrite (IH (a + chunks x)), (IH (0 + chunks x)). lia.
Qed.

Lemma totalChunksOf_cons x l :
  Training.totalChunksOf (x :: l) = chunks x + Training.totalChunksOf l.
Proof.
  unfold Training.totalChunksOf at 1. cbn [List.fold_left].
  rewrite totalChunksOf_acc. lia.
Qed.

Lemma total_set k v (m : JsMap.t KnowledgeSource) :
  Training.totalChunksOf (JsMap.values (JsMap.set k v m))
  = Training.totalChunksOf (JsMap.values m) + chunks v
    - match JsMap.get k m with Some c => chunks c | None => 0 end.
Proof.
  induction m as [|[k0 v0] m IH]; cbn [JsMap.set JsMap.get].
  - change (JsMap.values [(k, v)]) with [v].
    rewrite totalChunksOf_cons. unfold Training.totalChunksOf. cbn. lia.
  - destruct (String.eqb k k0).
    + change (JsMap.values ((k0, v) :: m)) with (v :: JsMap.values m).
      change (JsMap.values ((k0, v0) :: m)) with (v0 :: JsMap.values m).
      rewrite !totalChunksOf_cons. lia.
    + change (JsMap.values ((k0, v0) :: JsMap.set k v m))
        with (v0 :: JsMap.values (JsMap.set k v m)).
      change (JsMap.values ((k0, v0) :: m)) with (v0 :: JsMap.values m).
      rewrite !totalChunksOf_cons, IH. lia.
Qed.

Local Abbreviation counted := (counted o basename).

Lemma or_str_nonempty src d : d <> ""%string -> or_str src d <> ""%string.
Proof.
  intros Hd. unfold or_str. destruct src as [s|]; auto.
  destruct (String.eqb_spec s ""); auto.
Qed.

Lemma countLinesOf_counted lines : forall counters,
  counted counters -> counted (countLinesOf o basename lines counters).
Proof.
  induction lines as [|[|src] rest IH]; intros counters H; cbn [countLinesOf]; auto.
  destruct (inherited (or_str src "unknown")); [now apply IH|].
  destruct H as [Hnd Hall].
  destruct (JsMap.get (or_str src "unknown") counters) as [c|] eqn:G; apply IH.
  - split; [now apply jsmap_NoDup_set|].
    intros k v Hin. apply jsmap_In_set in Hin as [[-> ->]|Hin]; [|auto].
    apply jsmap_get_In in G. destruct (Hall _ _ G) as (H1 & H2 & H3 & H4 & H5).
    unfold Training.bump. cbn. repeat split; auto. lia.
  - split; [now apply jsmap_NoDup_set|].
    intros k v Hin. apply jsmap_In_set in Hin as [[-> ->]|Hin]; [|auto].
    unfold Training.bump. cbn. repeat split; auto; [lia|].
    apply or_str_nonempty. discriminate.
Qed.

Lemma inherited_false k : ~ In k objectPrototypeKeys -> inherited k = false.
Proof.
  intros H. unfold inherited. destruct (List.existsb _ _) eqn:E; [|reflexivity].
  apply List.existsb_exists in E as (x & Hin & Hx).
  apply String.eqb_eq in Hx. subst x. contradiction.
Qed.

(** No line of the file names a member of [Object.prototype] as its
    source. *)
Local Abbreviation plain lines :=
  (forall src, In (Some src) (List.map lineSource lines) ->
     ~ In src objectPrototypeKeys).

Lemma plain_cons l lines : plain (l :: lines) -> plain lines.
Proof. intros H src Hin. apply H. now right. Qed.

Lemma plain_head src lines :
  plain (GoodLine src :: lines) -> inherited (or_str src "unknown") = false.
Proof. intros H. apply inherited_false, H. now left. Qed.

Lemma countLinesOf_total lines : forall counters,
  plain lines ->
  Training.totalChunksOf (JsMap.values (countLinesOf o basename lines counters))
  = Training.totalChunksOf (JsMap.values counters)
    + Z.of_nat (List.length (goodLines lines)).
Proof.
  induction lines as [|[|src] rest IH]; intros counters Hp;
    cbn [countLinesOf goodLines List.filter].
  - cbn. lia.
  - apply IH. exact (plain_cons _ _ Hp).
  - cbn [List.length]. fold (goodLines rest).
    rewrite (plain_head _ _ Hp). pose proof (plain_cons _ _ Hp) as Hp'.
    destruct (JsMap.get (or_str src "unknown") counters) as [c|] eqn:G;
      rewrite IH, total_set, G by exact Hp'; unfold Training.bump; cbn; lia.
Qed.

Lemma jsmap_keys_set_In {V} k (v : V) m k' :
  In k' (JsMap.keys (JsMap.set k v m)) <-> k' = k \/ In k' (JsMap.keys m).
Proof.
  rewrite jsmap_keys_set. unfold JsMap.has.
  destruct (JsMap.get k m) as [x|] eqn:G.
  - split; [auto|]. intros [->|H]; auto.
    apply jsmap_get_In in G. unfold JsMap.keys. apply in_map_iff. now exists (k, x).
  - rewrite in_app_iff. simpl. intuition.
Qed.

Lemma countLinesOf_keys lines : forall counters k,
  plain lines ->
  In k (JsMap.keys (countLinesOf o basename lines counters)) <->
  In k (JsMap.keys counters) \/ In (Some k) (List.map lineSource lines).
Proof.
  induction lines as [|[|src] rest IH]; intros counters k Hp;
    cbn [countLinesOf List.map lineSource].
  - simpl. tauto.
  - rewrite IH by exact (plain_cons _ _ Hp). simpl. intuition discriminate.
  - rewrite (plain_head _ _ Hp). pose proof (plain_cons _ _ Hp) as Hp'.
    destruct (JsMap.get (or_str src "unknown") counters) as [c|] eqn:G;
      rewrite IH, jsmap_keys_set_In by exact Hp'; simpl;
      (split; [intros [[->|H]|H]; auto | intros [H|[H|H]]; auto]);
      inversion H; auto.
Qed.

Lemma counted_sources (m : JsMap.t KnowledgeSource) :
  (forall k v, In (k, v) m -> source v = k) ->
  List.map source (JsMap.values m) = JsMap.keys m.
Proof.
  induction m as [|[k v] m IH]; intros H; [reflexivity|].
  unfold JsMap.values, JsMap.keys in *. cbn [List.map fst snd].
  rewrite (H k v (or_introl eq_refl)), IH; auto.
  intros k0 v0 Hin. apply H. now right.
Qed.

Lemma counted_empty : counted JsMap.empty.
Proof. split; [apply List.NoDup_nil | intros k v []]. Qed.

(** [readKnowledgeStats] on a file that can be read, none of whose sources
    is a name inherited from [Object.prototype]: it returns without
    touching the tables; the total is the number of lines that parse, lines
    that do not parse being skipped; it is the sum of the chunks of the
    sources; the sources reported are exactly the sources of the lines,
    each once, each with at least one chunk, its base name as display name
    and the size the file system gave, if any. *)
Theorem readKnowledgeStats_counts jobId file lines w :
  o_lines o file = inr lines ->
  (forall src, In (Some src) (List.map lineSource lines) ->
     ~ In src objectPrototypeKeys) ->
  exists stats,
    run o (Training.readKnowledgeStats basename jobId file) w = (Returned stats, w) /\
    Training.totalChunks stats = Z.of_nat (List.length (goodLines lines)) /\
    Training.totalChunks stats = Training.totalChunksOf (Training.sources stats) /\
    List.NoDup (List.map source (Training.sources stats)) /\
    (forall src, In src (List.map source (Training.sources stats)) <->
       In (Some src) (List.map lineSource lines)) /\
    (forall s, In s (Training.sources stats) ->
       1 <= chunks s /\ displayName s = Some (basename (source s)) /\
       size s = o_stat o (source s)).
Proof.
  intros Hl Hp. unfold Training.readKnowledgeStats.
  rewrite run_bind. cbn [call run handle settles]. rewrite Hl.
  rewrite run_bind, run_countLines.
  eexists. split; [reflexivity|]. cbn [Training.totalChunks Training.sources].
  pose proof (countLinesOf_counted lines JsMap.empty counted_empty) as [Hnd Hall].
  assert (List.map source (JsMap.values (countLinesOf o basename lines JsMap.empty))
          = JsMap.keys (countLinesOf o basename lines JsMap.empty)) as Hsrc.
  { apply counted_sources. intros k v Hin. now destruct (Hall k v Hin). }
  split.
  { rewrite countLinesOf_total by exact Hp. cbn. reflexivity. }
  split; [reflexivity|]. split; [now rewrite Hsrc|]. split.
  { intros src. rewrite Hsrc, countLinesOf_keys by exact Hp. simpl. tauto. }
  intros s Hin. unfold JsMap.values in Hin. apply in_map_iff in Hin as ([k v] & <- & Hin).
  destruct (Hall k v Hin) as (H1 & H2 & H3 & H4 & H5). cbn [snd].
  rewrite H1. auto.
Qed.

(** A knowledge file that cannot be read counts as no chunk and no source;
    the run returns all the same. *)
Lemma readKnowledgeStats_unreadable jobId file e w :
  o_lines o file = inl e ->
  fst (run o (Training.readKnowledgeStats basename jobId file) w)
  = Returned (Training.mkKnowledgeStats 0 []).
Proof.
  intros Hl. unfold Training.readKnowledgeStats.
  rewrite run_bind. cbn [call run handle settles]. rewrite Hl.
  rewrite run_bind. unfold Training.appendLogRepo. rewrite run_bind.
  cbn [call run handle settles]. destruct (Repo.selectLogs jobId (db w)); reflexivity.
Qed.

End KnowledgeStats.

Lemma readKnowledgeStats_counts_witness :
  exists stats,
    Async.run t_oracle_lines (Training.readKnowledgeStats t_same "j1" "k.jsonl") t_world
    = (Async.Returned stats, t_world) /\
    Training.totalChunks stats = 2.
Proof.
  destruct (readKnowledgeStats_counts t_oracle_lines t_same "j1" "k.jsonl"
              [Async.GoodLine (Some "/d/a.txt"%string); Async.BadLine;
               Async.GoodLine (Some "/d/a.txt"%string)] t_world eq_refl)
    as (stats & Hrun & Htot & _).
  - intros src [H|[H|[H|[]]]]; simpl in H; inversion H; subst;
      vm_compute; intuition discriminate.
  - exists stats. split; [exact Hrun | exact Htot].
Defined.

(** ** The table-backed repositories *)

Section RepoFacts.

Lemma or_undefined_idem x : or_undefined (or_undefined x) = or_undefined x.
Proof. unfold or_undefined. destruct (truthy_str x) eqn:E; [now rewrite E|reflexivity]. Qed.

(** [createJobRepo] followed by [getJob]: on a new key the job read back is
    the job returned - queued, with an empty log, no error, both stamps at
    the time of the insert, and an empty persona, clone id or adapter
    directory stored as null and read back as undefined; the other rows and
    the clone table are untouched.  On a key that is taken the insert fails
    and nothing changes. *)
Theorem createJobRepo_then_getJob u uuid now params t :
  match Repo.training_jobs t !! uuid with
  | Some _ => Repo.createJobRepo u uuid now params t = (None, t)
  | None =>
      exists job,
        fst (Repo.createJobRepo u uuid now params t) = Some job /\
        Repo.getJob uuid (snd (Repo.createJobRepo u uuid now params t)) = Some job /\
        JobStore.id job = uuid /\ JobStore.status job = JobStore.queued /\
        JobStore.logs job = [] /\ JobStore.error job = None /\
        JobStore.createdAt job = now /\ JobStore.updatedAt job = now /\
        JobStore.persona job = or_undefined (JobStore.cp_persona params) /\
        JobStore.cloneId job = or_undefined (JobStore.cp_cloneId params) /\
        JobStore.adapterDir job = or_undefined (JobStore.cp_adapterDir params) /\
        (forall k, k <> uuid ->
           Repo.getJob k (snd (Repo.createJobRepo u uuid now params t))
           = Repo.getJob k t) /\
        Repo.clones (snd (Repo.createJobRepo u uuid now params t)) = Repo.clones t
  end.
Proof.
  unfold Repo.createJobRepo.
  destruct (Repo.training_jobs t !! uuid) as [row|] eqn:G; [reflexivity|].
  eexists. cbn [fst snd]. split; [reflexivity|].
  unfold Repo.getJob. cbn [Repo.training_jobs Repo.with_jobs Repo.clones].
  split; [now rewrite lookup_insert_eq|].
  cbn. unfold Repo.or_null. rewrite !or_undefined_idem.
  repeat split.
  intros k Hk. now rewrite lookup_insert_ne by congruence.
Qed.

(** [updateJobRepo]: an unknown id changes nothing and yields null.  For a
    known id the row stored is the row returned; its id, owner, model,
    dataset, prompt, persona, creation stamp and its clone id and clone
    name are never changed, whatever the update carries; [updated_at] is
    the time of the update; an absent or empty [error] leaves the error
    column; a [knowledgeCount] of any value, 0 included, is written; the
    other rows and the clone table are untouched. *)
Theorem updateJobRepo_frame now i u t :
  match Repo.training_jobs t !! i with
  | None => Repo.updateJobRepo now i u t = (None, t)
  | Some row =>
      exists row',
        Repo.training_jobs (snd (Repo.updateJobRepo now i u t)) !! i = Some row' /\
        fst (Repo.updateJobRepo now i u t) = Some (Repo.mapToJobRecord row') /\
        Repo.id row' = Repo.id row /\ Repo.user_id row' = Repo.user_id row /\
        Repo.model_id row' = Repo.model_id row /\
        Repo.dataset_path row' = Repo.dataset_path row /\
        Repo.system_prompt row' = Repo.system_prompt row /\
        Repo.persona row' = Repo.persona row /\
        Repo.created_at row' = Repo.created_at row /\
        Repo.clone_id row' = Repo.clone_id row /\
        Repo.clone_name row' = Repo.clone_name row /\
        Repo.updated_at row' = now /\
        (truthy_str (Repo.u_error u) = false -> Repo.error row' = Repo.error row) /\
        (forall n, Repo.u_knowledgeCount u = Some n ->
           Repo.knowledge_count row' = Some n) /\
        (forall k, k <> i ->
           Repo.training_jobs (snd (Repo.updateJobRepo now i u t)) !! k
           = Repo.training_jobs t !! k) /\
        Repo.clones (snd (Repo.updateJobRepo now i u t)) = Repo.clones t
  end.
Proof.
  unfold Repo.updateJobRepo.
  destruct (Repo.training_jobs t !! i) as [row|] eqn:G; [|reflexivity].
  exists (Repo.apply_updates now u row). cbn [fst snd Repo.training_jobs Repo.with_jobs Repo.clones].
  split; [apply lookup_insert_eq|]. split; [reflexivity|].
  repeat (split; [reflexivity|]).
  split.
  { intros H. cbn. unfold Repo.pick. now rewrite H. }
  split.
  { intros n H. cbn. now rewrite H. }
  split; [|reflexivity].
  intros k Hk. now rewrite lookup_insert_ne by congruence.
Qed.

(** [updateCloneRepo]: an unknown id changes nothing and yields null.  For
    a known id id, owner, model, job, key and the start and creation stamps
    never change; an absent or empty [name] or [datasetId] leaves the
    column, while a [datasetCount] of any value, 0 included, and an
    [isRunning] of either value are written; the other rows and the job
    table are untouched. *)
Theorem updateCloneRepo_frame now i u t :
  match Repo.clones t !! i with
  | None => Repo.updateCloneRepo now i u t = (None, t)
  | Some row =>
      exists row',
        Repo.clones (snd (Repo.updateCloneRepo now i u t)) !! i = Some row' /\
        fst (Repo.updateCloneRepo now i u t) = Some (Repo.mapToCloneRecord row') /\
        Repo.c_id row' = Repo.c_id row /\ Repo.c_user_id row' = Repo.c_user_id row /\
        Repo.c_model_id row' = Repo.c_model_id row /\
        Repo.c_job_id row' = Repo.c_job_id row /\
        Repo.c_api_key row' = Repo.c_api_key row /\
        Repo.c_started_at row' = Repo.c_started_at row /\
        Repo.c_created_at row' = Repo.c_created_at row /\
        Repo.c_updated_at row' = now /\
        (or_str (CloneStore.p_name u) "" = ""%string -> Repo.c_name row' = Repo.c_name row) /\
        (truthy_str (CloneStore.p_datasetId u) = false ->
           Repo.c_dataset_id row' = Repo.c_dataset_id row) /\
        (forall n, CloneStore.p_datasetCount u = Some n ->
           Repo.c_dataset_count row' = n) /\
        (forall b, CloneStore.p_isRunning u = Some b -> Repo.c_is_running row' = b) /\
        (forall k, k <> i ->
           Repo.clones (snd (Repo.updateCloneRepo now i u t)) !! k
           = Repo.clones t !! k) /\
        Repo.training_jobs (snd (Repo.updateCloneRepo now i u t))
        = Repo.training_jobs t
  end.
Proof.
  unfold Repo.updateCloneRepo.
  destruct (Repo.clones t !! i) as [row|] eqn:G; [|reflexivity].
  exists (Repo.apply_clone_updates now u row).
  cbn [fst snd Repo.training_jobs Repo.with_clones Repo.clones].
  split; [apply lookup_insert_eq|]. split; [reflexivity|].
  repeat (split; [reflexivity|]).
  split.
  { cbn. destruct (CloneStore.p_name u) as [n|]; [|reflexivity].
    simpl. destruct (String.eqb_spec n ""); [reflexivity|]. intros H. congruence. }
  split.
  { intros H. cbn. unfold Repo.pick. now rewrite H. }
  split.
  { intros n H. cbn. now rewrite H. }
  split.
  { intros b H. cbn. now rewrite H. }
  split; [|reflexivity].
  intros k Hk. now rewrite lookup_insert_ne by congruence.
Qed.

End RepoFacts.

(** ** The lists of the table-backed repositories *)

Section RepoOrder.
Context {A : Type} (stamp : A -> Z).

Local Abbreviation later := (fun a b : A => stamp b <= stamp a).








End RepoOrder.

Section RepoLists.



End RepoLists.

(** * Further properties of the integration store *)

Section IntegrationFacts.
Import IntegrationStore.

Lemma platform_eqb_eq a b : platform_eqb a b = true <-> a = b.
Proof. destruct a, b; simpl; split; congruence. Qed.

Lemma platform_eqb_refl a : platform_eqb a a = true.
Proof. now apply platform_eqb_eq. Qed.

Local Abbreviation onPlatform p := (fun i : IntegrationConfig => platform_eqb (platform i) p).

(** The entry [upsertIntegration] creates when the platform is new. *)
Local Abbreviation newEntry now p data :=
  (mkIntegrationConfig p (match u_active data with Some a => a | None => false end)
     (u_token data) now).

Lemma upsert_list_find now p data l :
  List.find (onPlatform p) (upsert_list now p data l)
  = Some (match List.find (onPlatform p) l with
          | Some c => touch now data c
          | None => newEntry now p data
          end).
Proof.
  induction l as [|i l IH]; cbn [upsert_list List.find].
  - cbn. now rewrite platform_eqb_refl.
  - destruct (platform_eqb (platform i) p) eqn:E; cbn [List.find].
    + unfold touch at 1. cbn [platform]. now rewrite E.
    + now rewrite E.
Qed.

Lemma upsert_list_others now p data l q :
  q <> p ->
  List.filter (onPlatform q) (upsert_list now p data l) = List.filter (onPlatform q) l.
Proof.
  intros Hq. induction l as [|i l IH]; cbn [upsert_list List.filter].
  - cbn. destruct (platform_eqb p q) eqn:E; [|reflexivity].
    apply platform_eqb_eq in E. congruence.
  - destruct (platform_eqb (platform i) p) eqn:E; cbn [List.filter].
    + apply platform_eqb_eq in E. unfold touch. cbn [platform].
      destruct (platform_eqb (platform i) q) eqn:E'; [|reflexivity].
      apply platform_eqb_eq in E'. congruence.
    + now rewrite IH.
Qed.

Lemma upsert_list_platforms now p data l :
  List.map platform (upsert_list now p data l)
  = List.map platform l ++ (if List.existsb (onPlatform p) l then [] else [p]).
Proof.
  induction l as [|i l IH]; cbn [upsert_list List.map List.existsb]; [reflexivity|].
  destruct (platform_eqb (platform i) p) eqn:E; cbn [List.map orb].
  - now rewrite app_nil_r.
  - now rewrite IH.
Qed.

(** [upsertIntegration] on the list of one clone: afterwards the platform
    has an entry, the first of its platform, stamped with the time of the
    call - the entry that was there with [active] and [token] replaced
    where the data give them and kept where they do not, or else a new
    entry, inactive unless the data say otherwise; the entries of the other
    platforms are as they were, in their order; the platforms listed are
    the ones before, with the new one at the end if it was not there. *)
Theorem upsert_list_spec now p data l :
  let l' := upsert_list now p data l in
  (exists e, List.find (onPlatform p) l' = Some e /\ platform e = p /\ updatedAt e = now /\
     active e = match u_active data, List.find (onPlatform p) l with
                | Some a, _ => a
                | None, Some c => active c
                | None, None => false
                end /\
     token e = match u_token data, List.find (onPlatform p) l with
               | Some t, _ => Some t
               | None, Some c => token c
               | None, None => None
               end) /\
  (forall q, q <> p -> List.filter (onPlatform q) l' = List.filter (onPlatform q) l) /\
  List.map platform l'
  = List.map platform l ++ (if List.existsb (onPlatform p) l then [] else [p]) /\
  List.length l' = (if List.existsb (onPlatform p) l then List.length l else S (List.length l)).
Proof.
  cbv zeta. split; [|split; [|split]].
  - rewrite upsert_list_find. eexists. split; [reflexivity|].
    destruct (List.find (onPlatform p) l) as [c|] eqn:F; cbn.
    + apply List.find_some in F as [_ F]. apply platform_eqb_eq in F.
      repeat split; auto; destruct data as [[a|] [t|]]; reflexivity.
    + repeat split; destruct data as [[a|] [t|]]; reflexivity.
  - intros q Hq. now apply upsert_list_others.
  - apply upsert_list_platforms.
  - rewrite <- (List.length_map platform), upsert_list_platforms, List.length_app,
      List.length_map.
    destruct (List.existsb (onPlatform p) l); simpl; lia.
Qed.

Lemma get_upsert now cid p data store :
  get_body cid (fst (upsert_body now cid p data store))
  = upsert_list now p data (get_body cid store).
Proof.
  unfold upsert_body, get_body. cbn [fst]. rewrite lookup_insert_eq. cbn.
  now destruct (store !! cid).
Qed.

Lemma get_upsert_ne now cid p data store cid' :
  cid' <> cid ->
  get_body cid' (fst (upsert_body now cid p data store)) = get_body cid' store.
Proof.
  intros H. unfold upsert_body, get_body. cbn [fst].
  now rewrite lookup_insert_ne by congruence.
Qed.

Lemma snd_upsert now cid p data store :
  snd (upsert_body now cid p data store)
  = upsert_list now p data (get_body cid store).
Proof. unfold upsert_body, get_body. cbn [snd]. now destruct (store !! cid). Qed.


Lemma c1_not_inherited : ~ In "c1"%string objectPrototypeKeys.
Proof. simpl. intuition discriminate. Qed.


End IntegrationFacts.

Section TelegramFacts.
Import IntegrationStore TelegramRoute.

Local Abbreviation onPlatform p :=
  (fun i : IntegrationConfig => platform_eqb (platform i) p).

Lemma finish_upsert now cid p data store :
  (let '(st', l) := upsert_body now cid p data store in (Configured l, st'))
  = (Configured (upsert_list now p data (get_body cid store)),
     fst (upsert_body now cid p data store)).
Proof. rewrite <- snd_upsert. now destruct (upsert_body now cid p data store). Qed.

(** One request to the Telegram route, served alone, for a clone id that is
    no member name of [Object.prototype] (the route does not validate the
    id, and under such a name the store throws or loses the write).  A
    token that is not a string, or a start with no token given and none
    stored, is refused with 400 and nothing is written.  Otherwise the answer is the list a
    following [getIntegrations] reads; it has a Telegram entry, stamped
    with the time of the last call, whose token is the token given, or else
    the one stored before, and whose [active] is the value given, or else
    the one stored before, or else false; the other platforms of the clone
    and the other clones are untouched. *)
Theorem telegram_POST_outcome cid tokenField activate now1 now2 now3 store :
  ~ In cid objectPrototypeKeys ->
  let current := List.find isTelegram (get_body cid store) in
  let effective :=
    match givenToken tokenField with
    | Some s => Some s
    | None => match current with Some c => token c | None => None end
    end in
  match POST cid tokenField activate now1 now2 now3 store with
  | (Refused status msg, store') =>
      status = 400 /\ store' = store /\
      (tokenField = NotAString \/
       (activate = Some true /\ truthy_str effective = false /\
        msg = "Bot token is required to start"%string))
  | (Configured l, store') =>
      tokenField <> NotAString /\
      get_body cid store' = l /\
      (exists e, List.find isTelegram l = Some e /\ updatedAt e = now3 /\
         token e = effective /\
         active e = match activate, current with
                    | Some a, _ => a
                    | None, Some c => active c
                    | None, None => false
                    end) /\
      (forall q, q <> telegram ->
         List.filter (onPlatform q) l = List.filter (onPlatform q) (get_body cid store)) /\
      (forall cid', cid' <> cid -> get_body cid' store' = get_body cid' store) /\
      (activate = Some true -> truthy_str effective = true)
  end.
Proof.
  intros _. cbv zeta. unfold POST, runTelegramAction, isTelegram.
  destruct tokenField as [|s|]; cbn [givenToken];
    [| destruct (String.eqb s "") eqn:Es |];
    destruct activate as [[|]|]; cbn [andb negb truthy_str];
    try rewrite Es; cbn [andb negb];
    try (destruct (List.find (onPlatform telegram) (get_body cid store)) as [c|] eqn:F;
         [destruct (truthy_str (token c)) eqn:T|]); cbn [andb negb truthy_str];
    rewrite ?finish_upsert;
    try (split; [reflexivity|]; split; [reflexivity|]; auto; fail);
    (split; [discriminate|]);
    rewrite ?get_upsert, ?upsert_list_find, ?F; cbn [touch u_active u_token token active updatedAt platform];
    (split; [reflexivity|]);
    (split; [eexists; split; [reflexivity|]; repeat split; auto|]);
    (split; [intros q Hq; rewrite ?upsert_list_others by exact Hq; reflexivity|]);
    (split; [intros cid' Hc; rewrite ?get_upsert_ne by exact Hc; reflexivity|]);
    try (intros _; cbn; now rewrite ?Es, ?T); try discriminate.
Qed.

Lemma telegram_POST_outcome_witness :
  exists l store',
    POST "c1" (Token "tok") (Some true) 1 2 3 g_store = (Configured l, store') /\
    get_body "c1" store' = l /\
    exists e, List.find isTelegram l = Some e /\ updatedAt e = 3 /\
      token e = Some "tok"%string /\ active e = true.
Proof.
  pose proof (telegram_POST_outcome "c1" (Token "tok") (Some true) 1 2 3 g_store
                c1_not_inherited) as T.
  cbv zeta in T.
  destruct (POST "c1" (Token "tok") (Some true) 1 2 3 g_store) as [[st msg|l] store'].
  - destruct T as (_ & _ & [T|(_ & T & _)]); discriminate T.
  - destruct T as (_ & Hget & (e & He & Hu & Ht & Ha) & _).
    exists l, store'. split; [reflexivity|]. split; [exact Hget|].
    exists e. auto.
Defined.

End TelegramFacts.

Section StoreWrites.
Import IntegrationStore IntegrationSys.

Lemma wrote_true_entry s t :
  wrote s t = true -> exists op pc, pcs s !! t = Some (op, pc) /\ is_get op = false.
Proof.
  unfold wrote. destruct (pcs s !! t) as [[op pc]|]; [|discriminate].
  intros H. exists op, pc. split; [reflexivity|].
  destruct pc as [| | | | | | |[|]]; try discriminate;
    now destruct (is_get op).
Qed.

(** In every state concurrent calls reach, the file changes only through
    writes that completed: each write applied belongs to a call of
    [upsertIntegration] or [setIntegrations], never to a read; a call whose
    [saveStore] threw has applied nothing; and when all the calls are reads
    the file still holds what it held at the start. *)
Theorem integration_reads_never_write f0 ops s :
  reachable f0 ops s ->
  (forall t now, In (t, now) (applied s) -> is_get (op_at ops t) = false) /\
  (forall t op message, pcs s !! t = Some (op, Done (RejectedWith message)) ->
     ~ In t (List.map fst (applied s))) /\
  ((forall op, In op ops -> is_get op = true) ->
   applied s = [] /\ loadStore (file s) = loadStore f0).
Proof.
  intros Hreach. pose proof (mutex_inv_reachable _ _ _ Hreach) as Hinv.
  pose proof Hinv as (O & A & B & B0 & C & D & N & E & F & G1 & G2 & H).
  assert (forall t now, In (t, now) (applied s) ->
            exists op pc, pcs s !! t = Some (op, pc) /\ is_get op = false) as Hw.
  { intros t now Hin. apply wrote_true_entry.
    assert (In t (List.map fst (applied s))) as Hin'
      by (apply in_map_iff; now exists (t, now)).
    rewrite H in Hin'. now apply List.filter_In in Hin' as [_ Hin']. }
  split; [|split].
  - intros t now Hin. destruct (Hw t now Hin) as (op & pc & Hp & Hg).
    now rewrite (inv_op_at _ _ _ _ _ _ Hinv Hp).
  - intros t op message Hp Hin. rewrite H in Hin.
    apply List.filter_In in Hin as [_ Hin].
    rewrite (wrote_entry _ _ _ _ Hp) in Hin. discriminate.
  - intros Hall. assert (applied s = []) as Ha.
    { destruct (applied s) as [|[t now] rest] eqn:Ea; [reflexivity|]. exfalso.
      destruct (Hw t now (or_introl eq_refl)) as (op & pc & Hp & Hg).
      assert (In op ops) as Hin.
      { rewrite <- O. apply in_map_iff. exists (op, pc). split; [reflexivity|].
        eapply list_elem_of_In, list_elem_of_lookup_2. exact Hp. }
      rewrite (Hall op Hin) in Hg. discriminate. }
    split; [exact Ha|]. rewrite F, Ha. reflexivity.
Qed.

Lemma integration_reads_never_write_witness :
  In (0%nat, 10) (applied i_sys4) /\ is_get (op_at i_ops 0%nat) = false.
Proof.
  assert (In (0%nat, 10) (applied i_sys4)) as Hin by (vm_compute; auto).
  split; [exact Hin|].
  exact (proj1 (integration_reads_never_write None i_ops i_sys4 i_sys4_reachable)
           0%nat 10 Hin).
Defined.

End StoreWrites.

(** * Further properties of the worker manager *)

Section StopFacts.
Import WorkerManager.

Lemma getWorkerStatus_deleted cloneId s s' :
  workers s' = JsMap.delete cloneId (workers s) -> getWorkerStatus cloneId s' = None.
Proof. intros H. unfold getWorkerStatus. now rewrite H, jsmap_get_delete_eq. Qed.

(** [stopCloneWorker].  For a registered worker: SIGTERM goes to the child
    if it is alive, the entry and the pid file are removed, no kill timer
    is armed and the other entries stay.  With no entry but a pid file of a
    live process, that process is signalled through [killProcess], which
    arms the escalation, and the pid file is removed.  Otherwise the answer
    is "Worker not running" and nothing changes.  In no case does the
    clone's status change; after a stop that succeeds the clone is not
    running. *)
Theorem stopCloneWorker_outcome cloneId now s :
  let res := fst (stopCloneWorker cloneId now s) in
  let s' := snd (stopCloneWorker cloneId now s) in
  (forall cl, JsMap.get cloneId (clones s) = Some cl ->
     exists cl', JsMap.get cloneId (clones s') = Some cl' /\
       CloneStore.status cl' = CloneStore.status cl /\
       (res <> StopErr "Worker not running" -> CloneStore.isRunning cl' = Some false)) /\
  match JsMap.get cloneId (workers s) with
  | Some r =>
      res = StopOk false /\ getWorkerStatus cloneId s' = None /\
      readPidFile cloneId s' = None /\ killTimers s' = killTimers s /\
      os s' = os s ++
              match records s !! r with
              | Some rec =>
                  if isProcessRunning (child_pid (child rec)) s
                  then [Kill (child_pid (child rec)) SIGTERM] else []
              | None => []
              end /\
      (forall k, k <> cloneId -> JsMap.get k (workers s') = JsMap.get k (workers s))
  | None =>
      match readPidFile cloneId s with
      | Some p =>
          if negb (Z.eqb p 0) && isProcessRunning p s
          then res = StopOk true /\ os s' = os s ++ [Kill p SIGTERM] /\
               killTimers s' = killTimers s ++ [p] /\
               readPidFile cloneId s' = None /\ workers s' = workers s
          else res = StopErr "Worker not running" /\ s' = s
      | None => res = StopErr "Worker not running" /\ s' = s
      end
  end.
Proof.
  cbv zeta. unfold stopCloneWorker.
  destruct (JsMap.get cloneId (workers s)) as [r|] eqn:G.
  - cbn [fst snd]. split.
    { intros cl Hcl. eexists. split.
      - apply updateClone_get_eq. cbn.
        destruct (records s !! r) as [rec|]; [|exact Hcl].
        destruct (isProcessRunning (child_pid (child rec)) s); exact Hcl.
      - split; reflexivity. }
    split; [reflexivity|]. split.
    { apply (getWorkerStatus_deleted cloneId
               match records s !! r with
               | Some rec =>
                   if isProcessRunning (child_pid (child rec)) s
                   then emit (Kill (child_pid (child rec)) SIGTERM) s else s
               | None => s
               end).
      reflexivity. }
    split.
    { unfold readPidFile. cbn. apply lookup_delete_eq. }
    split.
    { cbn. destruct (records s !! r) as [rec|]; [|reflexivity].
      now destruct (isProcessRunning (child_pid (child rec)) s). }
    split.
    { cbn. destruct (records s !! r) as [rec|]; [|now rewrite app_nil_r].
      destruct (isProcessRunning (child_pid (child rec)) s);
        [reflexivity | now rewrite app_nil_r]. }
    intros k Hk. cbn.
    assert (forall m : JsMap.t Ref, JsMap.get k (JsMap.delete cloneId m) = JsMap.get k m)
      as Hd by (intros m; apply jsmap_get_delete_ne; congruence).
    destruct (records s !! r) as [rec|]; [|apply Hd].
    destruct (isProcessRunning (child_pid (child rec)) s); apply Hd.
  - destruct (readPidFile cloneId s) as [p|] eqn:R.
    + destruct (negb (Z.eqb p 0) && isProcessRunning p s) eqn:E; cbn [fst snd].
      * apply andb_prop in E as [_ E]. split.
        { intros cl Hcl. eexists. split.
          - apply updateClone_get_eq.
            change (clones (removePidFile cloneId (killProcess p s)))
              with (clones (killProcess p s)).
            rewrite killProcess_clones. exact Hcl.
          - split; reflexivity. }
        unfold killProcess. rewrite E. cbn.
        split; [reflexivity|]. split; [reflexivity|]. split; [reflexivity|].
        split; [|reflexivity]. unfold readPidFile. cbn. apply lookup_delete_eq.
      * split; [|split; reflexivity].
        intros cl Hcl. exists cl. split; [exact Hcl|]. split; [reflexivity|].
        intros H. congruence.
    + cbn [fst snd]. split; [|split; reflexivity].
      intros cl Hcl. exists cl. split; [exact Hcl|]. split; [reflexivity|].
      intros H. congruence.
Qed.

End StopFacts.

Section MonitorSpares.
Import WorkerManager.

(** What the monitor's test lets through: a record that is not [running],
    or whose last heartbeat is at most [HEARTBEAT_TIMEOUT_MS] old. *)
Local Abbreviation spared now rec :=
  (status rec <> running \/ now - lastHeartbeat rec <= HEARTBEAT_TIMEOUT_MS).

Lemma monitorEntry_spared now s e :
  (forall rec, records s !! snd e = Some rec -> spared now rec) ->
  monitorEntry now s e = s.
Proof.
  destruct e as [c r]. cbn [snd]. intros H. unfold monitorEntry.
  destruct (records s !! r) as [rec|] eqn:R; [|reflexivity].
  destruct (H rec eq_refl) as [Hs|Hl].
  - destruct (status rec); try reflexivity. now contradiction Hs.
  - destruct (status rec); try reflexivity.
    apply Z.ltb_ge in Hl. now rewrite Hl.
Qed.

Lemma monitorEntry_keeps_spared now s e r rec :
  records s !! r = Some rec -> spared now rec ->
  records (monitorEntry now s e) !! r = Some rec.
Proof.
  intros R Hs. destruct e as [c' r']. destruct (Nat.eq_dec r' r) as [->|Hne].
  - rewrite monitorEntry_spared; [exact R|]. intros rec' R'. cbn [snd] in R'.
    pose proof (eq_trans (eq_sym R) R') as E. injection E as <-. exact Hs.
  - now rewrite monitorEntry_record_other.
Qed.

Lemma monitor_fold_keeps_spared now r rec l : forall s,
  records s !! r = Some rec -> spared now rec ->
  records (List.fold_left (monitorEntry now) l s) !! r = Some rec.
Proof.
  induction l as [|e l IH]; intros s R Hs; [exact R|].
  cbn [List.fold_left]. apply IH; [|exact Hs].
  now apply monitorEntry_keeps_spared.
Qed.

Lemma monitor_fold_clone now c l : forall s,
  (forall r, In (c, r) l ->
     exists rec, records s !! r = Some rec /\ spared now rec) ->
  JsMap.get c (clones (List.fold_left (monitorEntry now) l s))
  = JsMap.get c (clones s).
Proof.
  induction l as [|[c' r'] l IH]; intros s H; [reflexivity|].
  cbn [List.fold_left].
  assert (JsMap.get c (clones (monitorEntry now s (c', r')))
          = JsMap.get c (clones s)) as Hc.
  { destruct (String.eqb_spec c' c) as [->|Hne].
    - destruct (H r' (or_introl eq_refl)) as (rec & R & Hs).
      rewrite monitorEntry_spared; [reflexivity|]. intros rec' R'. cbn [snd] in R'.
      pose proof (eq_trans (eq_sym R) R') as E. injection E as <-. exact Hs.
    - now apply monitorEntry_clone_other. }
  rewrite IH; [exact Hc|].
  intros r Hin. destruct (H r (or_intror Hin)) as (rec & R & Hs).
  exists rec. split; [|exact Hs]. now apply monitorEntry_keeps_spared.
Qed.

(** The monitor only ever times out a record that is [running].  A record
    in any other status - in particular one still [starting], whose worker
    never sent a message - or one whose heartbeat is at most 20 s old, is
    the same after the tick; and a clone all of whose registry entries have
    such a record is left as it was in the clone store. *)
Theorem monitorTick_spares_not_running now s :
  (forall r rec, records s !! r = Some rec ->
     status rec <> running \/ now - lastHeartbeat rec <= HEARTBEAT_TIMEOUT_MS ->
     records (monitorTick now s) !! r = Some rec) /\
  (forall c,
     (forall r, In (c, r) (workers s) ->
        exists rec, records s !! r = Some rec /\
          (status rec <> running \/ now - lastHeartbeat rec <= HEARTBEAT_TIMEOUT_MS)) ->
     JsMap.get c (clones (monitorTick now s)) = JsMap.get c (clones s)).
Proof.
  split.
  - intros r rec R Hs. now apply monitor_fold_keeps_spared.
  - intros c H. now apply monitor_fold_clone.
Qed.

End MonitorSpares.

Section ListWorkers.
Import WorkerManager.

Lemma listRunningWorkers_keys (records : list WorkerRecord) (l : JsMap.t Ref) :
  (forall c r, In (c, r) l -> (r < List.length records)%nat) ->
  List.map rw_cloneId
    (List.flat_map
       (fun e : string * Ref =>
          match records !! snd e with
          | Some record => [mkRunningWorker (fst e) (status record) (pid record)]
          | None => []
          end) l)
  = JsMap.keys l.
Proof.
  induction l as [|[c r] l IH]; intros H; [reflexivity|].
  cbn [List.flat_map JsMap.keys List.map fst snd].
  destruct (records !! r) as [rec|] eqn:R.
  2:{ destruct (lookup_lt_is_Some_2 records r (H c r (or_introl eq_refl))) as [rec R'].
      pose proof (eq_trans (eq_sym R) R') as E. discriminate E. }
  cbn [app List.map rw_cloneId]. f_equal.
  apply IH. intros c' r' Hin. apply (H c' r'). now right.
Qed.

(** In every state the manager reaches, [listRunningWorkers] gives exactly
    one entry per registered clone id, in the order of registration, and
    the status and pid it reports for a clone are those [getWorkerStatus]
    reports for it. *)
Theorem listRunningWorkers_matches_registry s :
  WorkerSys.reachable s ->
  let m := WorkerSys.st s in
  List.map rw_cloneId (listRunningWorkers m) = JsMap.keys (workers m) /\
  List.NoDup (List.map rw_cloneId (listRunningWorkers m)) /\
  (forall c st p,
     In (mkRunningWorker c st p) (listRunningWorkers m) <->
     exists info, getWorkerStatus c m = Some info /\
       wi_status info = st /\ wi_pid info = p).
Proof.
  intros Hreach m.
  pose proof (worker_inv_reachable s Hreach) as (I1 & _ & I3 & _). fold m in I1, I3.
  assert (List.map rw_cloneId (listRunningWorkers m) = JsMap.keys (workers m)) as Hk
    by (apply listRunningWorkers_keys; exact I3).
  split; [exact Hk|]. split; [now rewrite Hk|].
  intros c st p. unfold listRunningWorkers, getWorkerStatus. split.
  - intros Hin. apply in_flat_map in Hin as ([c' r] & Hin & Hrec). cbn [fst snd] in Hrec.
    destruct (records m !! r) as [rec|] eqn:R; [|destruct Hrec].
    destruct Hrec as [E|[]]. inversion E; subst.
    rewrite (jsmap_In_get _ _ _ I1 Hin).
    exists (mkWorkerInfo (status rec) (lastHeartbeat rec) (pid rec)).
    split; [|split; reflexivity].
    destruct (records m !! r) as [rec'|]; [|discriminate].
    now injection R as ->.
  - intros (info & Hinfo & <- & <-).
    destruct (JsMap.get c (workers m)) as [r|] eqn:G; [|discriminate].
    apply jsmap_get_In in G. apply in_flat_map. exists (c, r).
    split; [exact G|]. cbn [fst snd].
    destruct (records m !! r) as [rec|]; [|discriminate].
    injection Hinfo as <-. now left.
Qed.

End ListWorkers.

Section ListWorkersSample.
Import WorkerManager.

Lemma listRunningWorkers_matches_registry_witness :
  listRunningWorkers (WorkerSys.st w_sys3) = [mkRunningWorker "c1" running 4242] /\
  List.map rw_cloneId (listRunningWorkers (WorkerSys.st w_sys3))
  = JsMap.keys (workers (WorkerSys.st w_sys3)).
Proof.
  split; [reflexivity|].
  exact (proj1 (listRunningWorkers_matches_registry w_sys3 w_sys3_reachable)).
Defined.

End ListWorkersSample.

Section ReplacedChild.
Import WorkerManager.

(** The exit handler of a child names the registry entry by clone id, not
    by its own record.  So when a worker was stopped and a new one started
    for the same clone before the first child exited, the exit of the first
    child unregisters the second: the entry and the pid file of the new
    worker are removed and the clone is marked not running, while the new
    process is still alive and no signal is sent to it.  After that
    [getWorkerStatus] knows no worker for the clone, and [stopCloneWorker]
    answers "Worker not running" and leaves the new process running. *)
Theorem exit_of_replaced_child_unregisters_successor
    cloneId rOld rNew recOld recNew now s pend :
  In (cloneId, rOld) (listeners s) ->
  JsMap.get cloneId (workers s) = Some rNew ->
  records s !! rOld = Some recOld ->
  records s !! rNew = Some recNew ->
  pid recOld <> pid recNew ->
  isProcessRunning (pid recNew) s = true ->
  let s' := onExit cloneId now (WorkerSys.reap rOld s) in
  WorkerSys.step (WorkerSys.mkSys s pend) (WorkerSys.mkSys s' pend) /\
  getWorkerStatus cloneId s' = None /\
  readPidFile cloneId s' = None /\
  (forall cl, JsMap.get cloneId (clones s) = Some cl ->
     exists cl', JsMap.get cloneId (clones s') = Some cl' /\
       CloneStore.isRunning cl' = Some false) /\
  isProcessRunning (pid recNew) s' = true /\
  os s' = os s /\
  stopCloneWorker cloneId now s' = (StopErr "Worker not running", s').
Proof.
  intros Hl Hg Ro Rn Hp Ha s'.
  assert (workers s' = JsMap.delete cloneId (workers s)) as Hw.
  { subst s'. unfold onExit, WorkerSys.reap. rewrite Ro. reflexivity. }
  assert (pidFiles s' = delete cloneId (pidFiles s)) as Hf.
  { subst s'. unfold onExit, WorkerSys.reap. rewrite Ro. reflexivity. }
  assert (readPidFile cloneId s' = None) as Hr.
  { unfold readPidFile. rewrite Hf. apply lookup_delete_eq. }
  assert (JsMap.get cloneId (workers s') = None) as Hn
    by (rewrite Hw; apply jsmap_get_delete_eq).
  split; [exact (WorkerSys.step_exit cloneId rOld now (WorkerSys.mkSys s pend) Hl)|].
  split; [unfold getWorkerStatus; now rewrite Hn|].
  split; [exact Hr|]. split.
  { intros cl Hcl. eexists. split.
    - subst s'. unfold onExit. apply updateClone_get_eq.
      unfold WorkerSys.reap. rewrite Ro. exact Hcl.
    - reflexivity. }
  split.
  { subst s'. unfold onExit, WorkerSys.reap. rewrite Ro.
    unfold isProcessRunning in *. cbn [alive updateClone removePidFile with_workers
      with_alive with_pidFiles with_clones].
    apply existsb_exists in Ha as (q & Hin & Hq). apply existsb_exists.
    exists q. split; [|exact Hq]. apply List.filter_In. split; [exact Hin|].
    apply Z.eqb_eq in Hq. subst q. apply negb_true_iff, Z.eqb_neq. congruence. }
  split.
  { subst s'. unfold onExit, WorkerSys.reap. now rewrite Ro. }
  unfold stopCloneWorker. now rewrite Hn, Hr.
Qed.

End ReplacedChild.

Section ReplacedChildSample.
Import WorkerManager.

Lemma w_sys7_reachable : WorkerSys.reachable w_sys7.
Proof.
  assert (WorkerSys.reachable w_sys5) as H5.
  { apply (WorkerSys.reach_step w_sys3); [apply w_sys3_reachable|].
    exact (WorkerSys.step_stop "c1" 3000 w_sys3). }
  assert (WorkerSys.reachable w_sys6) as H6.
  { apply (WorkerSys.reach_step w_sys5); [exact H5|].
    assert (start_check "c1" (WorkerSys.st w_sys5) = (Clear, WorkerSys.st w_sys5))
      as Hc by (vm_compute; reflexivity).
    apply (step_to _ _ _ (WorkerSys.step_start "c1" w_sys5 Clear _ Hc)).
    vm_compute. reflexivity. }
  apply (WorkerSys.reach_step w_sys6); [exact H6|].
  assert (isProcessRunning 4343 (WorkerSys.st w_sys6) = false) as Ha
    by (vm_compute; reflexivity).
  apply (step_to _ _ _
           (WorkerSys.step_spawn "c1" "m" None [] 4343 4000 [] [] w_sys6 eq_refl Ha)).
  vm_compute. reflexivity.
Qed.

Lemma exit_of_replaced_child_unregisters_successor_witness :
  WorkerSys.reachable w_sys7 /\
  getWorkerStatus "c1" (WorkerSys.st w_sys7) = Some (mkWorkerInfo starting 4000 4343) /\
  getWorkerStatus "c1" (onExit "c1" 5000 (WorkerSys.reap 0%nat (WorkerSys.st w_sys7)))
  = None /\
  isProcessRunning 4343 (onExit "c1" 5000 (WorkerSys.reap 0%nat (WorkerSys.st w_sys7)))
  = true.
Proof.
  split; [exact w_sys7_reachable|]. split; [vm_compute; reflexivity|].
  assert (In ("c1"%string, 0%nat) (listeners (WorkerSys.st w_sys7))) as Hl
    by (vm_compute; auto).
  assert (JsMap.get "c1" (workers (WorkerSys.st w_sys7)) = Some 1%nat) as Hg
    by (vm_compute; reflexivity).
  assert (records (WorkerSys.st w_sys7) !! 0%nat
          = Some (mkWorkerRecord (mkChildProcess 4242) running 2000 4242)) as Ro
    by (vm_compute; reflexivity).
  assert (records (WorkerSys.st w_sys7) !! 1%nat
          = Some (mkWorkerRecord (mkChildProcess 4343) starting 4000 4343)) as Rn
    by (vm_compute; reflexivity).
  assert (pid (mkWorkerRecord (mkChildProcess 4242) running 2000 4242)
          <> pid (mkWorkerRecord (mkChildProcess 4343) starting 4000 4343)) as Hp
    by (cbn; lia).
  assert (isProcessRunning
            (pid (mkWorkerRecord (mkChildProcess 4343) starting 4000 4343))
            (WorkerSys.st w_sys7) = true) as Ha
    by (vm_compute; reflexivity).
  destruct (exit_of_replaced_child_unregisters_successor "c1" 0%nat 1%nat
              _ _ 5000 (WorkerSys.st w_sys7) [] Hl Hg Ro Rn Hp Ha)
    as (_ & Hs & _ & _ & Hr & _).
  split; [exact Hs | exact Hr].
Defined.

End ReplacedChildSample.

Section Escalation.
Import WorkerManager.

Lemma tbk_app l l' :
  term_before_kill l -> (forall p, ~ In (Kill p SIGKILL) l') ->
  term_before_kill (l ++ l').
Proof.
  intros H Hn l1 l2 p E.
  apply app_eq_app in E as (l'' & [[E1 E2]|[E1 E2]]).
  - destruct l'' as [|x l3].
    + exfalso. apply (Hn p). cbn in E2. rewrite <- E2. now left.
    + cbn in E2. injection E2 as <- E2. apply (H l1 l3 p). exact E1.
  - exfalso. apply (Hn p). rewrite E2. apply in_or_app. right. now left.
Qed.

Lemma tbk_snoc l p :
  term_before_kill l -> In (Kill p SIGTERM) l ->
  term_before_kill (l ++ [Kill p SIGKILL]).
Proof.
  intros H Hin l1 l2 q E.
  apply app_eq_app in E as (l'' & [[E1 E2]|[E1 E2]]).
  - destruct l'' as [|x l3].
    + cbn in E2. injection E2 as -> _.
      rewrite app_nil_r in E1. now subst l1.
    + cbn in E2. injection E2 as <- E2. apply (H l1 l3 q). exact E1.
  - destruct l'' as [|x l3].
    + cbn in E2. injection E2 as <- _.
      rewrite app_nil_r in E1. now subst l1.
    + cbn in E2. injection E2 as _ E2. now destruct l3.
Qed.

Lemma escalates_same s s' :
  os s' = os s -> killTimers s' = killTimers s -> escalates s s'.
Proof.
  intros Ho Hk. exists []. rewrite app_nil_r, Hk. repeat split; auto.
Qed.

Lemma escalates_trans s1 s2 s3 : escalates s1 s2 -> escalates s2 s3 -> escalates s1 s3.
Proof.
  intros (l & Ho & Hn & Hk) (l' & Ho' & Hn' & Hk'). exists (l ++ l').
  split; [now rewrite Ho', Ho, app_assoc|]. split.
  - intros p H. apply in_app_or in H as [H|H]; [apply (Hn p H) | apply (Hn' p H)].
  - intros p H. destruct (Hk' p H) as [H1|H1].
    + destruct (Hk p H1) as [H2|H2]; [now left | right; apply in_or_app; now left].
    + right. apply in_or_app. now right.
Qed.

Lemma escalates_killProcess p s : escalates s (killProcess p s).
Proof.
  unfold killProcess. destruct (isProcessRunning p s); [|now apply escalates_same].
  exists [Kill p SIGTERM]. split; [reflexivity|]. split.
  - intros q [H|[]]. discriminate.
  - intros q H. cbn in H. apply in_app_or in H as [H|[<-|[]]]; [now left|].
    right. now left.
Qed.

Lemma escalates_stop c now s : escalates s (snd (stopCloneWorker c now s)).
Proof.
  unfold stopCloneWorker. destruct (JsMap.get c (workers s)) as [r|].
  - cbn [snd]. destruct (records s !! r) as [rec|]; [|now apply escalates_same].
    destruct (isProcessRunning (child_pid (child rec)) s); [|now apply escalates_same].
    exists [Kill (child_pid (child rec)) SIGTERM]. split; [reflexivity|]. split.
    + intros q [H|[]]. discriminate.
    + intros q H. now left.
  - destruct (readPidFile c s) as [p|]; [|now apply escalates_same].
    destruct (negb (Z.eqb p 0) && isProcessRunning p s); [|now apply escalates_same].
    cbn [snd]. apply (escalates_trans _ (killProcess p s)).
    + apply escalates_killProcess.
    + now apply escalates_same.
Qed.

Lemma escalates_start_check c s : escalates s (snd (start_check c s)).
Proof.
  unfold start_check. destruct (JsMap.has c (workers s)); [now apply escalates_same|].
  destruct (readPidFile c s) as [p|]; [|now apply escalates_same].
  destruct (negb (Z.eqb p 0) && isProcessRunning p s); [|now apply escalates_same].
  cbn [snd]. apply (escalates_trans _ (killProcess p s)).
  - apply escalates_killProcess.
  - now apply escalates_same.
Qed.

Lemma escalates_spawn c m jk ints newPid now s :
  escalates s (snd (start_spawn c m jk ints newPid now s)).
Proof.
  unfold start_spawn, startHeartbeatMonitoring. cbn [snd].
  eexists [Fork _ newPid]. split.
  - cbn. destruct (monitoringInterval s); reflexivity.
  - split.
    + intros q [H|[]]. discriminate.
    + intros q H. left. cbn in H. now destruct (monitoringInterval s).
Qed.

Lemma escalates_mutate r f s : escalates s (mutate r f s).
Proof.
  destruct (mutate_frame r f s) as (_ & _ & Ho & _ & Hk & _).
  now apply escalates_same.
Qed.

Lemma escalates_step s s' :
  WorkerSys.step s s' ->
  WorkerSys.st s' = fireKillTimer (WorkerSys.st s) \/
  escalates (WorkerSys.st s) (WorkerSys.st s').
Proof.
  intros H. destruct H; cbn [WorkerSys.st].
  - right. replace s1 with (snd (start_check cloneId (WorkerSys.st s)))
      by (now rewrite H).
    apply escalates_start_check.
  - right. now apply escalates_same.
  - right. apply escalates_spawn.
  - right. apply escalates_stop.
  - right. destruct msg; cbn [onMessage].
    + apply (escalates_trans _ (mutate r (set_record_status running) (WorkerSys.st s)));
        apply escalates_mutate.
    + apply escalates_mutate.
    + apply (escalates_trans _ (mutate r (set_record_status error) (WorkerSys.st s)));
        [apply escalates_mutate | now apply escalates_same].
    + now apply escalates_same.
  - right. unfold onError.
    apply (escalates_trans _ (mutate r (set_record_status error) (WorkerSys.st s)));
      [apply escalates_mutate | now apply escalates_same].
  - right. apply escalates_same; unfold onExit, WorkerSys.reap;
      now destruct (records (WorkerSys.st s) !! r).
  - right. destruct (monitorTick_quiet_fold now (workers (WorkerSys.st s)) (WorkerSys.st s))
      as (Ho & Hk & _).
    now apply escalates_same.
  - now left.
  - right. now apply escalates_same.
Qed.

Lemma kill_inv_escalates s s' : kill_inv s -> escalates s s' -> kill_inv s'.
Proof.
  intros [Ht Hk] (l & Ho & Hn & Hk'). split.
  - rewrite Ho. now apply tbk_app.
  - intros p H. rewrite Ho. apply in_or_app.
    destruct (Hk' p H) as [H1|H1]; [left; now apply Hk | now right].
Qed.

Lemma kill_inv_fire s : kill_inv s -> kill_inv (fireKillTimer s).
Proof.
  intros [Ht Hk]. unfold fireKillTimer.
  destruct (killTimers s) as [|p rest] eqn:E;
    [split; [exact Ht | intros q Hq; rewrite E in Hq; destruct Hq]|].
  assert (forall q, In q rest -> In (Kill q SIGTERM) (os s)) as Hrest
    by (intros q H; apply Hk; now right).
  destruct (isProcessRunning p (with_killTimers rest s)).
  - split.
    + cbn. apply tbk_snoc; [exact Ht|]. apply Hk. now left.
    + intros q H. cbn in H |- *. apply in_or_app. left. now apply Hrest.
  - split; [exact Ht|]. intros q H. now apply Hrest.
Qed.

(** SIGKILL is only ever an escalation.  In every trace of process
    operations the manager can produce, a SIGKILL to a pid comes after a
    SIGTERM to the same pid; and every pending escalation timer belongs to
    a pid that was sent SIGTERM. *)
Theorem sigkill_only_after_sigterm s :
  WorkerSys.reachable s ->
  (forall l1 l2 p,
     os (WorkerSys.st s) = l1 ++ Kill p SIGKILL :: l2 -> In (Kill p SIGTERM) l1) /\
  (forall p, In p (killTimers (WorkerSys.st s)) ->
     In (Kill p SIGTERM) (os (WorkerSys.st s))).
Proof.
  intros H. change (kill_inv (WorkerSys.st s)).
  induction H as [s (_ & _ & _ & Hk & _ & Ho & _)|s s' _ IH Hstep].
  - split.
    + rewrite Ho. intros [|x l1] l2 p E; discriminate E.
    + rewrite Hk. intros p [].
  - destruct (escalates_step s s' Hstep) as [E|E].
    + rewrite E. now apply kill_inv_fire.
    + now apply (kill_inv_escalates (WorkerSys.st s)).
Qed.

End Escalation.

Section EscalationSample.
Import WorkerManager.

Lemma w_sys10_reachable : WorkerSys.reachable w_sys10.
Proof.
  assert (WorkerSys.reachable w_sys8) as H8.
  { apply WorkerSys.reach_fresh. repeat split. }
  assert (WorkerSys.reachable w_sys9) as H9.
  { apply (WorkerSys.reach_step w_sys8); [exact H8|].
    exact (WorkerSys.step_stop "c1" 100 w_sys8). }
  apply (WorkerSys.reach_step w_sys9); [exact H9|].
  exact (WorkerSys.step_kill_timer w_sys9).
Qed.

Lemma sigkill_only_after_sigterm_witness :
  os (WorkerSys.st w_sys10) = [Kill 77 SIGTERM; Kill 77 SIGKILL] /\
  In (Kill 77 SIGTERM) [Kill 77 SIGTERM].
Proof.
  assert (os (WorkerSys.st w_sys10) = [Kill 77 SIGTERM] ++ Kill 77 SIGKILL :: [])
    as Hos by (vm_compute; reflexivity).
  split; [exact Hos|].
  exact (proj1 (sigkill_only_after_sigterm w_sys10 w_sys10_reachable)
           [Kill 77 SIGTERM] [] 77 Hos).
Defined.

End EscalationSample.

Section StartUnknownClone.
Import WorkerManager.

(** A start for a clone id the clone store does not know is refused with
    "Clone not found": nothing is forked and the registry, the records, the
    listeners and the clone store stay as they were.  The orphan check runs
    before the clone is looked up, though: when the pid file of that id
    names a live process, the process has been sent SIGTERM (with the
    escalation armed) and the pid file removed by the time the call is
    refused. *)
Theorem startCloneWorker_unknown_clone cloneId ints newPid now s :
  JsMap.has cloneId (workers s) = false ->
  CloneStore.getClone cloneId (clones s) = None ->
  let res := startCloneWorker cloneId ints newPid now s in
  fst res = StartErr "Clone not found" /\
  workers (snd res) = workers s /\ records (snd res) = records s /\
  listeners (snd res) = listeners s /\ clones (snd res) = clones s /\
  match readPidFile cloneId s with
  | Some p =>
      if negb (Z.eqb p 0) && isProcessRunning p s
      then os (snd res) = os s ++ [Kill p SIGTERM] /\
           killTimers (snd res) = killTimers s ++ [p] /\
           readPidFile cloneId (snd res) = None
      else snd res = s
  | None => snd res = s
  end.
Proof.
  intros Hw Hc. cbv zeta. unfold startCloneWorker.
  destruct (start_check cloneId s) as [c s1] eqn:Hs.
  pose proof (start_check_frame _ _ _ _ Hs) as (Fc & Fw & _ & Fr & Fl & _).
  assert (c <> AlreadyRunning) as Hne.
  { intros ->. assert (JsMap.has cloneId (workers s) = true) as Ht
      by (apply start_check_rejects; now rewrite Hs).
    congruence. }
  assert (start_lookup cloneId s1 = inl "Clone not found"%string) as Hl.
  { unfold start_lookup. now rewrite Fc, Hc. }
  assert (match c with
          | AlreadyRunning => (StartErr "Worker already running", s1)
          | _ => match start_lookup cloneId s1 with
                 | inl err => (StartErr err, s1)
                 | inr (modelId, jobKey) =>
                     start_spawn cloneId modelId jobKey ints newPid now s1
                 end
          end = (StartErr "Clone not found", s1)) as ->.
  { rewrite Hl. now destruct c. }
  cbn [fst snd]. repeat (split; [assumption || reflexivity|]).
  revert Hs. unfold start_check. rewrite Hw.
  destruct (readPidFile cloneId s) as [p|]; [|now intros [= _ <-]].
  destruct (negb (Z.eqb p 0) && isProcessRunning p s) eqn:E; [|now intros [= _ <-]].
  intros [= _ <-]. apply andb_prop in E as [_ E].
  unfold killProcess. rewrite E. cbn. repeat split.
  unfold readPidFile. cbn. apply lookup_delete_eq.
Qed.

Lemma startCloneWorker_unknown_clone_witness :
  fst (startCloneWorker "c9" [] 99 5 c_orphan_state) = StartErr "Clone not found" /\
  os (snd (startCloneWorker "c9" [] 99 5 c_orphan_state)) = [Kill 88 SIGTERM].
Proof.
  pose proof (startCloneWorker_unknown_clone "c9" [] 99 5 c_orphan_state
                eq_refl eq_refl) as (H1 & _ & _ & _ & _ & H2).
  split; [exact H1|].
  assert (readPidFile "c9" c_orphan_state = Some 88) as R by (vm_compute; reflexivity).
  rewrite R in H2. exact (proj1 H2).
Defined.

End StartUnknownClone.
